(* ===== verification/_CoqProject ===== *)
-Q . S2P
Prelude.v
GoStrings.v
Annotations.v
Json.v
Injection.v
Runtime.v
Store.v
FileSystem.v
FsStore.v
Events.v
Adapter.v
RetroAudit.v
Plugin.v
Retry.v
MpsConfig.v
Float64.v
Nvml.v
PodSource.v
Metrics.v
Exporter.v
GoTime.v
GoFlag.v
DaemonFlags.v
CriStopper.v
Status.v
DaemonSets.v
Deploy.v
NodeStatus.v
GpuStack.v
Reconcile.v
GoSort.v
CrdUpgrade.v
GoRegexp.v
ImageCatalog.v
ImageLock.v
MpsDaemon.v
FakeMps.v
Metricsd.v
Controller.v
OperatorMain.v
DeepCopy.v
Fractiond.v
Handoff.v
Accounting.v
Provenance.v
Node.v
