(* ===== verification/Prelude.v ===== *)
(** * Verification of gpu-fractioning

    gpu-fractioning shares one GPU between containers.  A pod asks for a slice of
    GPU memory with annotations; three daemons on every GPU node enforce and
    measure it, and an operator deploys them.

    - fractiond is a plugin of the container runtime (NRI).  When a container is
      created it reads the annotations, injects the memory limit, the devices and
      the MPS pipe mount, and records which pod the container belongs to; when it
      (re)connects it rebuilds that record from the runtime's snapshot and stops
      through the CRI the containers that slipped in without the injection.
    - mpsd supervises the MPS control daemon and labels the node with the driver
      version.
    - metricsd polls NVML, attributes each GPU process to a pod through its cgroup
      and the record fractiond left, and serves the result to Prometheus.
    - the operator reconciles one configuration object: it builds the DaemonSets,
      checks the GPU stack, coordinates driver upgrades, and writes the conditions
      of the configuration and of the nodes.  A hook of its chart upgrades the CRDs.
    - imagelock, a release tool, pins the images of a release to registry digests.

    fractiond and metricsd share the mapping through JSON files in a directory; the
    operator and the daemons share command lines, environment variables, mounts and
    node labels.  Both kinds of boundary are composed and proved here, each side
    from its own source.

    ** Files

    Go and its standard library, as far as the sources use them:
    - [Prelude] (this file): results, slices, 64-bit integers, tactics, hints;
    - [GoStrings]: strings, strconv, path/filepath; [Json]: encoding/json;
      [Float64]: float64 as IEEE 754 binary64; [GoTime]: time.Duration;
      [GoFlag]: the flag package, and pkg/env; [GoRegexp]: anchored regular expressions;
      [GoSort]: the sort package;
    - [FileSystem]: a directory and its system calls, any of which may fail, with a
      program logic for the programs that use it.

    fractiond (src/fractioning-manager/fractiond, src/fractioning-manager/common):
    - [Annotations]: internal/annotations and common/configuration; [Injection]:
      internal/injection; [Runtime]: the NRI objects and internal/gpudevices;
    - [Store]: common/mapping/store, with the [StoreWriter] interface and the
      reader's matching of cgroup paths; [FsStore]: common/mapping/fsstore (record,
      writer, reader) over [FileSystem];
    - [Events]: internal/events, the queue and its worker goroutine as a step
      relation; [Adapter]: internal/adapter.go; [RetroAudit]: internal/audit;
      [Plugin]: internal/plugin.go, every handler;
    - [CriStopper]: internal/audit/cri_stopper.go, and what cmd/main.go builds;
    - [Retry]: runWithRetry of cmd/main.go with internal/readiness, and mpsd's
      Supervisor.Run, both refining one abstract retry policy;
    - [Fractiond]: the whole process of cmd/main.go as a step system: the connection
      loop, the runtime's callbacks, the worker, the remediations, readiness.Serve,
      the signal and the exit; [Node]: a node's runtime beside it, whose pods and
      containers come and go.

    mpsd and metricsd (src/fractioning-manager/mpsd, metricsd):
    - [MpsConfig]: mpsd's configuration file and arguments, hack/fake-mps as its
      reader; the driver label of internal/driverlabel is in [NodeStatus];
      [MpsDaemon]: runMPS and Supervisor.Run in time, over processes that exit, heed
      quit or are killed, and cmd/main.go; [FakeMps]: hack/fake-mps, its sockets in a
      file tree from start-up to quit;
    - [Nvml]: internal/metrics/nvml_collector.go; [PodSource]: cgroup.go and
      podsource.go; [Metrics]: engine.go; [Exporter]: exporter.go; [Metricsd]: the
      goroutines of exporter.go's Start and Stop, the collector, the engine, concurrent
      requests that write one gauge at a time, and cmd/main.go, as a step system;
    - [Handoff]: metricsd's scan (reader.go, podsource.go) beside fractiond's writer
      (writer.go) at work on the same directory, system call by system call;
      [Accounting]: a container's way through both daemons, from its annotations to
      the series of its pod; [Provenance]: where each record in the directory comes from,
      whatever fails;
    - [DaemonFlags]: the cmd/flags.go of the three daemons and the operator's
      internal/config.

    operator (src/operator, src/api, src/pkg/driverinfo):
    - [Status]: common/daemonmgr/status.go, driverupgrade.go, managed_daemon.go;
    - [DaemonSets]: the configuration API, common/daemonmgr's builders and
      fractioningmanager/components; [Deploy]: the daemons' flag parsers run on what
      the builders produce;
    - [NodeStatus]: common/daemonmgr/conditions.go, the node side of the controller,
      the driver checker and the labeler; [GpuStack]: controller/clusterpolicy.go
      and dependency_checker.go;
    - [Reconcile]: controller/gpufractioningconfig_controller.go and
      common/daemonmgr/reconciler.go, the whole Reconcile; [Controller]:
      SetupWithManager, the watches with the requests they enqueue, and the loop of
      the workers over them;
    - [CrdUpgrade]: charts/crds/embed.go and internal/crdupgrade; [OperatorMain]:
      cmd/main.go with its subcommand, and internal/metrics;
    - [DeepCopy]: zz_generated.deepcopy.go on a heap of cells.

    imagelock (src/hack/imagelock):
    - [ImageCatalog]: catalog.go; [ImageLock]: main.go, up to the whole run.

    ** How the code is modelled

    Functions of the source keep their names.  A [(value, error)] pair is a
    [result]; a nil pointer or a nil slice is [None]; a Go map is a [gmap], and each
    [range] over one takes its iteration order as an argument.  [int64] arithmetic
    that can overflow goes through [wrap64].  Objects the code mutates are passed as
    state; where sharing matters, in [DeepCopy], it is a heap.  Goroutines are
    the steps of [Events], [Metricsd] and [Fractiond], the batches in flight of
    [RetroAudit] and the workers of [Controller]; mutexes that only serialise operations
    are left out, and so is logging.  The reader of [FsStore] is written once, over the class
    [DirReads] of its two system calls: on a directory at rest, any of whose calls may
    fail, and in [Handoff] on one that another process changes between the calls.  [Node]
    takes a runtime at its word: a container is created, runs and stops, is never
    resumed, and its ID is not given out again.

    Code outside the repository is a parameter, a class whose laws state its documented
    behaviour: [QuantityLib] (resource.Quantity), [NRIRuntime] (how a runtime applies
    an adjustment), [CRIRuntime] (gRPC and the runtime service), [Registry] (container
    registries), [GaugeVec] (Prometheus gauges), [ClusterAPI], [ConfigAPI] and [CrdAPI] (the API server, whose calls may
    fail), [NodeSelection] (Kubernetes selectors), [Unstructured], [Semver], [DeepCopies] (the
    copies of the types of k8s.io/api); NVML is a record of what its calls return, and
    os/exec, net/http and the NRI stub are the events they deliver.  [Calm] adds to these
    that nobody but the controller changes the cluster and no call fails.  Every theorem that assumes laws has a witness
    over a concrete instance.

    Interfaces of the source are classes with instances: [StoreWriter] with the
    in-memory store and the file store, [ContainerStopper] with the CRI stopper, a
    recording one and the runtime of [Node]; [DirReads] with the reader's two worlds.

    ** What is proved

    - Enforcement ([Annotations], [Injection], [Runtime], [Plugin], [RetroAudit],
      [CriStopper]): what the hook injects is what the annotations ask for and what
      is accounted; a container that has it passes the audit; a snapshot leads to
      stop requests for exactly the containers that lack it, over one connection; and on a
      node that changes in any order ([Node]), while the plugin is registered, a
      container without it has its stop pending, no other is touched, and the
      remediations in flight leave only those the runtime refuses to stop.
    - The mapping ([Store], [FsStore], [Events], [Plugin]): a container is recorded iff
      it is mutated, the queue loses nothing it accepted, files are replaced
      atomically whichever system call fails, the directory refines the in-memory
      store, one corrupt file hides only itself.  A scan that runs while the writer works
      is regular ([Handoff]): every record in it was true meanwhile, and no container
      recorded all along is missed.  At every instant, under any faults, a new record is that
      of a container the runtime named ([Provenance]).
    - fractiond as a process ([Fractiond]): the readiness probe tells whether the plugin is
      registered, and after a signal the process exits, in every execution that does not
      starve it and has finitely many calls left, and leaves the directory with what the
      callbacks said.
    - Supervision ([Retry], [MpsConfig], [MpsDaemon], [FakeMps]): both loops refine the
      retry policy, with its budget; the sockets mpsd's daemon creates are those
      fractiond mounts; mpsd returns before the kubelet kills its pod.
    - Metrics ([Float64], [Nvml], [PodSource], [Metrics], [Exporter]): which processes
      reach which pod, what is counted once, that smoothed utilisation stays a
      percentage in floating point, and what a scrape exposes; the limit that is enforced on a
      container is what it counts for in the fraction of its pod ([Accounting]); with concurrent requests
      ([Metricsd]), which responses are those of whole refreshes, and that NVML is shut
      down after its last use.
    - Deployment ([GoTime], [GoFlag], [DaemonFlags], [DaemonSets], [Deploy]): each daemon
      parses the command line and environment built for it back into the configured
      settings, and which of the directories they name are mounted; the probes and ports agree.
    - Reconciliation ([Status], [NodeStatus], [GpuStack], [Reconcile], [CrdUpgrade]): when
      the configuration is Ready, what reaches the nodes, when the finalizer is
      released, that a run without error or requeue leaves the world as the
      configuration asks, and that every CRD wait ends; that the controller's own writes
      do not keep it busy ([Controller]), what the exit code of the operator tells
      ([OperatorMain]), and that deep copies share nothing ([DeepCopy]).
    - Releases ([ImageCatalog], [ImageLock]): the plan is the declared matrix less its
      exclusions, a lock pins exactly the images released for its profile and platform
      to digests every read agreed on, no run shows a partial lock, and a failed one leaves
      fewer files of its own than system calls failed.

    ** Fuel and bounds

    Recursion that is not structural runs on fuel that is shown, or chosen, to be enough:
    the JSON parser gets three times the length of its input, a few calls for each byte;
    [parse_groups] likewise ([parse_groups_fuel] shows more changes nothing);
    [CrdUpgrade.max_polls] is 121, the ticks of one second in the two minutes
    the code waits, and [poll_enough] shows more changes nothing.  The restart
    loops recurse on the script of what the environment does.  Hypotheses such as a
    duration fitting [int64] are bounds of the machine types.

    ** Not modelled

    - Inside the libraries: sockets and HTTP, the gRPC transport, the work queue and the
      caches of controller-runtime, the Prometheus registry.
    - Registration with the scheme (groupversion_info.go, the init functions), the
      construction of clients, the logger: they keep no state and take no decision.
    - mock_collector.go, which only the tests build, and the end-to-end tests. *)

From stdpp Require Import base gmap strings list fin_maps option.
From Stdlib Require Import ZArith Lia.
From Stdlib Require Import Ascii String.

#[local] Open Scope string_scope.
#[local] Open Scope list_scope.
#[local] Open Scope Z_scope.

(** ** Notations of the development *)

Declare Scope go_scope.
Delimit Scope go_scope with go.
#[global] Open Scope go_scope.

(** ** Results: Go's [(value, error)] pairs as a sum *)

Inductive result (E A : Type) : Type :=
| Ok (a : A)
| Err (e : E).
Arguments Ok {E A} a.
Arguments Err {E A} e.

Definition rbind {E A B} (m : result E A) (k : A → result E B) : result E B :=
  match m with
  | Ok a => k a
  | Err e => Err e
  end.

(** [if err != nil { return ..., wrap(err) }] *)
Definition map_err {E F A} (f : E → F) (m : result E A) : result F A :=
  match m with
  | Ok a => Ok a
  | Err e => Err (f e)
  end.

Notation "x '<-?' m ';;' k" := (rbind m (λ x, k))
  (at level 100, m at next level, right associativity) : go_scope.

Definition is_ok {E A} (m : result E A) : bool :=
  match m with Ok _ => true | Err _ => false end.

(** ** Slices

    A Go slice where nil and empty are told apart (they marshal differently). *)

Abbreviation slice A := (option (list A)).
Definition elems {A} (s : slice A) : list A := default [] s.

(** ** Machine integers *)

Definition int64_min : Z := - 2 ^ 63.
Definition int64_max : Z := 2 ^ 63 - 1.
Definition in_int64 (z : Z) : Prop := int64_min ≤ z ≤ int64_max.

(** Two's-complement wrap-around of Go's signed 64-bit arithmetic. *)
Definition wrap64 (z : Z) : Z := (z + 2 ^ 63) mod 2 ^ 64 - 2 ^ 63.

(** Wrap-around of unsigned 64-bit arithmetic. *)
Definition wrapu64 (z : Z) : Z := z mod 2 ^ 64.

#[global] Instance in_int64_dec z : Decision (in_int64 z).
Proof. unfold in_int64. apply _. Defined.

Lemma wrap64_small z : in_int64 z → wrap64 z = z.
Proof.
  unfold in_int64, wrap64, int64_min, int64_max. intros H.
  rewrite Z.mod_small; lia.
Qed.

Lemma wrap64_range z : in_int64 (wrap64 z).
Proof.
  unfold in_int64, wrap64, int64_min, int64_max.
  pose proof (Z.mod_pos_bound (z + 2 ^ 63) (2 ^ 64) ltac:(lia)). lia.
Qed.

Lemma wrapu64_small z : 0 ≤ z < 2 ^ 64 → wrapu64 z = z.
Proof. intros H. unfold wrapu64. by apply Z.mod_small. Qed.

(** ** Lists *)

Lemma exists_elem_of_cons {A} (P : A → Prop) x l :
  (∃ y, y ∈ x :: l ∧ P y) ↔ P x ∨ ∃ y, y ∈ l ∧ P y.
Proof.
  split.
  - intros (y & [->|Hy]%elem_of_cons & HP); [by left|right; eauto].
  - intros [HP|(y & Hy & HP)]; [exists x|exists y]; (split; [|done]); apply elem_of_cons; auto.
Qed.

Lemma fold_left_ext {X Y} (f g : X → Y → X) l : (∀ x y, f x y = g x y) → ∀ x, fold_left f l x = fold_left g l x.
Proof. intros H. induction l as [|y l IH]; intros x; cbn [fold_left]; [done|]. by rewrite H. Qed.

Lemma find_app {X} (f : X → bool) l l' :
  List.find f (l ++ l') = match List.find f l with Some x => Some x | None => List.find f l' end.
Proof. induction l as [|x l IH]; cbn [app List.find]; [done|]. by destruct (f x). Qed.

(** ** Tactics *)

(** Case analysis on every [match]/[if] of the goal or of a hypothesis. *)
Ltac go_case :=
  repeat (case_match || case_decide); simplify_eq/=.

(** Split the boolean connectives of hypotheses into propositions. *)
Ltac bool_simpl :=
  repeat match goal with
  | H : _ && _ = true |- _ => apply andb_true_iff in H as [? ?]
  | H : _ || _ = false |- _ => apply orb_false_iff in H as [? ?]
  | H : negb _ = true |- _ => apply negb_true_iff in H
  | H : negb _ = false |- _ => apply negb_false_iff in H
  | H : String.eqb _ _ = true |- _ => apply String.eqb_eq in H
  | H : String.eqb _ _ = false |- _ => apply String.eqb_neq in H
  | H : bool_decide _ = true |- _ => apply bool_decide_eq_true in H
  | H : bool_decide _ = false |- _ => apply bool_decide_eq_false in H
  | H : (_ <? _) = true |- _ => apply Z.ltb_lt in H
  | H : (_ <? _) = false |- _ => apply Z.ltb_ge in H
  | H : (_ <=? _) = true |- _ => apply Z.leb_le in H
  | H : (_ <=? _) = false |- _ => apply Z.leb_gt in H
  end.

Create HintDb go discriminated.
Create Rewrite HintDb go_str.
#[export] Hint Resolve wrap64_range : go.
