(* ===== verification/GoStrings.v ===== *)
(** * The fragments of Go's [strings], [strconv] and [path/filepath] the
    sources call, as executable functions on byte strings.

    A Go string is a byte sequence, here a [string] of 8-bit [ascii].  Byte
    level behaviour is kept: [TrimSpace] recognises the UTF-8 encodings of the
    non-ASCII white space of [unicode.IsSpace], [ReplaceAll] is left-to-right
    and non-overlapping, [ParseInt] checks the 64-bit range. *)

From S2P Require Import Prelude.
From stdpp Require Import base gmap strings list.
From Stdlib Require Import ZArith Lia Ascii String.
From Stdlib Require Import DecimalString DecimalZ DecimalFacts.
#[local] Open Scope string_scope.
#[local] Open Scope list_scope.
#[local] Open Scope Z_scope.

Abbreviation bytes_of := list_ascii_of_string.
Abbreviation string_of := string_of_list_ascii.

(** ** strings *)

Definition HasPrefix (s p : string) : bool := String.prefix p s.

Fixpoint HasSuffix (s suf : string) : bool :=
  if String.eqb s suf then true
  else match s with
       | EmptyString => false
       | String _ r => HasSuffix r suf
       end.

Fixpoint str_drop (n : nat) (s : string) : string :=
  match n, s with
  | O, _ => s
  | S n', String _ r => str_drop n' r
  | S _, EmptyString => EmptyString
  end.

Fixpoint str_take (n : nat) (s : string) : string :=
  match n, s with
  | O, _ => EmptyString
  | S n', String c r => String c (str_take n' r)
  | S _, EmptyString => EmptyString
  end.

Definition TrimSuffix (s suf : string) : string :=
  if HasSuffix s suf then str_take (String.length s - String.length suf) s else s.

(** [strings.Contains]. *)
Fixpoint Contains (s sub : string) : bool :=
  if HasPrefix s sub then true
  else match s with
       | EmptyString => false
       | String _ r => Contains r sub
       end.

(** [strings.LastIndex]; [None] is Go's [-1]. *)
Fixpoint LastIndex (s sub : string) : option nat :=
  match s with
  | EmptyString => if String.eqb sub "" then Some O else None
  | String _ r =>
      match LastIndex r sub with
      | Some i => Some (S i)
      | None => if HasPrefix s sub then Some O else None
      end
  end.

(** [strings.ReplaceAll] for a non-empty [old]: [skip] counts the bytes of the
    current match still to be consumed. *)
Fixpoint replace_from (old new : string) (skip : nat) (s : string) : string :=
  match s with
  | EmptyString => EmptyString
  | String c r =>
      match skip with
      | S k => replace_from old new k r
      | O =>
          if HasPrefix s old
          then new +:+ replace_from old new (String.length old - 1) r
          else String c (replace_from old new O r)
      end
  end.
Definition ReplaceAll (s old new : string) : string := replace_from old new O s.

(** [strings.Split] on a one-byte separator. *)
Fixpoint split_list (sep : ascii) (l : list ascii) : list (list ascii) :=
  match l with
  | [] => [[]]
  | c :: r =>
      if Ascii.eqb c sep then [] :: split_list sep r
      else match split_list sep r with
           | [] => [[c]]
           | w :: ws => (c :: w) :: ws
           end
  end.
Definition Split (s : string) (sep : ascii) : list string :=
  map string_of (split_list sep (bytes_of s)).

(** [strings.SplitN s sep n] on a one-byte separator, [n > 0]: the last piece is
    the unsplit remainder. *)
Fixpoint splitn_list (sep : ascii) (n : nat) (l : list ascii) : list (list ascii) :=
  match n with
  | O => []
  | S n' =>
      match n' with
      | O => [l]
      | _ =>
          (fix go (acc : list ascii) (l : list ascii) : list (list ascii) :=
             match l with
             | [] => [rev acc]
             | c :: r => if Ascii.eqb c sep then rev acc :: splitn_list sep n' r
                         else go (c :: acc) r
             end) [] l
      end
  end.
Definition SplitN (s : string) (sep : ascii) (n : nat) : list string :=
  map string_of (splitn_list sep n (bytes_of s)).

(** [before, _, _ := strings.Cut(s, sep)] on a one-byte separator. *)
Fixpoint cut_before (sep : ascii) (s : string) : string :=
  match s with
  | EmptyString => EmptyString
  | String c r => if Ascii.eqb c sep then EmptyString else String c (cut_before sep r)
  end.

Fixpoint Join (l : list string) (sep : string) : string :=
  match l with
  | [] => ""
  | [s] => s
  | s :: r => s +:+ sep +:+ Join r sep
  end.

(** ** White space: [unicode.IsSpace] over UTF-8 *)

Definition is_space1 (a : ascii) : bool :=
  let n := N_of_ascii a in ((9 <=? n) && (n <=? 13) || (n =? 32))%N.

(** U+0085 and U+00A0. *)
Definition is_space2 (a b : ascii) : bool :=
  ((N_of_ascii a =? 194) && ((N_of_ascii b =? 133) || (N_of_ascii b =? 160)))%N.

(** U+1680, U+2000..U+200A, U+2028, U+2029, U+202F, U+205F, U+3000. *)
Definition is_space3 (a b c : ascii) : bool :=
  let a := N_of_ascii a in
  let b := N_of_ascii b in
  let c := N_of_ascii c in
  ((a =? 225) && (b =? 154) && (c =? 128)
   || (a =? 226) && (b =? 128)
      && ((128 <=? c) && (c <=? 138) || (c =? 168) || (c =? 169) || (c =? 175))
   || (a =? 226) && (b =? 129) && (c =? 159)
   || (a =? 227) && (b =? 128) && (c =? 128))%N.

Fixpoint trim_with (sp2 : ascii → ascii → bool) (sp3 : ascii → ascii → ascii → bool)
    (l : list ascii) : list ascii :=
  match l with
  | [] => []
  | a :: r1 =>
      if is_space1 a then trim_with sp2 sp3 r1
      else match r1 with
           | [] => l
           | b :: r2 =>
               if sp2 a b then trim_with sp2 sp3 r2
               else match r2 with
                    | [] => l
                    | c :: r3 => if sp3 a b c then trim_with sp2 sp3 r3 else l
                    end
           end
  end.

Definition trim_left (l : list ascii) : list ascii := trim_with is_space2 is_space3 l.
Definition trim_right (l : list ascii) : list ascii :=
  rev (trim_with (λ b a, is_space2 a b) (λ c b a, is_space3 a b c) (rev l)).

Definition TrimSpace (s : string) : string :=
  string_of (trim_right (trim_left (bytes_of s))).

(** [strings.TrimRight(s, "/")] and [strings.Trim(s, "/")]: a one-byte cutset. *)
Fixpoint drop_char (x : ascii) (l : list ascii) : list ascii :=
  match l with
  | c :: r => if Ascii.eqb c x then drop_char x r else l
  | [] => []
  end.
Definition TrimRightChar (s : string) (x : ascii) : string :=
  string_of (rev (drop_char x (rev (bytes_of s)))).
Definition TrimChar (s : string) (x : ascii) : string :=
  string_of (rev (drop_char x (rev (drop_char x (bytes_of s))))).

(** ** strconv *)

(** [strconv.FormatInt(z, 10)] and [strconv.Itoa]. *)
Definition FormatInt (z : Z) : string := NilZero.string_of_int (Z.to_int z).

Definition decimal_value (s : string) : option Z :=
  match s with
  | String c r =>
      if Ascii.eqb c "+"%char then
        match NilZero.uint_of_string r with
        | Some d => Some (Z.of_uint d)
        | None => None
        end
      else match NilZero.int_of_string s with
           | Some d => Some (Z.of_int d)
           | None => None
           end
  | EmptyString => None
  end.

(** [strconv.ParseInt(s, 10, 64)] and [strconv.Atoi] on 64-bit platforms;
    [None] is a syntax or range error. *)
Definition ParseInt (s : string) : option Z :=
  match decimal_value s with
  | Some z => if bool_decide (in_int64 z) then Some z else None
  | None => None
  end.

Definition FormatBool (b : bool) : string := if b then "true" else "false".

(** ** path/filepath on Unix *)

Definition slash : ascii := "/"%char.

(** One pass over the components: [stack] is the output in reverse. *)
Definition clean_step (rooted : bool) (stack : list string) (c : string) : list string :=
  if String.eqb c "" || String.eqb c "." then stack
  else if String.eqb c ".." then
    match stack with
    | t :: rest => if String.eqb t ".." then c :: stack else rest
    | [] => if rooted then [] else [c]
    end
  else c :: stack.

Definition Clean (p : string) : string :=
  let rooted := HasPrefix p "/" in
  let body := Join (rev (fold_left (clean_step rooted) (Split p slash) [])) "/" in
  if rooted then "/" +:+ body
  else if String.eqb body "" then "." else body.

(** [filepath.Join]: empty elements are ignored. *)
Definition PathJoin (elems : list string) : string :=
  match filter (λ e, e ≠ "") elems with
  | [] => ""
  | l => Clean (Join l "/")
  end.

(** [filepath.Dir]: everything up to the last slash, cleaned. *)
Definition PathDir (p : string) : string :=
  Clean (match LastIndex p "/" with
         | Some i => str_take (S i) p
         | None => ""
         end).

(** ** Lemmas *)

Lemma str_app_cons c (a b : string) : String c a +:+ b = String c (a +:+ b).
Proof. done. Qed.

Lemma str_app_nil_l (a : string) : "" +:+ a = a.
Proof. done. Qed.

Lemma str_app_nil_r s : s +:+ "" = s.
Proof. induction s as [|c s IH]; [done|]. by rewrite str_app_cons, IH. Qed.

Lemma str_app_assoc (a b c : string) : (a +:+ b) +:+ c = a +:+ b +:+ c.
Proof. induction a as [|x a IH]; [done|]. by rewrite !str_app_cons, IH. Qed.

Lemma str_length_app (a b : string) :
  String.length (a +:+ b) = (String.length a + String.length b)%nat.
Proof. induction a as [|x a IH]; [done|]. rewrite str_app_cons. cbn. by rewrite IH. Qed.

Lemma str_app_inj_l (a b c : string) : a +:+ b = a +:+ c → b = c.
Proof.
  induction a as [|x a IH]; [done|]. rewrite !str_app_cons. intros [= H]. by apply IH.
Qed.

Lemma str_app_inj_r (a b c : string) : a +:+ c = b +:+ c → a = b.
Proof.
  intros H. pose proof (f_equal String.length H) as Hl.
  rewrite !str_length_app in Hl. revert b H Hl.
  induction a as [|x a IH]; intros [|y b] H Hl; cbn in Hl; try lia; [done|].
  rewrite !str_app_cons in H. injection H as -> H. f_equal. apply IH; [done|lia].
Qed.

Lemma bytes_of_app (a b : string) : bytes_of (a +:+ b) = bytes_of a ++ bytes_of b.
Proof. induction a as [|x a IH]; [done|]. rewrite str_app_cons. cbn. by rewrite IH. Qed.

Lemma HasSuffix_unfold s suf :
  HasSuffix s suf =
  if String.eqb s suf then true
  else match s with EmptyString => false | String _ r => HasSuffix r suf end.
Proof. by destruct s. Qed.

Lemma HasSuffix_spec s suf : HasSuffix s suf = true ↔ ∃ p, s = p +:+ suf.
Proof.
  split.
  - induction s as [|c s IH]; rewrite HasSuffix_unfold.
    + destruct (String.eqb_spec "" suf) as [<-|_]; [by exists ""|done].
    + destruct (String.eqb_spec (String c s) suf) as [<-|_]; [by exists ""|].
      intros [p ->]%IH. by exists (String c p).
  - intros [p ->]. induction p as [|c p IH]; rewrite HasSuffix_unfold.
    + by rewrite str_app_nil_l, String.eqb_refl.
    + rewrite str_app_cons, IH. by destruct (String.eqb (String c (p +:+ suf)) suf).
Qed.

Lemma HasSuffix_app p suf : HasSuffix (p +:+ suf) suf = true.
Proof. apply HasSuffix_spec. by exists p. Qed.

Lemma str_take_app a b : str_take (String.length a) (a +:+ b) = a.
Proof. induction a as [|c a IH]; [by destruct b|]. rewrite str_app_cons. cbn. by rewrite IH. Qed.

Lemma str_drop_app a b : str_drop (String.length a) (a +:+ b) = b.
Proof. induction a as [|c a IH]; [by destruct b|]. by rewrite str_app_cons. Qed.

Lemma TrimSuffix_app p suf : TrimSuffix (p +:+ suf) suf = p.
Proof.
  unfold TrimSuffix. rewrite HasSuffix_app, str_length_app.
  replace (String.length p + String.length suf - String.length suf)%nat
    with (String.length p) by lia.
  apply str_take_app.
Qed.

Lemma HasPrefix_spec s p : HasPrefix s p = true ↔ ∃ r, s = p +:+ r.
Proof.
  unfold HasPrefix. revert s. induction p as [|c p IH]; intros s.
  - split; [by exists s|by destruct s].
  - destruct s as [|d s]; cbn; [split; [done|by intros [? ?]]|].
    destruct (ascii_dec c d) as [->|Hne].
    + rewrite IH. split; intros [r H]; exists r; rewrite ?str_app_cons in *; by simplify_eq.
    + split; [done|]. intros [r H]. rewrite str_app_cons in H. by simplify_eq.
Qed.

Lemma HasPrefix_nil s : HasPrefix s "" = true.
Proof. by destruct s. Qed.

Lemma HasPrefix_cons c r x p :
  HasPrefix (String c r) (String x p) = Ascii.eqb c x && HasPrefix r p.
Proof.
  unfold HasPrefix. cbn [prefix].
  destruct (ascii_dec x c) as [<-|Hne]; [by rewrite Ascii.eqb_refl|].
  by rewrite (proj2 (Ascii.eqb_neq c x)).
Qed.

(** The bytes on which [TrimSpace], the container-ID normalisation and the path
    functions act as the identity: ASCII letters, digits, ["_"] and ["-"]. *)
Definition is_plain (a : ascii) : bool :=
  let n := N_of_ascii a in
  ((48 <=? n) && (n <=? 57) || (65 <=? n) && (n <=? 90) ||
   (97 <=? n) && (n <=? 122) || (n =? 95) || (n =? 45))%N.
Definition plain (s : string) : Prop := Forall (λ a, is_plain a = true) (bytes_of s).

#[global] Instance plain_dec s : Decision (plain s).
Proof. unfold plain. apply _. Defined.

(** Visible ASCII: no white space, and never part of a multi-byte one. *)
Definition is_graph (a : ascii) : bool :=
  let n := N_of_ascii a in ((33 <=? n) && (n <=? 126))%N.

Lemma is_plain_graph a : is_plain a = true → is_graph a = true.
Proof. destruct a as [[] [] [] [] [] [] [] []]; vm_compute; intros; done. Qed.

Lemma is_graph_not_space a b c :
  is_graph a = true →
  is_space1 a = false ∧ is_space2 a b = false ∧ is_space3 a b c = false.
Proof. destruct a as [[] [] [] [] [] [] [] []]; vm_compute; intros; done. Qed.

Lemma is_graph_not_space_rev a b c :
  is_graph a = true →
  is_space1 a = false ∧ is_space2 b a = false ∧ is_space3 c b a = false.
Proof.
  intros Ha. split_and!.
  - by apply (is_graph_not_space a a a).
  - unfold is_space2. apply andb_false_iff. right.
    destruct a as [[] [] [] [] [] [] [] []]; vm_compute in *; done.
  - unfold is_space3. cbv zeta.
    destruct a as [[] [] [] [] [] [] [] []]; vm_compute in Ha; try done;
      cbn; rewrite ?andb_false_r, ?orb_false_r; done.
Qed.

Lemma trim_left_graph a l : is_graph a = true → trim_left (a :: l) = a :: l.
Proof.
  intros Ha. unfold trim_left. cbn.
  destruct l as [|b [|c l]];
    destruct (is_graph_not_space a (default a (head [a])) a Ha) as (-> & _ & _); [done| |].
  - by destruct (is_graph_not_space a b a Ha) as (_ & -> & _).
  - by destruct (is_graph_not_space a b c Ha) as (_ & -> & ->).
Qed.

Lemma trim_right_graph a l : is_graph a = true → trim_right (l ++ [a]) = l ++ [a].
Proof.
  intros Ha. unfold trim_right. rewrite rev_app_distr. cbn.
  destruct (rev l) as [|b [|c r]] eqn:E;
    destruct (is_graph_not_space_rev a a a Ha) as (-> & _ & _); cbn.
  - by rewrite <- (rev_involutive l), E.
  - destruct (is_graph_not_space_rev a b a Ha) as (_ & -> & _).
    by rewrite <- (rev_involutive l), E.
  - destruct (is_graph_not_space_rev a b c Ha) as (_ & -> & ->).
    rewrite <- (rev_involutive l), E. cbn. by rewrite <- !app_assoc.
Qed.

(** A string with visible ASCII at both ends is already trimmed. *)
Lemma TrimSpace_graph s a l l' z :
  bytes_of s = a :: l → bytes_of s = l' ++ [z] → is_graph a = true → is_graph z = true →
  TrimSpace s = s.
Proof.
  intros H1 H2 Ha Hz. unfold TrimSpace. rewrite H1, trim_left_graph, <- H1, H2, trim_right_graph by done.
  rewrite <- H2. apply string_of_list_ascii_of_string.
Qed.

Lemma TrimSpace_plain s : plain s → TrimSpace s = s.
Proof.
  unfold plain. intros H. destruct (bytes_of s) as [|a l] eqn:E.
  { destruct s; [done|]. by cbn in E. }
  destruct (exists_last (l := a :: l)) as (l' & z & Hz); [done|].
  apply (TrimSpace_graph s a l l' z); [done|congruence|apply is_plain_graph|apply is_plain_graph].
  - by inversion H.
  - rewrite Hz in H. apply Forall_app in H as [_ H]. by inversion H.
Qed.

Lemma TrimSpace_empty : TrimSpace "" = "".
Proof. done. Qed.

(** [ReplaceAll] with one-byte patterns removes every occurrence. *)
Lemma replace_char_bytes x y s :
  bytes_of (ReplaceAll s (String x "") (String y "")) =
  map (λ c, if Ascii.eqb c x then y else c) (bytes_of s).
Proof.
  unfold ReplaceAll, HasPrefix.
  induction s as [|c s IH]; cbn; [done|].
  destruct (ascii_dec x c) as [->|Hne].
  - rewrite Ascii.eqb_refl.
    replace (prefix "" s) with true by by destruct s.
    rewrite str_app_cons, str_app_nil_l. cbn. by rewrite IH.
  - rewrite (proj2 (Ascii.eqb_neq c x)) by done. cbn. by rewrite IH.
Qed.

Lemma replace_char_absent x y s :
  Forall (λ c, c ≠ x) (bytes_of s) → ReplaceAll s (String x "") (String y "") = s.
Proof.
  intros H. rewrite <- (string_of_list_ascii_of_string (ReplaceAll _ _ _)).
  rewrite replace_char_bytes, <- (string_of_list_ascii_of_string s). f_equal.
  rewrite list_ascii_of_string_of_list_ascii.
  induction H as [|c l Hc _ IH]; [done|]. cbn.
  rewrite (proj2 (Ascii.eqb_neq c x)) by done. by rewrite IH.
Qed.

(** [LastIndex] of a pattern whose first byte does not occur. *)
Lemma LastIndex_absent x p s :
  Forall (λ c, c ≠ x) (bytes_of s) → LastIndex s (String x p) = None.
Proof.
  induction s as [|c s IH]; intros H; [done|].
  cbn in H. inversion H as [|? ? Hc Hs]; subst. cbn.
  rewrite IH by done. unfold HasPrefix. cbn.
  by destruct (ascii_dec x c).
Qed.

Lemma plain_not_in x s : is_plain x = false → plain s → Forall (λ c, c ≠ x) (bytes_of s).
Proof.
  intros Hx Hs. apply (Forall_impl _ _ _ Hs). intros c Hc ->. congruence.
Qed.

(** ** Splitting and joining *)

Lemma split_list_sep sep w l :
  Forall (λ c, c ≠ sep) w → split_list sep (w ++ sep :: l) = w :: split_list sep l.
Proof.
  induction 1 as [|c w Hc _ IH]; cbn; [by rewrite Ascii.eqb_refl|].
  by rewrite (proj2 (Ascii.eqb_neq c sep)), IH.
Qed.

Lemma split_list_last sep w : Forall (λ c, c ≠ sep) w → split_list sep w = [w].
Proof.
  induction 1 as [|c w Hc _ IH]; [done|]. cbn. by rewrite (proj2 (Ascii.eqb_neq c sep)), IH.
Qed.

Lemma split_list_app sep a b : split_list sep (a ++ sep :: b) = split_list sep a ++ split_list sep b.
Proof.
  induction a as [|c a IH]; cbn; [by rewrite Ascii.eqb_refl|]. rewrite IH.
  destruct (Ascii.eqb c sep); [done|].
  assert (∃ w ws, split_list sep a = w :: ws) as (w & ws & ->); [|done].
  destruct a as [|x a]; cbn; [eauto|]. destruct (Ascii.eqb x sep); [eauto|].
  destruct (split_list sep a); eauto.
Qed.

Lemma Split_app a sep b : Split (a +:+ String sep b) sep = Split a sep ++ Split b sep.
Proof. unfold Split. rewrite bytes_of_app. cbn. by rewrite split_list_app, map_app. Qed.

Lemma Split_line w sep l :
  Forall (λ c, c ≠ sep) (bytes_of w) → Split (w +:+ String sep l) sep = w :: Split l sep.
Proof.
  intros H. rewrite Split_app. unfold Split at 1. rewrite split_list_last by done. cbn.
  by rewrite string_of_list_ascii_of_string.
Qed.

Lemma Join_snoc l x sep : l ≠ [] → Join (l ++ [x]) sep = Join l sep +:+ sep +:+ x.
Proof.
  induction l as [|a l IH]; [done|]. intros _. destruct l as [|b l]; [done|].
  change ((a :: b :: l) ++ [x]) with (a :: (b :: l) ++ [x]).
  change (Join (a :: (b :: l) ++ [x]) sep) with (a +:+ sep +:+ Join ((b :: l) ++ [x]) sep).
  rewrite IH by done. change (Join (a :: b :: l) sep) with (a +:+ sep +:+ Join (b :: l) sep).
  by rewrite !str_app_assoc.
Qed.

(** Appending one ordinary component to a cleaned path. *)
Lemma Clean_snoc p c : p ≠ "" → c ≠ "" → c ≠ "." → c ≠ ".." →
  Forall (λ a, a ≠ slash) (bytes_of c) → ∀ q d, p = q +:+ String slash d →
  d ≠ "" → d ≠ "." → d ≠ ".." → Forall (λ a, a ≠ slash) (bytes_of d) → q ≠ "" →
  Clean (p +:+ String slash c) = Clean p +:+ String slash c.
Proof.
  intros Hp Hc1 Hc2 Hc3 Hcs q d -> Hd1 Hd2 Hd3 Hds Hq.
  assert (∀ x, x ≠ "" → x ≠ "." → x ≠ ".." → ∀ r st, clean_step r st x = x :: st) as Hstep.
  { intros x H1 H2 H3 r st. unfold clean_step.
    by rewrite !(proj2 (String.eqb_neq x _)). }
  assert (∀ x, Forall (λ a, a ≠ slash) (bytes_of x) → Split x slash = [x]) as Hone.
  { intros x Hx. unfold Split. rewrite split_list_last by done. cbn.
    by rewrite string_of_list_ascii_of_string. }
  unfold Clean.
  assert (HasPrefix ((q +:+ String slash d) +:+ String slash c) "/" =
          HasPrefix (q +:+ String slash d) "/") as ->.
  { destruct q as [|x q]; [done|]. rewrite !str_app_cons, !HasPrefix_cons. f_equal.
    by rewrite !HasPrefix_nil. }
  rewrite !Split_app, (Hone d), (Hone c) by done. rewrite !fold_left_app. cbn [fold_left].
  rewrite !Hstep by done. cbn [rev].
  set (st := fold_left (clean_step _) (Split q slash) []).
  rewrite Join_snoc by by destruct (rev st). change ("/" +:+ c) with (String slash c).
  destruct (HasPrefix _ "/"); [by rewrite <- str_app_assoc|].
  assert (∀ s : string, s +:+ String slash c ≠ "") as Hne1 by by intros [].
  rewrite (proj2 (String.eqb_neq _ _) (Hne1 _)).
  assert (Join (rev st ++ [d]) "/" ≠ "") as Hne2.
  { destruct (rev st) as [|y l]; [done|]. rewrite Join_snoc by done.
    destruct (Join (y :: l) "/"); done. }
  by rewrite (proj2 (String.eqb_neq _ _) Hne2).
Qed.

(** ** Decimal round trip *)

Lemma FormatInt_nonempty z : FormatInt z ≠ "".
Proof.
  unfold FormatInt. destruct (Z.to_int z) as [[]|[]]; cbn; done.
Qed.

Lemma string_of_uint_no_plus d c r :
  NilZero.string_of_uint d = String c r → Ascii.eqb c "+"%char = false.
Proof. destruct d; cbn; intros [= <- _]; done. Qed.

Lemma FormatInt_no_plus z c r : FormatInt z = String c r → Ascii.eqb c "+"%char = false.
Proof.
  unfold FormatInt. destruct (Z.to_int z) as [d|d]; cbn.
  - apply string_of_uint_no_plus.
  - by intros [= <- _].
Qed.

Lemma to_int_nonnil z : Z.to_int z ≠ Decimal.Pos Decimal.Nil ∧ Z.to_int z ≠ Decimal.Neg Decimal.Nil.
Proof.
  destruct z as [|p|p]; cbn; split; intros H; try done; injection H as H;
    by apply (DecimalPos.Unsigned.to_uint_nonnil p).
Qed.

Lemma decimal_value_FormatInt z : decimal_value (FormatInt z) = Some z.
Proof.
  unfold decimal_value.
  destruct (FormatInt z) as [|c r] eqn:E; [by apply FormatInt_nonempty in E|].
  rewrite (FormatInt_no_plus z c r) by done. rewrite <- E. unfold FormatInt.
  rewrite NilZero.isi; [by rewrite DecimalZ.of_to| |]; apply to_int_nonnil.
Qed.

Lemma ParseInt_FormatInt z : in_int64 z → ParseInt (FormatInt z) = Some z.
Proof.
  intros H. unfold ParseInt. rewrite decimal_value_FormatInt.
  by rewrite bool_decide_eq_true_2.
Qed.

Lemma FormatInt_inj a b : FormatInt a = FormatInt b → a = b.
Proof.
  intros H. pose proof (decimal_value_FormatInt a) as Ha.
  rewrite H, decimal_value_FormatInt in Ha. by injection Ha.
Qed.

#[export] Hint Resolve FormatInt_nonempty HasSuffix_app TrimSpace_plain : go.
#[export] Hint Rewrite str_app_nil_r str_app_assoc TrimSuffix_app : go_str.
