(* ===== verification/Annotations.v ===== *)
(** * fractiond/internal/annotations and common/configuration

    The per-container GPU annotations of a pod: key construction, quantity
    parsing to whole MiB, defaulting, the compute-mode switch.  The Kubernetes
    [resource.Quantity] parser is third-party code: it is the class
    [QuantityLib], whose only law is that [Quantity.Value] is a Go [int64]. *)

From S2P Require Import Prelude GoStrings.
From stdpp Require Import base gmap strings list.
From Stdlib Require Import ZArith Lia Ascii String.
#[local] Open Scope string_scope.
#[local] Open Scope list_scope.
#[local] Open Scope Z_scope.

(** ** common/configuration *)

Definition DefaultAnnotationPrefix : string := "nvidia.com/container.".
Definition DefaultMPSPipeDirectory : string := "/run/nvidia-mps".
Definition SharedMPSSocketPath : string := "shared/default".
Definition ContainerMPSPipeDirectory : string := "/tmp/nvidia-mps".

(** ** The quantity library *)

Class QuantityLib := {
  Quantity : Type;
  ParseQuantity : string → option Quantity;
  QuantityValue : Quantity → Z;
  QuantityValue_int64 : ∀ q, in_int64 (QuantityValue q)
}.

(** ** Data *)

Definition memoryInfix : string := "gpu-memory".
Definition devicesSuffix : string := "gpus.devices".
Definition annotationSuffixRequest : string := "request".
Definition annotationSuffixLimit : string := "limit".
Definition computeModeSuffix : string := "gpu-compute.mode".
Definition bytesPerMiB : Z := 1024 * 1024.
Definition minMemoryBytes : Z := bytesPerMiB.

(** [ComputeMode] is a Go string with two constants. *)
Inductive ComputeMode := ComputeModeTimeSlicing | ComputeModeSMSharing.
#[global] Instance ComputeMode_eq_dec : EqDecision ComputeMode.
Proof. solve_decision. Defined.

Definition ComputeModeString (m : ComputeMode) : string :=
  match m with
  | ComputeModeTimeSlicing => "time-slicing"
  | ComputeModeSMSharing => "sm-sharing"
  end.

Record GPUMemoryConfig := mkGPUMemoryConfig { Request : string; Limit : string }.
#[global] Instance GPUMemoryConfig_eq_dec : EqDecision GPUMemoryConfig.
Proof. solve_decision. Defined.

(** One constructor per [fmt.Errorf] of the package. *)
Inductive AnnotationError :=
| InvalidQuantity (value : string)
| NegativeQuantity (value : string)
| BelowMinimum (value : string) (bytes : Z)
| ParsingAnnotation (key : string) (cause : AnnotationError)
| ModeNotEnabled (key value : string)
| InvalidMode (key value : string).

(** ** Methods of GPUMemoryConfig *)

Definition IsEmpty (c : GPUMemoryConfig) : bool :=
  String.eqb (Request c) "" && String.eqb (Limit c) "".

Definition ApplyDefaults (c : GPUMemoryConfig) : GPUMemoryConfig :=
  let c := if String.eqb (Request c) ""
           then mkGPUMemoryConfig (Limit c) (Limit c) else c in
  if String.eqb (Limit c) ""
  then mkGPUMemoryConfig (Request c) (Request c) else c.

Definition EffectiveMemoryMiB (c : GPUMemoryConfig) : Z :=
  let value := if String.eqb (Limit c) "" then Request c else Limit c in
  if String.eqb value "" then 0
  else match ParseInt value with
       | None => 0
       | Some mib => mib
       end.

(** ** Annotation keys *)

Definition containerMemoryAnnotationKey (prefix containerName suffix : string) : string :=
  prefix +:+ containerName +:+ "." +:+ memoryInfix +:+ "." +:+ suffix.

Definition containerDevicesAnnotationKey (prefix containerName : string) : string :=
  prefix +:+ containerName +:+ "." +:+ devicesSuffix.

Definition containerComputeModeAnnotationKey (prefix containerName : string) : string :=
  prefix +:+ containerName +:+ "." +:+ computeModeSuffix.

Definition RequestAnnotationKey (prefix containerName : string) : string :=
  containerMemoryAnnotationKey prefix containerName annotationSuffixRequest.
Definition DevicesAnnotationKey (prefix containerName : string) : string :=
  containerDevicesAnnotationKey prefix containerName.
Definition LimitAnnotationKey (prefix containerName : string) : string :=
  containerMemoryAnnotationKey prefix containerName annotationSuffixLimit.
Definition ComputeModeAnnotationKey (prefix containerName : string) : string :=
  containerComputeModeAnnotationKey prefix containerName.

(** ** Parsing *)

(** [1 + (value-1)/divisor] in wrapping [int64] arithmetic; Go's [/] truncates. *)
Definition ceilDiv (value divisor : Z) : Z :=
  wrap64 (1 + wrap64 (Z.quot (wrap64 (value - 1)) divisor)).

Section parsing.
Context `{QuantityLib}.

Definition quantityToMemoryMiB (value : string) : result AnnotationError Z :=
  match ParseQuantity value with
  | None => Err (InvalidQuantity value)
  | Some qty =>
      let bytes := QuantityValue qty in
      if bytes <? 0 then Err (NegativeQuantity value)
      else if bytes <? minMemoryBytes then Err (BelowMinimum value bytes)
      else Ok (ceilDiv bytes bytesPerMiB)
  end.

Definition parseToMemoryMiB (value : string) : result AnnotationError string :=
  mib <-? quantityToMemoryMiB value ;;
  Ok (FormatInt mib).

(** One [if val, ok := annotations[key]; ok { ... }] block: the current field
    value is kept when the annotation is absent. *)
Definition parseMemoryField (annotations : gmap string string) (key current : string)
    : result AnnotationError string :=
  match annotations !! key with
  | None => Ok current
  | Some val => map_err (ParsingAnnotation key) (parseToMemoryMiB val)
  end.

Definition ParseGPUMemoryAnnotations (annotations : gmap string string)
    (containerName prefix : string) : result AnnotationError GPUMemoryConfig :=
  let requestKey := containerMemoryAnnotationKey prefix containerName annotationSuffixRequest in
  let limitKey := containerMemoryAnnotationKey prefix containerName annotationSuffixLimit in
  request <-? parseMemoryField annotations requestKey "" ;;
  limit <-? parseMemoryField annotations limitKey "" ;;
  Ok (mkGPUMemoryConfig request limit).

End parsing.

(** Indexing a Go map with an absent key yields [""]. *)
Definition annotation_value (annotations : gmap string string) (key : string) : string :=
  default "" (annotations !! key).

Definition ParseVisibleDevices (annotations : gmap string string)
    (containerName prefix : string) : string :=
  TrimSpace (annotation_value annotations (containerDevicesAnnotationKey prefix containerName)).

Definition ParseComputeMode (annotations : gmap string string)
    (containerName prefix : string) (smSharingEnabled : bool)
    : result AnnotationError ComputeMode :=
  let key := containerComputeModeAnnotationKey prefix containerName in
  match annotations !! key with
  | None => Ok ComputeModeTimeSlicing
  | Some raw =>
      let val := TrimSpace raw in
      if String.eqb val (ComputeModeString ComputeModeTimeSlicing)
      then Ok ComputeModeTimeSlicing
      else if String.eqb val (ComputeModeString ComputeModeSMSharing)
      then if negb smSharingEnabled then Err (ModeNotEnabled key val)
           else Ok ComputeModeSMSharing
      else Err (InvalidMode key val)
  end.

(** ** Lemmas *)

Lemma ceilDiv_exact v :
  bytesPerMiB ≤ v → in_int64 v →
  ceilDiv v bytesPerMiB = 1 + (v - 1) / bytesPerMiB.
Proof.
  unfold bytesPerMiB, in_int64, int64_min, int64_max, ceilDiv. intros Hv Hr.
  assert (0 ≤ (v - 1) / (1024 * 1024) ≤ 2 ^ 43) as Hq.
  { split; [apply Z.div_pos; lia|]. apply Z.div_le_upper_bound; lia. }
  rewrite (wrap64_small (v - 1)) by (unfold in_int64, int64_min, int64_max; lia).
  rewrite Z.quot_div_nonneg by lia.
  rewrite (wrap64_small ((v - 1) / _)) by (unfold in_int64, int64_min, int64_max; lia).
  apply wrap64_small. unfold in_int64, int64_min, int64_max. lia.
Qed.

(** The characteristic inequalities of rounding up to whole MiB. *)
Lemma ceil_unique v m :
  m = 1 + (v - 1) / bytesPerMiB ↔ (m - 1) * bytesPerMiB < v ≤ m * bytesPerMiB.
Proof.
  unfold bytesPerMiB.
  pose proof (Z.div_mod (v - 1) (1024 * 1024) ltac:(lia)) as Hd.
  pose proof (Z.mod_pos_bound (v - 1) (1024 * 1024) ltac:(lia)). split.
  - intros ->. lia.
  - intros Hm. assert (m - 1 = (v - 1) / (1024 * 1024)); [|lia].
    apply Z.div_unique_pos with (v - 1 - (1024 * 1024) * (m - 1)); lia.
Qed.

(** The MiB value denoted by an annotation value. *)
Definition denotes_mib `{QuantityLib} (value : string) (mib : Z) : Prop :=
  ∃ q, ParseQuantity value = Some q ∧ bytesPerMiB ≤ QuantityValue q ∧
       (mib - 1) * bytesPerMiB < QuantityValue q ≤ mib * bytesPerMiB.

Lemma quantityToMemoryMiB_ok `{QuantityLib} value mib :
  quantityToMemoryMiB value = Ok mib ↔ denotes_mib value mib.
Proof.
  unfold quantityToMemoryMiB, denotes_mib, minMemoryBytes.
  destruct (ParseQuantity value) as [q|]; [|by split; [|intros (? & ? & _)]].
  pose proof (QuantityValue_int64 q) as Hr.
  assert (0 < bytesPerMiB) by done.
  destruct (QuantityValue q <? 0) eqn:E0; bool_simpl.
  { split; [done|]. intros (q' & [= <-] & ? & ?). lia. }
  destruct (QuantityValue q <? bytesPerMiB) eqn:E1; bool_simpl.
  { split; [done|]. intros (q' & [= <-] & ? & ?). lia. }
  rewrite (ceilDiv_exact (QuantityValue q) E1 Hr). split.
  - intros [= Hm]. exists q. split_and!; [done|lia| |]; by apply ceil_unique.
  - intros (q' & [= <-] & ? & Hm). by apply ceil_unique in Hm as <-.
Qed.

Lemma denotes_mib_range `{QuantityLib} value mib :
  denotes_mib value mib → 1 ≤ mib ∧ in_int64 mib.
Proof.
  intros (q & _ & Hmin & Hlo & Hhi). pose proof (QuantityValue_int64 q) as Hr.
  unfold bytesPerMiB, in_int64, int64_min, int64_max in *. lia.
Qed.

(** The content a parsed field has: absent and empty, or the decimal rendering
    of the MiB value of the annotation. *)
Definition memory_field `{QuantityLib} (o : option string) (field : string) : Prop :=
  match o with
  | None => field = ""
  | Some val => ∃ mib, denotes_mib val mib ∧ field = FormatInt mib
  end.

Lemma parseMemoryField_ok `{QuantityLib} ann key field :
  parseMemoryField ann key "" = Ok field ↔ memory_field (ann !! key) field.
Proof.
  unfold parseMemoryField, memory_field, parseToMemoryMiB.
  destruct (ann !! key) as [val|]; [|split; congruence].
  destruct (quantityToMemoryMiB val) as [mib|e] eqn:E; cbn.
  - apply quantityToMemoryMiB_ok in E as Hm. split.
    + intros [= <-]. eauto.
    + intros (mib' & Hm' & ->). apply quantityToMemoryMiB_ok in Hm'. congruence.
  - split; [done|]. intros (mib' & Hm' & ->).
    apply quantityToMemoryMiB_ok in Hm'. congruence.
Qed.

Lemma ParseGPUMemoryAnnotations_ok `{QuantityLib} ann c p cfg :
  ParseGPUMemoryAnnotations ann c p = Ok cfg ↔
  memory_field (ann !! RequestAnnotationKey p c) (Request cfg) ∧
  memory_field (ann !! LimitAnnotationKey p c) (Limit cfg).
Proof.
  unfold ParseGPUMemoryAnnotations, RequestAnnotationKey, LimitAnnotationKey.
  rewrite <- !parseMemoryField_ok.
  destruct (parseMemoryField ann _ "") as [r|e] eqn:Er; cbn;
    [|by split; [|intros [? ?]]].
  destruct (parseMemoryField ann (containerMemoryAnnotationKey _ _ annotationSuffixLimit) "")
    as [l|e] eqn:El; cbn; [|by split; [|intros [? ?]]].
  destruct cfg as [r' l']; cbn. split; [by intros [= <- <-]|]. by intros [[= ->] [= ->]].
Qed.

Lemma memory_field_empty `{QuantityLib} o field : memory_field o field → field = "" ↔ o = None.
Proof.
  destruct o as [val|]; cbn; [|done].
  intros (mib & _ & ->). split; [|done]. intros Hf. by apply FormatInt_nonempty in Hf.
Qed.

Lemma memory_field_parse `{QuantityLib} val field :
  memory_field (Some val) field →
  ∃ mib, denotes_mib val mib ∧ field = FormatInt mib ∧ ParseInt field = Some mib.
Proof.
  intros (mib & Hm & ->). exists mib. split_and!; [done..|].
  apply ParseInt_FormatInt. by apply denotes_mib_range in Hm as [_ ?].
Qed.

Lemma IsEmpty_spec c : IsEmpty c = true ↔ Request c = "" ∧ Limit c = "".
Proof.
  unfold IsEmpty. rewrite andb_true_iff, !String.eqb_eq. done.
Qed.

Lemma ApplyDefaults_eq r l :
  ApplyDefaults (mkGPUMemoryConfig r l) =
  mkGPUMemoryConfig (if String.eqb r "" then l else r) (if String.eqb l "" then r else l).
Proof.
  unfold ApplyDefaults. cbn. destruct (String.eqb_spec r "") as [->|Hr]; cbn.
  - by destruct (String.eqb_spec l "") as [->|Hl].
  - by destruct (String.eqb l "").
Qed.

Lemma ApplyDefaults_spec c :
  IsEmpty c = false →
  Request (ApplyDefaults c) ≠ "" ∧ Limit (ApplyDefaults c) ≠ "" ∧
  (Request c ≠ "" → Request (ApplyDefaults c) = Request c) ∧
  (Limit c ≠ "" → Limit (ApplyDefaults c) = Limit c) ∧
  (Request c = "" ∨ Limit c = "" → Request (ApplyDefaults c) = Limit (ApplyDefaults c)).
Proof.
  destruct c as [r l]. rewrite ApplyDefaults_eq. unfold IsEmpty. cbn.
  destruct (String.eqb_spec r "") as [->|], (String.eqb_spec l "") as [->|]; cbn; intros;
    try done; split_and!; try done; by intros [|].
Qed.

Lemma EffectiveMemoryMiB_ApplyDefaults c :
  EffectiveMemoryMiB (ApplyDefaults c) = EffectiveMemoryMiB c.
Proof.
  destruct c as [r l]. rewrite ApplyDefaults_eq. unfold EffectiveMemoryMiB. cbn.
  destruct (String.eqb_spec r "") as [->|Hr], (String.eqb_spec l "") as [->|Hl]; cbn; try done.
  - by rewrite !(proj2 (String.eqb_neq l "") Hl).
  - by rewrite !(proj2 (String.eqb_neq r "") Hr).
  - by rewrite !(proj2 (String.eqb_neq l "") Hl).
Qed.

(** The value the metrics side divides by the device memory. *)
Lemma EffectiveMemoryMiB_parsed `{QuantityLib} ann c p cfg :
  ParseGPUMemoryAnnotations ann c p = Ok cfg →
  match ann !! LimitAnnotationKey p c, ann !! RequestAnnotationKey p c with
  | Some v, _ | None, Some v => denotes_mib v (EffectiveMemoryMiB cfg)
  | None, None => EffectiveMemoryMiB cfg = 0 ∧ IsEmpty cfg = true
  end.
Proof.
  intros [Hr Hl]%ParseGPUMemoryAnnotations_ok. unfold EffectiveMemoryMiB, IsEmpty.
  destruct (ann !! LimitAnnotationKey p c) as [lv|].
  - apply memory_field_parse in Hl as (m & Hm & Hf & Hp).
    pose proof (FormatInt_nonempty m).
    rewrite !(proj2 (String.eqb_neq (Limit cfg) "")) by congruence. by rewrite Hp.
  - cbn in Hl. rewrite Hl. cbn.
    destruct (ann !! RequestAnnotationKey p c) as [rv|].
    + apply memory_field_parse in Hr as (m & Hm & Hf & Hp).
      pose proof (FormatInt_nonempty m).
      rewrite (proj2 (String.eqb_neq (Request cfg) "")) by congruence. by rewrite Hp.
    + cbn in Hr. by rewrite Hr.
Qed.

Lemma ParseGPUMemoryAnnotations_IsEmpty `{QuantityLib} ann c p cfg :
  ParseGPUMemoryAnnotations ann c p = Ok cfg →
  IsEmpty cfg = true ↔
  ann !! RequestAnnotationKey p c = None ∧ ann !! LimitAnnotationKey p c = None.
Proof.
  intros [Hr Hl]%ParseGPUMemoryAnnotations_ok. rewrite IsEmpty_spec.
  by rewrite (memory_field_empty _ _ Hr), (memory_field_empty _ _ Hl).
Qed.

(** After defaulting, the limit is the rendering of the accounted memory. *)
Lemma enforced_limit `{QuantityLib} {ann c p} cfg :
  ParseGPUMemoryAnnotations ann c p = Ok cfg → IsEmpty cfg = false →
  Limit (ApplyDefaults cfg) = FormatInt (EffectiveMemoryMiB cfg) ∧ 1 ≤ EffectiveMemoryMiB cfg.
Proof.
  intros Hparse Hsome. pose proof (EffectiveMemoryMiB_parsed _ _ _ _ Hparse) as Heff.
  apply ParseGPUMemoryAnnotations_ok in Hparse as [Hr Hl].
  pose proof (ApplyDefaults_spec cfg Hsome) as (HR & HL & _ & HLk & Heq).
  assert (∀ v mib field, memory_field (Some v) field → denotes_mib v mib →
    field = FormatInt mib) as Hfmt.
  { intros v mib field (m & Hm & ->) Hm'. f_equal.
    apply quantityToMemoryMiB_ok in Hm, Hm'. congruence. }
  destruct (ann !! LimitAnnotationKey p c) as [lv|] eqn:El.
  - split; [|by eapply denotes_mib_range].
    rewrite HLk; [by eapply Hfmt|]. intros He. by apply (memory_field_empty _ _ Hl) in He.
  - destruct (ann !! RequestAnnotationKey p c) as [rv|] eqn:Er; [|by destruct Heff; congruence].
    split; [|by eapply denotes_mib_range].
    pose proof (proj2 (memory_field_empty _ _ Hl) eq_refl) as Hle.
    rewrite <- Heq by auto.
    destruct cfg as [r l]; cbn in *. subst l. rewrite ApplyDefaults_eq. cbn.
    destruct (String.eqb_spec r "") as [->|]; [done|]. by eapply Hfmt.
Qed.

#[export] Hint Resolve EffectiveMemoryMiB_parsed : go.

(** ** Properties *)

(** The kinds of per-container annotation keys. *)
Inductive AnnotationKind := KRequest | KLimit | KDevices | KComputeMode.

Definition annotation_key (k : AnnotationKind) (prefix containerName : string) : string :=
  match k with
  | KRequest => RequestAnnotationKey prefix containerName
  | KLimit => LimitAnnotationKey prefix containerName
  | KDevices => DevicesAnnotationKey prefix containerName
  | KComputeMode => ComputeModeAnnotationKey prefix containerName
  end.

Definition key_suffix (k : AnnotationKind) : string :=
  match k with
  | KRequest => ".gpu-memory.request"
  | KLimit => ".gpu-memory.limit"
  | KDevices => ".gpus.devices"
  | KComputeMode => ".gpu-compute.mode"
  end.

Lemma annotation_key_eq k p c : annotation_key k p c = p +:+ c +:+ key_suffix k.
Proof. by destruct k. Qed.

Lemma key_suffix_inj k1 k2 c1 c2 : c1 +:+ key_suffix k1 = c2 +:+ key_suffix k2 → k1 = k2.
Proof.
  intros H. apply (f_equal (λ s, rev (bytes_of s))) in H.
  rewrite !bytes_of_app, !rev_app_distr in H.
  destruct k1, k2; cbn in H; by simplify_eq.
Qed.

(** A quantity library for closed examples: decimal byte counts. *)
Definition DecimalQuantities : QuantityLib := {|
  Quantity := Z;
  ParseQuantity := ParseInt;
  QuantityValue := wrap64;
  QuantityValue_int64 := wrap64_range
|}.

(** Parsing the GPU-memory annotations of a container decides exactly as
    documented, for every annotation map.  On success each field is empty iff
    its annotation is absent and is otherwise the decimal rendering of the
    quantity rounded up to whole MiB (at least 1, without [int64] overflow); on
    failure the error names a present annotation whose value denotes no
    quantity of at least 1 MiB. *)
Theorem ParseGPUMemoryAnnotations_decides `{QuantityLib} ann c p :
  match ParseGPUMemoryAnnotations ann c p with
  | Ok cfg =>
      memory_field (ann !! RequestAnnotationKey p c) (Request cfg) ∧
      memory_field (ann !! LimitAnnotationKey p c) (Limit cfg)
  | Err e =>
      ∃ key cause val, e = ParsingAnnotation key cause ∧
        (key = RequestAnnotationKey p c ∨ key = LimitAnnotationKey p c) ∧
        ann !! key = Some val ∧ ∀ mib, ¬ denotes_mib val mib
  end.
Proof.
  destruct (ParseGPUMemoryAnnotations ann c p) as [cfg|e] eqn:E;
    [by apply ParseGPUMemoryAnnotations_ok|].
  assert (∀ key e, parseMemoryField ann key "" = Err e →
    ∃ cause val, e = ParsingAnnotation key cause ∧ ann !! key = Some val ∧
      ∀ mib, ¬ denotes_mib val mib) as Hfield.
  { clear. intros key e. unfold parseMemoryField, parseToMemoryMiB.
    destruct (ann !! key) as [val|]; [|done].
    destruct (quantityToMemoryMiB val) as [m|cause] eqn:Eq; [done|]. intros [= <-].
    exists cause, val. split_and!; [done..|]. intros mib Hm%quantityToMemoryMiB_ok.
    congruence. }
  unfold ParseGPUMemoryAnnotations, rbind in E.
  destruct (parseMemoryField _ (containerMemoryAnnotationKey p c annotationSuffixRequest) _)
    as [r|e1] eqn:E1;
    [destruct (parseMemoryField _ (containerMemoryAnnotationKey p c annotationSuffixLimit) _)
       as [l|e1] eqn:E2|]; simplify_eq.
  - apply Hfield in E2 as (cause & val & ? & ? & ?). eauto 10.
  - apply Hfield in E1 as (cause & val & ? & ? & ?). eauto 10.
Qed.

(** Annotations address containers in isolation: with the configured prefix,
    two keys coincide only if they are the same kind of key of the same
    container, whatever the container names contain. *)
Theorem annotation_keys_injective k1 k2 p c1 c2
  (Hkey : annotation_key k1 p c1 = annotation_key k2 p c2) :
  k1 = k2 ∧ c1 = c2.
Proof.
  rewrite !annotation_key_eq in Hkey. apply str_app_inj_l in Hkey.
  pose proof (key_suffix_inj _ _ _ _ Hkey) as ->.
  split; [done|]. by apply str_app_inj_r in Hkey.
Qed.

Lemma annotation_keys_injective_witness :
  annotation_key KLimit DefaultAnnotationPrefix "trainer" =
    "nvidia.com/container.trainer.gpu-memory.limit" ∧
  (KLimit = KLimit ∧ "trainer" = "trainer").
Proof.
  split; [vm_compute; reflexivity|].
  apply (annotation_keys_injective KLimit KLimit DefaultAnnotationPrefix "trainer" "trainer").
  reflexivity.
Defined.

(** The cap that is enforced is the memory that is accounted.  For a
    container with a memory annotation, after defaulting, both values are set,
    the limit is the decimal rendering of [EffectiveMemoryMiB] of the parsed
    configuration, and that number is the MiB value of the limit annotation or,
    in its absence, of the request annotation. *)
Theorem enforced_limit_is_accounted `{QuantityLib} ann c p cfg
  (Hparse : ParseGPUMemoryAnnotations ann c p = Ok cfg)
  (Hsome : IsEmpty cfg = false) :
  Limit (ApplyDefaults cfg) = FormatInt (EffectiveMemoryMiB cfg) ∧
  Request (ApplyDefaults cfg) ≠ "" ∧
  1 ≤ EffectiveMemoryMiB cfg ∧
  ∃ v, (ann !! LimitAnnotationKey p c = Some v ∨
        ann !! LimitAnnotationKey p c = None ∧ ann !! RequestAnnotationKey p c = Some v) ∧
       denotes_mib v (EffectiveMemoryMiB cfg).
Proof.
  pose proof (EffectiveMemoryMiB_parsed _ _ _ _ Hparse) as Heff.
  destruct (enforced_limit cfg Hparse Hsome) as [Hl Hge].
  split_and!; [done|by apply ApplyDefaults_spec|done|].
  destruct (ann !! LimitAnnotationKey p c) as [lv|]; [by eauto|].
  destruct (ann !! RequestAnnotationKey p c) as [rv|]; [by eauto|].
  by destruct Heff; congruence.
Qed.

Lemma enforced_limit_is_accounted_witness :
  let ann := {[ "nvidia.com/container.t.gpu-memory.request" := "1000000000" ]} : gmap string string in
  let cfg := mkGPUMemoryConfig "954" "" in
  Limit (ApplyDefaults cfg) = "954" ∧ 1 ≤ EffectiveMemoryMiB cfg.
Proof.
  cbv zeta.
  destruct (@enforced_limit_is_accounted DecimalQuantities
    {[ "nvidia.com/container.t.gpu-memory.request" := "1000000000" ]} "t"
    DefaultAnnotationPrefix (mkGPUMemoryConfig "954" "")) as (H1 & _ & H2 & _).
  - vm_compute. reflexivity.
  - reflexivity.
  - split; [exact H1|exact H2].
Defined.
