(* ===== verification/Json.v ===== *)
(** * encoding/json as the mapping files use it

    [json.Marshal] and [json.Unmarshal] of Go's standard library, for the value
    shapes of the mapping record (objects, arrays, strings, integers, null), on
    byte lists.  Encoding escapes as Go does by default (HTML characters,
    control characters, U+2028/U+2029, invalid UTF-8); parsing is the whole JSON
    grammar with Go's nesting limit, its replacement of invalid UTF-8 and lone
    surrogates by U+FFFD, and case-insensitive member names. *)

From S2P Require Import Prelude GoStrings.
From stdpp Require Import base gmap strings list.
From Stdlib Require Import ZArith Lia Ascii String.
#[local] Open Scope string_scope.
#[local] Open Scope list_scope.
#[local] Open Scope Z_scope.

Abbreviation bytes := (list ascii).

Inductive JSON :=
| JNull
| JBool (b : bool)
| JNum (raw : bytes)
| JStr (s : bytes)
| JArr (vs : list JSON)
| JObj (ms : list (bytes * JSON)).

Abbreviation dquote := ("034"%char).
Abbreviation backslash := ("092"%char).

Definition code (a : ascii) : N := N_of_ascii a.

(** ** UTF-8 *)

Definition in_range (lo hi : N) (a : ascii) : bool := ((lo <=? code a) && (code a <=? hi))%N.
Definition cont (a : ascii) : bool := in_range 128 191 a.

(** The number of bytes of the rune at the head, [None] when it is not valid. *)
Definition utf8_len (l : bytes) : option nat :=
  match l with
  | [] => None
  | a :: r =>
      if (code a <? 128)%N then Some 1%nat
      else match r with
           | [] => None
           | b :: r1 =>
               if in_range 194 223 a then if cont b then Some 2%nat else None
               else match r1 with
                    | [] => None
                    | c :: r2 =>
                        if in_range 224 239 a then
                          if in_range (if (code a =? 224)%N then 160 else 128)
                                      (if (code a =? 237)%N then 159 else 191) b && cont c
                          then Some 3%nat else None
                        else match r2 with
                             | [] => None
                             | d :: _ =>
                                 if in_range 240 244 a &&
                                    in_range (if (code a =? 240)%N then 144 else 128)
                                             (if (code a =? 244)%N then 143 else 191) b &&
                                    cont c && cont d
                                 then Some 4%nat else None
                             end
                    end
           end
  end.

Definition byte_of (n : N) : ascii := ascii_of_N n.

Definition utf8_encode (r : N) : bytes :=
  if (r <? 128)%N then [byte_of r]
  else if (r <? 2048)%N then [byte_of (192 + r / 64); byte_of (128 + r mod 64)]
  else if (r <? 65536)%N then
    [byte_of (224 + r / 4096); byte_of (128 + r / 64 mod 64); byte_of (128 + r mod 64)]
  else [byte_of (240 + r / 262144); byte_of (128 + r / 4096 mod 64);
        byte_of (128 + r / 64 mod 64); byte_of (128 + r mod 64)].

Definition replacement : bytes := utf8_encode 65533.

(** ** Encoding *)

Definition hex_digit (n : N) : ascii :=
  if (n <? 10)%N then byte_of (48 + n) else byte_of (87 + n).

Definition u_escape (n : N) : bytes :=
  backslash :: "u"%char :: hex_digit (n / 4096) :: hex_digit (n / 256 mod 16)
    :: hex_digit (n / 16 mod 16) :: [hex_digit (n mod 16)].

(** [htmlSafeSet]. *)
Definition html_safe (a : ascii) : bool :=
  (32 <=? code a)%N && negb (Ascii.eqb a dquote) && negb (Ascii.eqb a backslash) &&
  negb (Ascii.eqb a "<"%char) && negb (Ascii.eqb a ">"%char) && negb (Ascii.eqb a "&"%char).

Definition escape_ascii (a : ascii) : bytes :=
  if html_safe a then [a]
  else if Ascii.eqb a backslash || Ascii.eqb a dquote then [backslash; a]
  else if (code a =? 8)%N then [backslash; "b"%char]
  else if (code a =? 12)%N then [backslash; "f"%char]
  else if (code a =? 10)%N then [backslash; "n"%char]
  else if (code a =? 13)%N then [backslash; "r"%char]
  else if (code a =? 9)%N then [backslash; "t"%char]
  else u_escape (code a).

(** [skip] counts the continuation bytes of a copied rune still to be copied. *)
Fixpoint escape_bytes (skip : nat) (l : bytes) : bytes :=
  match l with
  | [] => []
  | a :: r =>
      match skip with
      | S k => a :: escape_bytes k r
      | O =>
          if (code a <? 128)%N then escape_ascii a ++ escape_bytes O r
          else match utf8_len l with
               | None => u_escape 65533 ++ escape_bytes O r
               | Some n =>
                   match r with
                   | b :: c :: r2 =>
                       if (code a =? 226)%N && (code b =? 128)%N &&
                          ((code c =? 168)%N || (code c =? 169)%N)
                       then u_escape (8192 + (code c - 128)) ++ escape_bytes O r2
                       else a :: escape_bytes (n - 1) r
                   | _ => a :: escape_bytes (n - 1) r
                   end
               end
      end
  end.

Definition quote_string (l : bytes) : bytes := dquote :: escape_bytes O l ++ [dquote].

Fixpoint print (v : JSON) : bytes :=
  match v with
  | JNull => bytes_of "null"
  | JBool b => bytes_of (FormatBool b)
  | JNum raw => raw
  | JStr s => quote_string s
  | JArr vs =>
      "["%char :: (fix go (vs : list JSON) : bytes :=
         match vs with
         | [] => []
         | [v] => print v
         | v :: vs => print v ++ ","%char :: go vs
         end) vs ++ ["]"%char]
  | JObj ms =>
      "{"%char :: (fix go (ms : list (bytes * JSON)) : bytes :=
         match ms with
         | [] => []
         | [(k, v)] => quote_string k ++ ":"%char :: print v
         | (k, v) :: ms => quote_string k ++ ":"%char :: print v ++ ","%char :: go ms
         end) ms ++ ["}"%char]
  end.

(** ** Parsing *)

Definition is_ws (a : ascii) : bool :=
  ((code a =? 32) || (code a =? 9) || (code a =? 10) || (code a =? 13))%N.

Fixpoint skip_ws (l : bytes) : bytes :=
  match l with
  | a :: r => if is_ws a then skip_ws r else l
  | [] => []
  end.

Definition hex_value (a : ascii) : option N :=
  if in_range 48 57 a then Some (code a - 48)%N
  else if in_range 97 102 a then Some (code a - 87)%N
  else if in_range 65 70 a then Some (code a - 55)%N
  else None.

Definition hex4 (a b c d : ascii) : option N :=
  match hex_value a, hex_value b, hex_value c, hex_value d with
  | Some a, Some b, Some c, Some d => Some (a * 4096 + b * 256 + c * 16 + d)%N
  | _, _, _, _ => None
  end.

Definition is_surrogate (n : N) : bool := ((55296 <=? n) && (n <=? 57343))%N.

(** A second [\uXXXX] completing the high surrogate [hi]: the rune and the rest. *)
Definition low_surrogate (hi : N) (l : bytes) : option (N * bytes) :=
  match l with
  | x :: y :: a :: b :: c :: d :: r =>
      if Ascii.eqb x backslash && Ascii.eqb y "u"%char then
        match hex4 a b c d with
        | Some lo =>
            if ((55296 <=? hi) && (hi <? 56320) && (56320 <=? lo) && (lo <=? 57343))%N
            then Some (65536 + (hi - 55296) * 1024 + (lo - 56320), r)%N else None
        | None => None
        end
      else None
  | _ => None
  end.

Definition simple_escape (a : ascii) : option ascii :=
  if Ascii.eqb a dquote || Ascii.eqb a backslash || Ascii.eqb a "/"%char then Some a
  else if Ascii.eqb a "b"%char then Some (byte_of 8)
  else if Ascii.eqb a "f"%char then Some (byte_of 12)
  else if Ascii.eqb a "n"%char then Some (byte_of 10)
  else if Ascii.eqb a "r"%char then Some (byte_of 13)
  else if Ascii.eqb a "t"%char then Some (byte_of 9)
  else None.

Definition prepend (p : bytes) (o : option (bytes * bytes)) : option (bytes * bytes) :=
  match o with Some (s, r) => Some (p ++ s, r) | None => None end.

(** The string after its opening quote: its decoded bytes and the rest. *)
Fixpoint parse_string (fuel : nat) (l : bytes) : option (bytes * bytes) :=
  match fuel, l with
  | S fuel, a :: r =>
      if Ascii.eqb a dquote then Some ([], r)
      else if Ascii.eqb a backslash then
        match r with
        | e :: r1 =>
            if Ascii.eqb e "u"%char then
              match r1 with
              | a :: b :: c :: d :: r2 =>
                  match hex4 a b c d with
                  | None => None
                  | Some n =>
                      if is_surrogate n then
                        match low_surrogate n r2 with
                        | Some (rune, r3) => prepend (utf8_encode rune) (parse_string fuel r3)
                        | None => prepend replacement (parse_string fuel r2)
                        end
                      else prepend (utf8_encode n) (parse_string fuel r2)
                  end
              | _ => None
              end
            else match simple_escape e with
                 | Some x => prepend [x] (parse_string fuel r1)
                 | None => None
                 end
        | [] => None
        end
      else if (code a <? 32)%N then None
      else match utf8_len l with
           | None => prepend replacement (parse_string fuel r)
           | Some n => prepend (take n l) (parse_string fuel (drop n l))
           end
  | _, _ => None
  end.

Definition is_digit (a : ascii) : bool := in_range 48 57 a.

Fixpoint span_digits (l : bytes) : bytes * bytes :=
  match l with
  | a :: r => if is_digit a then let '(d, r') := span_digits r in (a :: d, r') else ([], l)
  | [] => ([], [])
  end.

(** The integer part: ["0"] or a digit sequence that does not start with ["0"]. *)
Definition parse_int_part (l : bytes) : option (bytes * bytes) :=
  match l with
  | a :: r =>
      if Ascii.eqb a "0"%char then Some ([a], r)
      else if is_digit a then Some (span_digits l) else None
  | [] => None
  end.

Definition parse_fraction (l : bytes) : option (bytes * bytes) :=
  match l with
  | a :: r =>
      if Ascii.eqb a "."%char then
        match span_digits r with
        | ([], _) => None
        | (d, r') => Some (a :: d, r')
        end
      else Some ([], l)
  | [] => Some ([], l)
  end.

Definition parse_exponent (l : bytes) : option (bytes * bytes) :=
  match l with
  | a :: r =>
      if Ascii.eqb a "e"%char || Ascii.eqb a "E"%char then
        let '(sign, r) :=
          match r with
          | s :: r' => if Ascii.eqb s "+"%char || Ascii.eqb s "-"%char then ([s], r') else ([], r)
          | [] => ([], r)
          end in
        match span_digits r with
        | ([], _) => None
        | (d, r') => Some (a :: sign ++ d, r')
        end
      else Some ([], l)
  | [] => Some ([], l)
  end.

Definition parse_number (l : bytes) : option (bytes * bytes) :=
  let '(sign, l) :=
    match l with
    | a :: r => if Ascii.eqb a "-"%char then ([a], r) else ([], l)
    | [] => ([], l)
    end in
  match parse_int_part l with
  | None => None
  | Some (i, l) =>
      match parse_fraction l with
      | None => None
      | Some (f, l) =>
          match parse_exponent l with
          | None => None
          | Some (e, l) => Some (sign ++ i ++ f ++ e, l)
          end
      end
  end.

Definition parse_literal (w : string) (v : JSON) (l : bytes) : option (JSON * bytes) :=
  if bool_decide (take (String.length w) l = bytes_of w)
  then Some (v, drop (String.length w) l) else None.

Definition maxNestingDepth : N := 10000.

Fixpoint parse_value (fuel : nat) (depth : N) (l : bytes) : option (JSON * bytes) :=
  match fuel with
  | O => None
  | S fuel =>
      match skip_ws l with
      | [] => None
      | a :: r =>
          if Ascii.eqb a "{"%char then
            if (maxNestingDepth <? depth + 1)%N then None
            else match skip_ws r with
                 | b :: r' =>
                     if Ascii.eqb b "}"%char then Some (JObj [], r')
                     else match parse_members fuel (depth + 1) r with
                          | Some (ms, r) => Some (JObj ms, r)
                          | None => None
                          end
                 | [] => None
                 end
          else if Ascii.eqb a "["%char then
            if (maxNestingDepth <? depth + 1)%N then None
            else match skip_ws r with
                 | b :: r' =>
                     if Ascii.eqb b "]"%char then Some (JArr [], r')
                     else match parse_elems fuel (depth + 1) r with
                          | Some (vs, r) => Some (JArr vs, r)
                          | None => None
                          end
                 | [] => None
                 end
          else if Ascii.eqb a dquote then
            match parse_string (S (List.length r)) r with
            | Some (s, r) => Some (JStr s, r)
            | None => None
            end
          else if Ascii.eqb a "n"%char then parse_literal "null" JNull (a :: r)
          else if Ascii.eqb a "t"%char then parse_literal "true" (JBool true) (a :: r)
          else if Ascii.eqb a "f"%char then parse_literal "false" (JBool false) (a :: r)
          else match parse_number (a :: r) with
               | Some (raw, r) => Some (JNum raw, r)
               | None => None
               end
      end
  end
with parse_elems (fuel : nat) (depth : N) (l : bytes) : option (list JSON * bytes) :=
  match fuel with
  | O => None
  | S fuel =>
      match parse_value fuel depth l with
      | None => None
      | Some (v, r) =>
          match skip_ws r with
          | a :: r =>
              if Ascii.eqb a "]"%char then Some ([v], r)
              else if Ascii.eqb a ","%char then
                match parse_elems fuel depth r with
                | Some (vs, r) => Some (v :: vs, r)
                | None => None
                end
              else None
          | [] => None
          end
      end
  end
with parse_members (fuel : nat) (depth : N) (l : bytes) : option (list (bytes * JSON) * bytes) :=
  match fuel with
  | O => None
  | S fuel =>
      match skip_ws l with
      | q :: r =>
          if negb (Ascii.eqb q dquote) then None
          else match parse_string (S (List.length r)) r with
               | None => None
               | Some (k, r) =>
                   match skip_ws r with
                   | s :: r =>
                       if negb (Ascii.eqb s ":"%char) then None
                       else match parse_value fuel depth r with
                            | None => None
                            | Some (v, r) =>
                                match skip_ws r with
                                | a :: r =>
                                    if Ascii.eqb a "}"%char then Some ([(k, v)], r)
                                    else if Ascii.eqb a ","%char then
                                      match parse_members fuel depth r with
                                      | Some (ms, r) => Some ((k, v) :: ms, r)
                                      | None => None
                                      end
                                    else None
                                | [] => None
                                end
                            end
                   | [] => None
                   end
               end
      | [] => None
      end
  end.

(** Each level of the recursion consumes at least one byte every three calls. *)
Definition parse (l : bytes) : option JSON :=
  match parse_value (3 * List.length l + 3) 0 l with
  | Some (v, r) => match skip_ws r with [] => Some v | _ => None end
  | None => None
  end.

(** ** Decoding into Go values *)

(** [foldName] on the member names that can equal an ASCII name: ASCII letters
    are upper-cased, U+017F folds to S and U+212A to K. *)
Fixpoint fold_key (l : bytes) : bytes :=
  match l with
  | [] => []
  | a :: r =>
      if in_range 97 122 a then byte_of (code a - 32) :: fold_key r
      else match r with
           | b :: r1 =>
               if (code a =? 197)%N && (code b =? 191)%N then "S"%char :: fold_key r1
               else match r1 with
                    | c :: r2 =>
                        if (code a =? 226)%N && (code b =? 132)%N && (code c =? 170)%N
                        then "K"%char :: fold_key r2 else a :: fold_key r
                    | [] => a :: fold_key r
                    end
           | [] => a :: fold_key r
           end
  end.

Definition key_is (k : bytes) (name : string) : bool :=
  bool_decide (fold_key k = fold_key (bytes_of name)).

(** Null leaves the Go value unchanged; a mismatched type is an error. *)
Definition decode_int (v : JSON) (old : Z) : option Z :=
  match v with
  | JNull => Some old
  | JNum raw => ParseInt (string_of raw)
  | _ => None
  end.

Definition decode_string (v : JSON) (old : string) : option string :=
  match v with
  | JNull => Some old
  | JStr s => Some (string_of s)
  | _ => None
  end.

Definition json_int (z : Z) : JSON := JNum (bytes_of (FormatInt z)).
Definition json_string (s : string) : JSON := JStr (bytes_of s).

(** ** Round trip *)

Definition is_ascii (l : bytes) : Prop := Forall (λ a, (code a <? 128)%N = true) l.

#[global] Instance is_ascii_dec l : Decision (is_ascii l).
Proof. unfold is_ascii. apply _. Defined.

Lemma escape_bytes_ascii a l :
  (code a <? 128)%N = true → escape_bytes O (a :: l) = escape_ascii a ++ escape_bytes O l.
Proof. intros H. cbn. by rewrite H. Qed.

Lemma parse_escaped a fuel r :
  (code a <? 128)%N = true →
  parse_string (S fuel) (escape_ascii a ++ r) = prepend [a] (parse_string fuel r).
Proof.
  destruct a as [[] [] [] [] [] [] [] []]; intros H; vm_compute in H; try discriminate H; reflexivity.
Qed.

Lemma parse_string_escape l r : is_ascii l → ∀ fuel,
  (List.length l < fuel)%nat → parse_string fuel (escape_bytes O l ++ dquote :: r) = Some (l, r).
Proof.
  induction 1 as [|a l Ha Hl IH]; intros fuel Hf; (destruct fuel as [|fuel]; [cbn in Hf; lia|]).
  - done.
  - rewrite escape_bytes_ascii, <- app_assoc, parse_escaped, IH by (done || cbn in Hf; lia). done.
Qed.

Lemma escape_ascii_length a : (1 ≤ List.length (escape_ascii a))%nat.
Proof. unfold escape_ascii, u_escape. repeat case_match; cbn; lia. Qed.

Lemma escape_bytes_length l : is_ascii l → (List.length l ≤ List.length (escape_bytes O l))%nat.
Proof.
  induction 1 as [|a l Ha Hl IH]; [done|]. rewrite escape_bytes_ascii, length_app by done.
  pose proof (escape_ascii_length a). cbn. lia.
Qed.

(** The string parser on a quoted string, at the fuel the value parser gives. *)
Lemma parse_quoted l r : is_ascii l →
  let body := escape_bytes O l ++ dquote :: r in
  parse_string (S (List.length body)) body = Some (l, r).
Proof.
  intros Hl body. apply parse_string_escape; [done|]. unfold body. rewrite length_app. cbn.
  pose proof (escape_bytes_length l Hl). lia.
Qed.

Fixpoint print_elems (vs : list JSON) : bytes :=
  match vs with
  | [] => []
  | [v] => print v
  | v :: vs => print v ++ ","%char :: print_elems vs
  end.

Fixpoint print_members (ms : list (bytes * JSON)) : bytes :=
  match ms with
  | [] => []
  | [(k, v)] => quote_string k ++ ":"%char :: print v
  | (k, v) :: ms => quote_string k ++ ":"%char :: print v ++ ","%char :: print_members ms
  end.

Lemma print_arr vs : print (JArr vs) = "["%char :: print_elems vs ++ ["]"%char].
Proof. done. Qed.
Lemma print_obj ms : print (JObj ms) = "{"%char :: print_members ms ++ ["}"%char].
Proof. done. Qed.

(** Induction through the nested lists. *)
Lemma JSON_nested_ind (P : JSON → Prop) :
  P JNull → (∀ b, P (JBool b)) → (∀ raw, P (JNum raw)) → (∀ s, P (JStr s)) →
  (∀ vs, Forall P vs → P (JArr vs)) → (∀ ms, Forall (λ m, P m.2) ms → P (JObj ms)) →
  ∀ v, P v.
Proof.
  intros Hn Hb Hm Hs Ha Ho. fix IH 1. intros [| | | |vs|ms].
  - apply Hn.
  - apply Hb.
  - apply Hm.
  - apply Hs.
  - apply Ha. induction vs; constructor; auto.
  - apply Ho. induction ms as [|[k v] ms IHm]; constructor; [apply IH|apply IHm].
Qed.

(** Integers as [FormatInt] prints them, ASCII strings, bounded nesting. *)
Inductive printable : N → JSON → Prop :=
| printable_null d : printable d JNull
| printable_bool d b : printable d (JBool b)
| printable_num d z : printable d (json_int z)
| printable_str d s : is_ascii s → printable d (JStr s)
| printable_arr d vs : (d + 1 <= maxNestingDepth)%N →
    Forall (printable (d + 1)) vs → printable d (JArr vs)
| printable_obj d ms : (d + 1 <= maxNestingDepth)%N →
    Forall (λ m, is_ascii m.1 ∧ printable (d + 1) m.2) ms → printable d (JObj ms).

(** A byte that can follow a printed number. *)
Definition ends_number (rest : bytes) : Prop :=
  match rest with
  | [] => True
  | a :: _ => is_digit a = false ∧ Ascii.eqb a "."%char = false ∧
              Ascii.eqb a "e"%char = false ∧ Ascii.eqb a "E"%char = false
  end.

Lemma span_digits_app d rest :
  Forall (λ a, is_digit a = true) d → ends_number rest → span_digits (d ++ rest) = (d, rest).
Proof.
  intros Hd Hr. induction Hd as [|a d Ha Hd IH]; cbn.
  - destruct rest as [|a r]; [done|]. destruct Hr as [Hr _]. cbn. by rewrite Hr.
  - by rewrite Ha, IH.
Qed.

Lemma string_of_uint_digits d :
  Forall (λ a, is_digit a = true) (bytes_of (DecimalString.NilEmpty.string_of_uint d)).
Proof. induction d; cbn; repeat constructor; done. Qed.

(** The decimal digits of a positive number do not start with a zero. *)
Lemma pos_uint_head p : ∃ a r,
  bytes_of (DecimalString.NilZero.string_of_uint (Pos.to_uint p)) = a :: r ∧
  is_digit a = true ∧ Ascii.eqb a "0"%char = false ∧ Forall (λ a, is_digit a = true) r.
Proof.
  pose proof (DecimalPos.Unsigned.to_uint_nonnil p) as Hn.
  assert (∀ d, Pos.to_uint p ≠ Decimal.D0 d) as Hz.
  { intros d Hd. pose proof (DecimalPos.Unsigned.to_uint_nonzero p) as Hnz.
    pose proof (DecimalPos.Unsigned.to_of (Pos.to_uint p)) as Ho.
    rewrite DecimalPos.Unsigned.of_to in Ho. change (Pos.to_uint p = Decimal.unorm (Pos.to_uint p)) in Ho.
    assert (Decimal.nzhead (Pos.to_uint p) ≠ Decimal.Nil) as Hh.
    { intros Hh. apply DecimalFacts.unorm_0 in Hh. congruence. }
    apply DecimalFacts.unorm_nzhead in Hh.
    apply (DecimalFacts.nzhead_nonzero (Pos.to_uint p) d). congruence. }
  destruct (Pos.to_uint p) as [|d|d|d|d|d|d|d|d|d|d]; try done;
    try (by exfalso; eapply Hz); cbn; eexists _, _;
    (split_and!; [reflexivity|done|done|apply string_of_uint_digits]).
Qed.

Lemma parse_fraction_exponent rest :
  ends_number rest → parse_fraction rest = Some ([], rest) ∧ parse_exponent rest = Some ([], rest).
Proof.
  destruct rest as [|a r]; [done|]. intros (_ & H1 & H2 & H3). cbn. by rewrite H1, H2, H3.
Qed.

Lemma parse_number_int z rest :
  ends_number rest →
  parse_number (bytes_of (FormatInt z) ++ rest) = Some (bytes_of (FormatInt z), rest).
Proof.
  intros Hr. destruct (parse_fraction_exponent rest Hr) as [Hf He]. unfold FormatInt.
  destruct z as [|p|p]; cbn [Z.to_int DecimalString.NilZero.string_of_int].
  - cbn. by rewrite Hf, He.
  - destruct (pos_uint_head p) as (a & r & -> & Ha & Hz & Hd).
    unfold parse_number. cbn [app].
    replace (Ascii.eqb a "-"%char) with false
      by (destruct a as [[] [] [] [] [] [] [] []]; vm_compute in Ha; done).
    cbn [parse_int_part]. rewrite Hz, Ha.
    change (a :: r ++ rest) with ((a :: r) ++ rest).
    rewrite span_digits_app by (done || by constructor). rewrite Hf, He. by rewrite app_nil_r.
  - cbn [list_ascii_of_string]. destruct (pos_uint_head p) as (a & r & -> & Ha & Hz & Hd).
    unfold parse_number. cbn [app Ascii.eqb Bool.eqb andb].
    cbn [parse_int_part]. rewrite Hz, Ha.
    change (a :: r ++ rest) with ((a :: r) ++ rest).
    rewrite span_digits_app by (done || by constructor). rewrite Hf, He. by rewrite app_nil_r.
Qed.

(** The first byte of a printed value is neither white space nor a bracket that
    closes an array. *)
Lemma print_head d v : printable d v →
  ∃ a r, print v = a :: r ∧ is_ws a = false ∧ Ascii.eqb a "]"%char = false.
Proof.
  destruct 1 as [d|d []|d z|d s Hs|d vs|d ms]; try by eexists _, _.
  cbn [json_int print]. unfold FormatInt.
  destruct z as [|p|p]; cbn [Z.to_int DecimalString.NilZero.string_of_int]; try by eexists _, _.
  destruct (pos_uint_head p) as (a & r & -> & Ha & _). exists a, r.
  destruct a as [[] [] [] [] [] [] [] []]; vm_compute in Ha; try discriminate Ha; done.
Qed.

Lemma parse_value_number_head fuel d a r :
  is_digit a || Ascii.eqb a "-"%char = true →
  parse_value (S fuel) d (a :: r) =
  match parse_number (a :: r) with
  | Some (raw, r) => Some (JNum raw, r)
  | None => None
  end.
Proof.
  destruct a as [[] [] [] [] [] [] [] []]; intros H; vm_compute in H; try discriminate H;
    reflexivity.
Qed.

Lemma parse_value_number fuel d z rest :
  ends_number rest →
  parse_value (S fuel) d (bytes_of (FormatInt z) ++ rest) = Some (json_int z, rest).
Proof.
  intros Hr. pose proof (parse_number_int z rest Hr) as Hp. unfold json_int.
  assert (∃ a r, bytes_of (FormatInt z) = a :: r ∧ is_digit a || Ascii.eqb a "-"%char = true)
    as (a & r & He & Ha).
  { unfold FormatInt.
    destruct z as [|p|p]; cbn [Z.to_int DecimalString.NilZero.string_of_int]; try by eexists _, _.
    destruct (pos_uint_head p) as (a & r & -> & Ha & _). exists a, r. by rewrite Ha. }
  rewrite He in *. cbn [app] in *. by rewrite parse_value_number_head, Hp.
Qed.

Lemma skip_ws_head a r : is_ws a = false → skip_ws (a :: r) = a :: r.
Proof. intros H. cbn. by rewrite H. Qed.

Definition parses (v : JSON) : Prop := ∀ d fuel rest,
  printable d v → (List.length (print v) ≤ fuel)%nat → ends_number rest →
  parse_value fuel d (print v ++ rest) = Some (v, rest).

Lemma parse_elems_print vs d : Forall parses vs → Forall (printable d) vs → vs ≠ [] →
  ∀ fuel rest, (List.length (print_elems vs) < fuel)%nat →
  parse_elems fuel d (print_elems vs ++ "]"%char :: rest) = Some (vs, rest).
Proof.
  intros HP Hp. induction HP as [|v vs Hv HP IH]; [done|]. intros _ fuel rest Hf.
  apply Forall_cons in Hp as [Hpv Hp]. destruct fuel as [|fuel]; [lia|].
  destruct vs as [|v' vs].
  - cbn [print_elems] in *. cbn [parse_elems]. rewrite Hv by (done || lia). done.
  - change (print_elems (v :: v' :: vs)) with (print v ++ ","%char :: print_elems (v' :: vs)) in *.
    rewrite length_app in Hf. cbn [List.length] in Hf.
    rewrite <- app_assoc, <- app_comm_cons. cbn [parse_elems].
    rewrite Hv by (done || lia). cbn [skip_ws is_ws]. change (is_ws ","%char) with false. cbn iota.
    change (Ascii.eqb "," "]") with false. change (Ascii.eqb "," ",") with true. cbn iota.
    rewrite IH by (done || lia). done.
Qed.

Lemma parse_members_print ms d :
  Forall (λ m, parses m.2) ms → Forall (λ m, is_ascii m.1 ∧ printable d m.2) ms → ms ≠ [] →
  ∀ fuel rest, (List.length (print_members ms) < fuel)%nat →
  parse_members fuel d (print_members ms ++ "}"%char :: rest) = Some (ms, rest).
Proof.
  intros HP Hp. induction HP as [|[k v] ms Hv HP IH]; [done|]. intros _ fuel rest Hf.
  apply Forall_cons in Hp as [[Hk Hpv] Hp]. cbn [fst snd] in *. destruct fuel as [|fuel]; [lia|].
  destruct ms as [|m ms].
  - cbn [print_members] in *. unfold quote_string in *. rewrite length_app in Hf. cbn in Hf.
    rewrite length_app in Hf. cbn in Hf.
    cbn [app]. rewrite <- !app_assoc. cbn [app parse_members skip_ws].
    change (is_ws dquote) with false. cbn iota. rewrite Ascii.eqb_refl. cbn [negb].
    rewrite parse_quoted by done. cbn [skip_ws]. change (is_ws ":"%char) with false. cbn iota.
    rewrite Ascii.eqb_refl. cbn [negb]. rewrite Hv by (done || lia). done.
  - change (print_members ((k, v) :: m :: ms)) with
      (quote_string k ++ ":"%char :: print v ++ ","%char :: print_members (m :: ms)) in *.
    unfold quote_string in *. rewrite length_app in Hf. cbn [List.length] in Hf.
    rewrite !length_app in Hf. cbn [List.length] in Hf.
    cbn [app]. rewrite <- !app_assoc. cbn [app parse_members skip_ws].
    change (is_ws dquote) with false. cbn iota. rewrite Ascii.eqb_refl. cbn [negb].
    rewrite <- app_assoc. cbn [app].
    rewrite parse_quoted by done. cbn [skip_ws]. change (is_ws ":"%char) with false. cbn iota.
    rewrite Ascii.eqb_refl. cbn [negb]. rewrite Hv by (done || lia). cbn [skip_ws].
    change (is_ws ","%char) with false. cbn iota.
    change (Ascii.eqb "," "}") with false. change (Ascii.eqb "," ",") with true. cbn iota.
    rewrite IH by (done || lia). done.
Qed.

(** Parsing what was printed gives the value back. *)
Lemma parse_value_print v : parses v.
Proof.
  induction v as [|b|raw|s|vs IH|ms IH] using JSON_nested_ind;
    intros d fuel rest Hp Hf Hr; (destruct fuel as [|fuel]; [destruct (print_head _ _ Hp) as
      (? & ? & He & _); rewrite He in Hf; cbn in Hf; lia|]).
  - reflexivity.
  - by destruct b.
  - inversion Hp; subst. by apply parse_value_number.
  - inversion Hp; subst. cbn [print]. unfold quote_string. cbn [app parse_value skip_ws].
    rewrite <- app_assoc. cbn [app]. change (is_ws dquote) with false. cbn iota.
    change (Ascii.eqb dquote "{") with false. change (Ascii.eqb dquote "[") with false.
    rewrite Ascii.eqb_refl. cbn iota. by rewrite parse_quoted.
  - inversion Hp as [| | | |d' vs' Hd Hvs|]; subst. rewrite print_arr in *.
    cbn [List.length] in Hf. rewrite length_app in Hf. cbn [List.length] in Hf.
    cbn [app parse_value skip_ws]. change (is_ws "[") with false. cbn iota.
    change (Ascii.eqb "[" "{") with false. rewrite Ascii.eqb_refl. cbn iota.
    rewrite (proj2 (N.ltb_ge maxNestingDepth (d + 1)%N)) by lia. rewrite <- app_assoc. cbn [app].
    destruct vs as [|v vs]; [done|].
    apply Forall_cons in Hvs as Hvs'. destruct Hvs' as [Hv _].
    destruct (print_head _ _ Hv) as (a & r & Ha & Hw & Hb).
    assert (∃ r', print_elems (v :: vs) = a :: r') as [r' Her].
    { destruct vs; cbn; rewrite Ha; [by exists r|by eexists]. }
    rewrite Her at 1. cbn [app]. rewrite skip_ws_head, Hb by done.
    rewrite parse_elems_print by (done || lia). done.
  - inversion Hp as [| | | | |d' ms' Hd Hms]; subst. rewrite print_obj in *.
    cbn [List.length] in Hf. rewrite length_app in Hf. cbn [List.length] in Hf.
    cbn [app parse_value skip_ws]. change (is_ws "{") with false. cbn iota.
    rewrite Ascii.eqb_refl. cbn iota.
    rewrite (proj2 (N.ltb_ge maxNestingDepth (d + 1)%N)) by lia. rewrite <- app_assoc. cbn [app].
    destruct ms as [|[k v] ms]; [done|].
    assert (∃ r', print_members ((k, v) :: ms) = dquote :: r') as [r' Her].
    { destruct ms; cbn; by eexists. }
    rewrite Her at 1. cbn [app]. rewrite skip_ws_head by done.
    change (Ascii.eqb dquote "}") with false. cbn iota.
    rewrite parse_members_print by (done || lia). done.
Qed.

Lemma parse_print v : printable 0 v → parse (print v) = Some v.
Proof.
  intros Hp. unfold parse. rewrite <- (app_nil_r (print v)) at 2.
  rewrite parse_value_print by (done || lia). done.
Qed.
