(* ===== verification/Injection.v ===== *)
(** * fractiond/internal/injection: what the create hook injects

    Environment keys, CDI device names and the MPS pipe bind mount, shared by
    the create hook ([Plugin]) and the audit detector ([RetroAudit]). *)

From S2P Require Import Prelude GoStrings Annotations.
From stdpp Require Import base gmap strings list.
From Stdlib Require Import ZArith Lia Ascii String.
#[local] Open Scope string_scope.
#[local] Open Scope list_scope.
#[local] Open Scope Z_scope.

Definition EnvGPUMemoryRequest : string := "NVIDIA_GPU_MEMORY_REQUEST".
Definition EnvGPUMemoryLimit : string := "NVIDIA_GPU_MEMORY_LIMIT".
Definition EnvMPSPipeDirectory : string := "CUDA_MPS_PIPE_DIRECTORY".
Definition EnvVisibleDevices : string := "NVIDIA_VISIBLE_DEVICES".

Definition CDIKindDevicePlugin : string := "k8s.device-plugin.nvidia.com/gpu".

(** The Go map [cdiNonDeviceValues], as its membership test. *)
Definition cdiNonDeviceValues (v : string) : bool :=
  String.eqb v "all" || String.eqb v "void" || String.eqb v "none" || String.eqb v "".

Definition CDIDeviceNames (visibleDevices : string) : list string :=
  fold_left
    (λ names device,
       let device := TrimSpace device in
       if cdiNonDeviceValues device then names
       else names ++ [CDIKindDevicePlugin +:+ "=" +:+ device])
    (Split visibleDevices ","%char) [].

Definition AllEnvKeys : list string :=
  [EnvGPUMemoryRequest; EnvGPUMemoryLimit; EnvMPSPipeDirectory; EnvVisibleDevices].

(** Returns [(source, destination)]. *)
Definition MPSPipeMount (mpsPipeDir : string) (mode : ComputeMode) : string * string :=
  if bool_decide (mode = ComputeModeSMSharing)
  then (PathJoin [mpsPipeDir; SharedMPSSocketPath], ContainerMPSPipeDirectory)
  else (mpsPipeDir, mpsPipeDir).
