(* ===== verification/Runtime.v ===== *)
(** * The container-runtime objects fractiond receives, and gpudevices

    The [api.*] types belong to containerd's NRI package; only the fields the
    sources read are kept, as plain data.  A nil pointer is [None] and the
    generated getters return the zero value on nil.  An adjustment is the
    sequence of calls the plugin makes on [api.ContainerAdjustment]; what the
    runtime does with it is the class [NRIRuntime]. *)

From S2P Require Import Prelude GoStrings.
From stdpp Require Import base gmap strings list.
From Stdlib Require Import ZArith Lia Ascii String.
#[local] Open Scope string_scope.
#[local] Open Scope list_scope.
#[local] Open Scope Z_scope.

(** ** NRI objects *)

Inductive ContainerState :=
| CONTAINER_UNKNOWN | CONTAINER_CREATED | CONTAINER_PAUSED
| CONTAINER_RUNNING | CONTAINER_STOPPED.

Record Mount := mkMount {
  Source : string; Destination : string; MountType : string; MountOptions : list string
}.

Record LinuxDevice := mkLinuxDevice { Major : Z; Minor : Z }.

Record LinuxContainer := mkLinuxContainer {
  Devices : list LinuxDevice; CgroupsPath : string
}.

Record Container := mkContainer {
  Id : string;
  PodSandboxId : string;
  Name : string;
  State : ContainerState;
  Env : list string;
  Mounts : list Mount;
  Linux : option LinuxContainer
}.

Record PodSandbox := mkPodSandbox {
  PodId : string;
  PodName : string;
  PodUid : string;
  PodNamespace : string;
  Annotations : gmap string string
}.

(** Nil-safe getters. *)
Definition GetPodAnnotations (p : option PodSandbox) : gmap string string :=
  match p with Some p => Annotations p | None => ∅ end.
Definition GetPodName (p : option PodSandbox) : string :=
  match p with Some p => PodName p | None => "" end.
Definition GetPodNamespace (p : option PodSandbox) : string :=
  match p with Some p => PodNamespace p | None => "" end.
Definition GetPodUid (p : option PodSandbox) : string :=
  match p with Some p => PodUid p | None => "" end.
Definition GetPodId (p : option PodSandbox) : string :=
  match p with Some p => PodId p | None => "" end.
Definition GetPodSandboxId (c : option Container) : string :=
  match c with Some c => PodSandboxId c | None => "" end.

(** The calls a plugin makes on a [*api.ContainerAdjustment], in order. *)
Inductive AdjustmentCall :=
| AddEnv (key value : string)
| RemoveEnv (key : string)
| AddMount (m : Mount)
| AddCDIDevice (name : string).

Abbreviation ContainerAdjustment := (list AdjustmentCall).

Definition with_state (s : ContainerState) (c : Container) : Container :=
  mkContainer (Id c) (PodSandboxId c) (Name c) s (Env c) (Mounts c) (Linux c).

(** What NRI documents about applying an adjustment at container creation: the
    identity of the container is kept, an added variable (its key without ['='])
    that no later call removes or adds again ends up in the environment as ["KEY=VALUE"], and an
    added mount whose destination no other added mount has ends up in the mount
    list. *)
Class NRIRuntime := {
  apply_adjustment : ContainerAdjustment → Container → Container;
  apply_identity : ∀ adj c,
    Id (apply_adjustment adj c) = Id c ∧ Name (apply_adjustment adj c) = Name c ∧
    PodSandboxId (apply_adjustment adj c) = PodSandboxId c;
  apply_env : ∀ pre k v post c,
    Forall (λ a, a ≠ "="%char) (bytes_of k) →
    Forall (λ call, call ≠ RemoveEnv k ∧ ∀ v', call ≠ AddEnv k v') post →
    k +:+ "=" +:+ v ∈ Env (apply_adjustment (pre ++ AddEnv k v :: post) c);
  apply_mount : ∀ adj m c,
    AddMount m ∈ adj →
    (∀ m', AddMount m' ∈ adj → Destination m' = Destination m → m' = m) →
    m ∈ Mounts (apply_adjustment adj c)
}.

(** ** podSandboxLookup

    The same helper exists in [internal/adapter.go] and
    [internal/audit/detector.go]: pods by NRI id, last one wins, empty ids
    skipped. *)
Definition podSandboxLookup (pods : list (option PodSandbox)) : gmap string PodSandbox :=
  fold_left
    (λ out pod,
       match pod with
       | Some p => if String.eqb (PodId p) "" then out else <[PodId p := p]> out
       | None => out
       end) pods ∅.

(** ** mapping/store: the recorded data *)

Record GPUDevice := mkGPUDevice { Index : Z; MinorNumber : Z; UUID : string }.
#[global] Instance GPUDevice_eq_dec : EqDecision GPUDevice.
Proof. solve_decision. Defined.

Record ContainerInfo := mkContainerInfo {
  ContainerID : string;
  CName : string;
  Pod : string;
  Namespace : string;
  PodUID : string;
  CgroupPath : string;
  GPUDevices : slice GPUDevice;
  RequestedMemoryMiB : Z
}.
#[global] Instance ContainerInfo_eq_dec : EqDecision ContainerInfo.
Proof. solve_decision. Defined.

(** ** gpudevices *)

Module gpudevices.

Definition nvidiaDeviceMajor : Z := 195.
Definition maxNVIDIAGPUMinor : Z := 32.

Definition gpuIndexFromLinuxDevice (device : LinuxDevice) : option Z :=
  if negb (Major device =? nvidiaDeviceMajor) then None
  else if (Minor device <? 0) || (maxNVIDIAGPUMinor <? Minor device) then None
  else Some (Minor device).

(** The loop body: [seen] is the Go map [map[int]struct{}]. *)
Definition fromContainer_step (st : gset Z * list GPUDevice) (device : LinuxDevice)
    : gset Z * list GPUDevice :=
  match gpuIndexFromLinuxDevice device with
  | None => st
  | Some index =>
      if bool_decide (index ∈ st.1) then st
      else ({[index]} ∪ st.1, st.2 ++ [mkGPUDevice 0 index ""])
  end.

Definition FromContainer (c : Container) : slice GPUDevice :=
  match Linux c with
  | None => None
  | Some linux => Some (fold_left fromContainer_step (Devices linux) (∅, [])).2
  end.

End gpudevices.

(** ** Lemmas *)

Lemma podSandboxLookup_id pods id p :
  podSandboxLookup pods !! id = Some p → PodId p = id ∧ id ≠ "" ∧ Some p ∈ pods.
Proof.
  unfold podSandboxLookup.
  assert (∀ acc : gmap string PodSandbox,
    (∀ i q, acc !! i = Some q → PodId q = i ∧ i ≠ "" ∧ Some q ∈ pods) →
    ∀ l, (∀ x, x ∈ l → x ∈ pods) → ∀ i q,
      fold_left (λ out pod, match pod with
        | Some p => if String.eqb (PodId p) "" then out else <[PodId p := p]> out
        | None => out end) l acc !! i = Some q → PodId q = i ∧ i ≠ "" ∧ Some q ∈ pods) as H.
  { intros acc Hacc l. revert acc Hacc. induction l as [|x l IH]; intros acc Hacc Hl; cbn; [done|].
    apply IH; [|set_solver]. destruct x as [q|]; [|done].
    destruct (String.eqb_spec (PodId q) "") as [|Hne]; [done|].
    intros i r. rewrite lookup_insert. case_decide; [|apply Hacc].
    intros [= <-]. subst i. split_and!; [done..|]. apply Hl. set_solver. }
  intros Hl. eapply (H ∅); [|done|exact Hl]. intros i q. by rewrite lookup_empty.
Qed.

Definition minor_device (z : Z) : GPUDevice := mkGPUDevice 0 z "".

Lemma gpuIndexFromLinuxDevice_spec d i :
  gpudevices.gpuIndexFromLinuxDevice d = Some i ↔ d = mkLinuxDevice 195 i ∧ 0 ≤ i ≤ 32.
Proof.
  unfold gpudevices.gpuIndexFromLinuxDevice, gpudevices.nvidiaDeviceMajor,
    gpudevices.maxNVIDIAGPUMinor. destruct d as [maj min]; cbn.
  destruct (Z.eqb_spec maj 195) as [->|]; cbn; [|by split; [|intros [[= ->] _]]].
  destruct (Z.ltb_spec min 0), (Z.ltb_spec 32 min); cbn; split;
    (intros [= ->] || intros [[= ->] ?]); try done; lia.
Qed.

Lemma fromContainer_loop l : ∀ ids,
  NoDup ids →
  ∃ ids', fold_left gpudevices.fromContainer_step l (list_to_set ids, map minor_device ids) =
            (list_to_set ids', map minor_device ids') ∧
          NoDup ids' ∧
          ∀ z, z ∈ ids' ↔ z ∈ ids ∨ mkLinuxDevice 195 z ∈ l ∧ 0 ≤ z ≤ 32.
Proof.
  induction l as [|x l IH]; intros ids Hids; cbn.
  { exists ids. split_and!; [done..|]. intros z. rewrite elem_of_nil. tauto. }
  unfold gpudevices.fromContainer_step at 2.
  destruct (gpudevices.gpuIndexFromLinuxDevice x) as [i|] eqn:Ei; cbn.
  - apply gpuIndexFromLinuxDevice_spec in Ei as [-> Hi]. case_bool_decide as Hin.
    + apply elem_of_list_to_set in Hin.
      destruct (IH ids Hids) as (ids' & Hf & Hn & Hm). exists ids'. split_and!; [done..|].
      intros z. rewrite Hm, elem_of_cons. split; [tauto|].
      intros [?|[[[= ->]|?] ?]]; tauto.
    + rewrite elem_of_list_to_set in Hin.
      destruct (IH (ids ++ [i])) as (ids' & Hf & Hn & Hm).
      { apply NoDup_app. split_and!; [done| |apply NoDup_singleton].
        intros y Hy ->%list_elem_of_singleton. done. }
      exists ids'. split_and!; [|done|].
      * rewrite <- Hf. f_equal. rewrite list_to_set_app_L, map_app. cbn. f_equal.
        rewrite union_empty_r_L. apply union_comm_L.
      * intros z. rewrite Hm, elem_of_app, list_elem_of_singleton, elem_of_cons. split.
        -- intros [[?| ->]|?]; tauto.
        -- intros [?|[[[= ->]|?] ?]]; tauto.
  - destruct (IH ids Hids) as (ids' & Hf & Hn & Hm). exists ids'. split_and!; [done..|].
    intros z. rewrite Hm, elem_of_cons. split; [tauto|].
    intros [?|[[<-|?] ?]]; [tauto| |tauto].
    assert (gpudevices.gpuIndexFromLinuxDevice (mkLinuxDevice 195 z) = Some z) as He
      by by apply gpuIndexFromLinuxDevice_spec. congruence.
Qed.

(** The recorded GPU devices of a container are exactly its NVIDIA GPU device
    nodes: a minor number is recorded iff some node has major 195 and that minor
    in 0..32, each is recorded once, the legacy [Index]/[UUID] fields are left
    unset, and the slice is nil iff the container has no Linux section. *)
Theorem FromContainer_devices c :
  (gpudevices.FromContainer c = None ↔ Linux c = None) ∧
  NoDup (map MinorNumber (elems (gpudevices.FromContainer c))) ∧
  (∀ d, d ∈ elems (gpudevices.FromContainer c) ↔
     Index d = 0 ∧ UUID d = "" ∧ 0 ≤ MinorNumber d ≤ 32 ∧
     ∃ linux, Linux c = Some linux ∧ mkLinuxDevice 195 (MinorNumber d) ∈ Devices linux).
Proof.
  unfold gpudevices.FromContainer. destruct (Linux c) as [linux|].
  2: { split_and!; [done|constructor|]. intros d.
       split; [by intros ?%elem_of_nil|by intros (_ & _ & _ & ? & ? & _)]. }
  destruct (fromContainer_loop (Devices linux) [] (NoDup_nil_2)) as (ids & Hf & Hn & Hm).
  cbn in Hf. rewrite Hf. cbn. split_and!; [done| |].
  - rewrite map_map. by rewrite map_id.
  - intros [i m u]. cbn. rewrite list_elem_of_In, in_map_iff. split.
    + intros (z & [= <- <- <-] & Hz). apply list_elem_of_In, Hm in Hz as [[]%elem_of_nil|[? ?]].
      eauto 10.
    + intros (-> & -> & ? & ? & [= <-] & ?). exists m. split; [done|].
      apply list_elem_of_In, Hm. auto.
Qed.
