(* ===== verification/Store.v ===== *)
(** * common/mapping/store: the container -> pod mapping

    [ContainerStore] is the in-memory implementation of the [Writer] and
    [Reader] interfaces: a Go map from container ID to [ContainerInfo], here a
    [gmap].  Go iterates over a map in an unspecified order, so [MatchCgroupPaths]
    takes the order of each [range] as an argument; the theorems quantify over
    all of them.  The [Writer] interface is the class [StoreWriter]; the
    filesystem store of [FsStore] is its other instance. *)

From S2P Require Import Prelude GoStrings Runtime.
From stdpp Require Import base gmap strings list.
From Stdlib Require Import ZArith Lia Ascii String.
#[local] Open Scope string_scope.
#[local] Open Scope list_scope.
#[local] Open Scope Z_scope.

(** ** The Writer interface *)

Class StoreWriter (St : Type) := {
  Upsert : ContainerInfo → St → St;
  Delete : string → St → St;
  Replace : list ContainerInfo → St → St
}.

(** ** Normalisation of container IDs and cgroup paths *)

Definition normalizeContainerID (containerID : string) : string :=
  let containerID := TrimSpace containerID in
  if String.eqb containerID "" then ""
  else
    let containerID :=
      match LastIndex containerID "://" with
      | Some idx => str_drop (idx + 3) containerID
      | None => containerID
      end in
    TrimChar containerID slash.

(** [for strings.Contains(path, "//") { path = strings.ReplaceAll(path, "//", "/") }]
    with fuel: every round shortens the path. *)
Fixpoint collapse_slashes (fuel : nat) (path : string) : string :=
  match fuel with
  | O => path
  | S fuel =>
      if Contains path "//" then collapse_slashes fuel (ReplaceAll path "//" "/")
      else path
  end.

Definition normalizeCgroupPath (path : string) : string :=
  let path := TrimSpace path in
  if String.eqb path "" then ""
  else
    let path := if negb (HasPrefix path "/") then "/" +:+ path else path in
    let path := collapse_slashes (String.length path) path in
    if negb (String.eqb path "/") then TrimRightChar path slash else path.

Definition cgroupPathContains (processPath containerPath : string) : bool :=
  let processPath := normalizeCgroupPath processPath in
  let containerPath := normalizeCgroupPath containerPath in
  if String.eqb processPath "" || String.eqb containerPath "" || String.eqb containerPath "/"
  then false
  else String.eqb processPath containerPath || HasPrefix processPath (containerPath +:+ "/").

Definition cgroupPathContainsContainerID (processPath containerID : string) : bool :=
  let processPath := normalizeCgroupPath processPath in
  let containerID := normalizeContainerID containerID in
  if String.eqb processPath "" || String.eqb containerID "" then false
  else Contains processPath containerID.

Definition cgroupPathMatchesContainer (processPath : string) (container : ContainerInfo) : bool :=
  if cgroupPathContains processPath (CgroupPath container) then true
  else cgroupPathContainsContainerID processPath (ContainerID container).

(** ** ContainerStore *)

Module ContainerStore.

Abbreviation t := (gmap string ContainerInfo).

Definition NewContainerStore : t := ∅.

Definition Replace (containers : list ContainerInfo) (s : t) : t :=
  fold_left
    (λ next container,
       if String.eqb (ContainerID container) "" then next
       else <[ContainerID container := container]> next) containers ∅.

Definition Upsert (container : ContainerInfo) (s : t) : t :=
  if String.eqb (ContainerID container) "" then s
  else <[ContainerID container := container]> s.

(** The deletions inside the [range] over the same map remove exactly the
    entries whose key normalises to the same ID. *)
Definition Delete (containerID : string) (s : t) : t :=
  if String.eqb containerID "" then s
  else
    let s := delete containerID s in
    let normalized := normalizeContainerID containerID in
    if String.eqb normalized "" then s
    else filter (λ '(storedID, _), normalizeContainerID storedID ≠ normalized) s.

Definition values (s : t) : list ContainerInfo := (map_to_list s).*2.

(** [order n] is the order in which the [range] of the n-th path visits the
    values of the map. *)
Fixpoint match_paths (order : nat → list ContainerInfo) (n : nat) (paths : list string)
    : option ContainerInfo :=
  match paths with
  | [] => None
  | path :: rest =>
      match List.find (cgroupPathMatchesContainer path) (order n) with
      | Some container => Some container
      | None => match_paths order (S n) rest
      end
  end.

Definition MatchCgroupPaths (order : nat → list ContainerInfo) (paths : list string)
    : option ContainerInfo := match_paths order O paths.

Definition ActivePodUIDs (s : t) : gset string :=
  fold_right (λ c out, if String.eqb (PodUID c) "" then out else {[PodUID c]} ∪ out) ∅ (values s).

(** The order of the returned slice is the iteration order, left unspecified. *)
Definition ActiveContainers (order : nat → list ContainerInfo) : list ContainerInfo :=
  fold_left (λ out c, out ++ [c]) (order O) [].

End ContainerStore.

#[global] Instance ContainerStore_writer : StoreWriter ContainerStore.t := {
  Upsert := ContainerStore.Upsert;
  Delete := ContainerStore.Delete;
  Replace := ContainerStore.Replace
}.

(** ** Lemmas: cgroup paths as component lists *)

(** The non-empty components of a slash-separated path. *)
Definition nonempty_words (ws : list (list ascii)) : list (list ascii) := filter (λ w, w ≠ []) ws.
Definition components (p : string) : list (list ascii) :=
  nonempty_words (split_list slash (bytes_of p)).

(** One round of [ReplaceAll path "//" "/"] on bytes. *)
Fixpoint collapse1 (l : list ascii) : list ascii :=
  match l with
  | c :: r =>
      if Ascii.eqb c slash
      then match r with
           | d :: r' => if Ascii.eqb d slash then slash :: collapse1 r' else c :: collapse1 r
           | [] => [c]
           end
      else c :: collapse1 r
  | [] => []
  end.

(** Two adjacent slashes occur. *)
Fixpoint double_slash (l : list ascii) : bool :=
  match l with
  | c :: r =>
      match r with
      | d :: _ => (Ascii.eqb c slash && Ascii.eqb d slash) || double_slash r
      | [] => false
      end
  | [] => false
  end.

Lemma collapse1_cons c d l :
  collapse1 (c :: d :: l) =
  if Ascii.eqb c slash && Ascii.eqb d slash then slash :: collapse1 l else c :: collapse1 (d :: l).
Proof. cbn [collapse1]. destruct (Ascii.eqb c slash); [|done]. by destruct (Ascii.eqb d slash). Qed.

Lemma double_slash_cons c d l :
  double_slash (c :: d :: l) = (Ascii.eqb c slash && Ascii.eqb d slash) || double_slash (d :: l).
Proof. done. Qed.

Lemma split_list_cons c l :
  ∃ w ws, split_list slash l = w :: ws ∧
    split_list slash (c :: l) = if Ascii.eqb c slash then [] :: w :: ws else (c :: w) :: ws.
Proof.
  assert (∃ w ws, split_list slash l = w :: ws) as (w & ws & H).
  { destruct l as [|x l]; cbn; [eauto|]. destruct (Ascii.eqb x slash); [eauto|].
    destruct (split_list slash l); eauto. }
  exists w, ws. split; [done|]. cbn. by rewrite H.
Qed.

Lemma HasPrefix_double_slash c r :
  HasPrefix (String c r) "//" =
  match r with
  | String d _ => Ascii.eqb c slash && Ascii.eqb d slash
  | EmptyString => false
  end.
Proof.
  rewrite HasPrefix_cons. change (Ascii.eqb c "/") with (Ascii.eqb c slash).
  destruct r as [|d r]; [apply andb_false_r|]. rewrite HasPrefix_cons.
  replace (HasPrefix r "") with true by by destruct r. by rewrite andb_true_r.
Qed.

Lemma Contains_double_slash s : Contains s "//" = double_slash (bytes_of s).
Proof.
  induction s as [|c s IH]; [done|].
  change (Contains (String c s) "//") with
    (if HasPrefix (String c s) "//" then true else Contains s "//").
  rewrite HasPrefix_double_slash, IH. destruct s as [|d s]; [done|].
  cbn [list_ascii_of_string double_slash]. by destruct (_ && _).
Qed.

(** Induction two list cells at a time. *)
Lemma list_ind2 {A} (P : list A → Prop) :
  P [] → (∀ a, P [a]) → (∀ a b l, P l → P (b :: l) → P (a :: b :: l)) → ∀ l, P l.
Proof.
  intros H0 H1 H2 l. assert (P l ∧ ∀ a, P (a :: l)) as [? _]; [|done].
  induction l as [|b l [IHl IHc]]; split; auto.
Qed.

Lemma replace_double_slash l :
  ReplaceAll (string_of l) "//" "/" = string_of (collapse1 l).
Proof.
  unfold ReplaceAll. induction l as [|c|c d l IH1 IH2] using list_ind2; [done| |].
  - cbn [string_of_list_ascii replace_from]. rewrite HasPrefix_double_slash.
    cbn. by destruct (Ascii.eqb c slash).
  - change (replace_from "//" "/" 0 (string_of (c :: d :: l))) with
      (if HasPrefix (String c (String d (string_of l))) "//"
       then "/" +:+ replace_from "//" "/" 0 (string_of l)
       else String c (replace_from "//" "/" 0 (string_of (d :: l)))).
    rewrite HasPrefix_double_slash, IH1, IH2, collapse1_cons. by destruct (_ && _).
Qed.

Lemma collapse1_length l :
  (List.length (collapse1 l) ≤ List.length l)%nat ∧
  (double_slash l = true → List.length (collapse1 l) < List.length l)%nat.
Proof.
  induction l as [|c|c d l IH1 IH2] using list_ind2; [done| |].
  - cbn. destruct (Ascii.eqb c slash); done.
  - rewrite collapse1_cons, double_slash_cons.
    destruct IH1 as [IH1 _], IH2 as [IH2 IH2'].
    change (List.length (c :: d :: l)) with (S (List.length (d :: l))).
    change (List.length (d :: l)) with (S (List.length l)) in *.
    destruct (_ && _); cbn [orb List.length]; split; try lia.
    intros H. specialize (IH2' H). lia.
Qed.

(** Collapsing keeps the first word and the non-empty words after it. *)
Lemma collapse1_words l :
  ∃ w ws ws', split_list slash l = w :: ws ∧ split_list slash (collapse1 l) = w :: ws' ∧
    nonempty_words ws' = nonempty_words ws.
Proof.
  induction l as [|c|c d l IH1 IH2] using list_ind2.
  - by exists [], [], [].
  - cbn. destruct (Ascii.eqb c slash) eqn:E; cbn; rewrite ?E; eauto 10.
  - rewrite collapse1_cons. destruct (_ && _) eqn:E.
    + apply andb_true_iff in E as [->%Ascii.eqb_eq ->%Ascii.eqb_eq].
      destruct IH1 as (w & ws & ws' & H1 & H2 & H3). cbn. rewrite H1, H2.
      eexists _, _, _. split_and!; [done..|]. unfold nonempty_words in *.
      rewrite (filter_cons_False _ []) by auto. rewrite !filter_cons. case_decide; congruence.
    + destruct IH2 as (w & ws & ws' & H1 & H2 & H3).
      destruct (split_list_cons c (d :: l)) as (? & ? & H1' & ->).
      destruct (split_list_cons c (collapse1 (d :: l))) as (? & ? & H2' & ->).
      rewrite H1 in H1'. rewrite H2 in H2'. simplify_eq.
      destruct (Ascii.eqb c slash); eexists _, _, _; (split_and!; [done..|]); [|done].
      unfold nonempty_words in *. rewrite !filter_cons. case_decide; congruence.
Qed.

Lemma collapse1_components l :
  nonempty_words (split_list slash (collapse1 l)) = nonempty_words (split_list slash l).
Proof.
  destruct (collapse1_words l) as (w & ws & ws' & -> & -> & H).
  unfold nonempty_words in *. rewrite !filter_cons. case_decide; congruence.
Qed.

Lemma collapse1_head l : head (collapse1 l) = head l.
Proof.
  destruct l as [|c [|d l]]; cbn; [done|by destruct (Ascii.eqb c slash)|].
  destruct (Ascii.eqb_spec c slash) as [->|]; [|done]. by destruct (Ascii.eqb d slash).
Qed.

(** The fuel [length path] is enough: the loop ends, without double slashes,
    with the same components and the same first byte. *)
Lemma collapse_slashes_spec fuel l :
  (List.length l ≤ fuel)%nat →
  ∃ l', collapse_slashes fuel (string_of l) = string_of l' ∧
    double_slash l' = false ∧ head l' = head l ∧
    nonempty_words (split_list slash l') = nonempty_words (split_list slash l).
Proof.
  revert l. induction fuel as [|fuel IH]; intros l Hl; cbn [collapse_slashes].
  { destruct l; [|cbn in Hl; lia]. by exists []. }
  rewrite Contains_double_slash, list_ascii_of_string_of_list_ascii.
  destruct (double_slash l) eqn:E; [|by exists l].
  rewrite replace_double_slash. destruct (collapse1_length l) as [_ Hlt].
  destruct (IH (collapse1 l)) as (l' & H1 & H2 & H3 & H4); [specialize (Hlt E); lia|].
  exists l'. rewrite H3, H4. split_and!; [done..|apply collapse1_head|apply collapse1_components].
Qed.

(** The absolute path with components [ws], without its trailing slash. *)
Definition canon (ws : list (list ascii)) : list ascii := List.concat (map (cons slash) ws).

Definition slash_free (w : list ascii) : Prop := Forall (λ c, c ≠ slash) w.

Lemma canon_app a b : canon (a ++ b) = canon a ++ canon b.
Proof. unfold canon. by rewrite map_app, concat_app. Qed.

Lemma split_list_slash_free l : Forall slash_free (split_list slash l).
Proof.
  induction l as [|c l IH]; [by repeat constructor|].
  destruct (split_list_cons c l) as (w & ws & H & ->). rewrite H in IH.
  apply Forall_cons in IH as [Hw Hws].
  destruct (Ascii.eqb_spec c slash); repeat constructor; auto.
Qed.

Lemma components_slash_free p : Forall (λ w, slash_free w ∧ w ≠ []) (components p).
Proof.
  unfold components, nonempty_words. apply Forall_forall. intros w.
  rewrite list_elem_of_filter. intros [Hne Hin]. split; [|done].
  pose proof (split_list_slash_free (bytes_of p)) as Hall. by eapply Forall_forall in Hall.
Qed.

(** Splitting a canonical path gives its components back. *)
Lemma split_canon ws rest :
  Forall slash_free ws →
  split_list slash (canon ws ++ slash :: rest) = [] :: ws ++ split_list slash rest.
Proof.
  intros H. induction H as [|w ws Hw Hws IH]; [done|].
  unfold canon in *. cbn [map List.concat]. rewrite <- !app_comm_cons, <- app_assoc. cbn [split_list].
  rewrite Ascii.eqb_refl. f_equal.
  destruct ws as [|w' ws]; [by apply split_list_sep|].
  cbn [map List.concat] in *. rewrite <- app_assoc, <- app_comm_cons in *.
  rewrite split_list_sep by done. cbn [split_list] in IH. rewrite Ascii.eqb_refl in IH.
  injection IH as IH. by rewrite IH.
Qed.

(** Without double slashes only the last word can be empty. *)
Lemma no_double_slash_words r :
  double_slash r = false →
  ∃ w ws, split_list slash r = w :: ws ∧ slash :: r = canon (w :: ws) ∧
    (ws = [] ∨ ∃ k z, ws = k ++ [z] ∧ Forall (λ w, w ≠ []) k).
Proof.
  induction r as [|c r IH]; intros Hd.
  { by exists [], []; split_and!; [..|left]. }
  assert (double_slash r = false) as Hr.
  { destruct r; [done|]. rewrite double_slash_cons in Hd. by bool_simpl. }
  destruct (IH Hr) as (w & ws & H1 & H2 & H3).
  destruct (split_list_cons c r) as (w' & ws' & H1' & ->).
  rewrite H1 in H1'. simplify_eq.
  destruct (Ascii.eqb_spec c slash) as [->|Hc].
  - eexists _, _. split_and!; [done| |].
    + unfold canon in *. cbn [map List.concat] in *. by rewrite <- app_comm_cons, app_nil_l, <- H2.
    + right. destruct H3 as [->|(k & z & -> & Hk)]; [by exists [], w'|].
      exists (w' :: k), z. split; [done|]. constructor; [|done]. intros ->.
      destruct r as [|d r]; [by destruct k|].
      rewrite double_slash_cons, Ascii.eqb_refl in Hd. cbn in Hd. bool_simpl.
      destruct (split_list_cons d r) as (? & ? & _ & Hs). rewrite H1 in Hs.
      rewrite H in Hs. by simplify_eq.
  - eexists _, _. split_and!; [done| |done].
    unfold canon in *. cbn [map List.concat] in *. injection H2 as ->. by rewrite <- !app_comm_cons.
Qed.

Lemma drop_trailing w : slash_free w → w ≠ [] → ∀ l,
  rev (drop_char slash (rev (l ++ w))) = l ++ w ∧
  rev (drop_char slash (rev ((l ++ w) ++ [slash]))) = l ++ w.
Proof.
  intros Hf Hne l. destruct (exists_last Hne) as (w' & z & ->).
  apply Forall_app in Hf as [_ [Hz _]%Forall_cons].
  rewrite (app_assoc l), !rev_app_distr. cbn. rewrite (proj2 (Ascii.eqb_neq z slash)) by done.
  cbn. by rewrite <- rev_app_distr, rev_involutive.
Qed.

Lemma drop_trailing_canon ws :
  Forall (λ w, slash_free w ∧ w ≠ []) ws → ws ≠ [] →
  rev (drop_char slash (rev (canon ws))) = canon ws ∧
  rev (drop_char slash (rev (canon ws ++ [slash]))) = canon ws.
Proof.
  intros Hall Hne. destruct (exists_last Hne) as (k & z & ->).
  apply Forall_app in Hall as [_ [[Hz Hzn] _]%Forall_cons].
  rewrite canon_app. unfold canon at 2 4 6 8. cbn [map List.concat]. rewrite app_nil_r.
  replace (canon k ++ slash :: z) with ((canon k ++ [slash]) ++ z) by by rewrite <- app_assoc.
  by apply drop_trailing.
Qed.

Lemma canon_nil_iff ws : canon ws = [] ↔ ws = [].
Proof. by destruct ws. Qed.

Lemma string_of_inj a b : string_of a = string_of b → a = b.
Proof.
  intros H. by rewrite <- (list_ascii_of_string_of_list_ascii a), H,
    list_ascii_of_string_of_list_ascii.
Qed.

Lemma canon_neq_root ws : Forall (λ w, slash_free w ∧ w ≠ []) ws → ws ≠ [] → canon ws ≠ [slash].
Proof.
  intros H Hne. destruct H as [|w ws [_ Hw] _]; [done|]. unfold canon. cbn.
  intros [= H]. by apply app_eq_nil in H as [-> _].
Qed.

(** A rooted path without double slashes, its trailing slash dropped, is the
    canonical path of its components. *)
Lemma trim_rooted r :
  double_slash (slash :: r) = false →
  let ws := nonempty_words (split_list slash (slash :: r)) in
  (ws = [] ∧ slash :: r = [slash]) ∨
  (ws ≠ [] ∧ slash :: r ≠ [slash] ∧ rev (drop_char slash (rev (slash :: r))) = canon ws).
Proof.
  intros Hd ws.
  assert (Forall (λ w, slash_free w ∧ w ≠ []) ws) as Hws.
  { pose proof (components_slash_free (string_of (slash :: r))) as H. unfold components in H.
    by rewrite list_ascii_of_string_of_list_ascii in H. }
  destruct (no_double_slash_words (slash :: r) Hd) as (w & vs & Hs & Hc & Hk).
  cbn [split_list] in Hs. rewrite Ascii.eqb_refl in Hs. injection Hs as <- Hvs.
  unfold canon in Hc. cbn [map List.concat] in Hc. injection Hc as Hc.
  change (slash :: r = canon vs) in Hc.
  assert (ws = nonempty_words vs) as Hw.
  { subst ws. unfold nonempty_words. cbn [split_list]. rewrite Ascii.eqb_refl, Hvs.
    by rewrite filter_cons_False by auto. }
  destruct Hk as [->|(k & z & -> & Hk)]; [done|].
  assert (nonempty_words k = k) as Hkk.
  { clear -Hk. unfold nonempty_words. induction Hk; [done|].
    rewrite filter_cons_True by done. congruence. }
  unfold nonempty_words in Hw, Hkk. rewrite filter_app, Hkk in Hw.
  rewrite canon_app in Hc. destruct (decide (z = [])) as [->|Hz].
  - rewrite filter_cons_False, filter_nil, app_nil_r in Hw by auto.
    unfold canon at 2 in Hc. cbn in Hc. rewrite Hc, Hw in *.
    destruct k as [|w k]; [by left|]. right. split_and!; [done| |by apply drop_trailing_canon].
    intros He. apply (app_inj_2 _ [] [slash] [slash]) in He as [He _]; [|done].
    by apply canon_nil_iff in He.
  - rewrite filter_cons_True, filter_nil in Hw by auto. rewrite Hc, <- canon_app, <- Hw.
    assert (ws ≠ []) by (rewrite Hw; by destruct k).
    right. split_and!; [done|by apply canon_neq_root|by apply drop_trailing_canon].
Qed.

(** [normalizeCgroupPath] computes the canonical absolute path. *)
Lemma normalizeCgroupPath_canon p :
  normalizeCgroupPath p =
  if String.eqb (TrimSpace p) "" then ""
  else match components (TrimSpace p) with
       | [] => "/"
       | ws => string_of (canon ws)
       end.
Proof.
  unfold normalizeCgroupPath. destruct (String.eqb_spec (TrimSpace p) "") as [|Hne]; [done|].
  set (s := TrimSpace p) in *. clearbody s. clear p.
  assert (∃ r, (if negb (HasPrefix s "/") then "/" +:+ s else s) = string_of (slash :: r) ∧
               nonempty_words (split_list slash (slash :: r)) = components s) as (r & -> & <-).
  { destruct s as [|c s]; [done|]. rewrite HasPrefix_cons. replace (HasPrefix s "") with true
      by by destruct s. rewrite andb_true_r. change (Ascii.eqb c "/") with (Ascii.eqb c slash).
    destruct (Ascii.eqb_spec c slash) as [->|Hc]; cbn [negb].
    - exists (bytes_of s). split; [cbn; by rewrite string_of_list_ascii_of_string|done].
    - exists (c :: bytes_of s). split; [cbn; by rewrite string_of_list_ascii_of_string|].
      unfold components, nonempty_words. remember (c :: bytes_of s) as l. cbn [split_list].
      rewrite Ascii.eqb_refl, filter_cons_False by auto. by subst l. }
  destruct (collapse_slashes_spec (String.length (string_of (slash :: r))) (slash :: r))
    as (l' & -> & Hd & Hh & <-).
  { clear. generalize (slash :: r). intros l. induction l; cbn; lia. }
  destruct l' as [|x l']; [done|]. cbn in Hh. injection Hh as ->.
  destruct (trim_rooted l' Hd) as [[Hw He]|(Hw & He & Ht)].
  - by rewrite Hw, He.
  - destruct (nonempty_words _) as [|w ws]; [done|].
    rewrite (proj2 (String.eqb_neq (string_of (slash :: l')) "/")).
    + unfold TrimRightChar. cbn [negb]. by rewrite list_ascii_of_string_of_list_ascii, Ht.
    + intros H. by apply (string_of_inj (slash :: l') [slash]) in H.
Qed.

Lemma HasPrefix_bytes a b : HasPrefix (string_of a) (string_of b) = true ↔ b `prefix_of` a.
Proof.
  rewrite HasPrefix_spec. split.
  - intros [r H]. exists (bytes_of r). apply (f_equal list_ascii_of_string) in H.
    by rewrite bytes_of_app, !list_ascii_of_string_of_list_ascii in H.
  - intros [k ->]. exists (string_of k). induction b as [|x b IH]; [done|]. cbn.
    by rewrite str_app_cons, IH.
Qed.

Lemma canon_inj a b :
  Forall slash_free a → Forall slash_free b → canon a = canon b → a = b.
Proof.
  intros Ha Hb H. pose proof (split_canon a [] Ha) as H1. pose proof (split_canon b [] Hb) as H2.
  rewrite H in H1. rewrite H2 in H1. injection H1 as H1. by apply app_inj_2 in H1 as [-> _].
Qed.

(** Strictly below in the component tree is a byte prefix up to a slash. *)
Lemma canon_prefix a b :
  Forall slash_free a → Forall slash_free b →
  canon a ++ [slash] `prefix_of` canon b ↔ ∃ k, k ≠ [] ∧ b = a ++ k.
Proof.
  intros Ha Hb. split.
  - intros [k Hk]. rewrite <- app_assoc in Hk.
    pose proof (split_canon a (k ++ [slash]) Ha) as H1.
    pose proof (split_canon b [] Hb) as H2. rewrite Hk, <- app_assoc in H2. cbn [app] in H1, H2.
    rewrite H1 in H2. injection H2 as H2.
    destruct (exists_last (l := split_list slash (k ++ [slash]))) as (vs & z & Hvs).
    { destruct k as [|x k]; [done|]. destruct (split_list_cons x (k ++ [slash])) as (? & ? & _ & H3).
      cbn [app]. rewrite H3. by destruct (Ascii.eqb x slash). }
    rewrite Hvs, app_assoc in H2. apply app_inj_2 in H2 as [H2 _]; [|done].
    exists vs. split; [|done]. intros ->.
    destruct k as [|x k]; [done|]. destruct (split_list_cons x (k ++ [slash])) as (? & ? & H4 & H3).
    cbn [app] in Hvs. rewrite H3 in Hvs. destruct (Ascii.eqb x slash); simplify_eq/=.
    clear -H4. revert H4. generalize x0. induction k as [|y k IH]; intros w; [done|].
    destruct (split_list_cons y (k ++ [slash])) as (? & ? & H & He). cbn [app]. rewrite He.
    destruct (Ascii.eqb y slash); [done|]. intros [= ? ->]. eauto.
  - intros ([|w k] & Hk & ->); [done|]. rewrite canon_app. exists (w ++ canon k).
    by rewrite <- app_assoc.
Qed.

(** A process belongs to a container's cgroup exactly when the container's
    path is a non-empty component-wise prefix of the process's path.  Surrounding
    white space, a missing leading slash, repeated and trailing slashes do not
    matter, and "/a/pod1" never captures "/a/pod12": the textual comparison of
    normalised paths is the subtree relation on path components. *)
Theorem cgroupPathContains_subtree processPath containerPath :
  cgroupPathContains processPath containerPath = true ↔
  components (TrimSpace containerPath) ≠ [] ∧
  components (TrimSpace containerPath) `prefix_of` components (TrimSpace processPath).
Proof.
  unfold cgroupPathContains. rewrite !normalizeCgroupPath_canon.
  set (p := TrimSpace processPath). set (c := TrimSpace containerPath).
  assert (∀ s, Forall slash_free (components s)) as Hsf.
  { intros s. apply (Forall_impl _ _ _ (components_slash_free s)). by intros ? [? _]. }
  destruct (String.eqb_spec c "") as [->|Hc].
  { rewrite orb_true_r. split; [done|by intros [? _]]. }
  destruct (components c) as [|w ws] eqn:Ec.
  { rewrite !orb_true_r. split; [done|by intros [? _]]. }
  pose proof (Hsf c) as Hsc. pose proof (components_slash_free c) as Hcc. rewrite Ec in Hsc, Hcc.
  rewrite (proj2 (String.eqb_neq (string_of (canon (w :: ws))) "")) by done.
  rewrite (proj2 (String.eqb_neq (string_of (canon (w :: ws))) "/")).
  2: { intros H. apply (string_of_inj _ [slash]) in H. by apply canon_neq_root in H. }
  replace (string_of (canon (w :: ws)) +:+ "/") with (string_of (canon (w :: ws) ++ [slash])).
  2: { generalize (canon (w :: ws)). intros l. induction l as [|x l IH]; [done|]. cbn.
       by rewrite IH, str_app_cons. }
  destruct (String.eqb_spec p "") as [->|Hp]; cbn [orb].
  { cbn. split; [done|]. intros [_ [k Hk]]. done. }
  destruct (components p) as [|v vs] eqn:Ep; cbn [orb].
  { split; [|by intros [_ [k Hk]]]. change (String.eqb "/" "") with false. cbn [orb].
    change "/" with (string_of [slash]).
    rewrite orb_true_iff, String.eqb_eq, HasPrefix_bytes. intros [H|[k Hk]].
    - apply string_of_inj in H. symmetry in H. by apply canon_neq_root in H.
    - unfold canon in Hk. cbn in Hk. injection Hk as Hk. by destruct w, (List.concat _). }
  pose proof (Hsf p) as Hsp. rewrite Ep in Hsp. remember (w :: ws) as a. remember (v :: vs) as b.
  rewrite (proj2 (String.eqb_neq (string_of (canon b)) "")) by by subst.
  cbn [orb]. rewrite orb_true_iff, String.eqb_eq, HasPrefix_bytes, canon_prefix by done. split.
  - intros [H|(k & _ & ->)]; (split; [by subst a|]); [|by exists k].
    apply string_of_inj, canon_inj in H as ->; done.
  - intros [_ [k ->]]. destruct k as [|x k]; [left; by rewrite app_nil_r|].
    right. by exists (x :: k).
Qed.

(** ** Matching a process to a container *)

Lemma find_none_iff (f : ContainerInfo → bool) l :
  List.find f l = None ↔ ∀ c, c ∈ l → f c = false.
Proof.
  split.
  - intros H c Hc. apply (List.find_none f l H). by apply list_elem_of_In.
  - intros H. destruct (List.find f l) as [c|] eqn:E; [|done].
    apply List.find_some in E as [Hin Hf]. rewrite H in Hf; [done|]. by apply list_elem_of_In.
Qed.

Lemma match_paths_spec order vals : (∀ n, order n ≡ₚ vals) → ∀ paths n,
  match ContainerStore.match_paths order n paths with
  | Some c => c ∈ vals ∧ ∃ pre path post, paths = pre ++ path :: post ∧
      cgroupPathMatchesContainer path c = true ∧
      ∀ q d, q ∈ pre → d ∈ vals → cgroupPathMatchesContainer q d = false
  | None => ∀ q d, q ∈ paths → d ∈ vals → cgroupPathMatchesContainer q d = false
  end.
Proof.
  intros Hord paths. induction paths as [|path paths IH]; intros n; cbn.
  { intros q d []%elem_of_nil. }
  destruct (List.find _ (order n)) as [c|] eqn:E.
  - apply List.find_some in E as [Hin Hf]. apply list_elem_of_In in Hin.
    rewrite Hord in Hin. split; [done|]. exists [], path, paths. split_and!; [done..|].
    intros q d []%elem_of_nil.
  - assert (∀ d, d ∈ vals → cgroupPathMatchesContainer path d = false) as Hno.
    { intros d Hd. apply (proj1 (find_none_iff _ _) E). by rewrite Hord. }
    specialize (IH (S n)). destruct (ContainerStore.match_paths order (S n) paths) as [c|].
    + destruct IH as (Hc & pre & q & post & -> & Hq & Hpre). split; [done|].
      exists (path :: pre), q, post. split_and!; [done..|].
      intros r d [->|Hr]%elem_of_cons Hd; auto.
    + intros r d [->|Hr]%elem_of_cons Hd; auto.
Qed.

Lemma elem_of_values (s : ContainerStore.t) c :
  c ∈ ContainerStore.values s ↔ ∃ k, s !! k = Some c.
Proof.
  unfold ContainerStore.values. rewrite list_elem_of_fmap. split.
  - intros ([k d] & -> & H). exists k. by apply elem_of_map_to_list.
  - intros [k H]. exists (k, c). split; [done|]. by apply elem_of_map_to_list.
Qed.

(** Whatever the map iteration orders, looking a process up by its cgroup
    paths returns a recorded container matching the first path that matches any
    container, and reports no match only when no path matches any container. *)
Theorem MatchCgroupPaths_first (s : ContainerStore.t) order paths
  (Horder : ∀ n, order n ≡ₚ ContainerStore.values s) :
  match ContainerStore.MatchCgroupPaths order paths with
  | Some c => (∃ k, s !! k = Some c) ∧
      ∃ pre path post, paths = pre ++ path :: post ∧
        cgroupPathMatchesContainer path c = true ∧
        ∀ q k d, q ∈ pre → s !! k = Some d → cgroupPathMatchesContainer q d = false
  | None => ∀ q k d, q ∈ paths → s !! k = Some d → cgroupPathMatchesContainer q d = false
  end.
Proof.
  pose proof (match_paths_spec _ _ Horder paths O) as H.
  unfold ContainerStore.MatchCgroupPaths.
  destruct (ContainerStore.match_paths order 0 paths) as [c|].
  - destruct H as (Hc & pre & path & post & -> & Hm & Hpre). split; [by apply elem_of_values|].
    exists pre, path, post. split_and!; [done..|]. intros q k d Hq Hd. apply Hpre; [done|].
    apply elem_of_values. eauto.
  - intros q k d Hq Hd. apply H; [done|]. apply elem_of_values. eauto.
Qed.

Definition example_info (id path : string) : ContainerInfo :=
  mkContainerInfo id "main" "p" "ns" "uid" path (Some [mkGPUDevice 0 1 ""]) 1024.

Lemma MatchCgroupPaths_first_witness :
  let s : ContainerStore.t := {[ "a1" := example_info "a1" "/kubepods/pod1/a" ]} in
  ∃ c, ContainerStore.MatchCgroupPaths (λ _, ContainerStore.values s) ["/x"; "kubepods//pod1/a/b"]
       = Some c ∧ ∃ k, s !! k = Some c.
Proof.
  cbv zeta. set (s := {[ "a1" := example_info "a1" "/kubepods/pod1/a" ]} : ContainerStore.t).
  pose proof (MatchCgroupPaths_first s (λ _, ContainerStore.values s)
    ["/x"; "kubepods//pod1/a/b"] (λ _, reflexivity _)) as H.
  exists (example_info "a1" "/kubepods/pod1/a"). split; [vm_compute; reflexivity|].
  replace (ContainerStore.MatchCgroupPaths (λ _, ContainerStore.values s)
    ["/x"; "kubepods//pod1/a/b"]) with (Some (example_info "a1" "/kubepods/pod1/a"))
    in H by (vm_compute; reflexivity).
  destruct H as [H _]. exact H.
Defined.

(** ** Lookups after each operation *)

Lemma lookup_Upsert c s k :
  ContainerStore.Upsert c s !! k =
  if bool_decide (ContainerID c ≠ "" ∧ k = ContainerID c) then Some c else s !! k.
Proof.
  unfold ContainerStore.Upsert. destruct (String.eqb_spec (ContainerID c) "") as [He|Hne].
  { by rewrite bool_decide_eq_false_2 by by intros [? _]. }
  destruct (decide (k = ContainerID c)) as [->|Hk].
  - by rewrite lookup_insert_eq, bool_decide_eq_true_2.
  - by rewrite lookup_insert_ne, bool_decide_eq_false_2 by (done || by intros [_ ?]).
Qed.

Lemma lookup_Delete id s k :
  ContainerStore.Delete id s !! k =
  if bool_decide (id ≠ "" ∧
      (k = id ∨ normalizeContainerID id ≠ "" ∧ normalizeContainerID k = normalizeContainerID id))
  then None else s !! k.
Proof.
  unfold ContainerStore.Delete. destruct (String.eqb_spec id "") as [->|Hid].
  { by rewrite bool_decide_eq_false_2 by by intros [? _]. }
  destruct (String.eqb_spec (normalizeContainerID id) "") as [Hn|Hn].
  - destruct (decide (k = id)) as [->|Hk].
    + rewrite lookup_delete_eq, bool_decide_eq_true_2; auto.
    + rewrite lookup_delete_ne, bool_decide_eq_false_2; [done| |done].
      intros [_ [?|[? _]]]; done.
  - case_bool_decide as Hb.
    + apply map_lookup_filter_None. destruct Hb as [_ [->|[_ Hk]]].
      * left. apply lookup_delete_eq.
      * right. intros c _ Hc. done.
    + assert (k ≠ id) by (intros ->; apply Hb; auto).
      assert (normalizeContainerID k ≠ normalizeContainerID id) by (intros ?; apply Hb; auto).
      rewrite <- (lookup_delete_ne s id k) by done.
      destruct (delete id s !! k) as [c|] eqn:E.
      * by apply map_lookup_filter_Some.
      * apply map_lookup_filter_None. by left.
Qed.

(** The last entry of a snapshot wins for each ID; empty IDs are dropped. *)
Lemma Replace_snoc cs c s :
  ContainerStore.Replace (cs ++ [c]) s = ContainerStore.Upsert c (ContainerStore.Replace cs s).
Proof. unfold ContainerStore.Replace. by rewrite fold_left_app. Qed.

(** ** Well-formedness *)

Definition store_wf (s : ContainerStore.t) : Prop :=
  map_Forall (λ k c, ContainerID c = k ∧ k ≠ "") s.

Lemma store_wf_Upsert c s : store_wf s → store_wf (ContainerStore.Upsert c s).
Proof.
  intros H k d. rewrite lookup_Upsert. case_bool_decide as Hb; [|apply H].
  destruct Hb as [? ->]. by intros [= <-].
Qed.

Lemma store_wf_Delete id s : store_wf s → store_wf (ContainerStore.Delete id s).
Proof. intros H k d. rewrite lookup_Delete. case_bool_decide; [done|apply H]. Qed.

Lemma store_wf_Replace cs s : store_wf (ContainerStore.Replace cs s).
Proof.
  induction cs as [|c cs IH] using rev_ind; [by intros k d; unfold ContainerStore.Replace; cbn; rewrite lookup_empty|].
  rewrite Replace_snoc. by apply store_wf_Upsert.
Qed.

#[export] Hint Resolve store_wf_Upsert store_wf_Delete store_wf_Replace : go.
#[export] Hint Rewrite lookup_Upsert lookup_Delete : go_str.
