(* ===== verification/FileSystem.v ===== *)
(** * A directory and its system calls

    The directory is a finite map from names to nodes.  Programs are in a state
    monad in which every system call consumes one entry of a script (so each
    call may fail, and a write may stop half-way) and records the directory it
    leaves.  [triple] is a program logic for them. *)

From S2P Require Import Prelude GoStrings.
From stdpp Require Import base gmap strings list sorting.
From Stdlib Require Import ZArith Lia Ascii String.
#[local] Open Scope string_scope.
#[local] Open Scope list_scope.
#[local] Open Scope Z_scope.

(** ** System calls *)

Inductive node := NFile (content : string) | NDir (empty : bool).

(** [None]: the directory does not exist. *)
Abbreviation directory := (option (gmap string node)).

Inductive errno := ENOENT | EOTHER.

(** What the environment decides about one system call: whether it fails, how
    many bytes a failing write stored, the random part of a temporary name. *)
Record outcome := mkOutcome { fails : bool; written : nat; random : string }.
Definition success : outcome := mkOutcome false 0 "0".

Record world := mkWorld { cur : directory; script : list outcome; history : list directory }.

Definition M (A : Type) : Type := world → A * world.
#[global] Instance M_ret : MRet M := λ A a w, (a, w).
#[global] Instance M_bind : MBind M := λ A B k m w, let '(a, w') := m w in k a w'.

Definition syscall {A} (f : outcome → directory → A * directory) : M A := λ w,
  let o := default success (head (script w)) in
  let '(a, d) := f o (cur w) in
  (a, mkWorld d (tail (script w)) (history w ++ [d])).

Definition MkdirAll : M (result errno unit) := syscall (λ o d,
  if fails o then (Err EOTHER, d) else (Ok tt, Some (default ∅ d))).

(** Exclusive creation of a file whose name did not exist; [pick] makes the name from a
    random string and may look at the directory, as the retries on a name in use do. *)
Definition CreateTemp (pick : string → gmap string node → string) : M (result errno string) := syscall (λ o d,
  match d with
  | None => (Err ENOENT, d)
  | Some m =>
      let name := pick (random o) m in
      if fails o then (Err EOTHER, d)
      else match m !! name with
           | Some _ => (Err EOTHER, d)
           | None => (Ok name, Some (<[name := NFile ""]> m))
           end
  end).

(** The file is open in this process and is not renamed before it is closed. *)
Definition WriteFile (name data : string) : M (result errno unit) := syscall (λ o d,
  match d with
  | None => (Err EOTHER, d)
  | Some m =>
      if fails o then (Err EOTHER, Some (<[name := NFile (str_take (written o) data)]> m))
      else (Ok tt, Some (<[name := NFile data]> m))
  end).

(** Chmod, Sync and Close leave names and contents as they are. *)
Definition fd_call : M (result errno unit) := syscall (λ o d,
  (if fails o then Err EOTHER else Ok tt, d)).
Definition Chmod : M (result errno unit) := fd_call.
Definition Sync : M (result errno unit) := fd_call.
Definition Close : M (result errno unit) := fd_call.

Definition Rename (from to : string) : M (result errno unit) := syscall (λ o d,
  match d with
  | None => (Err ENOENT, d)
  | Some m =>
      if fails o then (Err EOTHER, d)
      else match m !! from, m !! to with
           | None, _ => (Err ENOENT, d)
           | Some _, Some (NDir _) => (Err EOTHER, d)
           | Some n, _ => (Ok tt, Some (<[to := n]> (delete from m)))
           end
  end).

Definition Remove (name : string) : M (result errno unit) := syscall (λ o d,
  match d with
  | None => (Err ENOENT, d)
  | Some m =>
      if fails o then (Err EOTHER, d)
      else match m !! name with
           | None => (Err ENOENT, d)
           | Some (NDir false) => (Err EOTHER, d)
           | Some _ => (Ok tt, Some (delete name m))
           end
  end).

Definition isDir (n : node) : bool := match n with NDir _ => true | NFile _ => false end.

Definition name_le (a b : string * node) : Prop := String.le a.1 b.1.
#[global] Instance name_le_dec a b : Decision (name_le a b).
Proof. unfold name_le. apply _. Defined.

(** [os.ReadDir] sorts by name. *)
Definition ReadDir : M (result errno (list (string * node))) := syscall (λ o d,
  match d with
  | None => (Err ENOENT, d)
  | Some m => (if fails o then Err EOTHER else Ok (merge_sort name_le (map_to_list m)), d)
  end).

Definition ReadFile (name : string) : M (result errno string) := syscall (λ o d,
  match d with
  | None => (Err ENOENT, d)
  | Some m =>
      (if fails o then Err EOTHER
       else match m !! name with
            | None => Err ENOENT
            | Some (NDir _) => Err EOTHER
            | Some (NFile data) => Ok data
            end, d)
  end).

(** The calls of a program that only reads, in any monad. *)
Class DirReads (R : Type → Type) := {
  list_dir : R (result errno (list (string * node)));
  read_file : string → R (result errno string)
}.
#[global] Instance M_reads : DirReads M := {| list_dir := ReadDir; read_file := ReadFile |}.

Fixpoint for_each {A} (f : A → M unit) (l : list A) : M unit :=
  match l with
  | [] => mret tt
  | a :: l => _ ← f a; for_each f l
  end.

(** The calls that fail. *)
Definition faults (s : list outcome) : nat := List.length (filter (λ o, fails o = true) s).

Lemma faults_tail s :
  faults s = ((if fails (default success (head s)) then 1 else 0) + faults (tail s))%nat.
Proof.
  destruct s as [|o s]; [done|]. unfold faults. rewrite filter_cons. cbn.
  destruct (fails o); case_decide; done.
Qed.

(** ** A program logic for the system-call programs

    [triple pre ok m post]: from a directory and script satisfying [pre], every
    directory state [m] passes through satisfies [ok], and the result and the
    final state satisfy [post]. *)

Definition triple {A} (pre : directory → list outcome → Prop) (ok : directory → Prop)
    (m : M A) (post : A → directory → list outcome → Prop) : Prop :=
  ∀ w, pre (cur w) (script w) → ∃ hs,
    history (m w).2 = history w ++ hs ∧ Forall ok hs ∧
    post (m w).1 (cur (m w).2) (script (m w).2).

Lemma triple_ret {A} (a : A) pre ok (post : A → _ → _ → Prop) :
  (∀ d s, pre d s → post a d s) → triple pre ok (mret a) post.
Proof. intros H w Hw. exists []. rewrite app_nil_r. split_and!; [done|constructor|by apply H]. Qed.

Lemma triple_bind {A B} (m : M A) (k : A → M B) pre ok mid post :
  triple pre ok m mid → (∀ a, triple (mid a) ok (k a) post) → triple pre ok (m ≫= k) post.
Proof.
  intros Hm Hk w Hw. destruct (Hm w Hw) as (h1 & H1 & Hok1 & Hmid).
  unfold mbind, M_bind. destruct (m w) as [a w1]. cbn in *.
  destruct (Hk a w1 Hmid) as (h2 & H2 & Hok2 & Hpost).
  exists (h1 ++ h2). rewrite H2, H1, app_assoc. split_and!; [done|by apply Forall_app|done].
Qed.

Lemma triple_syscall {A} (f : outcome → directory → A * directory) (pre : _ → _ → Prop) ok
    (post : A → _ → _ → Prop) :
  (∀ d s, pre d s → let o := default success (head s) in
     ok (f o d).2 ∧ post (f o d).1 (f o d).2 (tail s)) →
  triple pre ok (syscall f) post.
Proof.
  intros H w Hw. destruct (H _ _ Hw) as [Hok Hpost]. unfold syscall.
  destruct (f (default success (head (script w))) (cur w)) as [a d]. cbn in *.
  exists [d]. split_and!; [done|by constructor|done].
Qed.

Lemma triple_pre {A} (m : M A) (pre pre' : _ → _ → Prop) ok post :
  (∀ d s, pre d s → pre' d s) → triple pre' ok m post → triple pre ok m post.
Proof. intros Hpre Hm w Hw. apply Hm, Hpre, Hw. Qed.

Lemma triple_post {A} (m : M A) pre ok (post post' : A → _ → _ → Prop) :
  (∀ a d s, post a d s → post' a d s) → triple pre ok m post → triple pre ok m post'.
Proof. intros Hp Hm w Hw. destruct (Hm w Hw) as (hs & ? & ? & ?). exists hs. auto. Qed.

(** Work at a fixed initial state. *)
Lemma triple_at {A} (m : M A) (pre : _ → _ → Prop) ok post :
  (∀ d0 s0, pre d0 s0 → triple (λ d s, d = d0 ∧ s = s0) ok m post) → triple pre ok m post.
Proof. intros H w Hw. by apply (H _ _ Hw w). Qed.

Lemma triple_ok {A} (m : M A) pre (ok ok' : _ → Prop) post :
  (∀ d, ok d → ok' d) → triple pre ok m post → triple pre ok' m post.
Proof.
  intros Hi Hm w Hw. destruct (Hm w Hw) as (hs & ? & H & ?). exists hs.
  split_and!; [done| |done]. eapply Forall_impl; [exact H|]. apply Hi.
Qed.

Lemma triple_for_each {A} (f : A → M unit) l (inv : list A → directory → list outcome → Prop) ok :
  (∀ pre a post, l = pre ++ a :: post →
     triple (inv pre) ok (f a) (λ _, inv (pre ++ [a]))) →
  triple (inv []) ok (for_each f l) (λ _, inv l).
Proof.
  intros H. assert (∀ post pre, l = pre ++ post →
    triple (inv pre) ok (for_each f post) (λ _, inv l)) as Hgen; [|by apply Hgen].
  induction post as [|a post IH]; intros pre Hl; cbn [for_each].
  - apply triple_ret. rewrite app_nil_r in Hl. by subst.
  - eapply triple_bind; [by eapply H|]. intros []. apply IH. by rewrite <- app_assoc.
Qed.

Lemma triple_conj {A} (m : M A) pre1 pre2 ok1 ok2 post1 post2 :
  triple pre1 ok1 m post1 → triple pre2 ok2 m post2 →
  triple (λ d s, pre1 d s ∧ pre2 d s) ok1 m (λ a d s, post1 a d s ∧ post2 a d s).
Proof.
  intros H1 H2 w [Hw1 Hw2]. destruct (H1 w Hw1) as (hs & ? & ? & ?), (H2 w Hw2) as (hs' & _ & _ & ?).
  by exists hs.
Qed.
