(* ===== verification/FsStore.v ===== *)
(** * common/mapping/fsstore: the mapping as files in a shared directory

    fractiond writes one [<containerID>.json] file per container, metricsd scans
    the directory.  Both are programs over the directory of [FileSystem], where
    any system call may fail; the directory states they pass through are what a
    concurrent reader, or a reader after a crash, can observe.
    [Writer] is a [StoreWriter] whose view, as [Reader.scan] loads it, refines
    [ContainerStore]. *)

From S2P Require Import Prelude GoStrings Json Runtime Store FileSystem.
From stdpp Require Import base gmap strings list sorting.
From Stdlib Require Import ZArith Lia Ascii String.
#[local] Open Scope string_scope.
#[local] Open Scope list_scope.
#[local] Open Scope Z_scope.

(** ** record.go *)

Definition schemaVersion : Z := 1.
Definition fileExtension : string := ".json".

Record record := mkRecord {
  SchemaVersion : Z;
  RPod : string;
  RNamespace : string;
  RPodUID : string;
  RGPUDevices : slice GPUDevice;
  RRequestedMemoryMiB : Z
}.

Definition newRecord (info : ContainerInfo) : record :=
  mkRecord schemaVersion (Pod info) (Namespace info) (PodUID info) (GPUDevices info)
    (RequestedMemoryMiB info).

Definition toContainer (r : record) (containerID : string) : ContainerInfo :=
  mkContainerInfo containerID "" (RPod r) (RNamespace r) (RPodUID r) "" (RGPUDevices r)
    (RRequestedMemoryMiB r).

Definition sanitizeContainerID (containerID : string) : string :=
  let containerID := TrimSpace containerID in
  let containerID :=
    match LastIndex containerID "://" with
    | Some idx => str_drop (idx + 3) containerID
    | None => containerID
    end in
  let containerID := ReplaceAll containerID "/" "_" in
  ReplaceAll containerID (String backslash "") "_".

Definition fileName (containerID : string) : string :=
  sanitizeContainerID containerID +:+ fileExtension.

Definition containerIDFromFile (name : string) : string := TrimSuffix name fileExtension.

(** ** The JSON form of a record: the struct tags *)

(** [uuid] and [requestedMemoryMiB] are [omitempty]; a nil slice is null. *)
Definition device_json (d : GPUDevice) : JSON :=
  JObj ((bytes_of "index", json_int (Index d)) ::
        (bytes_of "minorNumber", json_int (MinorNumber d)) ::
        if String.eqb (UUID d) "" then [] else [(bytes_of "uuid", json_string (UUID d))]).

Definition record_json (r : record) : JSON :=
  JObj ((bytes_of "schemaVersion", json_int (SchemaVersion r)) ::
        (bytes_of "pod", json_string (RPod r)) ::
        (bytes_of "namespace", json_string (RNamespace r)) ::
        (bytes_of "podUID", json_string (RPodUID r)) ::
        (bytes_of "gpuDevices",
           match RGPUDevices r with
           | None => JNull
           | Some ds => JArr (map device_json ds)
           end) ::
        if RRequestedMemoryMiB r =? 0 then []
        else [(bytes_of "requestedMemoryMiB", json_int (RRequestedMemoryMiB r))]).

Definition json_Marshal (r : record) : string := string_of (print (record_json r)).

Definition decode_device_member (d : GPUDevice) (m : bytes * JSON) : option GPUDevice :=
  let '(k, v) := m in
  if key_is k "index" then
    i ← decode_int v (Index d); Some (mkGPUDevice i (MinorNumber d) (UUID d))
  else if key_is k "minorNumber" then
    n ← decode_int v (MinorNumber d); Some (mkGPUDevice (Index d) n (UUID d))
  else if key_is k "uuid" then
    u ← decode_string v (UUID d); Some (mkGPUDevice (Index d) (MinorNumber d) u)
  else Some d.

Fixpoint ofold {A B} (f : A → B → option A) (l : list B) (a : A) : option A :=
  match l with
  | [] => Some a
  | b :: l => a' ← f a b; ofold f l a'
  end.

Definition decode_device (v : JSON) (old : GPUDevice) : option GPUDevice :=
  match v with
  | JNull => Some old
  | JObj ms => ofold decode_device_member ms old
  | _ => None
  end.

(** Array elements are decoded over the backing array of the slice. *)
Fixpoint decode_devices (vs : list JSON) (backing : list GPUDevice) : option (list GPUDevice) :=
  match vs with
  | [] => Some backing
  | v :: vs =>
      d ← decode_device v (default (mkGPUDevice 0 0 "") (head backing));
      ds ← decode_devices vs (tail backing);
      Some (d :: ds)
  end.

(** The decoder's state: the struct and the backing array of its slice. *)
Definition decode_record_member (st : record * list GPUDevice) (m : bytes * JSON)
    : option (record * list GPUDevice) :=
  let '(r, backing) := st in
  let '(mkRecord sv p ns u ds mem) := r in
  let '(k, v) := m in
  if key_is k "schemaVersion" then
    sv ← decode_int v sv; Some (mkRecord sv p ns u ds mem, backing)
  else if key_is k "pod" then
    p ← decode_string v p; Some (mkRecord sv p ns u ds mem, backing)
  else if key_is k "namespace" then
    ns ← decode_string v ns; Some (mkRecord sv p ns u ds mem, backing)
  else if key_is k "podUID" then
    u ← decode_string v u; Some (mkRecord sv p ns u ds mem, backing)
  else if key_is k "gpuDevices" then
    match v with
    | JNull => Some (mkRecord sv p ns u None mem, [])
    | JArr [] => Some (mkRecord sv p ns u (Some []) mem, [])
    | JArr vs =>
        backing ← decode_devices vs backing;
        Some (mkRecord sv p ns u (Some (take (List.length vs) backing)) mem, backing)
    | _ => None
    end
  else if key_is k "requestedMemoryMiB" then
    mem ← decode_int v mem; Some (mkRecord sv p ns u ds mem, backing)
  else Some (r, backing).

Definition zero_record : record := mkRecord 0 "" "" "" None 0.

Definition json_Unmarshal (data : string) : option record :=
  match parse (bytes_of data) with
  | Some (JObj ms) => fst <$> ofold decode_record_member ms (zero_record, [])
  | Some JNull => Some zero_record
  | _ => None
  end.

(** ** writer.go *)

Definition tempFile (rnd : string) : string := ".gpu-fractioning-" +:+ rnd +:+ ".tmp".

Module Writer.

(** From the write of the staging file to the rename. *)
Definition stage (tmpName data name : string) : M (result errno unit) :=
  err ← WriteFile tmpName data;
  match err with
  | Err e => _ ← Close; mret (Err e)
  | Ok _ =>
      err ← Chmod;
      match err with
      | Err e => _ ← Close; mret (Err e)
      | Ok _ =>
          err ← Sync;
          match err with
          | Err e => _ ← Close; mret (Err e)
          | Ok _ =>
              err ← Close;
              match err with
              | Err e => mret (Err e)
              | Ok _ => Rename tmpName name
              end
          end
      end
  end.

Definition writeRecord (info : ContainerInfo) : M (result errno unit) :=
  mkErr ← MkdirAll;
  match mkErr with
  | Err e => mret (Err e)
  | Ok _ =>
      let data := json_Marshal (newRecord info) in
      tmp ← CreateTemp (λ rnd _, tempFile rnd);
      match tmp with
      | Err e => mret (Err e)
      | Ok tmpName =>
          err ← stage tmpName data (fileName (ContainerID info));
          match err with
          | Err e => _ ← Remove tmpName; mret (Err e)
          | Ok _ => mret (Ok tt)
          end
      end
  end.

Definition Upsert (info : ContainerInfo) : M unit :=
  if String.eqb (ContainerID info) "" then mret tt
  else _ ← writeRecord info; mret tt.

Definition Delete (containerID : string) : M unit :=
  if String.eqb containerID "" then mret tt
  else _ ← Remove (fileName containerID); mret tt.

(** The first loop of Replace: rewrite every current file. *)
Definition replace_write (info : ContainerInfo) : M unit :=
  if String.eqb (ContainerID info) "" then mret tt
  else _ ← writeRecord info; mret tt.

Definition desired_names (containers : list ContainerInfo) : gset string :=
  list_to_set (map (λ info, fileName (ContainerID info))
    (filter (λ info, ContainerID info ≠ "") containers)).

(** The second loop: unlink what is not desired. *)
Definition replace_prune (desired : gset string) (entry : string * node) : M unit :=
  if isDir entry.2 || negb (HasSuffix entry.1 fileExtension) then mret tt
  else if bool_decide (entry.1 ∈ desired) then mret tt
  else _ ← Remove entry.1; mret tt.

Definition Replace (containers : list ContainerInfo) : M unit :=
  err ← MkdirAll;
  match err with
  | Err _ => mret tt
  | Ok _ =>
      _ ← for_each replace_write containers;
      entries ← ReadDir;
      match entries with
      | Err _ => mret tt
      | Ok entries => for_each (replace_prune (desired_names containers)) entries
      end
  end.

End Writer.

#[global] Instance Writer_store : StoreWriter world := {
  Upsert info w := (Writer.Upsert info w).2;
  Delete id w := (Writer.Delete id w).2;
  Replace infos w := (Writer.Replace infos w).2
}.

(** ** reader.go

    The reader makes only the calls of [DirReads]; it runs on a directory of its own ([M]) and,
    in Handoff, beside the writer. *)

Module Reader.
Section Reader.
Context {R : Type → Type} `{MRet R, MBind R, DirReads R}.

Definition readFile (name : string) : R (option ContainerInfo) :=
  data ← read_file name;
  match data with
  | Err _ => mret None
  | Ok data =>
      match json_Unmarshal data with
      | None => mret None
      | Some rec =>
          if negb (SchemaVersion rec =? schemaVersion) then mret None
          else mret (Some (toContainer rec (containerIDFromFile name)))
      end
  end.

Fixpoint scan_entries (entries : list (string * node)) (infos : list ContainerInfo)
    : R (list ContainerInfo) :=
  match entries with
  | [] => mret infos
  | (name, n) :: entries =>
      if isDir n || HasPrefix name "." || negb (HasSuffix name fileExtension)
      then scan_entries entries infos
      else
        info ← readFile name;
        match info with
        | Some info => scan_entries entries (infos ++ [info])
        | None => scan_entries entries infos
        end
  end.

Definition scan : R ContainerStore.t :=
  entries ← list_dir;
  match entries with
  | Err _ => mret ContainerStore.NewContainerStore
  | Ok entries =>
      infos ← scan_entries entries [];
      mret (ContainerStore.Replace infos ContainerStore.NewContainerStore)
  end.

(** The queries scan on demand and ask the in-memory store. *)
Definition MatchCgroupPaths (iter : ContainerStore.t → nat → list ContainerInfo)
    (paths : list string) : R (option ContainerInfo) :=
  s ← scan; mret (ContainerStore.MatchCgroupPaths (iter s) paths).
Definition ActivePodUIDs : R (gset string) := s ← scan; mret (ContainerStore.ActivePodUIDs s).
Definition ActiveContainers (iter : ContainerStore.t → nat → list ContainerInfo)
    : R (list ContainerInfo) :=
  s ← scan; mret (ContainerStore.ActiveContainers (iter s)).

End Reader.
End Reader.

(** What a fault-free scan of a directory loads. *)
Definition scan_dir (d : directory) : ContainerStore.t := (Reader.scan (R:=M) (mkWorld d [] [])).1.

(** ** Lemmas: the record codec *)

(** What the JSON form carries exactly: ASCII strings and 64-bit integers. *)
Definition device_ok (d : GPUDevice) : Prop :=
  in_int64 (Index d) ∧ in_int64 (MinorNumber d) ∧ is_ascii (bytes_of (UUID d)).
Definition info_ok (info : ContainerInfo) : Prop :=
  is_ascii (bytes_of (Pod info)) ∧ is_ascii (bytes_of (Namespace info)) ∧
  is_ascii (bytes_of (PodUID info)) ∧ in_int64 (RequestedMemoryMiB info) ∧
  Forall device_ok (elems (GPUDevices info)).

#[global] Instance device_ok_dec d : Decision (device_ok d).
Proof. unfold device_ok. apply _. Defined.
#[global] Instance info_ok_dec info : Decision (info_ok info).
Proof. unfold info_ok. apply _. Defined.

Lemma decode_int_json z old : in_int64 z → decode_int (json_int z) old = Some z.
Proof.
  intros H. cbn. rewrite string_of_list_ascii_of_string. by apply ParseInt_FormatInt.
Qed.

Lemma decode_string_json s old : decode_string (json_string s) old = Some s.
Proof. cbn. by rewrite string_of_list_ascii_of_string. Qed.

(** Evaluate the comparisons of constant member names. *)
Ltac eval_keys :=
  repeat match goal with
  | |- context [key_is ?k ?n] =>
      let b := eval vm_compute in (key_is k n) in change (key_is k n) with b
  end; cbn iota.

(** One member of an object being decoded. *)
Ltac decode_member :=
  cbn [ofold decode_device_member decode_record_member]; eval_keys;
  rewrite ?decode_string_json; rewrite ?decode_int_json by done;
  cbn [mbind option_bind Index MinorNumber UUID].

Lemma decode_device_json d : device_ok d → decode_device (device_json d) (mkGPUDevice 0 0 "") = Some d.
Proof.
  destruct d as [i m u]. intros (Hi & Hm & _). unfold device_json.
  cbn [Index MinorNumber UUID decode_device] in *. do 2 decode_member.
  destruct (String.eqb_spec u "") as [->|Hu]; [done|]. by decode_member.
Qed.

Lemma decode_devices_json ds :
  Forall device_ok ds → decode_devices (map device_json ds) [] = Some ds.
Proof.
  induction 1 as [|d ds Hd Hds IH]; [done|]. cbn [map decode_devices head tail default].
  rewrite decode_device_json by done. cbn [mbind option_bind]. by rewrite IH.
Qed.

Lemma printable_member d (k : string) v :
  bool_decide (is_ascii (bytes_of k)) = true → printable d v →
  is_ascii (bytes_of k, v).1 ∧ printable d (bytes_of k, v).2.
Proof. intros H Hv. split; [|done]. by apply bool_decide_eq_true in H. Qed.

Lemma device_json_printable d : device_ok d → printable 2 (device_json d).
Proof.
  intros (_ & _ & Hu). unfold device_json. constructor; [done|].
  do 2 (apply Forall_cons_2; [by apply printable_member; [|constructor]|]).
  destruct (String.eqb (UUID d) ""); [constructor|].
  apply Forall_cons_2; [|constructor]. by apply printable_member; [|constructor].
Qed.

Lemma record_json_printable info : info_ok info → printable 0 (record_json (newRecord info)).
Proof.
  intros (Hp & Hn & Hu & _ & Hd). unfold record_json, newRecord.
  cbn [SchemaVersion RPod RNamespace RPodUID RGPUDevices RRequestedMemoryMiB].
  constructor; [done|].
  do 4 (apply Forall_cons_2; [by apply printable_member; [|constructor]|]).
  apply Forall_cons_2.
  - apply printable_member; [done|]. destruct (GPUDevices info) as [ds|]; [|constructor].
    constructor; [done|]. apply Forall_map. eapply Forall_impl; [exact Hd|].
    apply device_json_printable.
  - destruct (_ =? 0); [constructor|].
    apply Forall_cons_2; [|constructor]. by apply printable_member; [|constructor].
Qed.

Lemma json_roundtrip info :
  info_ok info → json_Unmarshal (json_Marshal (newRecord info)) = Some (newRecord info).
Proof.
  intros Hok. unfold json_Unmarshal, json_Marshal.
  rewrite list_ascii_of_string_of_list_ascii, parse_print by by apply record_json_printable.
  destruct Hok as (_ & _ & _ & Hmem & Hds). unfold record_json, newRecord, zero_record.
  cbn [SchemaVersion RPod RNamespace RPodUID RGPUDevices RRequestedMemoryMiB].
  do 5 decode_member.
  assert (∀ r bk, (if RequestedMemoryMiB info =? 0 then [] else
      [(bytes_of "requestedMemoryMiB", json_int (RequestedMemoryMiB info))]) = r →
    ofold decode_record_member r (mkRecord schemaVersion (Pod info) (Namespace info) (PodUID info)
      (GPUDevices info) 0, bk) = Some (newRecord info, bk)) as Htail.
  { intros r bk <-. unfold newRecord. destruct (Z.eqb_spec (RequestedMemoryMiB info) 0) as [->|];
      [done|]. by decode_member. }
  unfold newRecord in Htail.
  destruct (GPUDevices info) as [[|d ds]|] eqn:E; cbn [map mbind option_bind].
  - by rewrite Htail.
  - change (device_json d :: map device_json ds) with (map device_json (d :: ds)).
    rewrite decode_devices_json by done. cbn [mbind option_bind].
    rewrite length_map, take_ge by done. by rewrite Htail.
  - by rewrite Htail.
Qed.

(** ** Lemmas: what a scan loads *)

Definition load (name data : string) : option ContainerInfo :=
  rec ← json_Unmarshal data;
  if negb (SchemaVersion rec =? schemaVersion) then None
  else Some (toContainer rec (containerIDFromFile name)).

(** The names a scan looks at. *)
Definition scannable (name : string) : bool :=
  negb (HasPrefix name ".") && HasSuffix name fileExtension.

Definition entry_info (e : string * node) : option ContainerInfo :=
  match e.2 with
  | NFile data => if scannable e.1 then load e.1 data else None
  | NDir _ => None
  end.

(** Reading a directory never changes it, and each fault costs at most one file. *)
Lemma scan_entries_spec m entries : ∀ infos s h,
  (∀ e, e ∈ entries → m !! e.1 = Some e.2) →
  ∃ loaded w', Reader.scan_entries (R:=M) entries infos (mkWorld (Some m) s h) = (infos ++ loaded, w') ∧
    cur w' = Some m ∧
    loaded `sublist_of` omap entry_info entries ∧
    (List.length (omap entry_info entries) ≤ List.length loaded + faults s)%nat.
Proof.
  induction entries as [|[name n] entries IH]; intros infos s h Hm.
  { exists [], (mkWorld (Some m) s h). rewrite app_nil_r. split_and!; [done..|cbn; lia]. }
  assert (∀ e, e ∈ entries → m !! e.1 = Some e.2) as Hm'.
  { intros e He. apply Hm. by apply elem_of_cons; right. }
  pose proof (Hm (name, n) ltac:(by apply elem_of_cons; left)) as Hn. cbn in Hn.
  cbn [Reader.scan_entries].
  assert (isDir n || HasPrefix name "." || negb (HasSuffix name fileExtension) =
          isDir n || negb (scannable name)) as ->.
  { unfold scannable. by destruct (isDir n), (HasPrefix name "."), (HasSuffix name fileExtension). }
  destruct (isDir n || negb (scannable name)) eqn:Eskip.
  { destruct (IH infos s h Hm') as (loaded & w' & H1 & H2 & H3 & H4).
    assert (entry_info (name, n) = None) as He.
    { unfold entry_info. cbn. destruct n as [data|]; [|done]. by destruct (scannable name). }
    exists loaded, w'. cbn. by rewrite He. }
  apply orb_false_iff in Eskip as [Ed Es]. apply negb_false_iff in Es.
  destruct n as [data|]; [|done].
  unfold Reader.readFile, read_file, M_reads, ReadFile, syscall, mbind, M_bind. cbn [cur script history].
  assert (entry_info (name, NFile data) = load name data) as He.
  { unfold entry_info. cbn. by rewrite Es. }
  cbn [omap list_omap]. rewrite He, Hn, (faults_tail s).
  destruct (fails (default success (head s))) eqn:Ef.
  - destruct (IH infos (tail s) (h ++ [Some m]) Hm') as (loaded & w' & H1 & H2 & H3 & H4).
    exists loaded, w'. unfold mret, M_ret. split_and!; [done..| |].
    + destruct (load name data); [|done]. by apply sublist_cons.
    + destruct (load name data); cbn [List.length]; lia.
  - unfold load. cbn [mbind option_bind].
    destruct (json_Unmarshal data) as [rec|]; cbn [mbind option_bind]; unfold mret, M_ret;
      [destruct (negb (SchemaVersion rec =? schemaVersion))|].
    2: { destruct (IH (infos ++ [toContainer rec (containerIDFromFile name)]) (tail s)
           (h ++ [Some m]) Hm') as (loaded & w' & H1 & H2 & H3 & H4).
         exists (toContainer rec (containerIDFromFile name) :: loaded), w'.
         rewrite <- app_assoc in H1.
         split_and!; [done..|by apply sublist_skip|cbn [List.length]; lia]. }
    all: destruct (IH infos (tail s) (h ++ [Some m]) Hm') as (loaded & w' & H1 & H2 & H3 & H4);
      exists loaded, w'; split_and!; done.
Qed.

Lemma lookup_Replace_NoDup cs s k c :
  NoDup (map ContainerID cs) →
  ContainerStore.Replace cs s !! k = Some c ↔ c ∈ cs ∧ ContainerID c = k ∧ k ≠ "".
Proof.
  induction cs as [|d cs IH] using rev_ind; intros Hn.
  { unfold ContainerStore.Replace. cbn. rewrite lookup_empty. split; [done|].
    by intros [?%elem_of_nil _]. }
  rewrite map_app in Hn. apply NoDup_app in Hn as (Hn & Hd & _).
  rewrite Replace_snoc, lookup_Upsert, elem_of_app, list_elem_of_singleton.
  case_bool_decide as Hb.
  - destruct Hb as [Hne ->]. split; [intros [= <-]; auto|].
    intros ([Hc| ->] & Hk & _); [|done]. exfalso. apply (Hd (ContainerID c)).
    + apply list_elem_of_In, in_map, list_elem_of_In, Hc.
    + cbn. rewrite Hk. by apply list_elem_of_singleton.
  - rewrite IH by done. split; [tauto|]. intros ([?| ->] & Hk & ?); [done|].
    exfalso. apply Hb. split; congruence.
Qed.

Lemma entry_info_name e c :
  entry_info e = Some c → e.1 = ContainerID c +:+ fileExtension ∧ scannable e.1 = true.
Proof.
  unfold entry_info. destruct e as [name [data|]]; cbn; [|done].
  destruct (scannable name) eqn:Es; [|done]. unfold load.
  destruct (json_Unmarshal data) as [rec|]; cbn; [|done]. case_match; [done|]. intros [= <-]. cbn.
  split; [|done]. unfold containerIDFromFile. apply andb_true_iff in Es as [_ Hs].
  apply HasSuffix_spec in Hs as [p ->]. by rewrite TrimSuffix_app.
Qed.

Lemma entry_infos_NoDup entries :
  NoDup entries.*1 → NoDup (map ContainerID (omap entry_info entries)).
Proof.
  induction entries as [|e entries IH]; intros Hn; [constructor|].
  cbn in Hn. apply NoDup_cons in Hn as [He Hn]. cbn [omap list_omap].
  destruct (entry_info e) as [c|] eqn:E; [|auto]. cbn. apply NoDup_cons. split; [|auto].
  intros Hin. apply list_elem_of_In, in_map_iff in Hin as (c' & Hc & Hin).
  apply list_elem_of_In, list_elem_of_omap in Hin as (e' & He' & Hi).
  apply entry_info_name in E as [E _], Hi as [Hi _]. apply He.
  rewrite E, <- Hc, <- Hi. apply list_elem_of_fmap. eauto.
Qed.

Definition dir_entries (m : gmap string node) : list (string * node) :=
  merge_sort name_le (map_to_list m).

Lemma elem_of_dir_entries m e : e ∈ dir_entries m ↔ m !! e.1 = Some e.2.
Proof.
  unfold dir_entries. rewrite merge_sort_Permutation. destruct e. apply elem_of_map_to_list.
Qed.

Lemma dir_entries_NoDup m : NoDup (dir_entries m).*1.
Proof. unfold dir_entries. rewrite merge_sort_Permutation. apply NoDup_fst_map_to_list. Qed.

(** The infos of a directory, as a fault-free scan lists them. *)
Definition dir_infos (m : gmap string node) : list ContainerInfo := omap entry_info (dir_entries m).

Lemma scan_unfold w : Reader.scan (R:=M) w =
  match ReadDir w with
  | (Err _, w') => (∅, w')
  | (Ok entries, w') => let '(infos, w'') := Reader.scan_entries (R:=M) entries [] w' in (ContainerStore.Replace infos ∅, w'')
  end.
Proof. unfold Reader.scan, mbind at 1, M_bind at 1. cbn [list_dir M_reads]. by destruct (ReadDir w) as [[entries|e] w']. Qed.

Lemma scan_spec d s h :
  match d with
  | None => (Reader.scan (R:=M) (mkWorld d s h)).1 = ∅
  | Some m => fails (default success (head s)) = false →
      ∃ loaded, (Reader.scan (R:=M) (mkWorld d s h)).1 = ContainerStore.Replace loaded ∅ ∧
        loaded `sublist_of` dir_infos m ∧
        (List.length (dir_infos m) ≤ List.length loaded + faults (tail s))%nat
  end.
Proof.
  destruct d as [m|]; [|done]. intros Hs.
  rewrite scan_unfold. unfold ReadDir, syscall. cbn [cur script history]. rewrite Hs.
  destruct (scan_entries_spec m (merge_sort name_le (map_to_list m)) [] (tail s) (h ++ [Some m]))
    as (loaded & w' & -> & _ & H1 & H2).
  { intros e. by rewrite <- elem_of_dir_entries. }
  by exists loaded.
Qed.

Lemma sublist_full {A} (l k : list A) :
  l `sublist_of` k → (List.length k ≤ List.length l)%nat → l = k.
Proof.
  induction 1 as [|x l k H IH|x l k H IH]; cbn [List.length]; intros Hl; [done| |].
  - f_equal. apply IH. lia.
  - pose proof (sublist_length _ _ H). lia.
Qed.

Lemma scan_dir_infos m : scan_dir (Some m) = ContainerStore.Replace (dir_infos m) ∅.
Proof.
  destruct (scan_spec (Some m) [] [] eq_refl) as (loaded & H1 & H2 & H3). unfold scan_dir.
  rewrite H1. f_equal. apply sublist_full; [done|]. cbn in H3. lia.
Qed.

Definition lookup_entry (d : directory) (name : string) : option ContainerInfo :=
  m ← d; n ← m !! name; entry_info (name, n).

(** A scan maps each container ID to the content of its own file. *)
Lemma lookup_scan_dir d k : scan_dir d !! k = lookup_entry d (k +:+ fileExtension).
Proof.
  destruct d as [m|]; [|done]. cbn [lookup_entry mbind option_bind].
  apply option_eq. intros c. rewrite scan_dir_infos, lookup_Replace_NoDup
    by apply entry_infos_NoDup, dir_entries_NoDup.
  unfold dir_infos. rewrite list_elem_of_omap. split.
  - intros ((e & He & Hi) & <- & Hne). apply elem_of_dir_entries in He.
    pose proof (entry_info_name _ _ Hi) as [Hn _]. destruct e as [name n]. cbn in *. subst name.
    by rewrite He.
  - destruct (m !! (k +:+ fileExtension)) as [n|] eqn:E; [|done]. cbn. intros Hi.
    pose proof (entry_info_name _ _ Hi) as [Hn Hs]. cbn in Hn, Hs.
    apply str_app_inj_r in Hn as ->. split_and!; [|done|].
    + exists (ContainerID c +:+ fileExtension, n). by rewrite elem_of_dir_entries.
    + intros He. rewrite He in Hs. done.
Qed.

(** Directory states that agree on the scannable names have the same view. *)
Lemma scan_dir_ext d d' :
  (∀ name, scannable name = true → lookup_entry d name = lookup_entry d' name) →
  scan_dir d = scan_dir d'.
Proof.
  intros H. apply map_eq. intros k. rewrite !lookup_scan_dir.
  destruct (scannable (k +:+ fileExtension)) eqn:E; [by apply H|].
  assert (∀ d, lookup_entry d (k +:+ fileExtension) = None) as Hno; [|by rewrite !Hno].
  intros [m|]; [|done]. cbn [lookup_entry mbind option_bind].
  destruct (m !! _) as [n|]; [|done]. cbn. unfold entry_info. cbn. rewrite E. by destruct n.
Qed.

Lemma scannable_tempFile r : scannable (tempFile r) = false.
Proof. done. Qed.

(** The file name of an ID is scannable iff its sanitized form is not hidden. *)
Lemma scannable_fileName id :
  scannable (fileName id) = negb (HasPrefix (sanitizeContainerID id) ".") &&
    negb (String.eqb (sanitizeContainerID id) "").
Proof.
  unfold scannable, fileName. rewrite HasSuffix_app, andb_true_r.
  destruct (sanitizeContainerID id) as [|c r]; [done|]. rewrite str_app_cons.
  rewrite !HasPrefix_cons. replace (HasPrefix r "") with true by by destruct r.
  replace (HasPrefix (r +:+ fileExtension) "") with true by by destruct (r +:+ fileExtension).
  change (String.eqb (String c r) "") with false. cbn [negb]. by rewrite !andb_true_r.
Qed.

(** A fault anywhere in the script is allowed: the view is all that is tracked. *)
Section views.
Context (info : ContainerInfo) (Hok : info_ok info) (Hvis : scannable (fileName (ContainerID info)) = true).

(** What the reader will report for the container. *)
Definition stored : ContainerInfo :=
  toContainer (newRecord info) (sanitizeContainerID (ContainerID info)).

Lemma load_stored :
  load (fileName (ContainerID info)) (json_Marshal (newRecord info)) = Some stored.
Proof.
  unfold load. rewrite json_roundtrip by done. cbn.
  unfold containerIDFromFile, fileName. by rewrite TrimSuffix_app.
Qed.

Lemma stored_id : ContainerID stored = sanitizeContainerID (ContainerID info).
Proof. done. Qed.

Lemma scan_dir_rename m :
  scan_dir (Some (<[fileName (ContainerID info) := NFile (json_Marshal (newRecord info))]> m)) =
  ContainerStore.Upsert stored (scan_dir (Some m)).
Proof.
  apply map_eq. intros k. rewrite lookup_Upsert, !lookup_scan_dir. cbn [lookup_entry mbind option_bind].
  rewrite stored_id.
  assert (sanitizeContainerID (ContainerID info) ≠ "") as Hne.
  { rewrite scannable_fileName in Hvis. by bool_simpl. }
  destruct (decide (k = sanitizeContainerID (ContainerID info))) as [->|Hk].
  - rewrite bool_decide_eq_true_2 by (split; [exact Hne|reflexivity]).
    change (sanitizeContainerID (ContainerID info) +:+ fileExtension)
      with (fileName (ContainerID info)).
    rewrite lookup_insert_eq. cbn [mbind option_bind]. unfold entry_info. cbn [fst snd].
    by rewrite Hvis, load_stored.
  - rewrite bool_decide_eq_false_2 by tauto. rewrite lookup_insert_ne; [done|].
    unfold fileName. intros He. by apply str_app_inj_r in He.
Qed.

End views.

(** Writing, truncating or removing a staging file does not change the view. *)
Lemma scan_dir_unscannable m name n :
  scannable name = false →
  scan_dir (Some (<[name := n]> m)) = scan_dir (Some m) ∧
  scan_dir (Some (delete name m)) = scan_dir (Some m).
Proof.
  intros Hn. split; apply scan_dir_ext; intros name' Hs; cbn [lookup_entry mbind option_bind];
    (assert (name ≠ name') by congruence); [by rewrite lookup_insert_ne|by rewrite lookup_delete_ne].
Qed.

Lemma scan_dir_mkdir d : scan_dir (Some (default ∅ d)) = scan_dir d.
Proof. destruct d; [done|]. apply map_eq. intros k. by rewrite !lookup_scan_dir. Qed.

Lemma HasSuffix_fileName id : HasSuffix (fileName id) fileExtension = true.
Proof. apply HasSuffix_app. Qed.

#[local] Opaque scan_dir json_Marshal fileName.

Section writes.
Context (info : ContainerInfo) (Hok : info_ok info)
  (Hvis : scannable (fileName (ContainerID info)) = true) (v0 : ContainerStore.t).

Let seen (d : directory) : Prop :=
  scan_dir d = v0 ∨ scan_dir d = ContainerStore.Upsert (stored info) v0.
Let view_is (v : ContainerStore.t) (d : directory) (_ : list outcome) : Prop := scan_dir d = v.
Let staged (tmp data : string) (d : directory) (_ : list outcome) : Prop :=
  ∃ m, d = Some m ∧ m !! tmp = Some (NFile data) ∧ scan_dir d = v0.
Let outcome_view (r : result errno unit) : directory → list outcome → Prop :=
  view_is (if is_ok r then ContainerStore.Upsert (stored info) v0 else v0).

Lemma triple_MkdirAll v :
  triple (view_is v) (λ d, scan_dir d = v) MkdirAll (λ _, view_is v).
Proof.
  apply triple_syscall. intros d s Hd o. unfold view_is in *.
  destruct (fails o); cbn; [done|]. by rewrite scan_dir_mkdir.
Qed.

Lemma triple_CreateTemp :
  triple (view_is v0) seen (CreateTemp (λ rnd _, tempFile rnd)) (λ r d s,
    match r with
    | Ok tmp => scannable tmp = false ∧ staged tmp "" d s
    | Err _ => view_is v0 d s
    end).
Proof.
  apply triple_syscall. intros [m|] s Hd o; cbn; [|by split; [left|]].
  destruct (fails o); cbn; [by split; [left|]|].
  destruct (m !! tempFile (random o)) eqn:E; cbn; [by split; [left|]|].
  destruct (scan_dir_unscannable m (tempFile (random o)) (NFile "") (scannable_tempFile _)) as [Hs _].
  unfold view_is in Hd. split; [left; congruence|]. split; [apply scannable_tempFile|].
  eexists. split_and!; [done|apply lookup_insert_eq|congruence].
Qed.

Lemma triple_WriteFile tmp old data : scannable tmp = false →
  triple (staged tmp old) seen (WriteFile tmp data) (λ r d s,
    if is_ok r then staged tmp data d s else view_is v0 d s).
Proof.
  intros Hn. apply triple_syscall. intros d s (m & -> & Hm & Hd) o.
  destruct (fails o); cbn.
  - destruct (scan_dir_unscannable m tmp (NFile (str_take (written o) data)) Hn) as [Hs _].
    unfold seen, view_is. rewrite Hs. auto.
  - destruct (scan_dir_unscannable m tmp (NFile data) Hn) as [Hs _].
    split; [left; congruence|]. eexists. split_and!; [done|apply lookup_insert_eq|congruence].
Qed.

Lemma triple_fd_call (P : directory → list outcome → Prop) :
  (∀ d s s', P d s → P d s' ∧ scan_dir d = v0) → triple P seen fd_call (λ _, P).
Proof.
  intros HP. apply triple_syscall. intros d s Hd o. cbn.
  destruct (HP d s (tail s) Hd). unfold seen. auto.
Qed.

Lemma triple_Rename tmp : scannable tmp = false →
  triple (staged tmp (json_Marshal (newRecord info))) seen
    (Rename tmp (fileName (ContainerID info))) outcome_view.
Proof.
  intros Hn. apply triple_syscall. intros d s (m & -> & Hm & Hd) o. unfold seen, outcome_view, view_is.
  cbn [Rename]. destruct (fails o); [cbn; auto|]. rewrite Hm.
  assert (scan_dir (Some (<[fileName (ContainerID info):=NFile (json_Marshal (newRecord info))]>
    (delete tmp m))) = ContainerStore.Upsert (stored info) v0) as Hnew.
  { rewrite scan_dir_rename by done.
    destruct (scan_dir_unscannable m tmp (NFile "") Hn) as [_ ->]. by rewrite Hd. }
  destruct (m !! fileName (ContainerID info)) as [[]|]; cbn [fst snd is_ok]; auto.
Qed.

Lemma triple_cleanup (P : directory → list outcome → Prop) e :
  (∀ d s s', P d s → P d s' ∧ scan_dir d = v0) →
  triple P seen (_ ← Close; mret (Err e)) outcome_view.
Proof.
  intros HP. eapply triple_bind; [by apply triple_fd_call|]. intros a.
  apply triple_ret. intros d s Hd. by apply (HP d s s).
Qed.

Lemma triple_stage tmp old : scannable tmp = false →
  triple (staged tmp old) seen
    (Writer.stage tmp (json_Marshal (newRecord info)) (fileName (ContainerID info))) outcome_view.
Proof.
  intros Hn. unfold Writer.stage.
  assert (∀ d s s', staged tmp (json_Marshal (newRecord info)) d s →
    staged tmp (json_Marshal (newRecord info)) d s' ∧ scan_dir d = v0) as Hst.
  { intros d s s' (m & ? & ? & ?). split; [by exists m|done]. }
  eapply triple_bind; [by apply triple_WriteFile|]. intros [[]|e]; cbn [is_ok].
  2: { apply triple_cleanup. by unfold view_is. }
  do 3 (eapply triple_bind; [by apply (triple_fd_call (staged tmp _))|]; intros [[]|?];
    [|first [by apply triple_cleanup|apply triple_ret; intros d s (? & ? & ? & ?); done]]).
  by apply triple_Rename.
Qed.

Lemma triple_Remove_tmp tmp : scannable tmp = false →
  triple (view_is v0) seen (Remove tmp) (λ _, view_is v0).
Proof.
  intros Hn. apply triple_syscall. intros [m|] s Hd o; unfold seen, view_is in *; cbn; [|auto].
  destruct (fails o); [cbn; auto|].
  destruct (scan_dir_unscannable m tmp (NFile "") Hn) as [_ Hs].
  destruct (m !! tmp) as [[|[]]|]; cbn; rewrite ?Hs; auto.
Qed.

(** Whatever fails, a concurrent reader sees the old view or the new one, and the
    error result tells which one the write ended with. *)
Lemma triple_writeRecord : triple (view_is v0) seen (Writer.writeRecord info) outcome_view.
Proof.
  unfold Writer.writeRecord.
  eapply triple_bind.
  { eapply triple_ok; [|apply triple_MkdirAll]. by left. }
  intros [[]|e]; [|by apply triple_ret].
  eapply triple_bind; [apply triple_CreateTemp|]. intros [tmp|e]; [|by apply triple_ret].
  destruct (scannable tmp) eqn:Hn; [intros w [? _]; done|].
  eapply (triple_pre _ _ (staged tmp "")); [by intros d s [_ ?]|].
  eapply triple_bind; [by apply triple_stage|]. intros [[]|e]; [by apply triple_ret|].
  eapply triple_bind; [by apply triple_Remove_tmp|]. intros a. by apply triple_ret.
Qed.

End writes.

(** ** Fault-free runs *)

Definition dir_lookup (d : directory) (name : string) : option node := m ← d; m !! name.

(** No call fails, the temporary names are unused, and no directory carries the
    name of a mapping file. *)
Definition healthy (d : directory) (s : list outcome) : Prop :=
  Forall (λ o, fails o = false ∧ dir_lookup d (tempFile (random o)) = None) (success :: s) ∧
  ∀ name b, dir_lookup d name = Some (NDir b) → HasSuffix name fileExtension = false.

Lemma healthy_head d s : healthy d s →
  fails (default success (head s)) = false ∧
  dir_lookup d (tempFile (random (default success (head s)))) = None.
Proof.
  intros [H _]. inversion H as [|? ? Hs Hr]; subst. destruct s; [done|]. by inversion Hr.
Qed.

Lemma healthy_tail d s : healthy d s → healthy d (tail s).
Proof.
  intros [H Hd]. split; [|done]. inversion H as [|? ? Hs Hr]; subst. constructor; [done|].
  destruct s; [done|]. by inversion Hr.
Qed.

Lemma HasSuffix_tempFile r : HasSuffix (tempFile r) fileExtension = false.
Proof.
  destruct (HasSuffix (tempFile r) fileExtension) eqn:E; [|done].
  apply HasSuffix_spec in E as [p Hp]. apply (f_equal (λ s, rev (bytes_of s))) in Hp.
  unfold tempFile, fileExtension in Hp. rewrite !bytes_of_app, !rev_app_distr in Hp.
  cbn in Hp. by simplify_eq.
Qed.

(** Changing mapping files keeps a directory healthy. *)
Lemma healthy_update m s name (o : option node) :
  healthy (Some m) s → HasSuffix name fileExtension = true →
  (∀ b, o ≠ Some (NDir b)) → healthy (Some (partial_alter (λ _, o) name m)) s.
Proof.
  intros [H Hd] Hn Ho. split.
  - eapply Forall_impl; [exact H|]. intros x [Hf Hx]. split; [done|]. cbn in *.
    rewrite lookup_partial_alter_ne; [done|]. intros ->. by rewrite HasSuffix_tempFile in Hn.
  - intros name' b. cbn. destruct (decide (name = name')) as [<-|Hne].
    + rewrite lookup_partial_alter_eq. intros ->. by destruct (Ho b).
    + rewrite lookup_partial_alter_ne by done. apply Hd.
Qed.

Definition always (d : directory) : Prop := True.

Section healthy_writes.
Context (info : ContainerInfo).

Let staged' (tmp : string) (n : node) (d : directory) (s : list outcome) : Prop :=
  (∃ r, tmp = tempFile r) ∧ ∃ m, d = Some (<[tmp := n]> m) ∧ m !! tmp = None ∧ healthy (Some m) s.

Lemma healthy_fd_call tmp n : triple (staged' tmp n) always fd_call (λ r d s,
  is_ok r = true ∧ staged' tmp n d s).
Proof.
  apply triple_syscall. intros d s (Ht & m & -> & Hm & Hh) o.
  destruct (healthy_head _ _ Hh) as [Hf _]. cbn [fst snd]. fold o in Hf. rewrite Hf.
  split; [done|]. split; [done|]. split; [done|]. exists m. split_and!; [done..|].
  by apply healthy_tail.
Qed.

Lemma healthy_stage tmp data :
  triple (staged' tmp (NFile "")) always
    (Writer.stage tmp data (fileName (ContainerID info)))
    (λ r d s, is_ok r = true ∧ healthy d s).
Proof.
  unfold Writer.stage.
  eapply (triple_bind _ _ _ _ (λ r d s, is_ok r = true ∧ staged' tmp (NFile data) d s)).
  { apply triple_syscall. intros d s (Ht & m & -> & Hm & Hh) o.
    destruct (healthy_head _ _ Hh) as [Hf _]. fold o in Hf. rewrite Hf. cbn [fst snd is_ok].
    split; [done|]. split; [done|]. split; [done|]. exists m. rewrite insert_insert_eq.
    split_and!; [done..|]. by apply healthy_tail. }
  intros [[]|e]; [|by intros w [? _]].
  eapply (triple_pre _ _ (staged' tmp (NFile data))); [by intros ?? [_ ?]|].
  do 3 (eapply triple_bind; [apply healthy_fd_call|]; intros [[]|?]; [|by intros w [? _]];
    eapply (triple_pre _ _ (staged' tmp (NFile data))); [by intros ?? [_ ?]|]).
  apply triple_syscall. intros d s ([r ->] & m & -> & Hm & Hh) o.
  destruct (healthy_head _ _ Hh) as [Hf _]. fold o in Hf. rewrite Hf.
  pose proof (HasSuffix_fileName (ContainerID info)) as Hsuf.
  assert (tempFile r ≠ fileName (ContainerID info)) as Hne.
  { intros He. rewrite <- He, HasSuffix_tempFile in Hsuf. done. }
  rewrite lookup_insert_eq, lookup_insert_ne, delete_insert_id by done.
  assert (healthy (Some (<[fileName (ContainerID info) := NFile data]> m)) (tail s)).
  { apply (healthy_update m (tail s) _ (Some (NFile data))); [by apply healthy_tail|done|done]. }
  destruct (m !! fileName (ContainerID info)) as [[|b]|] eqn:E; cbn [fst snd is_ok]; [done| |done].
  destruct Hh as [_ Hd]. apply (Hd (fileName (ContainerID info)) b) in E. congruence.
Qed.

Lemma healthy_writeRecord :
  triple healthy always (Writer.writeRecord info) (λ r d s, is_ok r = true ∧ healthy d s).
Proof.
  unfold Writer.writeRecord.
  eapply (triple_bind _ _ _ _ (λ r d s, is_ok r = true ∧ healthy d s ∧ is_Some d)).
  { apply triple_syscall. intros d s Hh o. destruct (healthy_head _ _ Hh) as [Hf _].
    fold o in Hf. rewrite Hf. cbn [fst snd is_ok].
    split_and!; [done|done| |by eexists].
    apply healthy_tail. destruct d as [m|]; [done|]. destruct Hh as [H _]. split; [|done].
    eapply Forall_impl; [exact H|]. done. }
  intros [[]|e]; [|by intros w [? _]].
  eapply (triple_bind _ _ _ _ (λ r d s, match r with
    | Ok tmp => staged' tmp (NFile "") d s | Err _ => False end)).
  { apply triple_syscall. intros d s (_ & Hh & [m ->]) o.
    destruct (healthy_head _ _ Hh) as [Hf Hm]. fold o in Hf, Hm.
    change (m !! tempFile (random o) = None) in Hm. cbv zeta. rewrite Hf, Hm. cbn [fst snd]. split; [done|]. split; [by eexists|].
    exists m. split_and!; [done..|]. by apply healthy_tail. }
  intros [tmp|e]; [|by intros w ?].
  eapply triple_bind; [apply healthy_stage|]. intros [[]|e]; [|by intros w [? _]].
  apply triple_ret. by intros d s [_ ?].
Qed.

End healthy_writes.

(** ** Bare identifiers *)

Lemma plain_scheme id : plain id → LastIndex id "://" = None.
Proof. intros H. apply LastIndex_absent. by apply plain_not_in. Qed.

Lemma drop_char_absent x l : Forall (λ c, c ≠ x) l → drop_char x l = l.
Proof. destruct 1 as [|c l Hc _]; [done|]. cbn. by rewrite (proj2 (Ascii.eqb_neq c x)). Qed.

Lemma TrimChar_absent x s : Forall (λ c, c ≠ x) (bytes_of s) → TrimChar s x = s.
Proof.
  intros H. unfold TrimChar. rewrite (drop_char_absent x (bytes_of s)) by done.
  rewrite drop_char_absent by by apply Forall_rev. rewrite rev_involutive.
  apply string_of_list_ascii_of_string.
Qed.

#[local] Transparent fileName.

Lemma sanitizeContainerID_plain id : plain id → sanitizeContainerID id = id.
Proof.
  intros H. unfold sanitizeContainerID. rewrite TrimSpace_plain, plain_scheme by done.
  rewrite (replace_char_absent "/"%char "_"%char id) by by apply plain_not_in.
  apply replace_char_absent. by apply plain_not_in.
Qed.

Lemma normalizeContainerID_plain id : plain id → normalizeContainerID id = id.
Proof.
  intros H. unfold normalizeContainerID. rewrite TrimSpace_plain, plain_scheme by done.
  destruct (String.eqb_spec id "") as [->|]; [done|]. apply TrimChar_absent. by apply plain_not_in.
Qed.

Lemma fileName_plain id : plain id → fileName id = id +:+ fileExtension.
Proof. intros H. unfold fileName. by rewrite sanitizeContainerID_plain. Qed.

Lemma scannable_plain id : plain id → id ≠ "" → scannable (fileName id) = true.
Proof.
  intros H Hne. rewrite scannable_fileName, sanitizeContainerID_plain by done.
  rewrite (proj2 (String.eqb_neq id "") Hne). destruct id as [|c r]; [done|].
  rewrite HasPrefix_cons. inversion H as [|? ? Hc _]; subst.
  destruct (Ascii.eqb_spec c "."%char) as [->|]; [done|]. done.
Qed.

(** ** Deleting and replacing *)

Lemma scan_dir_delete m k :
  scan_dir (Some (delete (k +:+ fileExtension) m)) = delete k (scan_dir (Some m)).
Proof.
  apply map_eq. intros k'. rewrite lookup_scan_dir. cbn [lookup_entry mbind option_bind].
  destruct (decide (k = k')) as [<-|Hne].
  - by rewrite !lookup_delete_eq.
  - rewrite !lookup_delete_ne, lookup_scan_dir; [done|done|].
    intros He. by apply str_app_inj_r in He.
Qed.

Lemma scan_dir_absent m k :
  m !! (k +:+ fileExtension) = None → delete k (scan_dir (Some m)) = scan_dir (Some m).
Proof.
  intros H. apply delete_id. rewrite lookup_scan_dir. cbn [lookup_entry mbind option_bind].
  by rewrite H.
Qed.

(** Whatever fails, removing a mapping file is atomic for the reader. *)
Lemma triple_Remove k v0 :
  triple (λ d _, scan_dir d = v0) (λ d, scan_dir d = v0 ∨ scan_dir d = delete k v0)
    (Remove (k +:+ fileExtension)) (λ _ d _, scan_dir d = v0 ∨ scan_dir d = delete k v0).
Proof.
  apply triple_syscall. intros [m|] s <- o; [|by auto]. cbv zeta.
  destruct (fails o); [by auto|].
  pose proof (scan_dir_delete m k).
  destruct (m !! (k +:+ fileExtension)) as [[|[]]|]; cbn [fst snd]; auto.
Qed.

Lemma healthy_Remove k v0 :
  triple (λ d s, scan_dir d = v0 ∧ healthy d s) always
    (Remove (k +:+ fileExtension)) (λ _ d s, scan_dir d = delete k v0 ∧ healthy d s).
Proof.
  apply triple_syscall. intros d s [<- Hh] o. destruct (healthy_head _ _ Hh) as [Hf _].
  fold o in Hf. apply healthy_tail in Hh. destruct d as [m|].
  2: { split_and!; [done| |done]. cbn [fst snd].
       symmetry. apply delete_id. by rewrite lookup_scan_dir. }
  cbv zeta. rewrite Hf.
  pose proof (HasSuffix_app k fileExtension) as Hsuf.
  destruct (m !! (k +:+ fileExtension)) as [[|b]|] eqn:E; cbn [fst snd].
  - split_and!; [done|apply scan_dir_delete|]. by apply (healthy_update m (tail s) _ None).
  - destruct Hh as [_ Hd]. apply (Hd (k +:+ fileExtension) b) in E. congruence.
  - split_and!; [done| |done]. by rewrite scan_dir_absent.
Qed.

(** The first loop of Replace. *)
Lemma healthy_replace_writes infos v0 :
  Forall (λ i, info_ok i ∧ plain (ContainerID i)) infos →
  triple (λ d s, scan_dir d = v0 ∧ healthy d s) always (for_each Writer.replace_write infos)
    (λ _ d s, scan_dir d = fold_left (λ v i, ContainerStore.Upsert (stored i) v) infos v0 ∧
              healthy d s).
Proof.
  intros Hinfos.
  apply (triple_for_each _ _ (λ pre d s,
    scan_dir d = fold_left (λ v i, ContainerStore.Upsert (stored i) v) pre v0 ∧ healthy d s)).
  intros pre i post ->. apply Forall_app in Hinfos as [_ [[Hok Hp] _]%Forall_cons].
  unfold Writer.replace_write. destruct (String.eqb_spec (ContainerID i) "") as [He|Hne].
  - apply triple_ret. intros d s [Hd Hh]. split; [|done]. rewrite fold_left_app, Hd. cbn.
    unfold ContainerStore.Upsert. rewrite stored_id, He. done.
  - eapply triple_bind.
    { eapply triple_conj; [|apply healthy_writeRecord].
      eapply triple_ok; [|by apply triple_writeRecord; [|apply scannable_plain]]. done. }
    intros r. apply triple_ret. intros d s (Hv & Hr & Hh). split; [|done].
    rewrite fold_left_app. cbn. by rewrite Hv, Hr.
Qed.

(** The second loop of Replace, over the entries of the directory [m]: after the
    entries [pre], the undesired ones among them are gone. *)
Definition pruned (desired : gset string) (m : gmap string node) (pre : list (string * node))
    (d : directory) (s : list outcome) : Prop :=
  healthy d s ∧ ∀ k, scan_dir d !! k =
    if bool_decide (k +:+ fileExtension ∈ pre.*1 ∧ k +:+ fileExtension ∉ desired)
    then None else scan_dir (Some m) !! k.

Lemma healthy_prune desired m s0 :
  healthy (Some m) s0 →
  triple (λ d s, d = Some m ∧ healthy d s) always
    (for_each (Writer.replace_prune desired) (dir_entries m))
    (λ _ d s, healthy d s ∧ ∀ k, scan_dir d !! k =
       if bool_decide (k +:+ fileExtension ∈ desired) then scan_dir (Some m) !! k else None).
Proof.
  intros [_ Hdirs].
  eapply triple_pre, (triple_post _ _ _ (λ _, pruned desired m (dir_entries m)));
    [| |apply (triple_for_each _ _ (pruned desired m))].
  - intros d s [-> Hh]. split; [done|]. intros k.
    by rewrite bool_decide_eq_false_2 by by intros [?%elem_of_nil _].
  - intros _ d s [Hh Hk]. split; [done|]. intros k. rewrite Hk.
    destruct (decide (k +:+ fileExtension ∈ desired)) as [Hin|Hin].
    + by rewrite bool_decide_eq_false_2, bool_decide_eq_true_2 by (done || by intros [_ ?]).
    + rewrite (bool_decide_eq_false_2 (_ ∈ desired)) by done.
      case_bool_decide as Hb; [done|]. rewrite lookup_scan_dir. cbn [lookup_entry mbind option_bind].
      destruct (m !! (k +:+ fileExtension)) as [n|] eqn:E; [|done]. exfalso. apply Hb.
      split; [|done]. apply list_elem_of_fmap. exists (k +:+ fileExtension, n).
      by rewrite elem_of_dir_entries.
  - intros pre [name n] post Hl.
    assert (m !! name = Some n) as Hm.
    { apply (elem_of_dir_entries m (name, n)). rewrite Hl. set_solver. }
    (* an entry that is left in place changes nothing *)
    assert (∀ k, (k +:+ fileExtension = name → name ∈ desired) →
      bool_decide (k +:+ fileExtension ∈ (pre ++ [(name, n)]).*1 ∧ k +:+ fileExtension ∉ desired) =
      bool_decide (k +:+ fileExtension ∈ pre.*1 ∧ k +:+ fileExtension ∉ desired)) as Hkeep.
    { intros k Hk. apply bool_decide_ext. rewrite fmap_app, elem_of_app. cbn.
      rewrite list_elem_of_singleton. split; [|tauto]. intros [[?|He] ?]; [tauto|].
      exfalso. rewrite He in *. tauto. }
    unfold Writer.replace_prune. cbn [fst snd].
    destruct (isDir n || negb (HasSuffix name fileExtension)) eqn:Eskip.
    { apply triple_ret. intros d s [Hh Hk]. split; [done|]. intros k. rewrite Hk, Hkeep; [done|].
      intros <-. exfalso. rewrite HasSuffix_app, orb_false_r in Eskip.
      destruct n as [|b]; [done|]. pose proof (Hdirs (k +:+ fileExtension) b Hm) as Hx.
      by rewrite HasSuffix_app in Hx. }
    case_bool_decide as Hdes.
    { apply triple_ret. intros d s [Hh Hk]. split; [done|]. intros k. by rewrite Hk, Hkeep. }
    apply orb_false_iff in Eskip as [_ Hs]. apply negb_false_iff, HasSuffix_spec in Hs as [k0 ->].
    apply triple_at. intros d0 s1 [Hh0 Hk].
    eapply triple_bind.
    { eapply triple_pre, (healthy_Remove k0 (scan_dir d0)). by intros ? ? [-> ->]. }
    intros r. apply triple_ret. intros d s [Hd Hh]. split; [done|]. intros k. rewrite Hd. destruct (decide (k0 = k)) as [<-|Hne].
    + rewrite lookup_delete_eq, bool_decide_eq_true_2; [done|]. split; [|done].
      rewrite fmap_app, elem_of_app. right. by apply list_elem_of_singleton.
    + rewrite lookup_delete_ne, Hk, Hkeep; [done| |done].
      intros He. by apply str_app_inj_r in He.
Qed.

Lemma fold_upsert_lookup infos v0 k :
  fold_left (λ v i, ContainerStore.Upsert (stored i) v) infos v0 !! k =
  match ContainerStore.Replace (map stored infos) ∅ !! k with
  | Some c => Some c
  | None => v0 !! k
  end.
Proof.
  induction infos as [|i infos IH] using rev_ind; [done|].
  rewrite fold_left_app, map_app. cbn [fold_left map]. rewrite Replace_snoc, !lookup_Upsert, IH.
  by case_bool_decide.
Qed.

Lemma lookup_Replace_is_Some cs s k :
  is_Some (ContainerStore.Replace cs s !! k) ↔ ∃ c, c ∈ cs ∧ ContainerID c = k ∧ k ≠ "".
Proof.
  induction cs as [|d cs IH] using rev_ind.
  { unfold ContainerStore.Replace. cbn. rewrite lookup_empty. split; [by intros []|].
    by intros (? & ?%elem_of_nil & _). }
  rewrite Replace_snoc, lookup_Upsert. case_bool_decide as Hb.
  - destruct Hb as [? ->]. split; [|by eexists]. intros _. exists d. split_and!; [|done..].
    apply elem_of_app. right. by apply list_elem_of_singleton.
  - rewrite IH. split; intros (c & Hc & Hk & Hne); exists c; (split_and!; [|done..]).
    + apply elem_of_app. by left.
    + apply elem_of_app in Hc as [?| ->%list_elem_of_singleton]; [done|]. exfalso. apply Hb. by subst.
Qed.

Lemma desired_names_spec infos k :
  Forall (λ i, plain (ContainerID i)) infos →
  k +:+ fileExtension ∈ Writer.desired_names infos ↔
  is_Some (ContainerStore.Replace (map stored infos) ∅ !! k).
Proof.
  intros Hp. rewrite lookup_Replace_is_Some. unfold Writer.desired_names.
  rewrite elem_of_list_to_set, list_elem_of_fmap.
  setoid_rewrite list_elem_of_filter. setoid_rewrite list_elem_of_fmap.
  assert (∀ i, i ∈ infos → sanitizeContainerID (ContainerID i) = ContainerID i) as Hs.
  { intros i Hi. rewrite Forall_forall in Hp. by apply sanitizeContainerID_plain, Hp. }
  split.
  - intros (i & He & Hne & Hi). apply str_app_inj_r in He. rewrite Hs in He by done.
    exists (stored i). rewrite stored_id, Hs by done. split_and!; [by exists i|done|congruence].
  - intros (? & (i & -> & Hi) & Hk & Hne). rewrite stored_id, Hs in Hk by done.
    exists i. unfold fileName. rewrite Hs by done. split_and!; [congruence..|done].
Qed.

Lemma healthy_Replace infos :
  Forall (λ i, info_ok i ∧ plain (ContainerID i)) infos →
  triple healthy always (Writer.Replace infos)
    (λ _ d s, scan_dir d = ContainerStore.Replace (map stored infos) ∅ ∧ healthy d s).
Proof.
  intros Hinfos. unfold Writer.Replace.
  eapply (triple_bind _ _ _ _ (λ r d s, is_ok r = true ∧ healthy d s)).
  { apply triple_syscall. intros d s Hh o. destruct (healthy_head _ _ Hh) as [Hf _].
    fold o in Hf. rewrite Hf. cbn [fst snd is_ok]. split_and!; [done..|].
    apply healthy_tail. destruct d as [m|]; [done|]. destruct Hh as [H _]. split; [|done].
    eapply Forall_impl; [exact H|]. done. }
  intros [[]|e]; [|by intros w [? _]].
  apply triple_at. intros d0 s0 [_ Hh0]. eapply triple_bind.
  { eapply triple_pre, (healthy_replace_writes infos (scan_dir d0) Hinfos). by intros ? ? [-> ->]. }
  intros []. apply triple_at. intros d1 s1 [Hv1 Hh1].
  eapply (triple_bind _ _ _ _ (λ r d s, healthy d s ∧ match d, r with
    | Some m, Ok entries => d = d1 ∧ entries = dir_entries m
    | None, Err _ => d = d1
    | _, _ => False end)).
  { apply triple_syscall. intros d s [-> ->] o. destruct (healthy_head _ _ Hh1) as [Hf _].
    fold o in Hf. destruct d1 as [m|]; [rewrite Hf|]; cbn [fst snd]; split_and!;
      try done; by apply healthy_tail. }
  assert (∀ v, (∀ k, v !! k = if bool_decide (k +:+ fileExtension ∈ Writer.desired_names infos)
                 then scan_dir d1 !! k else None) →
    v = ContainerStore.Replace (map stored infos) ∅) as Hfin.
  { intros v Hv. apply map_eq. intros k. rewrite Hv, Hv1, fold_upsert_lookup.
    pose proof (desired_names_spec infos k) as Hd.
    case_bool_decide as Hb; rewrite Hd in Hb
      by (eapply Forall_impl; [exact Hinfos|]; by intros ? [_ ?]).
    - by destruct Hb as [c ->].
    - symmetry. by apply eq_None_not_Some. }
  intros [entries|e].
  - apply triple_at. intros [m|] s [Hh Hd]; [|done]. destruct Hd as [<- ->].
    eapply triple_post, triple_pre, (healthy_prune (Writer.desired_names infos) m s Hh).
    + intros _ d s' [Hh' Hk]. split; [by apply Hfin|done].
    + by intros ? ? [-> ->].
  - apply triple_ret. intros [m|] s [Hh Hd]; [done|]. split; [|done]. apply Hfin. intros k.
    rewrite lookup_scan_dir, <- Hd, lookup_scan_dir. by case_bool_decide.
Qed.

(** ** Refinement of the in-memory store *)

(** What the files keep of a container: everything but its name and cgroup path. *)
Definition persisted (c : ContainerInfo) : ContainerInfo := toContainer (newRecord c) (ContainerID c).

Inductive WriterOp :=
| OpUpsert (info : ContainerInfo)
| OpDelete (containerID : string)
| OpReplace (infos : list ContainerInfo).

(** Running a sequence of [store.Writer] calls on any implementation. *)
Definition run_op {St} `{StoreWriter St} (st : St) (op : WriterOp) : St :=
  match op with
  | OpUpsert info => Store.Upsert info st
  | OpDelete id => Store.Delete id st
  | OpReplace infos => Store.Replace infos st
  end.
Definition run_ops {St} `{StoreWriter St} (ops : list WriterOp) (st : St) : St :=
  fold_left run_op ops st.

(** Bare runtime IDs, and records the JSON form carries exactly. *)
Definition info_fit (i : ContainerInfo) : Prop := info_ok i ∧ plain (ContainerID i).
Definition op_fit (op : WriterOp) : Prop :=
  match op with
  | OpUpsert info => info_fit info
  | OpDelete id => plain id
  | OpReplace infos => Forall info_fit infos
  end.

(** The simulation relation between a directory and an in-memory store. *)
Definition simulates (w : world) (s : ContainerStore.t) : Prop :=
  healthy (cur w) (script w) ∧ scan_dir (cur w) = persisted <$> s ∧
  ∀ k, is_Some (s !! k) → plain k.

Lemma stored_plain i : plain (ContainerID i) → stored i = persisted i.
Proof. intros H. unfold stored, persisted. by rewrite sanitizeContainerID_plain. Qed.

Lemma Delete_plain id (s : ContainerStore.t) :
  plain id → (∀ k, is_Some (s !! k) → plain k) → id ≠ "" →
  ContainerStore.Delete id s = delete id s.
Proof.
  intros Hid Hs Hne. apply map_eq. intros k. rewrite lookup_Delete.
  destruct (decide (k = id)) as [->|Hk].
  - rewrite bool_decide_eq_true_2 by auto. by rewrite lookup_delete_eq.
  - rewrite lookup_delete_ne by done. case_bool_decide as Hb; [|done].
    destruct (s !! k) as [c|] eqn:E; [|done]. exfalso.
    destruct Hb as [_ [?|[_ Hn]]]; [done|].
    rewrite !normalizeContainerID_plain in Hn; [done|done|]. by apply Hs; eexists.
Qed.

Lemma persisted_Upsert i s :
  persisted <$> ContainerStore.Upsert i s = ContainerStore.Upsert (persisted i) (persisted <$> s).
Proof.
  unfold ContainerStore.Upsert. change (ContainerID (persisted i)) with (ContainerID i).
  case_match; [done|]. by rewrite fmap_insert.
Qed.

Lemma persisted_Replace infos s :
  persisted <$> ContainerStore.Replace infos s = ContainerStore.Replace (map persisted infos) ∅.
Proof.
  induction infos as [|i infos IH] using rev_ind; [apply fmap_empty|].
  rewrite map_app. cbn [map]. by rewrite !Replace_snoc, persisted_Upsert, IH.
Qed.

Lemma plain_keys_Upsert i s :
  plain (ContainerID i) → (∀ k, is_Some (s !! k) → plain k) →
  ∀ k, is_Some (ContainerStore.Upsert i s !! k) → plain k.
Proof. intros Hi Hs k. rewrite lookup_Upsert. case_bool_decide as Hb; [|apply Hs]. by destruct Hb as [_ ->]. Qed.

Lemma simulates_Upsert i w s :
  info_fit i → simulates w s → simulates (Store.Upsert i w) (Store.Upsert i s).
Proof.
  intros [Hok Hp] (Hh & Hv & Hs). cbn [Store.Upsert Writer_store ContainerStore_writer].
  unfold Writer.Upsert. destruct (String.eqb_spec (ContainerID i) "") as [He|Hne].
  { unfold ContainerStore.Upsert. rewrite He. by split_and!. }
  pose proof (triple_conj _ _ _ _ _ _ _
    (triple_writeRecord i Hok (scannable_plain _ Hp Hne) (scan_dir (cur w)))
    (healthy_writeRecord i)) as Ht.
  destruct (Ht w (conj eq_refl Hh)) as (hs & _ & _ & Hview & Hr & Hh').
  unfold mbind, M_bind, mret, M_ret. destruct (Writer.writeRecord i w) as [r w']. cbn [fst snd] in *.
  rewrite Hr in Hview. split_and!; [done| |by apply plain_keys_Upsert].
  by rewrite Hview, Hv, stored_plain, persisted_Upsert.
Qed.

Lemma simulates_Delete id w s :
  plain id → simulates w s → simulates (Store.Delete id w) (Store.Delete id s).
Proof.
  intros Hp (Hh & Hv & Hs). cbn [Store.Delete Writer_store ContainerStore_writer].
  unfold Writer.Delete. destruct (String.eqb_spec id "") as [->|Hne]; [by split_and!|].
  rewrite fileName_plain by done.
  destruct (healthy_Remove id (scan_dir (cur w)) w (conj eq_refl Hh)) as (hs & _ & _ & Hview & Hh').
  unfold mbind, M_bind, mret, M_ret. destruct (Remove (id +:+ fileExtension) w) as [r w']. cbn [fst snd] in *.
  rewrite Delete_plain by done. split_and!; [done|by rewrite fmap_delete, Hview, Hv|].
  intros k [c Hk]. apply lookup_delete_Some in Hk as [_ Hk]. apply Hs. by eexists.
Qed.

Lemma simulates_Replace infos w s :
  Forall info_fit infos → simulates w s → simulates (Store.Replace infos w) (Store.Replace infos s).
Proof.
  intros Hf (Hh & Hv & Hs). cbn [Store.Replace Writer_store ContainerStore_writer].
  destruct (healthy_Replace infos Hf w Hh) as (hs & _ & _ & Hview & Hh'). split_and!; [done| |].
  - rewrite Hview, persisted_Replace. f_equal. apply map_ext_in. intros i Hi.
    apply stored_plain. rewrite Forall_forall in Hf. by apply Hf, list_elem_of_In.
  - intros k (c & Hc & <- & _)%lookup_Replace_is_Some. rewrite Forall_forall in Hf. by apply Hf.
Qed.

Lemma simulates_run_ops ops : ∀ w s,
  Forall op_fit ops → simulates w s → simulates (run_ops ops w) (run_ops ops s).
Proof.
  induction ops as [|op ops IH]; intros w s Hf Hw; [done|].
  apply Forall_cons in Hf as [Hop Hf]. apply IH; [done|].
  destruct op; cbn; [by apply simulates_Upsert|by apply simulates_Delete|by apply simulates_Replace].
Qed.

(** ** Properties *)

(** C8: writing one container's mapping file is atomic for readers, whatever
    fails.  At every instant of an Upsert (so also after a crash at any point),
    whichever of its system calls fail and however short a write stops, a scan
    of the directory returns the mapping from before the call or exactly that
    mapping with this container's record replaced. *)
Theorem Upsert_atomic info w
  (Hok : info_ok info)
  (Hvis : scannable (fileName (ContainerID info)) = true) :
  ∃ states, history (Store.Upsert info w) = history w ++ states ∧
    Forall (λ d, scan_dir d = scan_dir (cur w) ∨
                 scan_dir d = ContainerStore.Upsert (stored info) (scan_dir (cur w)))
      (cur (Store.Upsert info w) :: states).
Proof.
  cbn [Store.Upsert Writer_store]. unfold Writer.Upsert.
  destruct (String.eqb (ContainerID info) ""); [exists []; split; [by rewrite app_nil_r|auto]|].
  destruct (triple_writeRecord info Hok Hvis (scan_dir (cur w)) w eq_refl) as (hs & Hh & Hall & Hfin).
  unfold mbind, M_bind, mret, M_ret. destruct (Writer.writeRecord info w) as [r w']. cbn [fst snd] in *.
  exists hs. split; [done|]. constructor; [|done]. destruct (is_ok r); auto.
Qed.

(** A script in which the write stops after three bytes and the clean-up of the
    staging file fails too. *)
Definition faulty_script : list outcome :=
  [success; success; mkOutcome true 3 ""; success; mkOutcome true 0 ""].

Lemma Upsert_atomic_witness :
  let info := example_info "0a1b" "/kubepods/pod1" in
  let w := mkWorld (Some ∅) faulty_script [] in
  List.length (history (Store.Upsert info w)) = 5%nat ∧
  ∃ states, history (Store.Upsert info w) = history w ++ states ∧
    Forall (λ d, scan_dir d = scan_dir (cur w) ∨
                 scan_dir d = ContainerStore.Upsert (stored info) (scan_dir (cur w)))
      (cur (Store.Upsert info w) :: states).
Proof.
  cbv zeta. split; [vm_compute; reflexivity|].
  apply (Upsert_atomic (example_info "0a1b" "/kubepods/pod1") (mkWorld (Some ∅) faulty_script [])).
  - apply (bool_decide_unpack _). vm_compute. exact I.
  - vm_compute. reflexivity.
Defined.

(** C5: the filesystem store refines the in-memory store.  Running any sequence
    of [store.Writer] calls on both, without faults and with bare container IDs,
    a scan of the directory returns at the end exactly the in-memory mapping, up
    to the container name and cgroup path that are not persisted. *)
Theorem filesystem_store_refines ops w s
  (Hops : Forall op_fit ops)
  (Hsim : simulates w s) :
  scan_dir (cur (run_ops ops w)) = persisted <$> run_ops ops s.
Proof. by destruct (simulates_run_ops ops w s Hops Hsim) as (_ & H & _). Qed.

Lemma filesystem_store_refines_witness :
  let ops := [OpUpsert (example_info "0a1b" "/x"); OpReplace [example_info "ff" ""; example_info "0c" ""];
              OpDelete "ff"] in
  scan_dir (cur (run_ops ops (mkWorld None [] []))) = persisted <$> run_ops ops (∅ : ContainerStore.t) ∧
  size (run_ops ops (∅ : ContainerStore.t)) = 1%nat.
Proof.
  cbv zeta. split; [|vm_compute; reflexivity].
  apply (filesystem_store_refines
    [OpUpsert (example_info "0a1b" "/x"); OpReplace [example_info "ff" ""; example_info "0c" ""];
     OpDelete "ff"] (mkWorld None [] []) ∅).
  - repeat constructor; apply (bool_decide_unpack _); vm_compute; exact I.
  - split_and!.
    + split; [repeat constructor|done].
    + rewrite fmap_empty. apply map_eq. intros k. by rewrite lookup_scan_dir.
    + intros k [c Hk]. by rewrite lookup_empty in Hk.
Defined.

Lemma Replace_size cs :
  NoDup (map ContainerID cs) → Forall (λ c, ContainerID c ≠ "") cs →
  size (ContainerStore.Replace cs ∅) = List.length cs.
Proof.
  induction cs as [|c cs IH] using rev_ind; intros Hn Hne; [apply map_size_empty|].
  pose proof Hn as Hn'. rewrite map_app in Hn. apply NoDup_app in Hn as (Hn & Hd & _).
  apply Forall_app in Hne as [Hne [Hc _]%Forall_cons].
  rewrite Replace_snoc, length_app, Nat.add_1_r, <- (IH Hn Hne). unfold ContainerStore.Upsert.
  rewrite (proj2 (String.eqb_neq _ _) Hc). apply map_size_insert_None.
  apply eq_None_not_Some. intros (d & Hin & Hid & _)%lookup_Replace_is_Some.
  apply (Hd (ContainerID c)); [|by apply list_elem_of_singleton].
  rewrite <- Hid. apply list_elem_of_In, in_map. by apply list_elem_of_In.
Qed.

Lemma dir_infos_ids m : Forall (λ c, ContainerID c ≠ "") (dir_infos m).
Proof.
  apply Forall_forall. intros c Hc. unfold dir_infos in Hc.
  apply list_elem_of_omap in Hc as (e & _ & He).
  apply entry_info_name in He as [Hn Hs]. intros Hid. rewrite Hn, Hid in Hs. done.
Qed.

(** C31: a bad file never blanks the mapping.  Once the directory has been
    listed, a scan whose file reads fail arbitrarily still returns only correct
    records, and loses at most one record per failing read. *)
Theorem scan_isolates_faults m s h
  (Hlist : fails (default success (head s)) = false) :
  (Reader.scan (R:=M) (mkWorld (Some m) s h)).1 ⊆ scan_dir (Some m) ∧
  (size (scan_dir (Some m)) ≤ size (Reader.scan (R:=M) (mkWorld (Some m) s h)).1 + faults (tail s))%nat.
Proof.
  destruct (scan_spec (Some m) s h Hlist) as (loaded & -> & Hsub & Hlen).
  assert (NoDup (map ContainerID (dir_infos m))) as Hn by apply entry_infos_NoDup, dir_entries_NoDup.
  assert (NoDup (map ContainerID loaded)) as Hnl.
  { apply (sublist_NoDup _ (map ContainerID (dir_infos m))); [done|].
    clear -Hsub. induction Hsub; cbn; by constructor. }
  rewrite scan_dir_infos. split.
  - apply map_subseteq_spec. intros k c. rewrite !lookup_Replace_NoDup by done.
    intros (Hc & ?). split; [|done]. by eapply elem_of_sublist.
  - assert (Forall (λ c, ContainerID c ≠ "") loaded) as Hne.
    { pose proof (dir_infos_ids m) as Hi. rewrite Forall_forall in Hi. apply Forall_forall.
      intros c Hc. by apply Hi; eapply elem_of_sublist. }
    rewrite !Replace_size; try done. apply dir_infos_ids.
Qed.

Definition record_file (pod : string) : node :=
  NFile (json_Marshal (mkRecord schemaVersion pod "ns" "u" None 64)).

Lemma scan_isolates_faults_witness :
  let m : gmap string node := {[ "a.json" := record_file "p1"; "b.json" := record_file "p2";
                                 "c.json" := NFile "{truncated" ]} in
  let s := [success; mkOutcome true 0 ""] in
  (Reader.scan (R:=M) (mkWorld (Some m) s [])).1 ⊆ scan_dir (Some m) ∧
  (size (scan_dir (Some m)) ≤ size (Reader.scan (R:=M) (mkWorld (Some m) s [])).1 + faults (tail s))%nat ∧
  (size (scan_dir (Some m)), size (Reader.scan (R:=M) (mkWorld (Some m) s [])).1) = (2%nat, 1%nat).
Proof.
  cbv zeta.
  destruct (scan_isolates_faults {[ "a.json" := record_file "p1"; "b.json" := record_file "p2";
      "c.json" := NFile "{truncated" ]} [success; mkOutcome true 0 ""] [] eq_refl) as [H1 H2].
  split; [exact H1|]. split; [exact H2|]. vm_compute. reflexivity.
Defined.

Lemma replace_char_removes x y s :
  x ≠ y → Forall (λ c, c ≠ x) (bytes_of (ReplaceAll s (String x "") (String y ""))).
Proof.
  intros Hne. rewrite replace_char_bytes. apply Forall_map, Forall_true. intros c. cbn.
  destruct (Ascii.eqb_spec c x); congruence.
Qed.

Lemma replace_char_keeps x y z s :
  z ≠ y → Forall (λ c, c ≠ z) (bytes_of s) →
  Forall (λ c, c ≠ z) (bytes_of (ReplaceAll s (String x "") (String y ""))).
Proof.
  intros Hne H. rewrite replace_char_bytes. apply Forall_map. eapply Forall_impl; [exact H|].
  intros c Hc. cbn. destruct (Ascii.eqb c x); congruence.
Qed.

(** A container ID, however hostile, names one file inside the mapping
    directory: the file name holds no path separator, ends in [.json] (so it is
    not a directory reference), cannot be a staging file, and recovers the
    sanitized ID; for the bare IDs of the runtime the round trip is exact. *)
Theorem fileName_safe id :
  Forall (λ c, c ≠ slash ∧ c ≠ backslash) (bytes_of (fileName id)) ∧
  HasSuffix (fileName id) ".json" = true ∧
  (∀ rnd, fileName id ≠ tempFile rnd) ∧
  containerIDFromFile (fileName id) = sanitizeContainerID id ∧
  (plain id → containerIDFromFile (fileName id) = id).
Proof.
  pose proof (HasSuffix_fileName id) as Hs.
  assert (containerIDFromFile (fileName id) = sanitizeContainerID id) as Hid.
  { unfold containerIDFromFile, fileName. by rewrite TrimSuffix_app. }
  split_and!; [|done| |done|].
  - unfold fileName. rewrite bytes_of_app. apply Forall_app. split; [|by repeat constructor].
    unfold sanitizeContainerID. apply Forall_and. split; [|by apply replace_char_removes].
    apply replace_char_keeps; [done|]. by apply replace_char_removes.
  - intros rnd He. rewrite He, HasSuffix_tempFile in Hs. done.
  - intros Hp. by rewrite Hid, sanitizeContainerID_plain.
Qed.
