(* ===== verification/Events.v ===== *)
(** * fractiond/internal/events: the asynchronous event processor

    NRI callbacks enqueue mapping changes into a bounded channel without ever
    blocking; one worker goroutine applies them to the [store.Writer].  The
    goroutines' interleavings are the step relation [step]; the writer is any
    instance of [StoreWriter].  Callbacks may panic, which drops their event. *)

From S2P Require Import Prelude GoStrings Runtime Store FileSystem FsStore.
From stdpp Require Import base gmap strings list.
From Stdlib Require Import ZArith Lia Ascii String.
#[local] Open Scope string_scope.
#[local] Open Scope list_scope.
#[local] Open Scope Z_scope.

(** ** Data *)

Definition defaultQueueDepth : Z := 10 * 1024.

(** What running a Go callback does. *)
Inductive call (A : Type) := Returns (a : A) | Panics.
Arguments Returns {A} a.
Arguments Panics {A}.

(** One constructor per [kind], with the fields that kind uses. *)
Inductive event :=
| upsert (adapt : call (option ContainerInfo))
| remove (containerID : string)
| replace (syncAdapt : call (list ContainerInfo)) (fromReconnect : bool).

(** A queued event, or a flush barrier with the identity of its channel. *)
Inductive item := IEvent (ev : event) | IBarrier (done : nat).

(** ** The worker's handling of one event *)

Section processor.
Context {St : Type} `{StoreWriter St}.

(** [Panics] is a panic that escapes [apply]. *)
Definition apply (ev : event) (writer : St) : call St :=
  match ev with
  | upsert Panics => Panics
  | upsert (Returns None) => Returns writer
  | upsert (Returns (Some info)) => Returns (Store.Upsert info writer)
  | remove containerID => Returns (Store.Delete containerID writer)
  | replace Panics _ => Panics
  | replace (Returns infos) fromReconnect =>
      if fromReconnect && bool_decide (List.length infos = O) then Returns writer
      else Returns (Store.Replace infos writer)
  end.

(** The deferred [recover] keeps the worker alive. *)
Definition safeApply (writer : St) (ev : event) : St :=
  match apply ev writer with
  | Returns writer' => writer'
  | Panics => writer
  end.

(** ** The processor's shared state *)

Record Processor := mkProcessor {
  writer : St;
  queue : list item;
  inflight : option item;      (* received by the worker, not finished *)
  flushes : gset nat;          (* barriers created so far *)
  closed : gset nat            (* barriers whose channel was closed *)
}.

Definition NewProcessor (w : St) : Processor := mkProcessor w [] None ∅ ∅.

Definition has_room (p : Processor) : bool :=
  Z.of_nat (List.length (queue p)) <? defaultQueueDepth.

Definition push (it : item) (p : Processor) : Processor :=
  mkProcessor (writer p) (queue p ++ [it]) (inflight p) (flushes p) (closed p).

(** The non-blocking send; [false] is the default branch of the select. *)
Definition enqueue (it : item) (p : Processor) : Processor * bool :=
  if has_room p then (push it p, true) else (p, false).

Definition Upsert (adapt : call (option ContainerInfo)) (p : Processor) : Processor * bool :=
  enqueue (IEvent (upsert adapt)) p.
Definition Delete (containerID : string) (p : Processor) : Processor * bool :=
  enqueue (IEvent (remove containerID)) p.
Definition Synchronize (adapt : call (list ContainerInfo)) (p : Processor) : Processor * bool :=
  enqueue (IEvent (replace adapt true)) p.

(** The blocking send of [Flush]: [None] while the queue is full.  [n] is the
    fresh channel. *)
Definition flush_send (n : nat) (p : Processor) : option Processor :=
  if has_room p && bool_decide (n ∉ flushes p)
  then Some (mkProcessor (writer p) (queue p ++ [IBarrier n]) (inflight p) ({[n]} ∪ flushes p)
               (closed p))
  else None.

(** One iteration of [run] in two steps: the receive, and the handling. *)
Definition run_recv (p : Processor) : option Processor :=
  match inflight p, queue p with
  | None, it :: q => Some (mkProcessor (writer p) q (Some it) (flushes p) (closed p))
  | _, _ => None
  end.

Definition run_handle (p : Processor) : option Processor :=
  match inflight p with
  | None => None
  | Some (IBarrier n) =>
      Some (mkProcessor (writer p) (queue p) None (flushes p) ({[n]} ∪ closed p))
  | Some (IEvent ev) =>
      Some (mkProcessor (safeApply (writer p) ev) (queue p) None (flushes p) (closed p))
  end.

(** ** Interleavings *)

Inductive label :=
| LSend (ev : event) (accepted : bool)   (* a producer's enqueue *)
| LFlush (n : nat)                       (* Flush sends its barrier *)
| LReturn (n : nat)                      (* Flush returns *)
| LRecv
| LHandle.

Inductive step : Processor → label → Processor → Prop :=
| step_send p ev : step p (LSend ev (enqueue (IEvent ev) p).2) (enqueue (IEvent ev) p).1
| step_flush p n p' : flush_send n p = Some p' → step p (LFlush n) p'
| step_return p n : n ∈ closed p → step p (LReturn n) p
| step_recv p p' : run_recv p = Some p' → step p LRecv p'
| step_handle p p' : run_handle p = Some p' → step p LHandle p'.

(** Traces, extended at the end. *)
Inductive steps (p0 : Processor) : list label → Processor → Prop :=
| steps_nil : steps p0 [] p0
| steps_snoc tr p l p' : steps p0 tr p → step p l p' → steps p0 (tr ++ [l]) p'.

(** The events of a trace that entered the queue, in order. *)
Definition accepted_event (l : label) : option event :=
  match l with LSend ev true => Some ev | _ => None end.
Definition accepted (tr : list label) : list event := omap accepted_event tr.

Definition item_event (it : item) : option event :=
  match it with IEvent ev => Some ev | IBarrier _ => None end.
Definition events_of (its : list item) : list event := omap item_event its.

(** Items received or queued, oldest first. *)
Definition pending (p : Processor) : list item := option_list (inflight p) ++ queue p.

(** ** Invariant *)

(** A flush whose barrier was sent when the events [sent] had been accepted has
    completed and these events are applied, or its barrier is still pending
    right after the ones of them that are not. *)
Definition flush_inv (applied : list event) (p : Processor) (sent : list event) (n : nat) : Prop :=
  (n ∈ closed p ∧ sent `prefix_of` applied ∧ IBarrier n ∉ pending p) ∨
  (n ∉ closed p ∧ ∃ before after, pending p = before ++ IBarrier n :: after ∧
     sent = applied ++ events_of before ∧ IBarrier n ∉ before ∧ IBarrier n ∉ after).

(** After the trace [tr] from an empty processor over [w0], the events of
    [applied] have been handled. *)
Definition processor_inv (w0 : St) (tr : list label) (p : Processor) (applied : list event) : Prop :=
  writer p = fold_left safeApply applied w0 ∧
  accepted tr = applied ++ events_of (pending p) ∧
  Z.of_nat (List.length (queue p)) ≤ defaultQueueDepth ∧
  (∀ n, LFlush n ∈ tr → n ∈ flushes p) ∧
  (∀ n, IBarrier n ∈ pending p ∨ n ∈ closed p → n ∈ flushes p) ∧
  (∀ n, LReturn n ∈ tr → n ∈ closed p) ∧
  ∀ tr1 n tr2, tr = tr1 ++ LFlush n :: tr2 → flush_inv applied p (accepted tr1) n.

Lemma accepted_snoc tr l : accepted (tr ++ [l]) = accepted tr ++ option_list (accepted_event l).
Proof. unfold accepted. rewrite omap_app. cbn. by destruct (accepted_event l). Qed.

Lemma events_of_app a b : events_of (a ++ b) = events_of a ++ events_of b.
Proof. apply omap_app. Qed.

Lemma snoc_split {A} (tr : list A) l tr1 x tr2 :
  tr ++ [l] = tr1 ++ x :: tr2 →
  (tr2 = [] ∧ l = x ∧ tr = tr1) ∨ ∃ tr2', tr2 = tr2' ++ [l] ∧ tr = tr1 ++ x :: tr2'.
Proof.
  destruct (list_eq_nil_dec tr2) as [->|Hne].
  - intros [? [= ->]]%app_inj_2; [|done]. auto.
  - destruct (exists_last Hne) as (tr2' & z & ->). intros He. right. exists tr2'.
    rewrite app_comm_cons, app_assoc in He. apply app_inj_2 in He as [? [= ->]]; [|done]. done.
Qed.

(** Steps that only append an event to the pending items, or nothing. *)
Lemma inv_append w0 tr p applied ev (b : bool) :
  processor_inv w0 tr p applied →
  (b = true → Z.of_nat (List.length (queue p)) < defaultQueueDepth) →
  processor_inv w0 (tr ++ [LSend ev b]) (if b then push (IEvent ev) p else p) applied.
Proof.
  intros (Hw & Hacc & Hlen & Hfl & Hpend & Hret & Hsplit) Hroom.
  assert (pending (if b then push (IEvent ev) p else p) =
          pending p ++ (if b then [IEvent ev] else [])) as Hp.
  { destruct b; [|by rewrite app_nil_r]. unfold pending. cbn. by rewrite app_assoc. }
  assert (∀ n, IBarrier n ∈ pending p ++ (if b then [IEvent ev] else []) ↔ IBarrier n ∈ pending p)
    as Hb.
  { intros n. rewrite elem_of_app. destruct b; [rewrite list_elem_of_singleton|rewrite elem_of_nil];
      split; [intros [?|?]; done|auto|intros [?|?]; done|auto]. }
  split_and!.
  - by destruct b.
  - rewrite accepted_snoc, Hacc, Hp, events_of_app, <- app_assoc. by destruct b.
  - destruct b; [|done]. cbn. rewrite length_app. cbn. specialize (Hroom eq_refl). lia.
  - intros n [Hn|Hn%list_elem_of_singleton]%elem_of_app; [|done]. destruct b; by apply Hfl.
  - intros n Hn. rewrite Hp, Hb in Hn. destruct b; by apply Hpend.
  - intros n [Hn|Hn%list_elem_of_singleton]%elem_of_app; [|done]. destruct b; by apply Hret.
  - intros tr1 n tr2 [(_ & He & _)|(tr2' & -> & Ht)]%snoc_split; [done|].
    destruct (Hsplit _ _ _ Ht) as [(Hc & Hpre & Hnb)|(Hc & before & after & Hpd & Hs & Hb1 & Hb2)].
    + left. rewrite Hp, Hb. by destruct b.
    + right. split; [by destruct b|]. exists before, (after ++ if b then [IEvent ev] else []).
      rewrite Hp, Hpd, <- app_assoc. split_and!; [done..|].
      rewrite elem_of_app. intros [?|Hx]; [done|].
      destruct b; [by apply list_elem_of_singleton in Hx|by apply elem_of_nil in Hx].
Qed.

Lemma inv_flush w0 tr p applied n p' :
  processor_inv w0 tr p applied → flush_send n p = Some p' →
  processor_inv w0 (tr ++ [LFlush n]) p' applied.
Proof.
  intros (Hw & Hacc & Hlen & Hfl & Hpend & Hret & Hsplit). unfold flush_send, has_room.
  destruct (_ && _) eqn:E; [|done]. intros [= <-]. bool_simpl.
  set (p' := mkProcessor _ _ _ _ _).
  assert (pending p' = pending p ++ [IBarrier n]) as Hp.
  { unfold pending. cbn. by rewrite app_assoc. }
  assert (n ∉ closed p ∧ IBarrier n ∉ pending p) as [Hnc Hnp] by (split; intros ?; eauto).
  split_and!; [done| | | | | |].
  - rewrite accepted_snoc, Hacc, Hp, events_of_app. cbn. by rewrite !app_nil_r.
  - cbn. rewrite length_app. cbn. lia.
  - intros k [Hk|Hk%list_elem_of_singleton]%elem_of_app; cbn.
    + apply elem_of_union_r. auto.
    + injection Hk as ->. by apply elem_of_union_l, elem_of_singleton.
  - intros k. rewrite Hp, elem_of_app, list_elem_of_singleton. cbn.
    intros [[Hk|[= ->]]|Hk]; [apply elem_of_union_r; auto| |apply elem_of_union_r; auto].
    by apply elem_of_union_l, elem_of_singleton.
  - intros k [Hk|Hk%list_elem_of_singleton]%elem_of_app; [|done]. by apply Hret.
  - intros tr1 k tr2 [(_ & [= <-] & <-)|(tr2' & -> & Ht)]%snoc_split.
    + right. split; [done|]. exists (pending p), []. split_and!; [done..|apply not_elem_of_nil].
    + assert (k ≠ n) as Hkn.
      { intros ->. apply H1, Hfl. rewrite Ht. apply elem_of_app. right. by apply elem_of_cons; left. }
      destruct (Hsplit _ _ _ Ht) as [(Hc & Hpre & Hnb)|(Hc & before & after & Hpd & Hs & Hb1 & Hb2)].
      * left. split_and!; [done..|]. rewrite Hp, elem_of_app, list_elem_of_singleton.
        intros [?|[= ->]]; done.
      * right. split; [done|]. exists before, (after ++ [IBarrier n]).
        rewrite Hp, Hpd, <- app_assoc. split_and!; [done..|].
        rewrite elem_of_app, list_elem_of_singleton. intros [?|[= ->]]; done.
Qed.

(** Labels that neither send nor flush, on an unchanged set of pending items. *)
Lemma inv_same w0 tr p p' applied l :
  processor_inv w0 tr p applied →
  accepted_event l = None → (∀ n, l ≠ LFlush n) → (∀ n, l = LReturn n → n ∈ closed p) →
  writer p' = writer p → pending p' = pending p → flushes p' = flushes p → closed p' = closed p →
  (List.length (queue p') ≤ List.length (queue p))%nat →
  processor_inv w0 (tr ++ [l]) p' applied.
Proof.
  intros (Hw & Hacc & Hlen & Hfl & Hpend & Hret & Hsplit) Hl Hnf Hnr Hw' Hp' Hf' Hc' Hq'.
  split_and!.
  - by rewrite Hw'.
  - by rewrite accepted_snoc, Hl, app_nil_r, Hp'.
  - lia.
  - intros n [Hn|Hn%list_elem_of_singleton]%elem_of_app; [|by destruct (Hnf n)].
    rewrite Hf'. by apply Hfl.
  - intros n. rewrite Hp', Hc', Hf'. apply Hpend.
  - intros n [Hn|Hn%list_elem_of_singleton]%elem_of_app; rewrite Hc'; [by apply Hret|by apply Hnr].
  - intros tr1 n tr2 [(_ & He & _)|(tr2' & -> & Ht)]%snoc_split; [by destruct (Hnf n)|].
    unfold flush_inv. rewrite Hp', Hc'. by apply (Hsplit _ _ tr2').
Qed.

Lemma inv_handle_event w0 tr p applied ev : processor_inv w0 tr p applied → inflight p = Some (IEvent ev) →
  processor_inv w0 (tr ++ [LHandle]) (mkProcessor (safeApply (writer p) ev) (queue p) None (flushes p) (closed p)) (applied ++ [ev]).
Proof.
  intros (Hw & Hacc & Hlen & Hfl & Hpend & Hret & Hsplit) Ei.
  unfold pending in Hacc, Hpend; rewrite Ei in Hacc, Hpend; cbn in Hacc. split_and!; cbn.
  - by rewrite fold_left_app, Hw.
  - by rewrite accepted_snoc, Hacc, app_nil_r, <- app_assoc.
  - done.
  - intros n [Hn|Hn%list_elem_of_singleton]%elem_of_app; [|done]. by apply Hfl.
  - intros n Hn. apply Hpend. destruct Hn as [Hn|Hn]; [left; by apply elem_of_cons; right|by right].
  - intros n [Hn|Hn%list_elem_of_singleton]%elem_of_app; [|done]. by apply Hret.
  - intros tr1 n tr2 [(_ & He & _)|(tr2' & -> & Ht)]%snoc_split; [done|].
    destruct (Hsplit _ _ _ Ht) as [(Hc & Hpre & Hnb)|(Hc & before & after & Hpd & Hs & Hb1 & Hb2)];
      unfold pending in *; rewrite Ei in *; cbn in *.
    + left. split_and!; [done|by apply prefix_app_r|]. intros ?. apply Hnb.
      by apply elem_of_cons; right.
    + right. split; [done|]. destruct before as [|it before]; [done|].
      cbn in Hpd. injection Hpd as <- ->. exists before, after. cbn in Hs.
      rewrite Hs, <- app_assoc. split_and!; [done..| |done]. intros ?. apply Hb1.
      by apply elem_of_cons; right.
Qed.

Lemma inv_handle_barrier w0 tr p applied m : processor_inv w0 tr p applied → inflight p = Some (IBarrier m) →
  processor_inv w0 (tr ++ [LHandle]) (mkProcessor (writer p) (queue p) None (flushes p) ({[m]} ∪ closed p)) applied.
Proof.
  intros (Hw & Hacc & Hlen & Hfl & Hpend & Hret & Hsplit) Ei.
  unfold pending in Hacc, Hpend; rewrite Ei in Hacc, Hpend; cbn in Hacc. split_and!; cbn.
  - done.
  - by rewrite accepted_snoc, Hacc, app_nil_r.
  - done.
  - intros n [Hn|Hn%list_elem_of_singleton]%elem_of_app; [|done]. by apply Hfl.
  - intros n Hn. apply Hpend. destruct Hn as [Hn|[->%elem_of_singleton|Hn]%elem_of_union].
    + left. by apply elem_of_cons; right.
    + left. by apply elem_of_cons; left.
    + by right.
  - intros n [Hn|Hn%list_elem_of_singleton]%elem_of_app; [|done].
    apply elem_of_union_r. by apply Hret.
  - intros tr1 n tr2 [(_ & He & _)|(tr2' & -> & Ht)]%snoc_split; [done|].
    destruct (Hsplit _ _ _ Ht) as [(Hc & Hpre & Hnb)|(Hc & before & after & Hpd & Hs & Hb1 & Hb2)];
      unfold pending in *; rewrite Ei in *; cbn in *.
    + left. cbn. split_and!; [by apply elem_of_union_r|done|]. intros ?. apply Hnb.
      by apply elem_of_cons; right.
    + destruct before as [|it before]; cbn in Hpd; injection Hpd as <- ->.
      * left. cbn. rewrite Hs, app_nil_r.
         split_and!; [by apply elem_of_union_l, elem_of_singleton|done|done].
      * right. cbn. split.
         { intros [->%elem_of_singleton|?]%elem_of_union; [|done]. apply Hb1.
           by apply elem_of_cons; left. }
         exists before, after. cbn in Hs. split_and!; [done..| |done]. intros ?. apply Hb1.
         by apply elem_of_cons; right.
Qed.

Lemma inv_handle w0 tr p p' applied :
  processor_inv w0 tr p applied → run_handle p = Some p' →
  ∃ applied', processor_inv w0 (tr ++ [LHandle]) p' applied'.
Proof.
  intros Hi. unfold run_handle. destruct (inflight p) as [[ev|m]|] eqn:Ei; [| |done]; intros [= <-].
  - exists (applied ++ [ev]). by apply inv_handle_event.
  - exists applied. by apply inv_handle_barrier.
Qed.

Lemma processor_invariant w0 tr p :
  steps (NewProcessor w0) tr p → ∃ applied, processor_inv w0 tr p applied.
Proof.
  induction 1 as [|tr p l p' _ [applied IH] Hstep].
  { exists []. split_and!; try done; cbn.
    - by intros ? ?%elem_of_nil.
    - intros n [?%elem_of_nil|?%elem_of_empty]; done.
    - by intros ? ?%elem_of_nil.
    - by intros []. }
  destruct Hstep as [p ev|p n p' Hf|p n Hn|p p' Hr|p p' Hh].
  - exists applied. unfold enqueue. pose proof (inv_append w0 tr p applied ev (has_room p) IH) as Ha.
    unfold has_room in *. destruct (Z.ltb_spec (Z.of_nat (List.length (queue p))) defaultQueueDepth);
      by apply Ha.
  - exists applied. by eapply inv_flush.
  - exists applied. eapply inv_same; try done. by intros ? [= ->].
  - exists applied. unfold run_recv in Hr. destruct (inflight p) eqn:Ei; [done|].
    destruct (queue p) as [|it q] eqn:Eq; [done|]. injection Hr as <-.
    eapply inv_same; try done; unfold pending; cbn; rewrite ?Ei, ?Eq; [done|cbn; lia].
  - by eapply inv_handle.
Qed.

End processor.
Arguments Processor : clear implicits.

(** ** Events as store operations *)

(** The writer call an event amounts to: none when its callback drops it, panics,
    or reports an empty set on reconnect. *)
Definition event_op (ev : event) : option WriterOp :=
  match ev with
  | upsert (Returns (Some info)) => Some (OpUpsert info)
  | upsert _ => None
  | remove containerID => Some (OpDelete containerID)
  | replace (Returns infos) fromReconnect =>
      match infos, fromReconnect with
      | [], true => None
      | _, _ => Some (OpReplace infos)
      end
  | replace Panics _ => None
  end.

Lemma safeApply_op {St} `{StoreWriter St} (w : St) ev :
  safeApply w ev = match event_op ev with Some op => run_op w op | None => w end.
Proof.
  unfold safeApply. destruct ev as [[[info|]|]|id|[[|i infos]|] []]; done.
Qed.

Lemma fold_safeApply {St} `{StoreWriter St} evs : ∀ w : St,
  fold_left safeApply evs w = run_ops (omap event_op evs) w.
Proof.
  induction evs as [|ev evs IH]; intros w; [done|]. cbn [fold_left omap list_omap].
  rewrite IH, safeApply_op. by destruct (event_op ev).
Qed.

(** Executing a trace: [None] when a label is not enabled. *)
Definition exec_label {St} `{StoreWriter St} (l : label) (p : Processor St) : option (Processor St) :=
  match l with
  | LSend ev b =>
      let r := enqueue (IEvent ev) p in if Bool.eqb r.2 b then Some r.1 else None
  | LFlush n => flush_send n p
  | LReturn n => if bool_decide (n ∈ closed p) then Some p else None
  | LRecv => run_recv p
  | LHandle => run_handle p
  end.

Fixpoint run_labels {St} `{StoreWriter St} (tr : list label) (p : Processor St)
    : option (Processor St) :=
  match tr with
  | [] => Some p
  | l :: tr => p' ← exec_label l p; run_labels tr p'
  end.

Lemma exec_label_step {St} `{StoreWriter St} l (p p' : Processor St) :
  exec_label l p = Some p' → step p l p'.
Proof.
  destruct l as [ev b|n|n| |]; cbn [exec_label].
  - destruct (Bool.eqb _ b) eqn:E; [|done]. apply Bool.eqb_prop in E as <-. intros [= <-].
    apply step_send.
  - apply step_flush.
  - case_bool_decide; [|done]. intros [= <-]. by apply step_return.
  - apply step_recv.
  - apply step_handle.
Qed.

Lemma steps_append {St} `{StoreWriter St} (p0 p1 p2 : Processor St) tr1 tr2 :
  steps p0 tr1 p1 → steps p1 tr2 p2 → steps p0 (tr1 ++ tr2) p2.
Proof.
  intros H1 H2. induction H2 as [|tr p l p' _ IH Hs]; [by rewrite app_nil_r|].
  rewrite app_assoc. by eapply steps_snoc.
Qed.

Lemma steps_one {St} `{StoreWriter St} (p p' : Processor St) l : step p l p' → steps p [l] p'.
Proof. intros H1. apply (steps_snoc p [] p l p'); [apply steps_nil|done]. Qed.

Lemma run_labels_steps {St} `{StoreWriter St} tr : ∀ p p' : Processor St,
  run_labels tr p = Some p' → steps p tr p'.
Proof.
  induction tr as [|l tr IH]; intros p p'; cbn [run_labels].
  - intros [= <-]. apply steps_nil.
  - destruct (exec_label l p) as [p1|] eqn:E; [|done]. cbn [mbind option_bind]. intros H1.
    apply (steps_append p p1 p' [l] tr); [by apply steps_one, exec_label_step|by apply IH].
Qed.

Definition worker_label (l : label) : bool :=
  match l with LRecv | LHandle => true | _ => false end.

(** Handling the item in flight, by the worker alone. *)
Lemma handle_inflight {St} `{StoreWriter St} (p : Processor St) it :
  inflight p = Some it →
  ∃ p', steps p [LHandle] p' ∧ inflight p' = None ∧ queue p' = queue p ∧
    writer p' = fold_left safeApply (events_of [it]) (writer p) ∧
    closed p ⊆ closed p' ∧ ∀ n, it = IBarrier n → n ∈ closed p'.
Proof.
  intros Hi. destruct it as [ev|m].
  - exists (mkProcessor (safeApply (writer p) ev) (queue p) None (flushes p) (closed p)).
    split_and!; try done. apply steps_one, step_handle. unfold run_handle. by rewrite Hi.
  - exists (mkProcessor (writer p) (queue p) None (flushes p) ({[m]} ∪ closed p)).
    split_and!; try done.
    + apply steps_one, step_handle. unfold run_handle. by rewrite Hi.
    + cbn. set_solver.
    + intros n [= ->]. cbn. by apply elem_of_union_l, elem_of_singleton.
Qed.

Lemma drain_queue {St} `{StoreWriter St} q : ∀ p : Processor St,
  inflight p = None → queue p = q →
  ∃ tr p', steps p tr p' ∧ Forall (λ l, worker_label l = true) tr ∧
    List.length tr = (2 * List.length q)%nat ∧ pending p' = [] ∧
    writer p' = fold_left safeApply (events_of q) (writer p) ∧
    closed p ⊆ closed p' ∧ ∀ n, IBarrier n ∈ q → n ∈ closed p'.
Proof.
  induction q as [|it q IH]; intros p Hi Hq.
  { exists [], p. split_and!; try done; [apply steps_nil|..].
    - unfold pending. by rewrite Hi, Hq.
    - by intros n ?%elem_of_nil. }
  set (p1 := mkProcessor (writer p) q (Some it) (flushes p) (closed p)).
  assert (steps p [LRecv] p1) as H1.
  { apply steps_one, step_recv. unfold run_recv. by rewrite Hi, Hq. }
  destruct (handle_inflight p1 it eq_refl) as (p2 & H2 & Hi2 & Hq2 & Hw2 & Hc2 & Hb2).
  destruct (IH p2 Hi2 Hq2) as (tr & p3 & H3 & Htr & Hlen & Hp3 & Hw3 & Hc3 & Hb3).
  exists ([LRecv] ++ [LHandle] ++ tr), p3. split_and!.
  - eapply steps_append, steps_append; [exact H1|exact H2|exact H3].
  - by repeat constructor.
  - cbn. lia.
  - done.
  - rewrite Hw3, Hw2. change (it :: q) with ([it] ++ q). by rewrite events_of_app, fold_left_app.
  - etransitivity; [exact Hc2|exact Hc3].
  - intros n [He|Hn]%elem_of_cons; [apply Hc3, Hb2; by rewrite He|by apply Hb3].
Qed.

(** ** Properties *)

(** C11: [Flush] is a barrier.  In every interleaving of producers and worker,
    when a Flush has returned, every event accepted into the queue before its
    barrier was sent has been applied to the writer, in order and exactly once,
    whichever callbacks panicked; later accepted events are applied after them
    or still pending, none is lost. *)
Theorem Flush_barrier {St} `{StoreWriter St} (w0 : St) tr1 n tr2 p
  (Hsteps : steps (NewProcessor w0) (tr1 ++ LFlush n :: tr2) p)
  (Hreturn : LReturn n ∈ tr2) :
  ∃ later, writer p = fold_left safeApply (accepted tr1 ++ later) w0 ∧
    accepted (tr1 ++ LFlush n :: tr2) = accepted tr1 ++ later ++ events_of (pending p).
Proof.
  destruct (processor_invariant _ _ _ Hsteps)
    as (applied & Hw & Hacc & _ & _ & _ & Hret & Hsplit).
  assert (n ∈ closed p) as Hc.
  { apply Hret. apply elem_of_app. right. by apply elem_of_cons; right. }
  destruct (Hsplit tr1 n tr2 eq_refl) as [(_ & [later ->] & _)|(? & _)]; [|done].
  exists later. split; [done|]. by rewrite Hacc, <- app_assoc.
Qed.

Lemma Flush_barrier_witness :
  let w0 : ContainerStore.t := ∅ in
  let ev := upsert (Returns (Some (example_info "0a" "/x"))) in
  let tr1 := [LSend ev true; LSend (upsert Panics) true] in
  let tr2 := [LRecv; LHandle; LRecv; LHandle; LRecv; LHandle; LReturn 7] in
  ∃ p, run_labels (tr1 ++ LFlush 7 :: tr2) (NewProcessor w0) = Some p ∧
    ∃ later, writer p = fold_left safeApply (accepted tr1 ++ later) w0.
Proof.
  cbv zeta. set (w0 := ∅ : ContainerStore.t).
  set (tr1 := [LSend (upsert (Returns (Some (example_info "0a" "/x")))) true;
               LSend (upsert Panics) true]).
  set (tr2 := [LRecv; LHandle; LRecv; LHandle; LRecv; LHandle; LReturn 7]).
  destruct (run_labels (tr1 ++ LFlush 7 :: tr2) (NewProcessor w0)) as [p|] eqn:E;
    [|vm_compute in E; discriminate E].
  exists p. split; [reflexivity|].
  destruct (Flush_barrier w0 tr1 7 tr2 p) as (later & Hw & _).
  - apply run_labels_steps. exact E.
  - unfold tr2. repeat constructor.
  - exists later. exact Hw.
Defined.

(** The mapping directory is up to date after a Flush.  Over the filesystem
    store, without faults and for bare container IDs, when a Flush has returned
    a scan of the directory is exactly the in-memory mapping obtained by applying
    in order all events accepted before the Flush and some of those after it. *)
Theorem Flush_publishes (w0 : world) s0 tr1 n tr2 p
  (Hsim : simulates w0 s0)
  (Hfit : Forall op_fit (omap event_op (accepted (tr1 ++ LFlush n :: tr2))))
  (Hsteps : steps (NewProcessor w0) (tr1 ++ LFlush n :: tr2) p)
  (Hreturn : LReturn n ∈ tr2) :
  ∃ later, (accepted tr1 ++ later) `prefix_of` accepted (tr1 ++ LFlush n :: tr2) ∧
    scan_dir (cur (writer p)) =
    persisted <$> run_ops (omap event_op (accepted tr1 ++ later)) s0.
Proof.
  destruct (processor_invariant _ _ _ Hsteps)
    as (applied & Hw & Hacc & _ & _ & _ & Hret & Hsplit).
  assert (n ∈ closed p) as Hc.
  { apply Hret. apply elem_of_app. right. by apply elem_of_cons; right. }
  destruct (Hsplit tr1 n tr2 eq_refl) as [(_ & [later Hl] & _)|(? & _)]; [|done].
  exists later. rewrite <- Hl, Hacc. split; [by apply prefix_app_r|].
  rewrite Hacc, omap_app in Hfit. apply Forall_app in Hfit as [Hfit _].
  rewrite Hw, fold_safeApply.
  by destruct (simulates_run_ops _ _ _ Hfit Hsim) as (_ & H & _).
Qed.

Lemma simulates_empty : simulates (mkWorld None [] []) ∅.
Proof.
  split_and!.
  - split; [repeat constructor|done].
  - rewrite fmap_empty. apply map_eq. intros k. by rewrite lookup_scan_dir.
  - intros k [c Hk]. by rewrite lookup_empty in Hk.
Qed.

Lemma Flush_publishes_witness :
  let tr1 := [LSend (upsert (Returns (Some (example_info "0a" "/x")))) true;
              LSend (replace (Returns []) true) true] in
  let tr2 := [LRecv; LHandle; LRecv; LHandle; LRecv; LHandle; LReturn 1] in
  ∃ p later, run_labels (tr1 ++ LFlush 1 :: tr2) (NewProcessor (mkWorld None [] [])) = Some p ∧
    scan_dir (cur (writer p)) =
    persisted <$> run_ops (omap event_op (accepted tr1 ++ later)) (∅ : ContainerStore.t).
Proof.
  cbv zeta.
  set (tr1 := [LSend (upsert (Returns (Some (example_info "0a" "/x")))) true;
               LSend (replace (Returns []) true) true]).
  set (tr2 := [LRecv; LHandle; LRecv; LHandle; LRecv; LHandle; LReturn 1]).
  destruct (run_labels (tr1 ++ LFlush 1 :: tr2) (NewProcessor (mkWorld None [] []))) as [p|] eqn:E;
    [|vm_compute in E; discriminate E].
  destruct (Flush_publishes (mkWorld None [] []) ∅ tr1 1 tr2 p) as (later & _ & Hs).
  - exact simulates_empty.
  - constructor; [|constructor]. split; apply (bool_decide_unpack _); vm_compute; exact I.
  - apply run_labels_steps. exact E.
  - unfold tr2. repeat constructor.
  - exists p, later. split; [reflexivity|exact Hs].
Defined.

(** The worker always drains.  From every state the worker alone, in two
    steps per pending item, reaches an empty queue with every pending event
    applied in order and every pending barrier released, so a Flush whose barrier
    was sent always returns. *)
Theorem worker_drains {St} `{StoreWriter St} (p : Processor St) :
  ∃ tr p', steps p tr p' ∧ Forall (λ l, worker_label l = true) tr ∧
    (List.length tr ≤ 2 * List.length (pending p))%nat ∧ pending p' = [] ∧
    writer p' = fold_left safeApply (events_of (pending p)) (writer p) ∧
    ∀ n, IBarrier n ∈ pending p → n ∈ closed p'.
Proof.
  unfold pending. destruct (inflight p) as [it|] eqn:Ei; cbn [option_list app].
  - destruct (handle_inflight p it Ei) as (p2 & H2 & Hi2 & Hq2 & Hw2 & Hc2 & Hb2).
    destruct (drain_queue (queue p) p2 Hi2 Hq2) as (tr & p3 & H3 & Htr & Hlen & Hp3 & Hw3 & Hc3 & Hb3).
    exists ([LHandle] ++ tr), p3. split_and!.
    + by eapply steps_append.
    + by constructor.
    + cbn. lia.
    + done.
    + rewrite Hw3, Hw2. change (it :: queue p) with ([it] ++ queue p).
      by rewrite events_of_app, fold_left_app.
    + intros n [He|Hn]%elem_of_cons; [apply Hc3, Hb2; by rewrite He|by apply Hb3].
  - destruct (drain_queue (queue p) p Ei eq_refl) as (tr & p3 & H3 & Htr & Hlen & Hp3 & Hw3 & _ & Hb3).
    exists tr, p3. split_and!; try done. cbn. lia.
Qed.
