(* ===== verification/Adapter.v ===== *)
(** * fractiond/internal/adapter.go: from NRI objects to recorded mappings *)

From S2P Require Import Prelude GoStrings Annotations Runtime.
From stdpp Require Import base gmap strings list.
From Stdlib Require Import ZArith Lia Ascii String.
#[local] Open Scope string_scope.
#[local] Open Scope list_scope.
#[local] Open Scope Z_scope.

Module adapter.
Section adapter.
Context `{QuantityLib} (annotationPrefix : string).

Definition isFractionalGPUContainer (pod : option PodSandbox) (containerName : string)
    : option GPUMemoryConfig :=
  match ParseGPUMemoryAnnotations (GetPodAnnotations pod) containerName annotationPrefix with
  | Err _ => None
  | Ok cfg => if IsEmpty cfg then None else Some cfg
  end.

Definition container (pod : option PodSandbox) (ctr : option Container) : option ContainerInfo :=
  match ctr with
  | None => None
  | Some c =>
      if String.eqb (Id c) "" then None
      else match isFractionalGPUContainer pod (Name c) with
           | None => None
           | Some cfg =>
               let cgroupPath :=
                 match Linux c with Some linux => CgroupsPath linux | None => "" end in
               Some (mkContainerInfo (Id c) (Name c) (GetPodName pod) (GetPodNamespace pod)
                       (GetPodUid pod) cgroupPath (gpudevices.FromContainer c)
                       (EffectiveMemoryMiB cfg))
           end
  end.

Definition containers (pods : list (option PodSandbox)) (ctrs : list (option Container))
    : list ContainerInfo :=
  let podsByID := podSandboxLookup pods in
  fold_left
    (λ infos ctr,
       match container (podsByID !! GetPodSandboxId ctr) ctr with
       | Some info => infos ++ [info]
       | None => infos
       end) ctrs [].

End adapter.
End adapter.

(** ** Lemmas *)

Lemma adapter_container_spec `{QuantityLib} prefix pod c info :
  adapter.container prefix pod (Some c) = Some info ↔
  Id c ≠ "" ∧ ∃ cfg,
    ParseGPUMemoryAnnotations (GetPodAnnotations pod) (Name c) prefix = Ok cfg ∧
    IsEmpty cfg = false ∧
    info = mkContainerInfo (Id c) (Name c) (GetPodName pod) (GetPodNamespace pod)
             (GetPodUid pod) (match Linux c with Some l => CgroupsPath l | None => "" end)
             (gpudevices.FromContainer c) (EffectiveMemoryMiB cfg).
Proof.
  unfold adapter.container, adapter.isFractionalGPUContainer.
  destruct (String.eqb_spec (Id c) "") as [He|Hne]; [by split; [|intros [? _]]|].
  destruct (ParseGPUMemoryAnnotations _ _ _) as [cfg|e].
  - destruct (IsEmpty cfg) eqn:Ee.
    + split; [done|]. intros (_ & cfg' & [= <-] & ? & _). congruence.
    + split; [intros [= <-]; eauto|]. by intros (_ & cfg' & [= <-] & _ & ->).
  - split; [done|]. by intros (_ & ? & ? & _).
Qed.

Lemma adapter_containers_omap `{QuantityLib} prefix pods ctrs :
  adapter.containers prefix pods ctrs =
  omap (λ ctr, adapter.container prefix (podSandboxLookup pods !! GetPodSandboxId ctr) ctr) ctrs.
Proof.
  unfold adapter.containers.
  assert (∀ l acc, fold_left (λ infos ctr,
      match adapter.container prefix (podSandboxLookup pods !! GetPodSandboxId ctr) ctr with
      | Some info => infos ++ [info] | None => infos end) l acc =
    acc ++ omap (λ ctr, adapter.container prefix
      (podSandboxLookup pods !! GetPodSandboxId ctr) ctr) l) as Hl; [|by rewrite Hl].
  induction l as [|ctr l IH]; intros acc; cbn; [by rewrite app_nil_r|].
  rewrite IH. destruct (adapter.container prefix _ ctr); [by rewrite <- app_assoc|done].
Qed.
