(* ===== verification/RetroAudit.v ===== *)
(** * fractiond/internal/audit: retroactive enforcement

    On every NRI (re)connect the sentinel audits the snapshot: [detector] finds
    GPU-fractioning containers that run without what the create hook injects,
    and [remediator] stops them on a background goroutine. *)

From S2P Require Import Prelude GoStrings Annotations Injection Runtime.
From stdpp Require Import base gmap strings list.
From Stdlib Require Import ZArith Lia Ascii String.
#[local] Open Scope string_scope.
#[local] Open Scope list_scope.
#[local] Open Scope Z_scope.

(** ** detector.go *)

Record violator := mkViolator {
  vContainerID : string;
  vContainer : string;
  vPod : string;
  vNamespace : string;
  vMissing : list string
}.

Record detector := mkDetector {
  dAnnotationPrefix : string;
  dMpsPipeDirectory : string;
  dSmSharingEnabled : bool;
  dFailOpen : bool
}.

(** The key of a ["KEY=VALUE"] token; a token without ['='] is a bare key. *)
Definition env_key (kv : string) : string := cut_before "="%char kv.

(** The keys among [AllEnvKeys] that the environment defines. *)
Definition presentEnv (env : list string) : gset string :=
  fold_left
    (λ present kv,
       if bool_decide (env_key kv ∈ AllEnvKeys) then {[env_key kv]} ∪ present else present)
    env ∅.

Fixpoint hasMount (mounts : list Mount) (source destination : string) : bool :=
  match mounts with
  | [] => false
  | m :: mounts =>
      if String.eqb (Source m) source && String.eqb (Destination m) destination then true
      else hasMount mounts source destination
  end.

Definition missingInjection (d : detector) (cfg : GPUMemoryConfig) (visibleDevices : string)
    (computeMode : ComputeMode) (c : Container) : list string :=
  let env := presentEnv (Env c) in
  let '(source, destination) := MPSPipeMount (dMpsPipeDirectory d) computeMode in
  (if bool_decide (EnvMPSPipeDirectory ∈ env) then [] else ["env:" +:+ EnvMPSPipeDirectory]) ++
  (if negb (String.eqb (Limit cfg) "") && negb (bool_decide (EnvGPUMemoryLimit ∈ env))
   then ["env:" +:+ EnvGPUMemoryLimit] else []) ++
  (if negb (String.eqb (Request cfg) "") && negb (bool_decide (EnvGPUMemoryRequest ∈ env))
   then ["env:" +:+ EnvGPUMemoryRequest] else []) ++
  (if negb (String.eqb visibleDevices "") && negb (bool_decide (EnvVisibleDevices ∈ env))
   then ["env:" +:+ EnvVisibleDevices] else []) ++
  (if hasMount (Mounts c) source destination then []
   else ["mount:" +:+ source +:+ ":" +:+ destination]).

Definition enforceable (s : ContainerState) : bool :=
  match s with CONTAINER_CREATED | CONTAINER_RUNNING => true | _ => false end.

Section detector.
Context `{QuantityLib}.

Definition check (d : detector) (pod : option PodSandbox) (container : option Container)
    : option violator :=
  match container, pod with
  | Some c, Some p =>
      if String.eqb (Id c) "" then None
      else if negb (enforceable (State c)) then None
      else
        match ParseGPUMemoryAnnotations (Runtime.Annotations p) (Name c) (dAnnotationPrefix d) with
        | Err _ => None
        | Ok cfg =>
            if IsEmpty cfg then None
            else
              let cfg := ApplyDefaults cfg in
              let audit (computeMode : ComputeMode) : option violator :=
                let visibleDevices :=
                  ParseVisibleDevices (Runtime.Annotations p) (Name c) (dAnnotationPrefix d) in
                match missingInjection d cfg visibleDevices computeMode c with
                | [] => None
                | missing =>
                    Some (mkViolator (Id c) (Name c) (PodName p) (PodNamespace p) missing)
                end in
              match ParseComputeMode (Runtime.Annotations p) (Name c) (dAnnotationPrefix d)
                      (dSmSharingEnabled d) with
              | Err _ => if negb (dFailOpen d) then None else audit ComputeModeTimeSlicing
              | Ok computeMode => audit computeMode
              end
        end
  | _, _ => None
  end.

Definition violators (d : detector) (pods : list (option PodSandbox))
    (containers : list (option Container)) : list violator :=
  let podsByID := podSandboxLookup pods in
  fold_left
    (λ out container,
       match check d (podsByID !! GetPodSandboxId container) container with
       | Some v => out ++ [v]
       | None => out
       end) containers [].

End detector.

(** ** remediate.go *)

(** [ContainerStopper]: [Stop] acts on the state of the runtime and may fail. *)
Class ContainerStopper (R : Type) := {
  StopError : Type;
  Stop : string → R → result StopError unit * R
}.

Definition remediate {R} `{ContainerStopper R} (vs : list violator) (r : R) : R :=
  fold_left (λ r v, (Stop (vContainerID v) r).2) vs r.

(** ** sentinel.go *)

Record AuditConfig := mkAuditConfig {
  acAnnotationPrefix : string;
  acMPSPipeDirectory : string;
  acSMSharingEnabled : bool;
  acFailOpen : bool
}.

(** [inflight] are the background goroutines counted by the WaitGroup, each with
    the violators it was given. *)
Record Sentinel := mkSentinel {
  sDetector : detector;
  sInflight : list (list violator)
}.

Definition NewSentinel (cfg : AuditConfig) : Sentinel :=
  mkSentinel (mkDetector (acAnnotationPrefix cfg) (acMPSPipeDirectory cfg)
                (acSMSharingEnabled cfg) (acFailOpen cfg)) [].

Definition Audit `{QuantityLib} (s : Sentinel) (pods : list (option PodSandbox))
    (containers : list (option Container)) : Sentinel :=
  match violators (sDetector s) pods containers with
  | [] => s
  | vs => mkSentinel (sDetector s) (sInflight s ++ [vs])
  end.

(** A background goroutine runs to completion; goroutine [i] finishes first. *)
Definition finish_remediation {R} `{ContainerStopper R} (i : nat) (s : Sentinel) (r : R)
    : Sentinel * R :=
  match sInflight s !! i with
  | Some vs => (mkSentinel (sDetector s) (delete i (sInflight s)), remediate vs r)
  | None => (s, r)
  end.

(** [Wait] returns only in this state. *)
Definition wait_done (s : Sentinel) : bool := bool_decide (sInflight s = []).

(** ** Lemmas *)

Lemma presentEnv_spec env k :
  k ∈ presentEnv env ↔ k ∈ AllEnvKeys ∧ ∃ kv, kv ∈ env ∧ env_key kv = k.
Proof.
  unfold presentEnv.
  assert (∀ l (acc : gset string), k ∈ fold_left (λ present kv,
      if bool_decide (env_key kv ∈ AllEnvKeys) then {[env_key kv]} ∪ present else present) l acc ↔
    k ∈ acc ∨ k ∈ AllEnvKeys ∧ ∃ kv, kv ∈ l ∧ env_key kv = k) as Hl.
  { induction l as [|kv l IH]; intros acc; cbn [fold_left].
    - split; [auto|]. intros [?|(_ & kv & ?%elem_of_nil & _)]; done.
    - rewrite IH, exists_elem_of_cons. case_bool_decide as Hb.
      + rewrite elem_of_union, elem_of_singleton. split.
        * intros [[->|?]|[? ?]]; auto.
        * intros [?|[? [<-|?]]]; auto.
      + split.
        * intros [?|[? ?]]; auto.
        * intros [?|[? [<-|?]]]; auto; done. }
  rewrite Hl. split; [|auto]. intros [?%elem_of_empty|?]; done.
Qed.

Lemma hasMount_spec ms src dst :
  hasMount ms src dst = true ↔ ∃ m, m ∈ ms ∧ Source m = src ∧ Destination m = dst.
Proof.
  induction ms as [|m ms IH]; cbn.
  - split; [done|]. by intros (m & ?%elem_of_nil & _).
  - rewrite (exists_elem_of_cons (λ m, Source m = src ∧ Destination m = dst)).
    destruct (_ && _) eqn:E; bool_simpl; [by split; [left|]|].
    rewrite IH. split; [auto|]. intros [[<- <-]|?]; [|done].
    by rewrite !String.eqb_refl in E.
Qed.

(** Nothing is missing iff every conditionally expected piece is present. *)
Lemma missingInjection_nil d cfg vis mode c :
  missingInjection d cfg vis mode c = [] ↔
  EnvMPSPipeDirectory ∈ presentEnv (Env c) ∧
  (Limit cfg ≠ "" → EnvGPUMemoryLimit ∈ presentEnv (Env c)) ∧
  (Request cfg ≠ "" → EnvGPUMemoryRequest ∈ presentEnv (Env c)) ∧
  (vis ≠ "" → EnvVisibleDevices ∈ presentEnv (Env c)) ∧
  hasMount (Mounts c) (MPSPipeMount (dMpsPipeDirectory d) mode).1
    (MPSPipeMount (dMpsPipeDirectory d) mode).2 = true.
Proof.
  unfold missingInjection. destruct (MPSPipeMount _ mode) as [src dst]. cbn [fst snd].
  generalize (presentEnv (Env c)). intros env.
  assert (∀ (x : string) P (dP : Decision P) (s : string),
    (if negb (String.eqb x "") && negb (bool_decide P) then [s] else []) = [] ↔ (x ≠ "" → P)) as Hif.
  { intros x P dP s. destruct (String.eqb_spec x ""); case_bool_decide; cbn; split; auto; try done.
    intros HP. exfalso. auto. }
  split.
  - intros [H1 [H2 [H3 [H4 H5]%app_eq_nil]%app_eq_nil]%app_eq_nil]%app_eq_nil.
    rewrite Hif in H2, H3, H4. case_bool_decide; [|done].
    by destruct (hasMount _ src dst).
  - intros (H1 & H2 & H3 & H4 & H5). rewrite bool_decide_eq_true_2 by done. rewrite H5.
    by rewrite (proj2 (Hif _ _ _ _) H2), (proj2 (Hif _ _ _ _) H3), (proj2 (Hif _ _ _ _) H4).
Qed.

Lemma violators_omap `{QuantityLib} d pods ctrs :
  violators d pods ctrs =
  omap (λ c, check d (podSandboxLookup pods !! GetPodSandboxId c) c) ctrs.
Proof.
  unfold violators.
  assert (∀ l acc, fold_left (λ out c,
      match check d (podSandboxLookup pods !! GetPodSandboxId c) c with
      | Some v => out ++ [v] | None => out end) l acc =
    acc ++ omap (λ c, check d (podSandboxLookup pods !! GetPodSandboxId c) c) l) as Hl;
    [|by rewrite Hl].
  induction l as [|c l IH]; intros acc; cbn; [by rewrite app_nil_r|].
  rewrite IH. destruct (check d _ c); [by rewrite <- app_assoc|done].
Qed.

Lemma remediate_cons {R} `{ContainerStopper R} v vs (r r' : R) :
  (Stop (vContainerID v) r).2 = r' → remediate (v :: vs) r = remediate vs r'.
Proof. by intros <-. Qed.

(** A runtime that records the stop requests it receives and refuses some. *)
Definition RecordingStopper (refuses : string → bool) : ContainerStopper (list string) := {|
  StopError := unit;
  Stop id calls := (if refuses id then Err tt else Ok tt, calls ++ [id])
|}.

Lemma remediate_records refuses vs calls :
  @remediate _ (RecordingStopper refuses) vs calls = calls ++ map vContainerID vs.
Proof.
  unfold remediate. revert calls. induction vs as [|v vs IH]; intros calls; cbn.
  - by rewrite app_nil_r.
  - rewrite IH. by rewrite <- app_assoc.
Qed.
