(* ===== verification/Plugin.v ===== *)
(** * fractiond/internal/plugin.go: the NRI plugin

    [CreateContainer] mutates GPU-fractioning containers and records their
    mapping; [Synchronize] rebuilds the mapping and audits; [RemoveContainer]
    drops it; [Shutdown] drains.  The handlers run over the event processor of
    [Events], the adapter and the audit sentinel. *)

From S2P Require Import Prelude GoStrings Annotations Injection Runtime Store FileSystem FsStore.
From S2P Require Import Events Adapter RetroAudit.
From stdpp Require Import base gmap strings list.
From Stdlib Require Import ZArith Lia Ascii String.
#[local] Open Scope string_scope.
#[local] Open Scope list_scope.
#[local] Open Scope Z_scope.

Record Config := mkConfig {
  cAnnotationPrefix : string;
  cMPSPipeDirectory : string;
  cFailOpen : bool;
  cSupportSMSharing : bool;
  cInjectCDIDevice : bool;
  cRetroactiveEnforcement : bool
}.

Record Plugin {St : Type} := mkPlugin {
  AnnotationPrefix : string;
  MPSPipeDirectory : string;
  FailOpen : bool;
  SupportSMSharing : bool;
  InjectCDIDevice : bool;
  events : Processor St;
  ready : bool;
  sentinel : option Sentinel
}.
Arguments Plugin : clear implicits.

(** [fmt.Errorf("container %q in pod %q: %w", ...)], and the constructor's error. *)
Inductive PluginError :=
| InContainer (container pod : string) (cause : AnnotationError)
| NoStopper.

Section plugin.
Context {St : Type} `{StoreWriter St} `{QuantityLib}.

(** [writer] is the mapping store over [cfg.MapDir]; [stopper] whether a
    container stopper was passed. *)
Definition NewPlugin (cfg : Config) (stopper : bool) (writer : St)
    : result PluginError (Plugin St) :=
  let plugin (s : option Sentinel) : Plugin St :=
    mkPlugin St (cAnnotationPrefix cfg) (cMPSPipeDirectory cfg) (cFailOpen cfg)
      (cSupportSMSharing cfg) (cInjectCDIDevice cfg) (NewProcessor writer) false s in
  if cRetroactiveEnforcement cfg then
    if negb stopper then Err NoStopper
    else Ok (plugin (Some (NewSentinel
           (mkAuditConfig (cAnnotationPrefix cfg) (cMPSPipeDirectory cfg)
              (cSupportSMSharing cfg) (cFailOpen cfg)))))
  else Ok (plugin None).

Definition set_events (e : Processor St) (p : Plugin St) : Plugin St :=
  mkPlugin St (AnnotationPrefix p) (MPSPipeDirectory p) (FailOpen p) (SupportSMSharing p)
    (InjectCDIDevice p) e (ready p) (sentinel p).

Definition setReady (b : bool) (p : Plugin St) : Plugin St :=
  mkPlugin St (AnnotationPrefix p) (MPSPipeDirectory p) (FailOpen p) (SupportSMSharing p)
    (InjectCDIDevice p) (events p) b (sentinel p).

Definition set_sentinel (s : option Sentinel) (p : Plugin St) : Plugin St :=
  mkPlugin St (AnnotationPrefix p) (MPSPipeDirectory p) (FailOpen p) (SupportSMSharing p)
    (InjectCDIDevice p) (events p) (ready p) s.

Fixpoint env_has (env : list string) (key : string) : bool :=
  match env with
  | [] => false
  | kv :: env =>
      if String.eqb kv key || HasPrefix kv (key +:+ "=") then true else env_has env key
  end.
Definition containerHasEnv (ctr : Container) (key : string) : bool := env_has (Env ctr) key.

(** The calls on the adjustment, once the memory configuration, the compute mode
    and the device assignment are known. *)
Definition adjustment_calls (p : Plugin St) (ctr : Container) (cfg : GPUMemoryConfig)
    (computeMode : ComputeMode) (visibleDevices : string) : ContainerAdjustment :=
  let '(pipeSource, pipeDestination) := MPSPipeMount (MPSPipeDirectory p) computeMode in
  (if String.eqb (Request cfg) "" then [] else [AddEnv EnvGPUMemoryRequest (Request cfg)]) ++
  (if String.eqb (Limit cfg) "" then [] else [AddEnv EnvGPUMemoryLimit (Limit cfg)]) ++
  [AddEnv EnvMPSPipeDirectory pipeDestination;
   AddMount (mkMount pipeSource pipeDestination "bind" ["bind"; "rw"])] ++
  (if String.eqb visibleDevices "" then []
   else (if containerHasEnv ctr EnvVisibleDevices then [RemoveEnv EnvVisibleDevices] else []) ++
        [AddEnv EnvVisibleDevices visibleDevices] ++
        (if InjectCDIDevice p then map AddCDIDevice (CDIDeviceNames visibleDevices) else [])).

(** [None] is the nil adjustment. *)
Definition buildAdjustment (p : Plugin St) (pod : PodSandbox) (ctr : Container)
    : result PluginError (option ContainerAdjustment) :=
  match ParseGPUMemoryAnnotations (Runtime.Annotations pod) (Name ctr) (AnnotationPrefix p) with
  | Err err =>
      if negb (FailOpen p) then Err (InContainer (Name ctr) (PodName pod) err) else Ok None
  | Ok cfg =>
      if IsEmpty cfg then Ok None
      else
        let cfg := ApplyDefaults cfg in
        let adjust (computeMode : ComputeMode) :=
          let visibleDevices :=
            ParseVisibleDevices (Runtime.Annotations pod) (Name ctr) (AnnotationPrefix p) in
          Ok (Some (adjustment_calls p ctr cfg computeMode visibleDevices)) in
        match ParseComputeMode (Runtime.Annotations pod) (Name ctr) (AnnotationPrefix p)
                (SupportSMSharing p) with
        | Err err =>
            if negb (FailOpen p) then Err (InContainer (Name ctr) (PodName pod) err)
            else adjust ComputeModeTimeSlicing
        | Ok computeMode => adjust computeMode
        end
  end.

(** The handler returns no container updates. *)
Definition CreateContainer (p : Plugin St) (pod : PodSandbox) (ctr : Container)
    : Plugin St * result PluginError (option ContainerAdjustment) :=
  match buildAdjustment p pod ctr with
  | Err err => (p, Err err)
  | Ok adj =>
      let '(e, _) := Events.Upsert
        (Returns (adapter.container (AnnotationPrefix p) (Some pod) (Some ctr))) (events p) in
      (set_events e p, Ok adj)
  end.

Definition Synchronize (p : Plugin St) (pods : list (option PodSandbox))
    (containers : list (option Container)) : Plugin St :=
  let '(e, _) := Events.Synchronize
    (Returns (adapter.containers (AnnotationPrefix p) pods containers)) (events p) in
  let p := setReady true (set_events e p) in
  match sentinel p with
  | Some s => set_sentinel (Some (Audit s pods containers)) p
  | None => p
  end.

Definition RemoveContainer (p : Plugin St) (ctr : Container) : Plugin St :=
  let '(e, _) := Events.Delete (Id ctr) (events p) in set_events e p.

(** Shutdown up to the blocking flush, whose barrier is [n]; it returns once
    [shutdown_done] holds. *)
Definition Shutdown (n : nat) (p : Plugin St) : option (Plugin St) :=
  let p := setReady false p in
  e ← flush_send n (events p); Some (set_events e p).

Definition shutdown_done (n : nat) (p : Plugin St) : bool :=
  bool_decide (n ∈ closed (events p)) &&
  match sentinel p with Some s => wait_done s | None => true end.

End plugin.

(** ** Lemmas *)

(** The compute mode in force: the annotation's, or time slicing when it is
    unusable and the policy is fail-open. *)
Definition mode_in_force (ann : gmap string string) (name prefix : string)
    (smSharing failOpen : bool) (mode : ComputeMode) : Prop :=
  match ParseComputeMode ann name prefix smSharing with
  | Ok m => mode = m
  | Err _ => failOpen = true ∧ mode = ComputeModeTimeSlicing
  end.

Lemma mode_in_force_fun ann name prefix sm fo m1 m2 :
  mode_in_force ann name prefix sm fo m1 → mode_in_force ann name prefix sm fo m2 → m1 = m2.
Proof.
  unfold mode_in_force. destruct (ParseComputeMode _ _ _ _); [congruence|]. intros [_ ->] [_ ->]. done.
Qed.

Section lemmas.
Context {St : Type} `{StoreWriter St} `{QuantityLib}.

Lemma buildAdjustment_Some (p : Plugin St) pod ctr adj :
  buildAdjustment p pod ctr = Ok (Some adj) ↔
  ∃ cfg mode,
    ParseGPUMemoryAnnotations (Runtime.Annotations pod) (Name ctr) (AnnotationPrefix p) = Ok cfg ∧
    IsEmpty cfg = false ∧
    mode_in_force (Runtime.Annotations pod) (Name ctr) (AnnotationPrefix p) (SupportSMSharing p)
      (FailOpen p) mode ∧
    adj = adjustment_calls p ctr (ApplyDefaults cfg) mode
      (ParseVisibleDevices (Runtime.Annotations pod) (Name ctr) (AnnotationPrefix p)).
Proof.
  unfold buildAdjustment, mode_in_force.
  destruct (ParseGPUMemoryAnnotations _ _ _) as [cfg|e].
  2: { destruct (FailOpen p); (split; [done|]); by intros (? & ? & ? & _). }
  destruct (IsEmpty cfg) eqn:Ee.
  { split; [done|]. intros (? & ? & [= <-] & ? & _). congruence. }
  destruct (ParseComputeMode _ _ _ _) as [m|e].
  - split; [intros [= <-]; eauto 10|]. by intros (? & ? & [= <-] & _ & -> & ->).
  - destruct (FailOpen p); cbn.
    + split; [intros [= <-]; eauto 10|]. by intros (? & ? & [= <-] & _ & [_ ->] & ->).
    + split; [done|]. by intros (? & ? & _ & _ & [? _] & _).
Qed.

Lemma check_Some d pod c v :
  check d (Some pod) (Some c) = Some v ↔
  Id c ≠ "" ∧ enforceable (State c) = true ∧ ∃ cfg mode,
    ParseGPUMemoryAnnotations (Runtime.Annotations pod) (Name c) (dAnnotationPrefix d) = Ok cfg ∧
    IsEmpty cfg = false ∧
    mode_in_force (Runtime.Annotations pod) (Name c) (dAnnotationPrefix d) (dSmSharingEnabled d)
      (dFailOpen d) mode ∧
    let missing := missingInjection d (ApplyDefaults cfg)
      (ParseVisibleDevices (Runtime.Annotations pod) (Name c) (dAnnotationPrefix d)) mode c in
    missing ≠ [] ∧ v = mkViolator (Id c) (Name c) (PodName pod) (PodNamespace pod) missing.
Proof.
  unfold check, mode_in_force.
  destruct (String.eqb_spec (Id c) "") as [|Hid]; [by split; [|intros [? _]]|].
  destruct (enforceable (State c)); cbn [negb]; [|by split; [|intros (_ & ? & _)]].
  destruct (ParseGPUMemoryAnnotations _ _ _) as [cfg|e].
  2: { split; [done|]. by intros (_ & _ & ? & ? & ? & _). }
  destruct (IsEmpty cfg) eqn:Ee.
  { split; [done|]. intros (_ & _ & ? & ? & [= <-] & ? & _). congruence. }
  destruct (ParseComputeMode _ _ _ _) as [m|e].
  - set (missing := missingInjection _ _ _ m c). split.
    + intros Hv. split; [done|]. split; [done|]. exists cfg, m. do 3 (split; [done|]).
      fold missing. by destruct missing; simplify_eq.
    + intros (_ & _ & ? & ? & [= <-] & _ & -> & Hm & ->). fold missing in Hm |- *.
      by destruct missing.
  - destruct (dFailOpen d); cbn [negb].
    + set (missing := missingInjection _ _ _ ComputeModeTimeSlicing c). split.
      * intros Hv. split; [done|]. split; [done|]. exists cfg, ComputeModeTimeSlicing.
        do 3 (split; [done|]). fold missing. by destruct missing; simplify_eq.
      * intros (_ & _ & ? & ? & [= <-] & _ & [_ ->] & Hm & ->). fold missing in Hm |- *.
        by destruct missing.
    + split; [done|]. by intros (_ & _ & ? & ? & _ & _ & [? _] & _).
Qed.

(** A piece of the adjustment that the live container does not show: a variable
    it does not define, or a bind mount it does not have. *)
Definition piece_absent (c : Container) (call : AdjustmentCall) : Prop :=
  match call with
  | AddEnv k _ => ∀ kv, kv ∈ Env c → env_key kv ≠ k
  | AddMount m =>
      ∀ m', m' ∈ Mounts c → ¬ (Source m' = Source m ∧ Destination m' = Destination m)
  | RemoveEnv _ | AddCDIDevice _ => False
  end.

(** The environment and mount pieces of an adjustment. *)
Lemma elem_of_adjustment_calls (p : Plugin St) c cfg mode vis call :
  call ∈ adjustment_calls p c cfg mode vis ↔
  (Request cfg ≠ "" ∧ call = AddEnv EnvGPUMemoryRequest (Request cfg)) ∨
  (Limit cfg ≠ "" ∧ call = AddEnv EnvGPUMemoryLimit (Limit cfg)) ∨
  call = AddEnv EnvMPSPipeDirectory (MPSPipeMount (MPSPipeDirectory p) mode).2 ∨
  call = AddMount (mkMount (MPSPipeMount (MPSPipeDirectory p) mode).1
                     (MPSPipeMount (MPSPipeDirectory p) mode).2 "bind" ["bind"; "rw"]) ∨
  (vis ≠ "" ∧ (containerHasEnv c EnvVisibleDevices = true ∧ call = RemoveEnv EnvVisibleDevices ∨
               call = AddEnv EnvVisibleDevices vis ∨
               InjectCDIDevice p = true ∧ ∃ name, name ∈ CDIDeviceNames vis ∧
                 call = AddCDIDevice name)).
Proof.
  unfold adjustment_calls. destruct (MPSPipeMount _ mode) as [src dst]. cbn [fst snd].
  assert (∀ (s : string) x, call ∈ (if String.eqb s "" then [] else [x]) ↔ s ≠ "" ∧ call = x) as Hopt.
  { intros s x. destruct (String.eqb_spec s ""); rewrite ?elem_of_nil, ?list_elem_of_singleton; tauto. }
  rewrite !elem_of_app, !Hopt, elem_of_cons, list_elem_of_singleton.
  destruct (String.eqb_spec vis "") as [->|Hv]; [rewrite elem_of_nil; tauto|].
  rewrite !elem_of_app, list_elem_of_singleton.
  assert (∀ (b : bool) x, call ∈ (if b then [x] else []) ↔ b = true ∧ call = x) as Hb.
  { intros [] x; rewrite ?elem_of_nil, ?list_elem_of_singleton; split; try tauto; by intros []. }
  rewrite Hb.
  assert (call ∈ (if InjectCDIDevice p then map AddCDIDevice (CDIDeviceNames vis) else []) ↔
    InjectCDIDevice p = true ∧ ∃ name, name ∈ CDIDeviceNames vis ∧ call = AddCDIDevice name) as ->.
  { destruct (InjectCDIDevice p); [|rewrite elem_of_nil; split; [done|by intros [? _]]].
    rewrite list_elem_of_fmap. split.
    - intros (n & -> & ?). eauto.
    - intros (_ & n & ? & ->). eauto. }
  tauto.
Qed.

(** The detector reports a container exactly when some piece of what the create
    hook injects is absent. *)
Lemma missing_iff_piece_absent (p : Plugin St) d c cfg mode vis :
  dMpsPipeDirectory d = MPSPipeDirectory p →
  missingInjection d cfg vis mode c ≠ [] ↔
  ∃ call, call ∈ adjustment_calls p c cfg mode vis ∧ piece_absent c call.
Proof.
  intros Hdir. rewrite missingInjection_nil, Hdir.
  set (src := (MPSPipeMount (MPSPipeDirectory p) mode).1).
  set (dst := (MPSPipeMount (MPSPipeDirectory p) mode).2).
  assert (∀ k, k ∈ AllEnvKeys →
    k ∉ presentEnv (Env c) ↔ ∀ kv, kv ∈ Env c → env_key kv ≠ k) as Hkey.
  { intros k Hk. rewrite presentEnv_spec. split.
    - intros Hno kv Hin Hkv. apply Hno. eauto.
    - intros Hno (_ & kv & Hin & Hkv). by apply (Hno kv Hin). }
  assert (EnvMPSPipeDirectory ∈ AllEnvKeys ∧ EnvGPUMemoryLimit ∈ AllEnvKeys ∧
    EnvGPUMemoryRequest ∈ AllEnvKeys ∧ EnvVisibleDevices ∈ AllEnvKeys) as (K1 & K2 & K3 & K4).
  { split_and!; apply (bool_decide_unpack _); vm_compute; exact I. }
  pose proof (Hkey _ K1) as A1. pose proof (Hkey _ K2) as A2.
  pose proof (Hkey _ K3) as A3. pose proof (Hkey _ K4) as A4. clear Hkey K1 K2 K3 K4.
  setoid_rewrite elem_of_adjustment_calls. fold src dst.
  generalize dependent (presentEnv (Env c)). intros env A1 A2 A3 A4. split.
  - intros Hno.
    destruct (decide (EnvMPSPipeDirectory ∈ env)) as [H1|H1].
    2: { exists (AddEnv EnvMPSPipeDirectory dst). split; [by right; right; left|]. exact (proj1 A1 H1). }
    destruct (decide (Limit cfg ≠ "" ∧ EnvGPUMemoryLimit ∉ env)) as [[Hl H2]|H2].
    { exists (AddEnv EnvGPUMemoryLimit (Limit cfg)). split; [right; left; split; [exact Hl|reflexivity]|]. exact (proj1 A2 H2). }
    destruct (decide (Request cfg ≠ "" ∧ EnvGPUMemoryRequest ∉ env)) as [[Hr H3]|H3].
    { exists (AddEnv EnvGPUMemoryRequest (Request cfg)). split; [left; split; [exact Hr|reflexivity]|]. exact (proj1 A3 H3). }
    destruct (decide (vis ≠ "" ∧ EnvVisibleDevices ∉ env)) as [[Hv H4]|H4].
    { exists (AddEnv EnvVisibleDevices vis). split; [|exact (proj1 A4 H4)].
      right; right; right; right. split; [exact Hv|]. right; left. reflexivity. }
    eexists. split; [right; right; right; left; reflexivity|]. cbn [piece_absent Source Destination].
    intros m Hm [Hs Hd]. apply Hno. split_and!; [done| | | |].
    1-3: intros HP; apply dec_stable; intros HQ; eauto.
    apply hasMount_spec. eauto.
  - intros (call & Hcall & Habs) (H1 & H2 & H3 & H4 & H5).
    destruct Hcall as [[Hr ->]|[[Hl ->]|[->|[->|[Hv [[_ ->]|[->|(_ & n & _ & ->)]]]]]]]; cbn in Habs.
    + by apply (proj2 A3) in Habs; auto.
    + by apply (proj2 A2) in Habs; auto.
    + by apply (proj2 A1) in Habs.
    + apply hasMount_spec in H5 as (m & Hm & Hs & Hd). by apply (Habs m Hm).
    + done.
    + by apply (proj2 A4) in Habs; auto.
    + done.
Qed.

End lemmas.

(** The sentinel of a plugin audits with the plugin's own configuration. *)
Definition audits_as_configured {St} (p : Plugin St) : Prop :=
  ∀ s, sentinel p = Some s →
    sDetector s = mkDetector (AnnotationPrefix p) (MPSPipeDirectory p) (SupportSMSharing p)
      (FailOpen p).

Lemma NewPlugin_audits {St} `{StoreWriter St} cfg stopper (w : St) p :
  NewPlugin cfg stopper w = Ok p → audits_as_configured p.
Proof.
  unfold NewPlugin. destruct (cRetroactiveEnforcement cfg), stopper; cbn; intros [= <-] s; cbn;
    try done; by intros [= <-].
Qed.

(** The container [c] of [pod] must be stopped: it can be acted upon, the create
    hook would adjust it, and some piece of that adjustment is absent. *)
Definition misses_injection {St} `{StoreWriter St} `{QuantityLib} (p : Plugin St)
    (pod : PodSandbox) (c : Container) : Prop :=
  Id c ≠ "" ∧ enforceable (State c) = true ∧
  ∃ adj call, buildAdjustment p pod c = Ok (Some adj) ∧ call ∈ adj ∧ piece_absent c call.

Lemma check_iff_hook {St} `{StoreWriter St} `{QuantityLib} (p : Plugin St) s pod c :
  audits_as_configured p → sentinel p = Some s →
  (is_Some (check (sDetector s) (Some pod) (Some c)) ↔ misses_injection p pod c).
Proof.
  intros Haud Hs. specialize (Haud s Hs). unfold misses_injection. split.
  - intros [v (Hid & Hst & cfg & mode & Hp & He & Hm & Hne & _)%check_Some].
    rewrite Haud in *. cbn [dAnnotationPrefix dSmSharingEnabled dFailOpen] in *.
    split_and!; [done..|].
    apply (missing_iff_piece_absent p) in Hne as (call & Hc & Ha); [|done].
    eexists _, call. rewrite buildAdjustment_Some. split_and!; [eauto 10|done|done].
  - intros (Hid & Hst & adj & call & Hb & Hc & Ha).
    apply buildAdjustment_Some in Hb as (cfg & mode & Hp & He & Hm & ->).
    eexists. apply check_Some. rewrite Haud. cbn [dAnnotationPrefix dSmSharingEnabled dFailOpen].
    split_and!; [done..|]. exists cfg, mode. do 3 (split; [done|]). split; [|reflexivity].
    apply (missing_iff_piece_absent p); [done|]. eauto.
Qed.

(** An NRI runtime for closed examples: variables and mounts are replaced by key
    and by destination. *)
Definition toy_call (c : Container) (call : AdjustmentCall) : Container :=
  match call with
  | AddEnv k v =>
      mkContainer (Id c) (PodSandboxId c) (Name c) (State c)
        (filter (λ kv, env_key kv ≠ k) (Env c) ++ [k +:+ "=" +:+ v]) (Mounts c) (Linux c)
  | RemoveEnv k =>
      mkContainer (Id c) (PodSandboxId c) (Name c) (State c)
        (filter (λ kv, env_key kv ≠ k) (Env c)) (Mounts c) (Linux c)
  | AddMount m =>
      mkContainer (Id c) (PodSandboxId c) (Name c) (State c) (Env c)
        (filter (λ m', Destination m' ≠ Destination m) (Mounts c) ++ [m]) (Linux c)
  | AddCDIDevice _ => c
  end.

(** ** What an adjustment does to the container *)

Definition touches_env (k : string) (call : AdjustmentCall) : Prop :=
  call = RemoveEnv k ∨ ∃ v, call = AddEnv k v.

(** A list of calls with constant keys that leaves a variable alone. *)
Ltac leaves_env :=
  repeat (apply Forall_cons_2;
    [split; [discriminate|intros ? Hcall; first [discriminate Hcall|injection Hcall; discriminate]]|]);
  try apply Forall_nil_2.

Definition leaves (k : string) (call : AdjustmentCall) : Prop := call ≠ RemoveEnv k ∧ ∀ v, call ≠ AddEnv k v.

(** No call touches a variable that an earlier one added. *)
Fixpoint env_final (calls : list AdjustmentCall) : Prop :=
  match calls with
  | [] => True
  | AddEnv k _ :: rest => Forall (leaves k) rest ∧ env_final rest
  | _ :: rest => env_final rest
  end.

Lemma env_final_split calls k v : env_final calls → AddEnv k v ∈ calls →
  ∃ pre post, calls = pre ++ AddEnv k v :: post ∧ Forall (leaves k) post.
Proof.
  induction calls as [|call calls IH]; [by intros _ ?%elem_of_nil|]. intros Hf [<-|Hin]%elem_of_cons.
  - exists [], calls. split; [done|apply Hf].
  - destruct IH as (pre & post & -> & Hp); [by destruct call; try apply Hf|done|]. by exists (call :: pre), post.
Qed.

Lemma cdi_leaves k names : Forall (leaves k) (map AddCDIDevice names).
Proof. apply Forall_map, Forall_true. done. Qed.
Lemma cdi_final names : env_final (map AddCDIDevice names).
Proof. by induction names. Qed.

(** Every variable the hook adds survives the rest of its own calls. *)
Lemma adjustment_env_final {St} `{StoreWriter St} (p : Plugin St) c cfg mode vis k v :
  AddEnv k v ∈ adjustment_calls p c cfg mode vis →
  ∃ pre post, adjustment_calls p c cfg mode vis = pre ++ AddEnv k v :: post ∧ Forall (leaves k) post.
Proof.
  apply env_final_split. unfold adjustment_calls. destruct (MPSPipeMount _ mode) as [src dst].
  destruct (String.eqb (Request cfg) ""), (String.eqb (Limit cfg) ""), (String.eqb vis ""), (containerHasEnv c EnvVisibleDevices), (InjectCDIDevice p);
    cbn [app env_final]; split_and!; try done; try apply cdi_final; try apply cdi_leaves; leaves_env; apply cdi_leaves.
Qed.

Lemma adjustment_mount_unique {St} `{StoreWriter St} (p : Plugin St) c cfg mode vis m m' :
  AddMount m ∈ adjustment_calls p c cfg mode vis →
  AddMount m' ∈ adjustment_calls p c cfg mode vis → m' = m.
Proof.
  rewrite !elem_of_adjustment_calls.
  intros [[_ ?]|[[_ ?]|[?|[[= ->]|[_ [[_ ?]|[?|(_ & ? & _ & ?)]]]]]]]; try done.
  intros [[_ ?]|[[_ ?]|[?|[[= ->]|[_ [[_ ?]|[?|(_ & ? & _ & ?)]]]]]]]; done.
Qed.

Lemma injected_key {St} `{StoreWriter St} (p : Plugin St) c cfg mode vis k v :
  AddEnv k v ∈ adjustment_calls p c cfg mode vis → k ∈ AllEnvKeys.
Proof.
  rewrite elem_of_adjustment_calls.
  intros [[_ [= -> _]]|[[_ [= -> _]]|[[= -> _]|[?|[_ [[_ ?]|[[= -> _]|(_ & ? & _ & ?)]]]]]]];
    try done; apply (bool_decide_unpack _); vm_compute; exact I.
Qed.

Lemma injected_key_no_eq k : k ∈ AllEnvKeys → Forall (λ a, a ≠ "="%char) (bytes_of k).
Proof.
  revert k. apply Forall_forall. apply (bool_decide_unpack _). vm_compute. exact I.
Qed.

Lemma env_key_app k v : Forall (λ a, a ≠ "="%char) (bytes_of k) → env_key (k +:+ "=" +:+ v) = k.
Proof.
  unfold env_key. induction k as [|c k IH]; intros Hk; [done|].
  rewrite str_app_cons. cbn in Hk |- *. inversion Hk as [|? ? Hc Hr]; subst.
  rewrite (proj2 (Ascii.eqb_neq c _)) by done. by rewrite IH.
Qed.

Section applied.
Context {St : Type} `{StoreWriter St} `{QuantityLib} `{NRIRuntime}.

(** Every variable and mount of the adjustment is in the created container. *)
Lemma applied_piece_present (p : Plugin St) c cfg mode vis call :
  let adj := adjustment_calls p c cfg mode vis in
  call ∈ adj → ¬ piece_absent (apply_adjustment adj c) call.
Proof.
  intros adj Hin Habs. destruct call as [k v|k|m|name]; cbn in Habs; try done.
  - destruct (adjustment_env_final p c cfg mode vis k v Hin) as (pre & post & He & Hpost).
    apply (Habs (k +:+ "=" +:+ v)).
    + unfold adj. rewrite He. apply apply_env; [|done]. by eapply injected_key_no_eq, injected_key.
    + by eapply env_key_app, injected_key_no_eq, injected_key.
  - apply (Habs m); [|done]. apply apply_mount; [done|]. intros m' Hm' _.
    by eapply adjustment_mount_unique.
Qed.

(** The pieces the hook expects do not depend on the live environment. *)
Lemma adjustment_pieces_stable (p : Plugin St) c c' cfg mode vis call :
  call ∈ adjustment_calls p c' cfg mode vis → (∀ k, call ≠ RemoveEnv k) →
  call ∈ adjustment_calls p c cfg mode vis.
Proof.
  rewrite !elem_of_adjustment_calls.
  intros [?|[?|[?|[?|[Hv [[_ ->]|[?|?]]]]]]] Hk; [tauto..| |tauto|tauto]. by destruct (Hk _ eq_refl).
Qed.

End applied.

(** The example runtime satisfies the documented behaviour. *)
Lemma toy_identity adj : ∀ c,
  Id (fold_left toy_call adj c) = Id c ∧ Name (fold_left toy_call adj c) = Name c ∧
  PodSandboxId (fold_left toy_call adj c) = PodSandboxId c.
Proof.
  induction adj as [|call adj IH]; intros c; [done|]. cbn [fold_left].
  destruct (IH (toy_call c call)) as (-> & -> & ->). by destruct call.
Qed.

Lemma toy_env_kept k v post : Forall (λ a, a ≠ "="%char) (bytes_of k) →
  Forall (λ call, call ≠ RemoveEnv k ∧ ∀ v', call ≠ AddEnv k v') post → ∀ c,
  k +:+ "=" +:+ v ∈ Env c → k +:+ "=" +:+ v ∈ Env (fold_left toy_call post c).
Proof.
  intros Hk. induction 1 as [|call post [Hr Ha] _ IH]; intros c Hin; [done|].
  cbn [fold_left]. apply IH. destruct call as [k' v'|k'|m|name]; cbn; [| |done|done].
  - apply elem_of_app. left. apply list_elem_of_filter. rewrite env_key_app by done.
    split; [|done]. intros ->. by apply (Ha v').
  - apply list_elem_of_filter. rewrite env_key_app by done. split; [|done]. by intros ->.
Qed.

Lemma toy_env pre k v post c : Forall (λ a, a ≠ "="%char) (bytes_of k) →
  Forall (λ call, call ≠ RemoveEnv k ∧ ∀ v', call ≠ AddEnv k v') post →
  k +:+ "=" +:+ v ∈ Env (fold_left toy_call (pre ++ AddEnv k v :: post) c).
Proof.
  intros Hk Hpost. rewrite fold_left_app. cbn [fold_left]. apply toy_env_kept; [done..|]. cbn.
  apply elem_of_app. right. by apply list_elem_of_singleton.
Qed.

Lemma toy_mount_kept m post :
  (∀ m', AddMount m' ∈ post → Destination m' = Destination m → m' = m) → ∀ c,
  m ∈ Mounts c → m ∈ Mounts (fold_left toy_call post c).
Proof.
  induction post as [|call post IH]; intros Hu c Hin; [done|]. cbn [fold_left]. apply IH.
  { intros m' Hm'. apply Hu. by apply elem_of_cons; right. }
  destruct call as [k' v'|k'|m'|name]; cbn; [done|done| |done]. apply elem_of_app.
  destruct (decide (Destination m = Destination m')) as [He|Hne].
  - right. apply list_elem_of_singleton. symmetry. apply Hu; [by apply elem_of_cons; left|done].
  - left. by apply list_elem_of_filter.
Qed.

Lemma toy_mount adj m c :
  AddMount m ∈ adj → (∀ m', AddMount m' ∈ adj → Destination m' = Destination m → m' = m) →
  m ∈ Mounts (fold_left toy_call adj c).
Proof.
  intros (pre & post & ->)%list_elem_of_split Hu. rewrite fold_left_app. cbn [fold_left].
  apply toy_mount_kept.
  - intros m' Hm'. apply Hu. apply elem_of_app. right. by apply elem_of_cons; right.
  - cbn. apply elem_of_app. right. by apply list_elem_of_singleton.
Qed.

Definition ToyRuntime : NRIRuntime := {|
  apply_adjustment adj c := fold_left toy_call adj c;
  apply_identity := toy_identity;
  apply_env := toy_env;
  apply_mount := toy_mount
|}.

(** A container created with the adjustment the hook returned has every piece of it. *)
Lemma applied_not_missing {St} `{StoreWriter St} `{QuantityLib} `{NRIRuntime} (p : Plugin St) pod c adj st :
  buildAdjustment p pod c = Ok (Some adj) → ¬ misses_injection p pod (with_state st (apply_adjustment adj c)).
Proof.
  intros Hadj (_ & _ & adj' & call & Hb & Hc & Ha).
  set (c' := with_state st (apply_adjustment adj c)) in *.
  assert (Name c' = Name c) as Hname by apply apply_identity.
  apply buildAdjustment_Some in Hadj as (cfg1 & mode1 & Hp1 & He1 & Hm1 & ->).
  apply buildAdjustment_Some in Hb as (cfg2 & mode2 & Hp2 & He2 & Hm2 & ->).
  rewrite Hname in *. rewrite Hp1 in Hp2. injection Hp2 as <-.
  pose proof (mode_in_force_fun _ _ _ _ _ _ _ Hm1 Hm2) as <-.
  apply (adjustment_pieces_stable p c) in Hc; [|by intros k ->].
  by eapply applied_piece_present in Hc.
Qed.

(** ** Properties *)

(** No false alarm.  A container the runtime created with the adjustment the
    hook returned is never reported by the audit, whatever its later state: the
    detector of a plugin expects exactly what that plugin injects. *)
Theorem injected_container_passes_audit {St} `{StoreWriter St} `{QuantityLib} `{NRIRuntime}
    cfg (w : St) p s pod c adj st
  (Hnew : NewPlugin cfg true w = Ok p)
  (Hsent : sentinel p = Some s)
  (Hadj : buildAdjustment p pod c = Ok (Some adj)) :
  check (sDetector s) (Some pod) (Some (with_state st (apply_adjustment adj c))) = None.
Proof.
  apply eq_None_not_Some. rewrite (check_iff_hook p s) by (done || by eapply NewPlugin_audits).
  by apply applied_not_missing.
Qed.

(** A pod asking 954 MiB for its container "t" on one assigned GPU. *)
Definition example_pod : PodSandbox :=
  mkPodSandbox "sb" "p" "uid" "ns"
    {[ "nvidia.com/container.t.gpu-memory.limit" := "1000000000";
       "nvidia.com/container.t.gpus.devices" := "GPU-1" ]}.
Definition example_container (env : list string) : Container :=
  mkContainer "c1" "sb" "t" CONTAINER_RUNNING env [] (Some (mkLinuxContainer [mkLinuxDevice 195 3] "/x")).
Definition example_config : Config :=
  mkConfig DefaultAnnotationPrefix DefaultMPSPipeDirectory false true true true.
Definition example_sentinel : Sentinel :=
  NewSentinel (mkAuditConfig DefaultAnnotationPrefix DefaultMPSPipeDirectory true false).
Definition example_plugin : Plugin ContainerStore.t :=
  mkPlugin _ DefaultAnnotationPrefix DefaultMPSPipeDirectory false true true (NewProcessor ∅) false
    (Some example_sentinel).
Definition example_adjustment : ContainerAdjustment :=
  [AddEnv "NVIDIA_GPU_MEMORY_REQUEST" "954"; AddEnv "NVIDIA_GPU_MEMORY_LIMIT" "954";
   AddEnv "CUDA_MPS_PIPE_DIRECTORY" "/run/nvidia-mps";
   AddMount (mkMount "/run/nvidia-mps" "/run/nvidia-mps" "bind" ["bind"; "rw"]);
   RemoveEnv "NVIDIA_VISIBLE_DEVICES"; AddEnv "NVIDIA_VISIBLE_DEVICES" "GPU-1";
   AddCDIDevice "k8s.device-plugin.nvidia.com/gpu=GPU-1"].

Lemma injected_container_passes_audit_witness :
  let c := example_container ["NVIDIA_VISIBLE_DEVICES=void"] in
  @check DecimalQuantities (sDetector example_sentinel) (Some example_pod)
    (Some (with_state CONTAINER_RUNNING (@apply_adjustment ToyRuntime example_adjustment c))) = None.
Proof.
  cbv zeta.
  apply (@injected_container_passes_audit _ _ DecimalQuantities ToyRuntime example_config ∅
    example_plugin example_sentinel example_pod (example_container ["NVIDIA_VISIBLE_DEVICES=void"])
    example_adjustment CONTAINER_RUNNING).
  - vm_compute. reflexivity.
  - reflexivity.
  - vm_compute. reflexivity.
Defined.

(** What an adjusted container carries. *)
Lemma injected_env {St} `{StoreWriter St} `{NRIRuntime} (p : Plugin St) c cfg mode vis k v :
  AddEnv k v ∈ adjustment_calls p c cfg mode vis → k +:+ "=" +:+ v ∈ Env (apply_adjustment (adjustment_calls p c cfg mode vis) c).
Proof.
  intros Hin. destruct (adjustment_env_final p c cfg mode vis k v Hin) as (pre & post & Hs & Hpost).
  rewrite Hs. apply apply_env; [|done]. by eapply injected_key_no_eq, injected_key.
Qed.

(** C18: enforcement.  When the hook adjusts a container, the container the
    runtime creates carries the memory limit it is accounted for (the MiB value
    of its limit annotation, else of its request annotation), the MPS pipe
    directory and its bind mount for the compute mode in force, and, when the
    scheduler assigned devices, exactly that assignment. *)
Theorem adjustment_enforces {St} `{StoreWriter St} `{QuantityLib} `{NRIRuntime}
    (p : Plugin St) pod c adj
  (Hadj : buildAdjustment p pod c = Ok (Some adj)) :
  let c' := apply_adjustment adj c in
  let vis := ParseVisibleDevices (Runtime.Annotations pod) (Name c) (AnnotationPrefix p) in
  ∃ cfg mode,
    ParseGPUMemoryAnnotations (Runtime.Annotations pod) (Name c) (AnnotationPrefix p) = Ok cfg ∧
    mode_in_force (Runtime.Annotations pod) (Name c) (AnnotationPrefix p) (SupportSMSharing p)
      (FailOpen p) mode ∧
    "NVIDIA_GPU_MEMORY_LIMIT=" +:+ FormatInt (EffectiveMemoryMiB cfg) ∈ Env c' ∧
    1 ≤ EffectiveMemoryMiB cfg ∧
    "CUDA_MPS_PIPE_DIRECTORY=" +:+ (MPSPipeMount (MPSPipeDirectory p) mode).2 ∈ Env c' ∧
    (∃ m, m ∈ Mounts c' ∧ (Source m, Destination m) = MPSPipeMount (MPSPipeDirectory p) mode) ∧
    (vis ≠ "" → "NVIDIA_VISIBLE_DEVICES=" +:+ vis ∈ Env c').
Proof.
  cbv zeta. apply buildAdjustment_Some in Hadj as (cfg & mode & Hp & He & Hm & ->).
  exists cfg, mode. split; [done|]. split; [done|].
  set (vis := ParseVisibleDevices _ _ _). set (adj := adjustment_calls _ _ _ _ _).
  assert (∀ k v, AddEnv k v ∈ adj → k +:+ "=" +:+ v ∈ Env (apply_adjustment adj c)) as Henv by (intros k v; apply injected_env).
  destruct (enforced_limit cfg Hp He) as (Hl & Hge).
  split_and!; [|done| | |].
  - rewrite <- Hl. apply (Henv "NVIDIA_GPU_MEMORY_LIMIT").
    apply elem_of_adjustment_calls. right; left. split; [|done].
    rewrite Hl. apply FormatInt_nonempty.
  - apply (Henv "CUDA_MPS_PIPE_DIRECTORY"). apply elem_of_adjustment_calls. by right; right; left.
  - eexists. split; [apply apply_mount|].
    + apply elem_of_adjustment_calls. right; right; right; left. reflexivity.
    + intros m' Hm' _. eapply adjustment_mount_unique; [|exact Hm'].
      apply elem_of_adjustment_calls. right; right; right; left. reflexivity.
    + by destruct (MPSPipeMount _ _).
  - intros Hv. apply (Henv "NVIDIA_VISIBLE_DEVICES"). apply elem_of_adjustment_calls.
    right; right; right; right. split; [done|]. by right; left.
Qed.

Lemma adjustment_enforces_witness :
  let c := example_container ["NVIDIA_VISIBLE_DEVICES=void"] in
  let c' := @apply_adjustment ToyRuntime example_adjustment c in
  "NVIDIA_VISIBLE_DEVICES=GPU-1" ∈ Env c' ∧
  Env c' = ["NVIDIA_GPU_MEMORY_REQUEST=954"; "NVIDIA_GPU_MEMORY_LIMIT=954";
            "CUDA_MPS_PIPE_DIRECTORY=/run/nvidia-mps"; "NVIDIA_VISIBLE_DEVICES=GPU-1"].
Proof.
  cbv zeta. split; [|vm_compute; reflexivity].
  destruct (@adjustment_enforces _ _ DecimalQuantities ToyRuntime example_plugin example_pod
    (example_container ["NVIDIA_VISIBLE_DEVICES=void"]) example_adjustment)
    as (cfg & mode & _ & _ & _ & _ & _ & _ & Hvis).
  - vm_compute. reflexivity.
  - apply Hvis. vm_compute. discriminate.
Defined.

(** C12: recorded iff mutated.  A rejected creation records nothing and leaves
    the plugin as it was.  Otherwise exactly one mapping event is offered to the
    queue; it records the container iff the hook adjusts it (and it has an ID),
    and the recorded memory is the limit the adjustment injects. *)
Theorem CreateContainer_records_iff_mutates {St} `{StoreWriter St} `{QuantityLib}
    (p : Plugin St) pod c :
  match CreateContainer p pod c with
  | (p', Err _) => p' = p
  | (p', Ok oadj) =>
      ∃ oinfo, events p' = (enqueue (IEvent (upsert (Returns oinfo))) (events p)).1 ∧
        (is_Some oinfo ↔ is_Some oadj ∧ Id c ≠ "") ∧
        ∀ adj info, oadj = Some adj → oinfo = Some info →
          AddEnv EnvGPUMemoryLimit (FormatInt (RequestedMemoryMiB info)) ∈ adj ∧
          ContainerID info = Id c ∧ PodUID info = PodUid pod ∧
          GPUDevices info = gpudevices.FromContainer c
  end.
Proof.
  unfold CreateContainer. destruct (buildAdjustment p pod c) as [oadj|e] eqn:Eb; [|done].
  unfold Events.Upsert. destruct (enqueue _ (events p)) as [e b] eqn:Ee.
  eexists. split; [cbn; by rewrite Ee|].
  assert (is_Some oadj ↔ ∃ cfg,
    ParseGPUMemoryAnnotations (Runtime.Annotations pod) (Name c) (AnnotationPrefix p) = Ok cfg ∧
    IsEmpty cfg = false) as Hadj.
  { split.
    - intros [adj ->]. apply buildAdjustment_Some in Eb as (cfg & mode & ? & ? & _). eauto.
    - intros (cfg & Hp & He). unfold buildAdjustment in Eb. rewrite Hp, He in Eb.
      destruct (ParseComputeMode _ _ _ _); [|destruct (FailOpen p)]; simplify_eq/=; eauto. }
  split.
  - rewrite Hadj. split.
    + intros [info (? & cfg & ? & ? & _)%adapter_container_spec]. eauto.
    + intros [(cfg & Hp & He) Hid]. eexists. apply adapter_container_spec. eauto 10.
  - intros adj info -> (_ & cfg & Hp & He & ->)%adapter_container_spec. cbn. split_and!; [|done..].
    apply buildAdjustment_Some in Eb as (cfg' & mode & Hp' & He' & _ & ->).
    cbn in Hp. rewrite Hp in Hp'. injection Hp' as <-.
    apply elem_of_adjustment_calls. right; left.
    destruct (enforced_limit cfg Hp He) as [Hl _]. rewrite Hl. split; [apply FormatInt_nonempty|done].
Qed.

(** All violators handed to background goroutines and not finished yet. *)
Definition to_stop {St} (p : Plugin St) : list violator :=
  match sentinel p with Some s => List.concat (sInflight s) | None => [] end.

(** What a Synchronize hands to a background goroutine, beside what is still in flight. *)
Lemma Synchronize_queues {St} `{StoreWriter St} `{QuantityLib} (p : Plugin St) s pods ctrs :
  audits_as_configured p → sentinel p = Some s → ∀ id,
  id ∈ map vContainerID (to_stop (Synchronize p pods ctrs)) ↔
    id ∈ map vContainerID (to_stop p) ∨
    ∃ c pod, Some c ∈ ctrs ∧ Id c = id ∧
      podSandboxLookup pods !! PodSandboxId c = Some pod ∧ misses_injection p pod c.
Proof.
  intros Haud Hsent id. unfold Synchronize. destruct (Events.Synchronize _ (events p)) as [e b].
  unfold to_stop. cbn [setReady set_events sentinel]. rewrite Hsent. cbn [set_sentinel sentinel].
  assert (List.concat (sInflight (Audit s pods ctrs)) = List.concat (sInflight s) ++ violators (sDetector s) pods ctrs) as ->.
  { unfold Audit. destruct (violators _ _ _); cbn; [by rewrite app_nil_r|]. rewrite concat_app. cbn. by rewrite app_nil_r. }
  rewrite map_app, elem_of_app. apply or_iff_compat_l.
  rewrite violators_omap, list_elem_of_fmap. setoid_rewrite list_elem_of_omap. split.
  - intros (v & -> & oc & Hin & Hc).
    destruct oc as [c|]; [|done]. cbn [GetPodSandboxId] in Hc.
    destruct (podSandboxLookup pods !! PodSandboxId c) as [pod|] eqn:Ep; [|done].
    exists c, pod. split_and!; [done| |done|].
    + apply check_Some in Hc as (_ & _ & ? & ? & _ & _ & _ & _ & ->). done.
    + apply (check_iff_hook p s); [done..|]. by eexists.
  - intros (c & pod & Hin & <- & Hp & Hm).
    apply (check_iff_hook p s pod c Haud Hsent) in Hm as [v Hv].
    exists v. split; [apply check_Some in Hv as (_ & _ & ? & ? & _ & _ & _ & _ & ->); done|].
    exists (Some c). split; [done|]. cbn [GetPodSandboxId]. by rewrite Hp.
Qed.

Lemma NewPlugin_idle {St} `{StoreWriter St} cfg stopper (w : St) p : NewPlugin cfg stopper w = Ok p → to_stop p = [].
Proof. unfold NewPlugin. destruct (cRetroactiveEnforcement cfg), stopper; cbn; by intros [= <-]. Qed.

(** All of it, for a fresh plugin. *)
Lemma Synchronize_to_stop {St} `{StoreWriter St} `{QuantityLib} cfg (w : St) p s pods ctrs :
  NewPlugin cfg true w = Ok p → sentinel p = Some s → ∀ id,
  id ∈ map vContainerID (to_stop (Synchronize p pods ctrs)) ↔
    ∃ c pod, Some c ∈ ctrs ∧ Id c = id ∧
      podSandboxLookup pods !! PodSandboxId c = Some pod ∧ misses_injection p pod c.
Proof.
  intros Hnew Hsent id. rewrite (Synchronize_queues p s) by (done || by eapply NewPlugin_audits).
  rewrite (NewPlugin_idle _ _ _ _ Hnew). cbn. split; [intros [?%elem_of_nil|?]; done|by right].
Qed.

(** C6: retroactive enforcement is exact and best-effort.  After a Synchronize
    of a plugin with no remediation in flight, the stop requests its background
    goroutine issues are, whichever of them the runtime refuses, one for each
    snapshot container that must be stopped and no other: the container has an
    ID, is created or running, belongs to a pod of the snapshot, would be
    adjusted by the create hook, and lacks a variable or mount the hook injects.
    The plugin is ready and the mapping rebuild is queued. *)
Theorem Synchronize_stops_exactly {St} `{StoreWriter St} `{QuantityLib}
    cfg (w : St) p s pods ctrs refuses
  (Hnew : NewPlugin cfg true w = Ok p)
  (Hsent : sentinel p = Some s) :
  let p' := Synchronize p pods ctrs in
  ready p' = true ∧
  events p' = (Events.Synchronize (Returns (adapter.containers (AnnotationPrefix p) pods ctrs))
                 (events p)).1 ∧
  ∀ id, id ∈ @remediate _ (RecordingStopper refuses) (to_stop p') [] ↔
    ∃ c pod, Some c ∈ ctrs ∧ Id c = id ∧
      podSandboxLookup pods !! PodSandboxId c = Some pod ∧ misses_injection p pod c.
Proof.
  cbv zeta. split; [|split].
  1,2: unfold Synchronize; destruct (Events.Synchronize _ (events p)); cbn [setReady set_events sentinel]; by rewrite Hsent.
  intros id. rewrite remediate_records, app_nil_l. by apply (Synchronize_to_stop cfg w p s).
Qed.

Lemma Synchronize_stops_exactly_witness :
  let stopped := @remediate _ (RecordingStopper (λ _, true))
    (to_stop (@Synchronize _ DecimalQuantities example_plugin [Some example_pod]
       [Some (example_container ["PATH=/bin"]); None])) [] in
  stopped = ["c1"] ∧
  ("c1" ∈ stopped ↔ ∃ c pod, Some c ∈ [Some (example_container ["PATH=/bin"]); None] ∧ Id c = "c1" ∧
     podSandboxLookup [Some example_pod] !! PodSandboxId c = Some pod ∧
     @misses_injection _ _ DecimalQuantities example_plugin pod c).
Proof.
  cbv zeta. split; [vm_compute; reflexivity|].
  apply (@Synchronize_stops_exactly _ _ DecimalQuantities example_config ∅ example_plugin
    example_sentinel [Some example_pod] [Some (example_container ["PATH=/bin"]); None] (λ _, true)).
  - vm_compute. reflexivity.
  - reflexivity.
Defined.

(** The adapter's promise that a container is recorded iff it is mutated
    does not extend to Synchronize: there is a container the create hook rejects
    (a valid memory annotation and an invalid compute mode, fail-closed) that a
    Synchronize records in the mapping. *)
Theorem Synchronize_records_unmutated :
  ∃ (pod : PodSandbox) (c : Container),
    is_ok (@buildAdjustment _ DecimalQuantities example_plugin pod c) = false ∧
    List.length (@adapter.containers DecimalQuantities DefaultAnnotationPrefix [Some pod] [Some c])
      = 1%nat.
Proof.
  exists (mkPodSandbox "sb" "p" "uid" "ns"
    {[ "nvidia.com/container.t.gpu-memory.limit" := "1000000000";
       "nvidia.com/container.t.gpu-compute.mode" := "typo" ]}), (example_container []).
  split; vm_compute; reflexivity.
Qed.
