(* ===== verification/Retry.v ===== *)
(** * Restart loops: mpsd's supervisor and fractiond's NRI connection

    [Supervisor.Run] and [runWithRetry] supervise a long-lived activity with a
    retry budget and an exponential backoff.  What the environment decides is a
    script with one entry per iteration; the loops are recursive functions on
    it that return what they did.  Both refine the abstract policy [retry].
    Durations are [int64] nanoseconds with wrap-around. *)

From S2P Require Import Prelude GoStrings.
From stdpp Require Import base gmap strings list.
From Stdlib Require Import ZArith Lia Ascii String.
#[local] Open Scope string_scope.
#[local] Open Scope list_scope.
#[local] Open Scope Z_scope.

Definition Second : Z := 1000000000.
Definition Minute : Z := 60 * Second.

Definition maxBackoff : Z := 60 * Second.

(** [backoff = min(backoff*2, maxBackoff)] *)
Definition next_backoff (backoff : Z) : Z := Z.min (wrap64 (backoff * 2)) maxBackoff.

(** ** The abstract policy *)

(** One iteration of a supervised activity. *)
Record iteration := mkIteration {
  it_cancelled : bool;         (* the context was cancelled when the activity returned *)
  it_uptime : Z;               (* how long the activity ran *)
  it_cancelled_waiting : bool  (* the context is cancelled during the backoff wait *)
}.

Inductive verdict :=
| Stopped                      (* asked to stop: returns nil *)
| GaveUp (attempts : Z)        (* budget exhausted: returns an error *)
| StillRunning.                (* the script ended *)

Record policy := mkPolicy { initial : Z; max_retries : Z; stable : Z }.

(** The waits performed, and how it ended. *)
Fixpoint retry (pol : policy) (attempt backoff : Z) (script : list iteration)
    : list Z * verdict :=
  match script with
  | [] => ([], StillRunning)
  | it :: script =>
      if it_cancelled it then ([], Stopped)
      else
        let '(attempt, backoff) :=
          if stable pol <=? it_uptime it then (0, initial pol) else (attempt + 1, backoff) in
        if (0 <? max_retries pol) && (max_retries pol <=? attempt) then ([], GaveUp attempt)
        else if it_cancelled_waiting it then ([backoff], Stopped)
        else
          let '(waits, v) := retry pol attempt (next_backoff backoff) script in
          (backoff :: waits, v)
  end.

(** ** mpsd/internal/supervisor.go: Run *)

Module Supervisor.

Definition DefaultBackoff : Z := 5 * Second.
Definition DefaultMaxRetries : Z := 5.
Definition DefaultStableThreshold : Z := 5 * Minute.
Definition mpsControlSocket : string := "control".

Record SupervisorConfig := mkSupervisorConfig {
  MPSBinary : string;
  ControlPort : string;
  ConfigPath : string;
  ConfigContent : string;
  Multiuser : bool;
  PipeDir : string;
  LogDir : string;
  Backoff : Z;
  MaxRetries : Z;
  StableThreshold : Z
}.

(** What the supervisor does to the outside, in order. *)
Inductive action :=
| MkdirAll (dir : string)
| WriteFile (path content : string)
| RemoveSocket (path : string)
| StartMPS (binary : string) (args env : list string)
| After (d : Z).

Inductive SupervisorError :=
| SetupDirectory (dir : string)
| SetupConfigDirectory
| SetupConfigWrite (path : string)
| FailedAfter (attempts : Z) (cause : option string).

Definition buildMPSArgs (controlPort configPath : string) (multiuser : bool) : list string :=
  (if String.eqb controlPort "" then [] else ["-p"; controlPort]) ++
  (if multiuser then ["-m"] else []) ++
  ["-f"] ++
  (if String.eqb configPath "" then [] else ["-a"; configPath]).

(** The process started by [runMPS]; [environ] is the inherited environment. *)
Definition runMPS (cfg : SupervisorConfig) (environ : list string) : action :=
  StartMPS (MPSBinary cfg) (buildMPSArgs (ControlPort cfg) (ConfigPath cfg) (Multiuser cfg))
    (environ ++ ["CUDA_MPS_PIPE_DIRECTORY=" +:+ PipeDir cfg; "CUDA_MPS_LOG_DIRECTORY=" +:+ LogDir cfg]).

Definition removeStaleSocket (cfg : SupervisorConfig) : action :=
  RemoveSocket (PathJoin [PipeDir cfg; mpsControlSocket]).

(** Which file operations of the setup fail. *)
Record setup_faults := mkFaults { mkdir_fails : string → bool; write_fails : string → bool }.

Definition writeConfig (cfg : SupervisorConfig) (f : setup_faults)
    : list action * result SupervisorError unit :=
  if String.eqb (ConfigPath cfg) "" || String.eqb (ConfigContent cfg) "" then ([], Ok tt)
  else
    let dir := PathDir (ConfigPath cfg) in
    if mkdir_fails f dir then ([MkdirAll dir], Err SetupConfigDirectory)
    else if write_fails f (ConfigPath cfg)
    then ([MkdirAll dir; WriteFile (ConfigPath cfg) (ConfigContent cfg)],
          Err (SetupConfigWrite (ConfigPath cfg)))
    else ([MkdirAll dir; WriteFile (ConfigPath cfg) (ConfigContent cfg)], Ok tt).

Definition setup (cfg : SupervisorConfig) (f : setup_faults)
    : list action * result SupervisorError unit :=
  if mkdir_fails f (PipeDir cfg) then ([MkdirAll (PipeDir cfg)], Err (SetupDirectory (PipeDir cfg)))
  else if mkdir_fails f (LogDir cfg)
  then ([MkdirAll (PipeDir cfg); MkdirAll (LogDir cfg)], Err (SetupDirectory (LogDir cfg)))
  else
    let '(acts, r) := writeConfig cfg f in
    let acts := [MkdirAll (PipeDir cfg); MkdirAll (LogDir cfg)] ++ acts in
    match r with
    | Err e => (acts, Err e)
    | Ok _ => (acts ++ [removeStaleSocket cfg], Ok tt)
    end.

(** One run of the daemon: the error [runMPS] returned, and the environment's
    part of the iteration. *)
Record daemon_run := mkRun { run_error : option string; run_it : iteration }.

(** The [for] loop; [None] when the script ends while supervising. *)
Fixpoint loop (cfg : SupervisorConfig) (environ : list string) (attempt backoff : Z)
    (script : list daemon_run) : list action * option (result SupervisorError unit) :=
  match script with
  | [] => ([], None)
  | run :: script =>
      let it := run_it run in
      let attempt := attempt + 1 in
      let start := [runMPS cfg environ] in
      if it_cancelled it then (start, Some (Ok tt))
      else
        let '(attempt, backoff) :=
          if StableThreshold cfg <=? it_uptime it then (0, Backoff cfg) else (attempt, backoff) in
        if (0 <? MaxRetries cfg) && (MaxRetries cfg <=? attempt)
        then (start, Some (Err (FailedAfter attempt (run_error run))))
        else
          let acts := start ++ [removeStaleSocket cfg; After backoff] in
          if it_cancelled_waiting it then (acts, Some (Ok tt))
          else
            let '(rest, r) := loop cfg environ attempt (next_backoff backoff) script in
            (acts ++ rest, r)
  end.

Definition Run (cfg : SupervisorConfig) (f : setup_faults) (environ : list string)
    (script : list daemon_run) : list action * option (result SupervisorError unit) :=
  let '(acts, r) := setup cfg f in
  match r with
  | Err e => (acts, Some (Err e))
  | Ok _ =>
      let '(rest, r) := loop cfg environ 0 (Backoff cfg) script in (acts ++ rest, r)
  end.

End Supervisor.

(** ** fractiond/internal/readiness *)

Module readiness.

(** [State] is an atomic flag; [NewState] starts not-ready. *)
Definition NewState : bool := false.

Inductive response := StatusOK (body : string) | StatusServiceUnavailable (body : string) | StatusNotFound.

Definition ReadyzPath : string := "/readyz".

Definition handler (state : bool) (path : string) : response :=
  if negb (String.eqb path ReadyzPath) then StatusNotFound
  else if negb state
  then StatusServiceUnavailable ("not ready: NRI plugin not registered" +:+ String "010"%char "")
  else StatusOK "ok".

End readiness.

(** ** fractiond/cmd/main.go: runWithRetry *)

Module runWithRetry.

Record flags := mkFlags { retryInterval : Z; maxRetries : Z; stableThreshold : Z }.

(** One connection: [stub.New] may fail; the runtime may deliver Synchronize
    while it is up. *)
Record connection := mkConnection {
  stub_error : option string;
  synchronized : bool;
  conn_error : option string;
  conn_it : iteration
}.

Inductive RetryError :=
| CreatingStub (cause : string)
| ConnectionFailed (attempts : Z) (cause : option string).

(** What a prober sees of an iteration: readiness while connected, and during
    the wait that follows (with its length). *)
Inductive observation := Connected (ready : bool) | Waiting (ready : bool) (d : Z).

(** The loop with the shared readiness flag. *)
Fixpoint loop (f : flags) (attempt backoff : Z) (ready : bool) (script : list connection)
    : list observation * option (bool * result RetryError unit) :=
  match script with
  | [] => ([], None)
  | c :: script =>
      let attempt := attempt + 1 in
      match stub_error c with
      | Some e => ([], Some (ready, Err (CreatingStub e)))
      | None =>
          let connected := [Connected (ready || synchronized c)] in
          let ready := false in (* readyState.SetReady(false) *)
          let it := conn_it c in
          if it_cancelled it then (connected, Some (ready, Ok tt))
          else
            let '(attempt, backoff) :=
              if stableThreshold f <=? it_uptime it then (0, retryInterval f)
              else (attempt, backoff) in
            if (0 <? maxRetries f) && (maxRetries f <=? attempt)
            then (connected, Some (ready, Err (ConnectionFailed attempt (conn_error c))))
            else
              let obs := connected ++ [Waiting ready backoff] in
              if it_cancelled_waiting it then (obs, Some (ready, Ok tt))
              else
                let '(rest, r) := loop f attempt (next_backoff backoff) ready script in
                (obs ++ rest, r)
      end
  end.

Definition run (f : flags) (script : list connection)
    : list observation * option (bool * result RetryError unit) :=
  loop f 0 (retryInterval f) readiness.NewState script.

End runWithRetry.

(** ** Lemmas: the abstract policy *)

(** A run that ends by itself, unstable, and is retried. *)
Definition fails_fast (pol : policy) (it : iteration) : Prop :=
  it_cancelled it = false ∧ it_uptime it < stable pol ∧ it_cancelled_waiting it = false.

(** The wait before the k-th consecutive restart (from 0). *)
Definition nth_wait (init : Z) (k : nat) : Z :=
  match k with O => init | _ => Z.min (init * 2 ^ Z.of_nat k) maxBackoff end.

(** Small enough that doubling it does not overflow. *)
Definition sane_backoff (b : Z) : Prop := 0 ≤ b ∧ 2 * b ≤ int64_max.

Lemma next_backoff_sane b : sane_backoff b → next_backoff b = Z.min (b * 2) maxBackoff.
Proof.
  intros [H1 H2]. unfold next_backoff. rewrite wrap64_small; [done|].
  unfold in_int64, int64_min, int64_max in *. lia.
Qed.

Lemma sane_next b : sane_backoff b → sane_backoff (next_backoff b).
Proof.
  intros H. rewrite next_backoff_sane by done. destruct H as [H1 H2].
  unfold sane_backoff, int64_max, maxBackoff, Second in *. lia.
Qed.

Lemma nth_wait_S init k : sane_backoff init → next_backoff (nth_wait init k) = nth_wait init (S k).
Proof.
  intros H. assert (sane_backoff (nth_wait init k)) as Hk.
  { destruct k as [|k]; [done|]. unfold nth_wait. destruct H as [H0 _].
    pose proof (Z.pow_pos_nonneg 2 (Z.of_nat (S k)) ltac:(lia) ltac:(lia)).
    assert (0 ≤ init * 2 ^ Z.of_nat (S k)) by (apply Z.mul_nonneg_nonneg; lia).
    unfold sane_backoff, int64_max, maxBackoff, Second. lia. }
  rewrite next_backoff_sane by done. destruct k as [|k]; cbn [nth_wait]; [done|].
  replace (Z.of_nat (S (S k))) with (Z.of_nat (S k) + 1) by lia.
  rewrite Z.pow_add_r by lia. change (2 ^ 1) with 2. unfold maxBackoff, Second. lia.
Qed.

(** Consecutive unstable runs before the budget is exhausted. *)
Lemma retry_failing pol pre : sane_backoff (initial pol) → Forall (fails_fast pol) pre → ∀ k rest,
  (0 < max_retries pol → Z.of_nat (k + List.length pre) < max_retries pol) →
  retry pol (Z.of_nat k) (nth_wait (initial pol) k) (pre ++ rest) =
  let '(waits, v) := retry pol (Z.of_nat (k + List.length pre))
    (nth_wait (initial pol) (k + List.length pre)) rest in
  (map (nth_wait (initial pol)) (seq k (List.length pre)) ++ waits, v).
Proof.
  intros Hs. induction 1 as [|it pre (Hc & Hu & Hw) Hpre IH]; intros k rest Hb.
  { cbn [List.length app seq map]. rewrite Nat.add_0_r. by destruct (retry _ _ _ rest). }
  cbn [app retry List.length] in *. rewrite Hc, (proj2 (Z.leb_gt _ _) Hu), Hw.
  assert ((0 <? max_retries pol) && (max_retries pol <=? Z.of_nat k + 1) = false) as ->.
  { destruct (Z.ltb_spec 0 (max_retries pol)) as [H|H]; [|done].
    specialize (Hb H). cbn [andb]. apply Z.leb_gt. lia. }
  rewrite nth_wait_S by done. replace (Z.of_nat k + 1) with (Z.of_nat (S k)) by lia.
  rewrite IH by (intros H; specialize (Hb H); lia).
  rewrite Nat.add_succ_r. change (S k + List.length pre)%nat with (S (k + List.length pre)).
  by destruct (retry _ _ _ rest).
Qed.

(** Giving up needs a full budget of consecutive unstable runs. *)
Lemma retry_gave_up pol script : ∀ attempt backoff waits n,
  0 ≤ attempt → (0 < max_retries pol → attempt < max_retries pol) →
  retry pol attempt backoff script = (waits, GaveUp n) →
  n = max_retries pol ∧ 0 < n ∧ ∃ pre seg post, script = pre ++ seg ++ post ∧
    List.length waits = (List.length (pre ++ seg) - 1)%nat ∧ seg ≠ [] ∧
    Forall (λ it, it_cancelled it = false ∧ it_uptime it < stable pol) seg ∧
    (Z.of_nat (List.length seg) = n ∨ pre = [] ∧ Z.of_nat (List.length seg) + attempt = n).
Proof.
  induction script as [|it script IH]; intros attempt backoff waits n Ha Hb; cbn; [done|].
  destruct (it_cancelled it) eqn:Ec; [done|].
  destruct (Z.leb_spec (stable pol) (it_uptime it)) as [Hst|Hst].
  - destruct ((0 <? max_retries pol) && (max_retries pol <=? 0)) eqn:E; [bool_simpl; lia|].
    destruct (it_cancelled_waiting it); [done|].
    destruct (retry pol 0 _ script) as [w v] eqn:Er. intros [= <- ->].
    destruct (IH _ _ _ _ (Z.le_refl 0) ltac:(auto) Er)
      as (Hn & Hpos & pre & seg & post & -> & Hl & Hne & Hseg & Hlen).
    split_and!; [done..|]. exists (it :: pre), seg, post. split_and!; [done| |done|done|].
    + cbn [List.length app]. rewrite Hl. destruct seg; [done|]. rewrite !length_app. cbn. lia.
    + left. destruct Hlen as [?|[_ ?]]; lia.
  - destruct ((0 <? max_retries pol) && (max_retries pol <=? attempt + 1)) eqn:E; bool_simpl.
    + intros [= <- <-]. specialize (Hb H). split_and!; [lia..|].
      exists [], [it], script. split_and!; [done..|by constructor|].
      right. split; [done|]. cbn. lia.
    + destruct (it_cancelled_waiting it); [done|].
      destruct (retry pol (attempt + 1) _ script) as [w v] eqn:Er. intros [= <- ->].
      assert (0 < max_retries pol → attempt + 1 < max_retries pol) as Hb'.
      { intros H. rewrite (proj2 (Z.ltb_lt _ _) H) in E. cbn in E. by bool_simpl. }
      assert (0 ≤ attempt + 1) as Ha' by lia.
      destruct (IH _ _ _ _ Ha' Hb' Er)
        as (Hn & Hpos & pre & seg & post & -> & Hl & Hne & Hseg & Hlen).
      split_and!; [done..|].
      destruct Hlen as [Hlen|[-> Hlen]].
      * exists (it :: pre), seg, post. split_and!; [done| |done|done|by left].
        cbn [List.length app]. rewrite Hl. destruct seg; [done|]. rewrite !length_app. cbn. lia.
      * exists [], (it :: seg), post. split_and!; [done| |done|by constructor|].
        -- cbn [List.length app]. rewrite Hl. destruct seg; [done|]. cbn. lia.
        -- right. split; [done|]. cbn [List.length]. lia.
Qed.

Lemma retry_waits_bounded pol script : sane_backoff (initial pol) → ∀ attempt backoff,
  sane_backoff backoff → backoff ≤ Z.max (initial pol) maxBackoff →
  Forall (λ w, 0 ≤ w ≤ Z.max (initial pol) maxBackoff) (retry pol attempt backoff script).1.
Proof.
  intros Hi. induction script as [|it script IH]; intros attempt backoff Hs Hb; cbn; [done|].
  destruct (it_cancelled it); [done|].
  assert (∀ a b, sane_backoff b → b ≤ Z.max (initial pol) maxBackoff →
    Forall (λ w, 0 ≤ w ≤ Z.max (initial pol) maxBackoff)
      (if (0 <? max_retries pol) && (max_retries pol <=? a) then ([], GaveUp a)
       else if it_cancelled_waiting it then ([b], Stopped)
       else let '(waits, v) := retry pol a (next_backoff b) script in (b :: waits, v)).1) as Hgo.
  { intros a b Hsb Hbb. destruct (_ && _); [done|].
    assert (0 ≤ b ≤ Z.max (initial pol) maxBackoff) by (destruct Hsb; lia).
    destruct (it_cancelled_waiting it); [by constructor|].
    specialize (IH a (next_backoff b) (sane_next _ Hsb)).
    destruct (retry pol a (next_backoff b) script) as [w v]. constructor; [done|]. apply IH.
    rewrite next_backoff_sane by done. lia. }
  destruct (_ <=? _); apply Hgo; done || lia.
Qed.

(** ** The loops refine the policy *)

Definition supervisor_policy (cfg : Supervisor.SupervisorConfig) : policy :=
  mkPolicy (Supervisor.Backoff cfg) (Supervisor.MaxRetries cfg) (Supervisor.StableThreshold cfg).

Definition action_wait (a : Supervisor.action) : option Z :=
  match a with Supervisor.After d => Some d | _ => None end.

Definition supervisor_verdict (r : option (result Supervisor.SupervisorError unit)) : option verdict :=
  match r with
  | None => Some StillRunning
  | Some (Ok _) => Some Stopped
  | Some (Err (Supervisor.FailedAfter n _)) => Some (GaveUp n)
  | Some (Err _) => None
  end.

Lemma supervisor_loop_refines cfg environ script : ∀ attempt backoff,
  let '(acts, r) := Supervisor.loop cfg environ attempt backoff script in
  retry (supervisor_policy cfg) attempt backoff (map Supervisor.run_it script) =
    (omap action_wait acts, default StillRunning (supervisor_verdict r)) ∧
  is_Some (supervisor_verdict r).
Proof.
  induction script as [|run script IH]; intros attempt backoff; cbn -[Z.leb Z.ltb next_backoff].
  { done. }
  destruct (it_cancelled (Supervisor.run_it run)); [done|].
  destruct (_ <=? it_uptime _);
    destruct (_ && _); [done| |done|];
    (destruct (it_cancelled_waiting (Supervisor.run_it run)); [done|]).
  - specialize (IH 0 (next_backoff (Supervisor.Backoff cfg))).
    destruct (Supervisor.loop cfg environ 0 _ script) as [rest r]. destruct IH as [-> Hr].
    done.
  - specialize (IH (attempt + 1) (next_backoff backoff)).
    destruct (Supervisor.loop cfg environ (attempt + 1) _ script) as [rest r].
    destruct IH as [-> Hr]. done.
Qed.

Definition connection_policy (f : runWithRetry.flags) : policy :=
  mkPolicy (runWithRetry.retryInterval f) (runWithRetry.maxRetries f) (runWithRetry.stableThreshold f).

Definition observation_wait (o : runWithRetry.observation) : option Z :=
  match o with runWithRetry.Waiting _ d => Some d | _ => None end.

Definition connection_verdict (r : option (bool * result runWithRetry.RetryError unit)) : verdict :=
  match r with
  | Some (_, Ok _) => Stopped
  | Some (_, Err (runWithRetry.ConnectionFailed n _)) => GaveUp n
  | _ => StillRunning
  end.

Lemma connection_loop_refines f script : Forall (λ c, runWithRetry.stub_error c = None) script →
  ∀ attempt backoff ready,
  let '(obs, r) := runWithRetry.loop f attempt backoff ready script in
  retry (connection_policy f) attempt backoff (map runWithRetry.conn_it script) =
    (omap observation_wait obs, connection_verdict r).
Proof.
  induction 1 as [|c script Hc _ IH]; intros attempt backoff ready; cbn -[Z.leb Z.ltb next_backoff].
  { done. }
  rewrite Hc. destruct (it_cancelled (runWithRetry.conn_it c)); [done|].
  destruct (_ <=? it_uptime _);
    destruct (_ && _); [done| |done|];
    (destruct (it_cancelled_waiting (runWithRetry.conn_it c)); [done|]).
  - specialize (IH 0 (next_backoff (runWithRetry.retryInterval f)) false).
    destruct (runWithRetry.loop f 0 _ false script) as [rest r]. rewrite IH. done.
  - specialize (IH (attempt + 1) (next_backoff backoff) false).
    destruct (runWithRetry.loop f (attempt + 1) _ false script) as [rest r]. rewrite IH. done.
Qed.

(** A start not preceded by the removal of the stale socket would fail to bind. *)
Fixpoint clean_starts (socket_free : bool) (acts : list Supervisor.action) : bool :=
  match acts with
  | [] => true
  | Supervisor.StartMPS _ _ _ :: acts => socket_free && clean_starts false acts
  | Supervisor.RemoveSocket _ :: acts => clean_starts true acts
  | _ :: acts => clean_starts socket_free acts
  end.

Lemma loop_clean_starts cfg environ script : ∀ attempt backoff,
  clean_starts true (Supervisor.loop cfg environ attempt backoff script).1 = true.
Proof.
  induction script as [|run script IH]; intros attempt backoff; cbn -[Z.leb Z.ltb next_backoff]; [done|].
  destruct (it_cancelled (Supervisor.run_it run)); [done|].
  destruct (_ <=? it_uptime _);
    destruct (_ && _); [done| |done|];
    (destruct (it_cancelled_waiting (Supervisor.run_it run)); [done|]).
  - specialize (IH 0 (next_backoff (Supervisor.Backoff cfg))).
    by destruct (Supervisor.loop cfg environ 0 _ script) as [rest r].
  - specialize (IH (attempt + 1) (next_backoff backoff)).
    by destruct (Supervisor.loop cfg environ (attempt + 1) _ script) as [rest r].
Qed.

(** ** Properties *)

(** The MPS supervisor implements the retry policy.  After a successful
    setup, the waits between restarts and the way supervision ends are those of
    the abstract policy with the configured backoff, budget and stability
    threshold; every start of the daemon, the first one included, has the stale
    control socket removed since the previous start; and when the setup fails
    the daemon is never started. *)
Theorem Supervisor_Run_refines cfg f environ script :
  let '(acts, r) := Supervisor.Run cfg f environ script in
  clean_starts false acts = true ∧
  match (Supervisor.setup cfg f).2 with
  | Err e => r = Some (Err e) ∧ acts = (Supervisor.setup cfg f).1 ∧ omap action_wait acts = []
  | Ok _ =>
      retry (supervisor_policy cfg) 0 (Supervisor.Backoff cfg) (map Supervisor.run_it script) =
        (omap action_wait acts, default StillRunning (supervisor_verdict r))
  end.
Proof.
  unfold Supervisor.Run.
  assert (∀ rest, match Supervisor.setup cfg f with
    | (acts, Ok _) => clean_starts false (acts ++ rest) = clean_starts true rest ∧
        omap action_wait (acts ++ rest) = omap action_wait rest
    | (acts, Err _) => clean_starts false acts = true ∧ omap action_wait acts = []
    end) as Hsetup.
  { intros rest. unfold Supervisor.setup, Supervisor.writeConfig.
    repeat case_match; simplify_eq/=; done. }
  destruct (Supervisor.setup cfg f) as [acts [u|e]]; cbn [fst snd].
  - pose proof (supervisor_loop_refines cfg environ script 0 (Supervisor.Backoff cfg)) as Hl.
    pose proof (loop_clean_starts cfg environ script 0 (Supervisor.Backoff cfg)) as Hc.
    destruct (Supervisor.loop cfg environ 0 _ script) as [rest r]. cbn [fst] in Hc.
    destruct (Hsetup rest) as [H1 H2]. rewrite H1, H2. by destruct Hl as [-> _].
  - destruct (Hsetup []) as [H1 H2]. auto.
Qed.

(** Fractiond's connection loop implements the same policy and is never
    reported ready while disconnected: every backoff wait is observed not-ready,
    and whatever ends the loop leaves the readiness flag cleared. *)
Theorem runWithRetry_refines f script
  (Hstub : Forall (λ c, runWithRetry.stub_error c = None) script) :
  let '(obs, r) := runWithRetry.run f script in
  retry (connection_policy f) 0 (runWithRetry.retryInterval f)
    (map runWithRetry.conn_it script) = (omap observation_wait obs, connection_verdict r) ∧
  (∀ b d, runWithRetry.Waiting b d ∈ obs → b = false) ∧
  (∀ b res, r = Some (b, res) → b = false).
Proof.
  unfold runWithRetry.run.
  pose proof (connection_loop_refines f script Hstub 0 (runWithRetry.retryInterval f) false) as Hl.
  assert (∀ script, Forall (λ c, runWithRetry.stub_error c = None) script → ∀ attempt backoff ready,
    let '(obs, r) := runWithRetry.loop f attempt backoff ready script in
    (∀ b d, runWithRetry.Waiting b d ∈ obs → b = false) ∧
    (∀ b res, r = Some (b, res) → b = false)) as Hready.
  { clear. induction 1 as [|c script Hc _ IH]; intros attempt backoff ready;
      cbn -[Z.leb Z.ltb next_backoff].
    { split; [by intros ? ? ?%elem_of_nil|done]. }
    assert (∀ b d r, runWithRetry.Waiting b d ∈ [runWithRetry.Connected r] → b = false) as Hone.
    { intros b d r Hin%list_elem_of_singleton. done. }
    rewrite Hc. destruct (it_cancelled (runWithRetry.conn_it c)).
    { split; [by eauto|]. by intros ? ? [= <- _]. }
    destruct (if _ <=? it_uptime _ then _ else _) as [a b].
    destruct (_ && _). { split; [by eauto|]. by intros ? ? [= <- _]. }
    assert (∀ b' d rest, (∀ b d, runWithRetry.Waiting b d ∈ rest → b = false) →
      runWithRetry.Waiting b' d ∈ runWithRetry.Connected (ready || runWithRetry.synchronized c)
        :: runWithRetry.Waiting false b :: rest → b' = false) as Htwo.
    { intros b' d rest Hrest [?|[[= -> _]|Hin]%elem_of_cons]%elem_of_cons; [done|done|by eapply Hrest]. }
    destruct (it_cancelled_waiting (runWithRetry.conn_it c)).
    { split; [|by intros ? ? [= <- _]]. intros b' d. apply Htwo. by intros ? ? ?%elem_of_nil. }
    specialize (IH a (next_backoff b) false).
    destruct (runWithRetry.loop f a _ false script) as [rest r]. destruct IH as [H1 H2].
    split; [|done]. intros b' d. by apply Htwo. }
  specialize (Hready script Hstub 0 (runWithRetry.retryInterval f) readiness.NewState).
  unfold readiness.NewState in *.
  by destruct (runWithRetry.loop f 0 _ false script) as [obs r].
Qed.

Lemma runWithRetry_refines_witness :
  let f := runWithRetry.mkFlags (5 * Second) 2 (5 * Minute) in
  let c := runWithRetry.mkConnection None true (Some "eof") (mkIteration false Second false) in
  runWithRetry.run f [c; c] =
    ([runWithRetry.Connected true; runWithRetry.Waiting false (5 * Second); runWithRetry.Connected true],
     Some (false, Err (runWithRetry.ConnectionFailed 2 (Some "eof")))) ∧
  retry (connection_policy f) 0 (5 * Second) [mkIteration false Second false; mkIteration false Second false]
    = ([5 * Second], GaveUp 2).
Proof.
  cbv zeta. split; [vm_compute; reflexivity|].
  destruct (runWithRetry_refines (runWithRetry.mkFlags (5 * Second) 2 (5 * Minute))
    [runWithRetry.mkConnection None true (Some "eof") (mkIteration false Second false);
     runWithRetry.mkConnection None true (Some "eof") (mkIteration false Second false)]) as [H _].
  - repeat constructor.
  - exact H.
Defined.

(** The budget of the abstract policy. *)
Lemma policy_budget pol script
  (Hsane : sane_backoff (initial pol)) :
  (∀ pre it rest, script = pre ++ it :: rest → Forall (fails_fast pol) (pre ++ [it]) →
     Z.of_nat (S (List.length pre)) = max_retries pol →
     retry pol 0 (initial pol) script =
       (map (nth_wait (initial pol)) (seq 0 (List.length pre)), GaveUp (max_retries pol))) ∧
  (∀ waits n, retry pol 0 (initial pol) script = (waits, GaveUp n) →
     n = max_retries pol ∧ 0 < n ∧ ∃ pre seg post, script = pre ++ seg ++ post ∧
       List.length waits = (List.length (pre ++ seg) - 1)%nat ∧
       Z.of_nat (List.length seg) = n ∧
       Forall (λ it, it_cancelled it = false ∧ it_uptime it < stable pol) seg) ∧
  Forall (λ w, 0 ≤ w ≤ Z.max (initial pol) maxBackoff) (retry pol 0 (initial pol) script).1.
Proof.
  split_and!.
  - intros pre it rest -> Hall Hlen. apply Forall_app in Hall as [Hpre [(Hc & Hu & Hw) _]%Forall_cons].
    pose proof (retry_failing pol pre Hsane Hpre 0 (it :: rest)) as Hr.
    change (nth_wait (initial pol) 0) with (initial pol) in Hr. change (Z.of_nat 0) with 0 in Hr.
    rewrite Hr by (intros; lia). cbn [Nat.add].
    cbn [retry]. rewrite Hc, (proj2 (Z.leb_gt _ _) Hu).
    rewrite (proj2 (Z.ltb_lt 0 (max_retries pol))) by lia.
    rewrite (proj2 (Z.leb_le (max_retries pol) _)) by lia. cbn [andb]. rewrite app_nil_r.
    do 2 f_equal. lia.
  - intros waits n Hr.
    destruct (retry_gave_up pol script 0 (initial pol) waits n ltac:(lia) ltac:(auto) Hr)
      as (Hn & Hpos & pre & seg & post & Hs & Hl & _ & Hseg & Hlen).
    split_and!; [done..|]. exists pre, seg, post. split_and!; [done..| |done].
    destruct Hlen as [?|[_ ?]]; lia.
  - apply retry_waits_bounded; [done..|]. lia.
Qed.

(** The restart budget of the supervisor.  With a backoff whose double fits
    in [int64] and a positive [MaxRetries], a daemon that keeps exiting before it
    is stable is started exactly [MaxRetries] times and then given up on, with
    the waits [Backoff, 2*Backoff, 4*Backoff, ...] capped at 60s from the second
    one on.  Conversely supervision gives up only at the end of [MaxRetries]
    consecutive unstable runs (an earlier stable run restores the whole budget),
    and with a zero budget never; no wait is negative or above the cap unless
    the configured backoff is. *)
Theorem retry_budget cfg environ script
  (Hsane : sane_backoff (Supervisor.Backoff cfg)) :
  let '(acts, r) := Supervisor.loop cfg environ 0 (Supervisor.Backoff cfg) script in
  let its := map Supervisor.run_it script in
  let waits := omap action_wait acts in
  let pol := supervisor_policy cfg in
  (∀ pre it rest, its = pre ++ it :: rest → Forall (fails_fast pol) (pre ++ [it]) →
     Z.of_nat (S (List.length pre)) = Supervisor.MaxRetries cfg →
     waits = map (nth_wait (Supervisor.Backoff cfg)) (seq 0 (List.length pre)) ∧
     supervisor_verdict r = Some (GaveUp (Supervisor.MaxRetries cfg))) ∧
  (∀ n, supervisor_verdict r = Some (GaveUp n) →
     n = Supervisor.MaxRetries cfg ∧ 0 < n ∧ ∃ pre seg post, its = pre ++ seg ++ post ∧
       List.length waits = (List.length (pre ++ seg) - 1)%nat ∧
       Z.of_nat (List.length seg) = n ∧
       Forall (λ it, it_cancelled it = false ∧ it_uptime it < Supervisor.StableThreshold cfg) seg) ∧
  Forall (λ w, 0 ≤ w ≤ Z.max (Supervisor.Backoff cfg) maxBackoff) waits.
Proof.
  pose proof (supervisor_loop_refines cfg environ script 0 (Supervisor.Backoff cfg)) as Hl.
  destruct (Supervisor.loop cfg environ 0 _ script) as [acts r]. destruct Hl as [Hl _].
  pose proof (policy_budget (supervisor_policy cfg) (map Supervisor.run_it script) Hsane) as (H1 & H2 & H3).
  cbn [initial supervisor_policy max_retries stable] in *. cbv zeta. rewrite Hl in H1, H2, H3.
  split; [|split; [|exact H3]].
  - intros pre it rest Hs Hall Hlen. injection (H1 pre it rest Hs Hall Hlen) as -> Hv.
    by destruct (supervisor_verdict r) as [v|]; simplify_eq/=.
  - intros n Hv. rewrite Hv in H2. by apply H2.
Qed.

Definition example_supervisor (backoff : Z) (n : Z) : Supervisor.SupervisorConfig :=
  Supervisor.mkSupervisorConfig "/usr/bin/nvidia-cuda-mps-control" "3" "" "" true
    "/run/nvidia-mps" "/var/log/nvidia-mps" backoff n Supervisor.DefaultStableThreshold.

Definition crash : Supervisor.daemon_run :=
  Supervisor.mkRun (Some "exit status 1") (mkIteration false Second false).

Lemma retry_budget_witness :
  let cfg := example_supervisor Supervisor.DefaultBackoff Supervisor.DefaultMaxRetries in
  let '(acts, r) := Supervisor.loop cfg [] 0 Supervisor.DefaultBackoff (repeat crash 6) in
  omap action_wait acts = [5 * Second; 10 * Second; 20 * Second; 40 * Second] ∧
  supervisor_verdict r = Some (GaveUp 5).
Proof.
  pose proof (retry_budget (example_supervisor Supervisor.DefaultBackoff Supervisor.DefaultMaxRetries) []
    (repeat crash 6)) as H.
  cbv zeta. change (Supervisor.Backoff (example_supervisor Supervisor.DefaultBackoff
    Supervisor.DefaultMaxRetries)) with Supervisor.DefaultBackoff in H.
  destruct (Supervisor.loop _ [] 0 Supervisor.DefaultBackoff (repeat crash 6)) as [acts r].
  destruct H as (H & _ & _); [vm_compute; split; discriminate|].
  refine (H (repeat (Supervisor.run_it crash) 4) (Supervisor.run_it crash)
    [Supervisor.run_it crash] eq_refl _ eq_refl).
  repeat constructor.
Defined.

(** Without a bound on the configured backoff the cap is not enforced: the
    first wait of the supervisor is the configured backoff itself, however long,
    and doubling a backoff beyond half the [int64] range wraps to a negative
    wait. *)
Theorem backoff_not_capped :
  omap action_wait (Supervisor.loop (example_supervisor (3600 * Second) 0) [] 0 (3600 * Second)
     [crash]).1 = [3600 * Second] ∧
  omap action_wait (Supervisor.loop (example_supervisor (2 ^ 62) 0) [] 0 (2 ^ 62)
     [crash; crash]).1 = [2 ^ 62; - 2 ^ 63].
Proof. split; vm_compute; reflexivity. Qed.
