(* ===== verification/MpsConfig.v ===== *)
(** * The MPS control-daemon configuration

    mpsd renders a TOML file and starts the daemon with matching flags
    ([mpsd/cmd/main.go], [mpsd/internal/config.go]); the daemon (its stand-in
    [hack/fake-mps]) creates one socket directory per configured server, and
    fractiond bind-mounts the shared one ([Injection.MPSPipeMount]). *)

From S2P Require Import Prelude GoStrings Annotations Injection Retry.
From stdpp Require Import base gmap strings list.
From Stdlib Require Import ZArith Lia Ascii String.
#[local] Open Scope string_scope.
#[local] Open Scope list_scope.
#[local] Open Scope Z_scope.

Definition newline : ascii := "010"%char.
Abbreviation nl := (String newline "").

(** ** mpsd/internal/config.go *)

Record MPSConfig := mkMPSConfig {
  MemacctEnabled : bool;
  MemacctAuditLog : bool;
  ContextShareEnabled : bool;
  ContextShareDefaultSocket : string;
  SharedServerName : string
}.

Definition hex_lower (n : N) : ascii :=
  if (n <? 10)%N then ascii_of_N (48 + n) else ascii_of_N (87 + n).

(** [strconv.Quote] (the verb %q) on the bytes of an ASCII string. *)
Definition quote_byte (a : ascii) : string :=
  let n := N_of_ascii a in
  if Ascii.eqb a "034"%char || Ascii.eqb a "092"%char then String "092"%char (String a "")
  else if ((32 <=? n) && (n <? 127))%N || (128 <=? n)%N then String a ""
  else if (n =? 7)%N then String "092"%char "a"
  else if (n =? 8)%N then String "092"%char "b"
  else if (n =? 12)%N then String "092"%char "f"
  else if (n =? 10)%N then String "092"%char "n"
  else if (n =? 13)%N then String "092"%char "r"
  else if (n =? 9)%N then String "092"%char "t"
  else if (n =? 11)%N then String "092"%char "v"
  else String "092"%char (String "x"%char
         (String (hex_lower (n / 16)) (String (hex_lower (n mod 16)) ""))).

Fixpoint quote_body (s : string) : string :=
  match s with
  | EmptyString => ""
  | String a r => quote_byte a +:+ quote_body r
  end.
Definition Quote (s : string) : string :=
  String "034"%char (quote_body s +:+ String "034"%char "").

Definition TOML (c : MPSConfig) : string :=
  let out :=
    "[features.memacct]" +:+ nl +:+
    "enabled=" +:+ FormatBool (MemacctEnabled c) +:+ nl +:+
    "audit_log=" +:+ FormatBool (MemacctAuditLog c) +:+ nl +:+ nl +:+
    "[features.context-share]" +:+ nl +:+
    "enabled=" +:+ FormatBool (ContextShareEnabled c) +:+ nl in
  let out :=
    if String.eqb (ContextShareDefaultSocket c) "" then out
    else out +:+ "default_socket=" +:+ Quote (ContextShareDefaultSocket c) +:+ nl in
  if String.eqb (SharedServerName c) "" then out
  else out +:+ nl +:+ "[servers." +:+ SharedServerName c +:+ "]" +:+ nl.

(** ** mpsd/cmd/main.go *)

Definition DefaultMemacctEnabled : bool := true.
Definition DefaultContextShareEnabled : bool := true.
Definition DefaultContextShareDefaultSocket : string := "off".
Definition DefaultSharedServerName : string := "shared".

Definition mpsConfig (memacctAuditLog supportSMSharing : bool) : MPSConfig :=
  if supportSMSharing
  then mkMPSConfig DefaultMemacctEnabled memacctAuditLog DefaultContextShareEnabled
         DefaultContextShareDefaultSocket DefaultSharedServerName
  else mkMPSConfig DefaultMemacctEnabled memacctAuditLog false "" "".

Record mpsdFlags := mkMpsdFlags {
  mpsBinary : string;
  controlPort : string;
  configPathFlag : string;
  memacctAuditLog : bool;
  supportSMSharing : bool;
  pipeDir : string;
  logDir : string;
  backoff : Z;
  maxRetries : Z;
  stableThreshold : Z
}.

Definition supervisorConfig (f : mpsdFlags) : Supervisor.SupervisorConfig :=
  Supervisor.mkSupervisorConfig (mpsBinary f) (controlPort f) (configPathFlag f)
    (TOML (mpsConfig (memacctAuditLog f) (supportSMSharing f))) (supportSMSharing f)
    (pipeDir f) (logDir f) (backoff f) (maxRetries f) (stableThreshold f).

(** ** hack/fake-mps *)

Fixpoint configPath (args : list string) : string :=
  match args with
  | [] => ""
  | arg :: rest =>
      match rest with
      | next :: _ => if String.eqb arg "-a" then next else configPath rest
      | [] => ""
      end
  end.

Definition CutPrefix (s p : string) : option string :=
  if HasPrefix s p then Some (str_drop (String.length p) s) else None.
Definition CutSuffix (s suf : string) : option string :=
  if HasSuffix s suf then Some (TrimSuffix s suf) else None.

Definition server_of_line (line : string) : option string :=
  name ← CutPrefix (TrimSpace line) "[servers.";
  name ← CutSuffix name "]";
  let name := TrimChar name "034"%char in
  if String.eqb name "" then None else Some name.

(** [content] is the file at the configured path, [None] when it cannot be read. *)
Definition configuredServers (path : string) (content : option string) : list string :=
  if String.eqb path "" then []
  else match content with
       | None => []
       | Some content => omap server_of_line (Split content newline)
       end.

(** The sockets [main] listens on. *)
Definition sockets (pipeDir : string) (servers : list string) : list string :=
  let pipeDir := if String.eqb pipeDir "" then "/run/nvidia-mps" else pipeDir in
  PathJoin [pipeDir; "control"] ::
  map (λ server, PathJoin [pipeDir; server; "default"; "control"]) servers.

(** ** Lemmas *)

Definition no_nl (s : string) : Prop := Forall (λ a, a ≠ newline) (bytes_of s).

Lemma no_nl_app a b : no_nl a → no_nl b → no_nl (a +:+ b).
Proof. unfold no_nl. rewrite bytes_of_app. intros. by apply Forall_app. Qed.

Lemma no_nl_dec s : bool_decide (no_nl s) = true → no_nl s.
Proof. apply bool_decide_eq_true_1. Qed.

Lemma quote_byte_no_nl a : no_nl (quote_byte a).
Proof.
  destruct a as [[] [] [] [] [] [] [] []]; apply (bool_decide_unpack _); vm_compute; exact I.
Qed.

Lemma Quote_no_nl s : no_nl (Quote s).
Proof.
  unfold Quote. assert (no_nl (quote_body s)) as H.
  { induction s as [|a s IH]; [constructor|]. cbn [quote_body].
    apply no_nl_app; [apply quote_byte_no_nl|done]. }
  change (no_nl (String "034" "" +:+ quote_body s +:+ String "034" "")).
  repeat apply no_nl_app; [by repeat constructor|done|by repeat constructor].
Qed.

Lemma FormatBool_no_nl b : no_nl (FormatBool b).
Proof. destruct b; by repeat constructor. Qed.

(** A line with visible ends that does not start a server section. *)
Lemma server_of_line_none s a l l' z :
  bytes_of s = a :: l → bytes_of s = l' ++ [z] → is_graph a = true → is_graph z = true →
  Ascii.eqb a "["%char = false → server_of_line s = None.
Proof.
  intros H1 H2 Ha Hz Hb. unfold server_of_line. rewrite (TrimSpace_graph s a l l' z) by done.
  unfold CutPrefix. destruct s as [|c r]; [done|]. cbn in H1. injection H1 as -> _.
  rewrite HasPrefix_cons, Hb. done.
Qed.

Lemma server_of_line_some name :
  plain name → name ≠ "" → server_of_line ("[servers." +:+ name +:+ "]") = Some name.
Proof.
  intros Hp Hne. unfold server_of_line.
  rewrite (TrimSpace_graph _ "["%char (bytes_of ("servers." +:+ name +:+ "]"))
    (bytes_of ("[servers." +:+ name)) "]"%char).
  - unfold CutPrefix. rewrite (proj2 (HasPrefix_spec _ "[servers.")) by by eexists.
    change (String.length "[servers.") with 9%nat. cbn [mbind option_bind].
    change (str_drop 9 ("[servers." +:+ name +:+ "]")) with (name +:+ "]").
    unfold CutSuffix. rewrite HasSuffix_app. cbn [mbind option_bind].
    rewrite TrimSuffix_app. unfold TrimChar.
    assert (∀ l, Forall (λ c, c ≠ "034"%char) l → drop_char "034"%char l = l) as Hdrop.
    { destruct 1 as [|c l Hc _]; [done|]. cbn. by rewrite (proj2 (Ascii.eqb_neq c _)). }
    pose proof (plain_not_in "034"%char name eq_refl Hp) as Hq.
    rewrite Hdrop, Hdrop, rev_involutive, string_of_list_ascii_of_string by
      (done || by apply Forall_rev; rewrite ?Hdrop).
    by rewrite (proj2 (String.eqb_neq name "") Hne).
  - done.
  - change [("]"%char)] with (bytes_of "]"). by rewrite <- bytes_of_app, str_app_assoc.
  - done.
  - done.
Qed.

(** The lines of the rendered configuration. *)
Lemma TOML_servers c :
  plain (SharedServerName c) →
  omap server_of_line (Split (TOML c) newline) =
  if String.eqb (SharedServerName c) "" then [] else [SharedServerName c].
Proof.
  intros Hp. unfold TOML.
  assert (∀ tail, omap server_of_line (Split
    (("[features.memacct]" +:+ nl +:+
      "enabled=" +:+ FormatBool (MemacctEnabled c) +:+ nl +:+
      "audit_log=" +:+ FormatBool (MemacctAuditLog c) +:+ nl +:+ nl +:+
      "[features.context-share]" +:+ nl +:+
      "enabled=" +:+ FormatBool (ContextShareEnabled c) +:+ nl) +:+ tail) newline) =
    omap server_of_line (Split tail newline)) as Hhead.
  { intros tail. by destruct (MemacctEnabled c), (MemacctAuditLog c), (ContextShareEnabled c). }
  assert (∀ s tail, omap server_of_line
      (Split (("default_socket=" +:+ Quote s +:+ nl) +:+ tail) newline) =
    omap server_of_line (Split tail newline)) as Hsocket.
  { intros s tail.
    replace (("default_socket=" +:+ Quote s +:+ nl) +:+ tail)
      with (("default_socket=" +:+ Quote s) +:+ String newline tail)
      by by rewrite !str_app_assoc.
    rewrite Split_line by (apply no_nl_app; [by repeat constructor|apply Quote_no_nl]).
    cbn [omap list_omap].
    rewrite (server_of_line_none _ "d"%char (bytes_of ("efault_socket=" +:+ Quote s))
      (bytes_of ("default_socket=" +:+ String "034"%char (quote_body s))) "034"%char); try done.
    change [("034"%char)] with (bytes_of (String "034"%char "")).
    rewrite <- bytes_of_app, str_app_assoc. done. }
  assert (∀ s, s ≠ "" → plain s → omap server_of_line
      (Split (nl +:+ "[servers." +:+ s +:+ "]" +:+ nl) newline) = [s]) as Hservers.
  { intros s Hne Hs. change (nl +:+ ?x) with ("" +:+ String newline x).
    rewrite Split_line by constructor.
    replace ("[servers." +:+ s +:+ "]" +:+ nl) with (("[servers." +:+ s +:+ "]") +:+ String newline "")
      by by rewrite !str_app_assoc.
    rewrite Split_line.
    - cbn [omap list_omap]. rewrite server_of_line_some by done. done.
    - apply no_nl_app; [by repeat constructor|]. apply no_nl_app; [|by repeat constructor].
      by apply plain_not_in. }
  destruct (String.eqb_spec (ContextShareDefaultSocket c) "") as [_|_];
    destruct (String.eqb_spec (SharedServerName c) "") as [_|Hne].
  - rewrite <- (str_app_nil_r (_ +:+ _)). by rewrite Hhead.
  - by rewrite Hhead, Hservers.
  - rewrite Hhead. rewrite <- (str_app_nil_r (_ +:+ _)). by rewrite Hsocket.
  - rewrite str_app_assoc, Hhead, Hsocket. by rewrite Hservers.
Qed.

Lemma configPath_args port path m :
  port ≠ "-a" → configPath (Supervisor.buildMPSArgs port path m) = path.
Proof.
  intros Hp. unfold Supervisor.buildMPSArgs.
  destruct (String.eqb_spec port "") as [->|Hne], m, (String.eqb_spec path "") as [->|Hpath];
    cbn; rewrite ?(proj2 (String.eqb_neq port "-a") Hp); done.
Qed.

(** The servers the daemon finds in what mpsd renders. *)
Lemma configured_servers f : configPathFlag f ≠ "" →
  configuredServers (configPathFlag f) (Some (TOML (mpsConfig (memacctAuditLog f) (supportSMSharing f)))) =
    if supportSMSharing f then ["shared"] else [].
Proof.
  intros Hpath. unfold configuredServers. rewrite (proj2 (String.eqb_neq _ _) Hpath).
  rewrite TOML_servers by (destruct (supportSMSharing f); apply (bool_decide_unpack _); vm_compute; exact I).
  by destruct (supportSMSharing f).
Qed.

(** ** Properties *)

(** What mpsd renders is what fractiond mounts.  For every combination of
    the toggles, the servers the daemon finds in the configuration file mpsd
    writes and passes with [-a] are exactly the shared server when sm-sharing is
    supported and none otherwise, the daemon is started multiuser exactly then,
    and the control socket of the shared server lies directly in the directory
    fractiond bind-mounts into sm-sharing containers, for every pipe directory. *)
Theorem shared_server_is_mounted f
  (Hpipe : pipeDir f ≠ "")
  (Hport : controlPort f ≠ "-a")
  (Hpath : configPathFlag f ≠ "") :
  let cfg := supervisorConfig f in
  let args := Supervisor.buildMPSArgs (Supervisor.ControlPort cfg) (Supervisor.ConfigPath cfg)
                (Supervisor.Multiuser cfg) in
  let servers := configuredServers (configPath args) (Some (Supervisor.ConfigContent cfg)) in
  configPath args = Supervisor.ConfigPath cfg ∧
  servers = (if supportSMSharing f then ["shared"] else []) ∧
  ("-m" ∈ args ↔ supportSMSharing f = true ∨ controlPort f = "-m" ∨ configPathFlag f = "-m") ∧
  (supportSMSharing f = true →
     (MPSPipeMount (Supervisor.PipeDir cfg) ComputeModeSMSharing).1 +:+ "/control"
       ∈ sockets (Supervisor.PipeDir cfg) servers).
Proof.
  cbv zeta. unfold supervisorConfig. cbn [Supervisor.ControlPort Supervisor.ConfigPath
    Supervisor.Multiuser Supervisor.ConfigContent Supervisor.PipeDir].
  rewrite configPath_args by done. rewrite configured_servers by done. split_and!; [done..| |].
  - unfold Supervisor.buildMPSArgs. rewrite (proj2 (String.eqb_neq _ _) Hpath).
    destruct (supportSMSharing f).
    { split; [auto|]. intros _. apply elem_of_app. right. apply elem_of_cons. by left. }
    destruct (String.eqb_spec (controlPort f) "") as [He|Hne]; cbn;
      rewrite ?elem_of_cons, ?elem_of_nil.
    + rewrite He. split; [|intros [?|[?| ->]]; [done|done|tauto]]. intros [?|[?|[?|[]]]]; try done. auto.
    + split.
      * intros [?|[?|[?|[?|[?|[]]]]]]; try done; auto.
      * intros [?|[->| ->]]; [done|tauto|tauto].
  - intros ->. unfold sockets, MPSPipeMount. rewrite (proj2 (String.eqb_neq _ _) Hpipe). cbn [map].
    rewrite bool_decide_eq_true_2 by done. cbn [fst]. apply elem_of_cons. right.
    apply list_elem_of_singleton. unfold PathJoin, SharedMPSSocketPath.
    rewrite !filter_cons_True, filter_nil by done. symmetry.
    assert (GoStrings.Join [pipeDir f; "shared/default"] "/" =
      (pipeDir f +:+ "/shared") +:+ String slash "default") as ->.
    { by rewrite str_app_assoc. }
    assert (GoStrings.Join [pipeDir f; "shared"; "default"; "control"] "/" =
      ((pipeDir f +:+ "/shared") +:+ String slash "default") +:+ String slash "control") as ->.
    { by rewrite !str_app_assoc. }
    apply Clean_snoc with (q := pipeDir f +:+ "/shared") (d := "default"); try done;
      try (by repeat constructor); by destruct (pipeDir f).
Qed.

Definition example_mpsd_flags : mpsdFlags :=
  mkMpsdFlags "nvidia-cuda-mps-control" "3" "/etc/nvidia-mps/mps-control.toml" true true
    DefaultMPSPipeDirectory "/var/log/nvidia-mps" Supervisor.DefaultBackoff
    Supervisor.DefaultMaxRetries Supervisor.DefaultStableThreshold.

Lemma shared_server_is_mounted_witness :
  sockets DefaultMPSPipeDirectory ["shared"] =
    ["/run/nvidia-mps/control"; "/run/nvidia-mps/shared/default/control"] ∧
  (MPSPipeMount DefaultMPSPipeDirectory ComputeModeSMSharing).1 +:+ "/control"
    ∈ sockets DefaultMPSPipeDirectory ["shared"].
Proof.
  split; [vm_compute; reflexivity|].
  destruct (shared_server_is_mounted example_mpsd_flags) as (_ & Hs & _ & H).
  - vm_compute. discriminate.
  - vm_compute. discriminate.
  - vm_compute. discriminate.
  - rewrite Hs in H. apply H. reflexivity.
Defined.
