(* ===== verification/Float64.v ===== *)
(** * Go's float64

    IEEE 754 binary64 as the executable [spec_float] of the Standard Library with
    a 53-bit mantissa: integer conversion, addition, multiplication and division
    round to nearest even, and comparisons are false on NaN, as in Go.  The
    lemmas are the facts the metric computations rest on: conversions and sums
    of integers below [2^53] are exact, non-negative numbers stay non-negative,
    and an average of numbers at most 100 is at most 100. *)

From Stdlib Require Import ZArith Lia Floats.SpecFloat.
From stdpp Require Import base numbers list.
From S2P Require Import Prelude.

#[local] Open Scope list_scope.
#[local] Open Scope Z_scope.

Abbreviation float64 := spec_float.
Abbreviation prec64 := 53.
Abbreviation emax64 := 1024.

#[global] Instance float64_eq_dec : EqDecision float64.
Proof. solve_decision. Defined.

(** [float64(n)] of an integer. *)
Definition f_of_int (n : Z) : float64 := binary_normalize prec64 emax64 n 0 false.
Definition f_add : float64 → float64 → float64 := SFadd prec64 emax64.
Definition f_mul : float64 → float64 → float64 := SFmul prec64 emax64.
Definition f_div : float64 → float64 → float64 := SFdiv prec64 emax64.
(** [a > b] and [a == b] *)
Definition f_gt (a b : float64) : bool := SFltb b a.
Definition f_eq (a b : float64) : bool := SFeqb a b.
Definition f_zero : float64 := S754_zero false.

(** [int64(x)]: truncation toward zero, for a number in the range of [int64]. *)
Definition f_to_int64 (x : float64) : Z :=
  match x with
  | S754_finite s m e => (if s then -1 else 1) * (if 0 <=? e then Z.pos m * 2 ^ e else Z.pos m / 2 ^ (- e))
  | _ => 0
  end.

(** [var sum float64; for _, v := range vs { sum += v }] *)
Definition f_sum (vs : list float64) : float64 := fold_left f_add vs f_zero.

(** A number that is not NaN and not negative. *)
Definition f_nonneg (x : float64) : bool :=
  match x with
  | S754_zero s | S754_infinity s | S754_finite s _ _ => negb s
  | S754_nan => false
  end.

(** The interval check [0 <= x <= n], false on NaN. *)
Definition f_within (n : Z) (x : float64) : bool := f_nonneg x && SFleb x (f_of_int n).

(** ** Digits and shifts *)

Lemma digits2_pos_bounds p :
  2 ^ (Z.pos (digits2_pos p) - 1) ≤ Z.pos p < 2 ^ Z.pos (digits2_pos p).
Proof.
  assert (∀ d, 0 < d → 2 ^ d = 2 * 2 ^ (d - 1)) as Hpow.
  { intros d Hd. rewrite <- Z.pow_succ_r by lia. f_equal. lia. }
  induction p as [p IH|p IH|]; cbn [digits2_pos]; [| |split; [discriminate|reflexivity]];
    rewrite Pos2Z.inj_succ; unfold Z.succ; rewrite Z.add_simpl_r;
    rewrite (Hpow (Z.pos (digits2_pos p) + 1)), Z.add_simpl_r by lia;
    specialize (Hpow (Z.pos (digits2_pos p)) (Pos2Z.is_pos _));
    first [rewrite (Pos2Z.inj_xI p)|rewrite (Pos2Z.inj_xO p)];
    set (a := 2 ^ (Z.pos (digits2_pos p) - 1)) in *; set (b := 2 ^ Z.pos (digits2_pos p)) in *;
    clearbody a b; lia.
Qed.

Lemma Zdigits2_unique m d : 0 < d → 2 ^ (d - 1) ≤ m < 2 ^ d → Zdigits2 m = d.
Proof.
  intros Hd [Hl Hu]. pose proof (Z.pow_pos_nonneg 2 (d - 1) ltac:(lia) ltac:(lia)).
  destruct m as [|p|p]; [lia| |lia]. cbn [Zdigits2].
  destruct (digits2_pos_bounds p) as [Hl' Hu'].
  destruct (Z.lt_trichotomy (Z.pos (digits2_pos p)) d) as [Hc|[?|Hc]]; [|done|].
  - pose proof (Z.pow_le_mono_r 2 (Z.pos (digits2_pos p)) (d - 1) ltac:(lia) ltac:(lia)). lia.
  - pose proof (Z.pow_le_mono_r 2 d (Z.pos (digits2_pos p) - 1) ltac:(lia) ltac:(lia)). lia.
Qed.

Lemma iter_pos_nat {A} (f : A → A) p x : SpecFloat.iter_pos f p x = Nat.iter (Pos.to_nat p) f x.
Proof.
  revert x. induction p as [p IH|p IH|]; intros x; cbn [SpecFloat.iter_pos]; [| |done].
  - rewrite !IH, <- Nat.iter_add, <- Nat.iter_succ_r. f_equal. lia.
  - rewrite !IH, <- Nat.iter_add. f_equal. lia.
Qed.

(** One right shift halves the mantissa and records whether a bit was lost. *)
Lemma shr_1_spec r : 0 ≤ shr_m r →
  shr_m (shr_1 r) = shr_m r / 2 ∧
  (loc_of_shr_record (shr_1 r) = loc_Exact ↔ loc_of_shr_record r = loc_Exact ∧ shr_m r mod 2 = 0).
Proof.
  destruct r as [q rb sb]. cbn [shr_m]. intros Hq.
  assert (∀ p, Z.pos p~1 / 2 = Z.pos p ∧ Z.pos p~1 mod 2 = 1 ∧
    Z.pos p~0 / 2 = Z.pos p ∧ Z.pos p~0 mod 2 = 0) as Hbits.
  { intros p. rewrite (Pos2Z.inj_xI p), (Pos2Z.inj_xO p), !(Z.mul_comm 2), Z.div_mul, Z.mod_mul by lia.
    rewrite (Z.add_comm _ 1), Z.div_add, Z.mod_add by lia. done. }
  destruct q as [|[q|q|]|q]; [| | | |lia]; cbn [shr_1 shr_m];
    try (destruct (Hbits q) as (H1 & H2 & H3 & H4)); (split; [done|]);
    rewrite ?H2, ?H4; destruct rb, sb; cbn; naive_solver.
Qed.

(** What [n] right shifts leave: the quotient, and whether anything was lost. *)
Lemma shr_iter m (l : location) n : 0 ≤ m →
  let r := Nat.iter n shr_1 (shr_record_of_loc m l) in
  shr_m r = m / 2 ^ Z.of_nat n ∧
  (loc_of_shr_record r = loc_Exact ↔ l = loc_Exact ∧ m mod 2 ^ Z.of_nat n = 0).
Proof.
  intros Hm. cbv zeta. induction n as [|n [IHm IHl]].
  - cbn [Nat.iter]. change (Z.of_nat 0) with 0. rewrite Z.pow_0_r, Z.div_1_r, Z.mod_1_r.
    destruct l as [|[]]; cbn; naive_solver.
  - rewrite Nat.iter_succ. set (r := Nat.iter n shr_1 (shr_record_of_loc m l)) in *.
    rewrite Nat2Z.inj_succ, Z.pow_succ_r by lia.
    pose proof (Z.pow_pos_nonneg 2 (Z.of_nat n) ltac:(lia) ltac:(lia)) as Hp.
    rewrite (Z.mul_comm 2), <- Z.div_div, Z.rem_mul_r, <- IHm by lia.
    assert (0 ≤ shr_m r) as Hr by (rewrite IHm; apply Z.div_pos; lia).
    pose proof (Z.mod_pos_bound m (2 ^ Z.of_nat n) Hp) as Hmod.
    pose proof (Z.mod_pos_bound (shr_m r) 2 ltac:(lia)) as Hmod2.
    destruct (shr_1_spec r Hr) as [-> ->]. split; [done|]. rewrite IHl.
    split; [intros [[? ?] ?]; split; [done|nia]|intros [? ?]; split; [split; [done|]|]; nia].
Qed.

Abbreviation shr_fexp64 := (shr_fexp prec64 emax64).
Abbreviation round_aux64 := (binary_round_aux prec64 emax64).

Lemma shr_fexp_spec m e l k : 0 ≤ m → k = Z.max 0 (fexp prec64 emax64 (Zdigits2 m + e) - e) →
  (shr_fexp64 m e l).2 = e + k ∧ shr_m (shr_fexp64 m e l).1 = m / 2 ^ k ∧
  (loc_of_shr_record (shr_fexp64 m e l).1 = loc_Exact ↔ l = loc_Exact ∧ m mod 2 ^ k = 0).
Proof.
  intros Hm ->. unfold shr_fexp, shr.
  pose proof (shr_iter m l 0 Hm) as H0. cbv zeta in H0. change (Z.of_nat 0) with 0 in H0.
  destruct (fexp _ _ _ - e) as [|p|p] eqn:E; cbn [fst snd].
  1, 3: change (Z.max 0 _) with 0; split; [lia|exact H0].
  rewrite iter_pos_nat. change (Z.max 0 (Z.pos p)) with (Z.pos p). split; [done|].
  rewrite <- (positive_nat_Z p). by apply shr_iter.
Qed.

(** A mantissa of full width is not moved. *)
Lemma shr_fexp_normal m e : 2 ^ 52 ≤ m < 2 ^ 53 → -1074 ≤ e →
  (shr_fexp64 m e loc_Exact).2 = e ∧ shr_m (shr_fexp64 m e loc_Exact).1 = m.
Proof.
  intros Hm He. destruct (shr_fexp_spec m e loc_Exact 0) as (H1 & H2 & _).
  - lia.
  - rewrite (Zdigits2_unique m 53) by lia. unfold fexp, emin. lia.
  - rewrite H1, H2, Z.div_1_r. split; [lia|done].
Qed.

(** Rounding a mantissa of [d >= 53] bits: the quotient [R] kept, perhaps plus
    one when something was lost, renormalised when it reaches [2^53]. *)
Lemma round_aux_spec q e l d : 53 ≤ d → 2 ^ (d - 1) ≤ q < 2 ^ d → -1074 ≤ e → e + d < 1024 →
  ∃ R m, (R = q / 2 ^ (d - 53) ∨
          R = q / 2 ^ (d - 53) + 1 ∧ ¬ (l = loc_Exact ∧ q mod 2 ^ (d - 53) = 0)) ∧
    ((Z.pos m = R ∧ 2 ^ 52 ≤ R < 2 ^ 53 ∧ round_aux64 false q e l = S754_finite false m (e + (d - 53))) ∨
     (R = 2 ^ 53 ∧ Z.pos m = 2 ^ 52 ∧ round_aux64 false q e l = S754_finite false m (e + (d - 53) + 1))).
Proof.
  intros Hd [Hlo Hhi] He Hmax.
  assert (0 ≤ q) as Hq by (pose proof (Z.pow_pos_nonneg 2 (d - 1)); lia).
  destruct (shr_fexp_spec q e l (d - 53)) as (He' & Hm' & Hl'); [done| |].
  { rewrite (Zdigits2_unique q d) by lia. unfold fexp, emin. lia. }
  unfold binary_round_aux. destruct (shr_fexp64 q e l) as [r e'] eqn:E. cbn [fst snd] in *.
  assert (2 ^ 52 ≤ q / 2 ^ (d - 53) < 2 ^ 53) as HM.
  { pose proof (Z.pow_pos_nonneg 2 (d - 53) ltac:(lia) ltac:(lia)). split.
    - apply Z.div_le_lower_bound; [lia|]. rewrite <- Z.pow_add_r by lia.
      replace (d - 53 + 52) with (d - 1) by lia. done.
    - apply Z.div_lt_upper_bound; [lia|]. rewrite <- Z.pow_add_r by lia.
      replace (d - 53 + 53) with d by lia. done. }
  set (R := round_nearest_even (shr_m r) (loc_of_shr_record r)).
  assert (R = q / 2 ^ (d - 53) ∨
    R = q / 2 ^ (d - 53) + 1 ∧ ¬ (l = loc_Exact ∧ q mod 2 ^ (d - 53) = 0)) as HR.
  { rewrite <- Hl', <- Hm'. subst R. unfold round_nearest_even.
    destruct (loc_of_shr_record r) as [|[]]; [by left| |by left|by right].
    destruct (Z.even _); [by left|by right]. }
  subst e'. destruct (Z.eq_dec R (2 ^ 53)) as [HR53|HR53].
  - exists R, (Z.to_pos (2 ^ 52)). split; [done|]. right. split; [done|]. split; [done|].
    destruct (shr_fexp_spec R (e + (d - 53)) loc_Exact 1) as (H1 & H2 & _).
    { lia. } { rewrite HR53. change (Zdigits2 (2 ^ 53)) with 54. unfold fexp, emin. lia. }
    destruct (shr_fexp64 R _ _) as [r' e'']. cbn [fst snd] in *. subst e''.
    rewrite H2, HR53. change (2 ^ 53 / 2 ^ 1) with (Z.pos (Z.to_pos (2 ^ 52))). cbv iota beta.
    rewrite (proj2 (Z.leb_le _ _)) by lia. done.
  - assert (2 ^ 52 ≤ R < 2 ^ 53) as HRn by lia.
    exists R, (Z.to_pos R). split; [done|]. left. rewrite Z2Pos.id by lia. split; [done|]. split; [done|].
    destruct (shr_fexp_normal R (e + (d - 53)) HRn ltac:(lia)) as [H1 H2].
    destruct (shr_fexp64 R _ _) as [r' e'']. cbn [fst snd] in *. subst e''.
    rewrite H2. destruct R as [|p|p] eqn:ER; [lia| |lia]. cbn [Z.to_pos].
    rewrite (proj2 (Z.leb_le _ _)) by lia. done.
Qed.

(** ** Integers below [2^53] are exact *)

Lemma pos_iter_xO m d : Z.pos (Pos.iter xO m d) = Z.pos m * 2 ^ Z.pos d.
Proof.
  revert m. induction d as [|d IH] using Pos.peano_ind; intros m.
  - change (Z.pos m~0 = Z.pos m * 2). rewrite (Pos2Z.inj_xO m). lia.
  - rewrite Pos.iter_succ, (Pos2Z.inj_xO (Pos.iter xO m d)), IH, Pos2Z.inj_succ, Z.pow_succ_r by lia. lia.
Qed.

(** A scaled integer of at most 53 bits has one representation. *)
Lemma normalize_exact a k d : 0 < d ≤ 53 → 2 ^ (d - 1) ≤ a < 2 ^ d → 0 ≤ k ≤ 1000 →
  binary_normalize prec64 emax64 (a * 2 ^ k) (- k) false =
    S754_finite false (Z.to_pos (a * 2 ^ (53 - d))) (d - 53).
Proof.
  intros Hd [Hlo Hhi] Hk.
  pose proof (Z.pow_pos_nonneg 2 k ltac:(lia) ltac:(lia)) as Hk2.
  pose proof (Z.pow_pos_nonneg 2 (d - 1) ltac:(lia) ltac:(lia)) as Hd2.
  assert (2 ^ (d + k - 1) ≤ a * 2 ^ k < 2 ^ (d + k)) as Hdig.
  { replace (d + k - 1) with (d - 1 + k) by lia. rewrite !Z.pow_add_r by lia. nia. }
  assert (2 ^ 52 ≤ a * 2 ^ (53 - d) < 2 ^ 53) as Ha.
  { replace 52 with (d - 1 + (53 - d)) by lia. replace (2 ^ 53) with (2 ^ (d + (53 - d))) by (f_equal; lia).
    rewrite !Z.pow_add_r by lia. pose proof (Z.pow_pos_nonneg 2 (53 - d) ltac:(lia) ltac:(lia)). nia. }
  destruct (a * 2 ^ k) as [|p|p] eqn:Ep; [lia| |nia]. cbn [binary_normalize].
  unfold binary_round. change (Z.pos (digits2_pos p)) with (Zdigits2 (Z.pos p)).
  rewrite (Zdigits2_unique (Z.pos p) (d + k)) by lia.
  replace (fexp prec64 emax64 (d + k + - k)) with (d - 53) by (unfold fexp, emin; lia).
  assert (∃ mz ez, shl_align p (- k) (d - 53) = (mz, ez) ∧ 0 ≤ d - 53 - ez ∧ ez ≤ d - 53 ∧ -1074 ≤ ez ∧
    Z.pos mz = a * 2 ^ (53 - d) * 2 ^ (d - 53 - ez)) as (mz & ez & -> & Hn & Hez & Hez' & Hmz).
  { unfold shl_align. destruct (d - 53 - - k) as [|s|s] eqn:Es; eexists _, _;
      (split; [reflexivity|]); (split; [lia|]); (split; [lia|]); (split; [lia|]).
    - rewrite <- Ep, <- Z.mul_assoc, <- Z.pow_add_r by lia. do 2 f_equal. lia.
    - rewrite <- Ep, <- Z.mul_assoc, <- Z.pow_add_r by lia. do 2 f_equal. lia.
    - rewrite pos_iter_xO, <- Ep, <- !Z.mul_assoc, <- !Z.pow_add_r by lia. do 2 f_equal. lia. }
  assert (2 ^ (d - ez - 1) ≤ Z.pos mz < 2 ^ (d - ez)) as Hmd.
  { rewrite Hmz. replace (d - ez - 1) with (52 + (d - 53 - ez)) by lia.
    replace (2 ^ (d - ez)) with (2 ^ (53 + (d - 53 - ez))) by (f_equal; lia).
    rewrite !Z.pow_add_r by lia. pose proof (Z.pow_pos_nonneg 2 (d - 53 - ez) ltac:(lia) ltac:(lia)). nia. }
  destruct (round_aux_spec (Z.pos mz) ez loc_Exact (d - ez)) as (R & m & HR & Hres); [lia|done|lia|lia|].
  replace (d - ez - 53) with (d - 53 - ez) in * by lia.
  rewrite Hmz, Z.div_mul, Z.mod_mul in HR by lia.
  destruct HR as [->|[_ HR]]; [|by destruct HR].
  destruct Hres as [(Hm & _ & ->)|(? & _ & _)]; [|lia].
  replace (ez + (d - 53 - ez)) with (d - 53) by lia. f_equal. rewrite <- Hm. done.
Qed.

Lemma int_digits n : 0 < n < 2 ^ 53 → ∃ d, 0 < d ≤ 53 ∧ 2 ^ (d - 1) ≤ n < 2 ^ d.
Proof.
  intros Hn. exists (Z.log2 n + 1). pose proof (Z.log2_spec n ltac:(lia)) as Hs.
  pose proof (Z.log2_nonneg n). pose proof (Z.log2_lt_pow2 n 53 ltac:(lia)) as Hl.
  rewrite Z.add_simpl_r. unfold Z.succ in Hs. split; lia.
Qed.

Lemma f_of_int_exact n d : 0 < d ≤ 53 → 2 ^ (d - 1) ≤ n < 2 ^ d →
  f_of_int n = S754_finite false (Z.to_pos (n * 2 ^ (53 - d))) (d - 53).
Proof.
  intros Hd Hn. unfold f_of_int. pose proof (normalize_exact n 0 d Hd Hn ltac:(lia)) as H.
  by rewrite Z.pow_0_r, Z.mul_1_r in H.
Qed.

Lemma shl_align_fst m e e' : e' ≤ e → Z.pos (shl_align m e e').1 = Z.pos m * 2 ^ (e - e').
Proof.
  intros He. unfold shl_align. destruct (e' - e) as [|s|s] eqn:Es; [|lia|]; cbn [fst].
  - replace (e - e') with 0 by lia. rewrite Z.pow_0_r. lia.
  - rewrite pos_iter_xO. do 2 f_equal. lia.
Qed.

(** Adding integers whose sum is below [2^53] is exact. *)
Lemma f_add_int a b : 0 ≤ a → 0 ≤ b → a + b < 2 ^ 53 →
  f_add (f_of_int a) (f_of_int b) = f_of_int (a + b).
Proof.
  intros Ha Hb Hab.
  assert (∀ n, 0 ≤ n < 2 ^ 53 → f_of_int n = f_zero ∨ ∃ m e, f_of_int n = S754_finite false m e) as Hf.
  { intros n Hn. destruct (Z.eq_dec n 0) as [->|]; [by left|]. right.
    destruct (int_digits n ltac:(lia)) as (d & Hd & Hd'). eexists _, _. by apply f_of_int_exact. }
  destruct (Z.eq_dec a 0) as [->|Ha0].
  { change (f_of_int 0) with f_zero. rewrite Z.add_0_l. by destruct (Hf b ltac:(lia)) as [->|(? & ? & ->)]. }
  destruct (Z.eq_dec b 0) as [->|Hb0].
  { change (f_of_int 0) with f_zero. rewrite Z.add_0_r. by destruct (Hf a ltac:(lia)) as [->|(? & ? & ->)]. }
  destruct (int_digits a ltac:(lia)) as (da & Hda & Hda').
  destruct (int_digits b ltac:(lia)) as (db & Hdb & Hdb').
  destruct (int_digits (a + b) ltac:(lia)) as (d & Hd & Hd').
  rewrite (f_of_int_exact a da), (f_of_int_exact b db), (f_of_int_exact (a + b) d) by done.
  assert (0 < 2 ^ (53 - da)) by (apply Z.pow_pos_nonneg; lia).
  assert (0 < 2 ^ (53 - db)) by (apply Z.pow_pos_nonneg; lia).
  unfold f_add, SFadd. set (ez := Z.min (da - 53) (db - 53)). cbn [cond_Zopp].
  rewrite !shl_align_fst, !Z2Pos.id by nia || (subst ez; lia).
  rewrite <- !Z.mul_assoc, <- !Z.pow_add_r by (subst ez; lia).
  replace (53 - da + (da - 53 - ez)) with (- ez) by lia.
  replace (53 - db + (db - 53 - ez)) with (- ez) by lia.
  rewrite <- Z.mul_add_distr_r. replace ez with (- - ez) at 2 by lia.
  apply normalize_exact; [done|done|subst ez; lia].
Qed.

(** The running sum of integers is the sum. *)
Lemma f_sum_int ns : Forall (λ n, 0 ≤ n) ns → foldr Z.add 0 ns < 2 ^ 53 →
  f_sum (map f_of_int ns) = f_of_int (foldr Z.add 0 ns).
Proof.
  unfold f_sum. intros Hns Hsum.
  assert (∀ acc, 0 ≤ acc → acc + foldr Z.add 0 ns < 2 ^ 53 →
    fold_left f_add (map f_of_int ns) (f_of_int acc) = f_of_int (acc + foldr Z.add 0 ns)) as H.
  { clear Hsum. induction Hns as [|n ns Hn Hns IH]; intros acc Hacc Hs; cbn [foldr map fold_left] in *.
    { by rewrite Z.add_0_r. }
    assert (0 ≤ foldr Z.add 0 ns) as Hpos.
    { clear -Hns. induction Hns; cbn [foldr]; lia. }
    rewrite f_add_int, IH by lia. f_equal. lia. }
  apply (H 0); lia.
Qed.

(** ** Rounding does not cross an integer bound *)

(** Comparing a full-width float with an integer bound. *)
Lemma SFleb_int m e B d : 0 < d ≤ 53 → 2 ^ (d - 1) ≤ B < 2 ^ d → 2 ^ 52 ≤ Z.pos m < 2 ^ 53 →
  e ≤ 0 → Z.pos m ≤ B * 2 ^ (- e) → SFleb (S754_finite false m e) (f_of_int B) = true.
Proof.
  intros Hd HB Hm He Hle. rewrite (f_of_int_exact B d) by done. unfold SFleb, SFcompare.
  assert (e ≤ d - 53) as Hed.
  { destruct (Z.le_gt_cases e (d - 53)) as [|Hgt]; [done|].
    assert (B * 2 ^ (- e) < 2 ^ (d - e)) as Hlt.
    { replace (d - e) with (d + - e) by lia. rewrite Z.pow_add_r by lia.
      apply Z.mul_lt_mono_pos_r; [apply Z.pow_pos_nonneg; lia|lia]. }
    pose proof (Z.pow_le_mono_r 2 (d - e) 52 ltac:(lia) ltac:(lia)). lia. }
  destruct (Z.compare_spec e (d - 53)) as [->|Hlt|?]; [|done|lia].
  replace (- (d - 53)) with (53 - d) in Hle by lia.
  change (Pos.compare_cont Eq m ?x) with (m ?= x)%positive.
  destruct (Pos.compare_spec m (Z.to_pos (B * 2 ^ (53 - d)))) as [| |Hgt]; [done..|].
  exfalso. rewrite <- (Z2Pos.id (B * 2 ^ (53 - d))) in Hle; lia.
Qed.

Lemma new_location_exact n r : new_location n r = loc_Exact ↔ r = 0.
Proof.
  unfold new_location, new_location_even, new_location_odd.
  destruct (Z.even n), (Z.eqb_spec r 0); naive_solver.
Qed.

(** The kept quotient of a number at most [C * 2^k] is at most [C], also after
    rounding up a number that was not exact. *)
Lemma rounded_quotient_le q k C R (exact : Prop) : 0 ≤ k → q ≤ C * 2 ^ k → (¬ exact → q < C * 2 ^ k) →
  (R = q / 2 ^ k ∨ R = q / 2 ^ k + 1 ∧ ¬ (exact ∧ q mod 2 ^ k = 0)) → (exact ∨ ¬ exact) → R ≤ C.
Proof.
  intros Hk Hle Hlt HR Hdec. pose proof (Z.pow_pos_nonneg 2 k ltac:(lia) Hk) as Hp.
  pose proof (Z.div_mod q (2 ^ k) ltac:(lia)) as Hdm. pose proof (Z.mod_pos_bound q (2 ^ k) Hp) as Hmod.
  destruct HR as [->|[-> Hne]]; [nia|].
  assert (q / 2 ^ k * 2 ^ k < C * 2 ^ k); [|nia].
  destruct (Z.eq_dec (q mod 2 ^ k) 0) as [H0|H0]; [|lia].
  destruct Hdec as [He|He]; [by destruct Hne|]. specialize (Hlt He). lia.
Qed.

(** The significand of an integer of [d] digits. *)
Lemma normalised_range a d : 0 < d ≤ 53 → 2 ^ (d - 1) ≤ a < 2 ^ d → 2 ^ 52 ≤ a * 2 ^ (53 - d) < 2 ^ 53.
Proof.
  intros Hd Ha. replace 52 with (d - 1 + (53 - d)) by lia.
  replace (2 ^ 53) with (2 ^ (d + (53 - d))) by (f_equal; lia).
  rewrite !Z.pow_add_r by lia. pose proof (Z.pow_pos_nonneg 2 (53 - d) ltac:(lia) ltac:(lia)). nia.
Qed.

Lemma scaled_le S n B ds dn : 0 < ds ≤ 53 → 0 < dn ≤ 53 → S ≤ B * n →
  S * 2 ^ (53 - ds) * 2 ^ 53 ≤ B * 2 ^ (- (ds - dn - 53)) * (n * 2 ^ (53 - dn)).
Proof.
  intros Hds Hdn Hle. transitivity (B * n * 2 ^ (106 - ds)).
  - rewrite <- Z.mul_assoc, <- Z.pow_add_r by lia. replace (53 - ds + 53) with (106 - ds) by lia.
    apply Z.mul_le_mono_nonneg_r; [apply Z.pow_nonneg; lia|done].
  - replace (106 - ds) with (- (ds - dn - 53) + (53 - dn)) by lia. rewrite Z.pow_add_r by lia. lia.
Qed.

(** A quotient of integers at most [B] is at most [B] once rounded. *)
Lemma f_div_bound S n B : 0 < S < 2 ^ 53 → 0 < n < 2 ^ 53 → 0 < B < 2 ^ 53 → S ≤ B * n →
  ∃ m e, f_div (f_of_int S) (f_of_int n) = S754_finite false m e ∧
    2 ^ 52 ≤ Z.pos m < 2 ^ 53 ∧ -1000 ≤ e ≤ 0 ∧ Z.pos m ≤ B * 2 ^ (- e).
Proof.
  intros HS Hn HB Hle.
  destruct (int_digits S HS) as (ds & Hds & Hds'), (int_digits n Hn) as (dn & Hdn & Hdn').
  rewrite (f_of_int_exact S ds), (f_of_int_exact n dn) by done.
  pose proof (normalised_range S ds Hds Hds') as H1. pose proof (normalised_range n dn Hdn Hdn') as H2.
  set (e0 := ds - dn - 53).
  pose proof (scaled_le S n B ds dn Hds Hdn Hle) as Hprod. fold e0 in Hprod.
  unfold f_div, SFdiv, SFdiv_core_binary. rewrite !Z2Pos.id by lia.
  rewrite (Zdigits2_unique (S * _) 53), (Zdigits2_unique (n * _) 53) by lia.
  replace (fexp prec64 emax64 _) with e0 by (subst e0; unfold fexp, emin; lia).
  replace (Z.min e0 _) with e0 by (subst e0; lia).
  replace (ds - 53 - (dn - 53) - e0) with 53 by (subst e0; lia).
  rewrite Z.shiftl_mul_pow2 by lia.
  set (m1 := S * 2 ^ (53 - ds)) in *. set (m2 := n * 2 ^ (53 - dn)) in *. clearbody m1 m2.
  pose proof (Z_div_mod (m1 * 2 ^ 53) m2 ltac:(lia)) as Hqr.
  destruct (Z.div_eucl (m1 * 2 ^ 53) m2) as [q r]. destruct Hqr as [Hq Hr]. cbn [xorb].
  assert (2 ^ 52 ≤ q < 2 ^ 54) as Hqb by nia.
  assert (q ≤ B * 2 ^ (- e0)) as Hq1 by nia.
  assert (¬ new_location m2 r = loc_Exact → q < B * 2 ^ (- e0)) as Hq2.
  { rewrite new_location_exact. intros Hr0. nia. }
  set (d := if Z.ltb q (2 ^ 53) then 53 else 54).
  assert (53 ≤ d ≤ 54 ∧ 2 ^ (d - 1) ≤ q < 2 ^ d) as [Hd Hdq].
  { subst d. destruct (Z.ltb_spec q (2 ^ 53)); lia. }
  assert (e0 + (d - 53) ≤ 0) as HE by (subst e0; lia).
  destruct (round_aux_spec q e0 (new_location m2 r) d) as (R & m & HR & Hres); [lia|done|subst e0; lia..|].
  assert (R ≤ B * 2 ^ (- (e0 + (d - 53)))) as HRB.
  { assert (B * 2 ^ (- e0) = B * 2 ^ (- (e0 + (d - 53))) * 2 ^ (d - 53)) as Heq.
    { rewrite <- Z.mul_assoc, <- Z.pow_add_r by lia. do 2 f_equal. lia. }
    apply (rounded_quotient_le q (d - 53) _ R (new_location m2 r = loc_Exact)); rewrite <- ?Heq; [lia|done..|].
    destruct (new_location m2 r); [by left|by right]. }
  destruct Hres as [(Hm & HRn & ->)|(HR53 & Hm & ->)]; eexists _, _; (split; [reflexivity|]).
  - rewrite Hm. split; [done|]. split; [subst e0; lia|done].
  - assert (e0 + (d - 53) < 0) as HE'.
    { destruct (Z.eq_dec (e0 + (d - 53)) 0) as [H0|]; [|lia]. rewrite H0 in HRB. change (2 ^ (- 0)) with 1 in HRB. lia. }
    rewrite Hm. split; [lia|]. split; [subst e0; lia|].
    replace (- (e0 + (d - 53))) with (1 + - (e0 + (d - 53) + 1)) in HRB by lia.
    rewrite Z.pow_add_r in HRB by lia. lia.
Qed.

Lemma f_div_le S n B : 0 < S < 2 ^ 53 → 0 < n < 2 ^ 53 → 0 < B < 2 ^ 53 → S ≤ B * n →
  ∃ m e, f_div (f_of_int S) (f_of_int n) = S754_finite false m e ∧
    SFleb (S754_finite false m e) (f_of_int B) = true.
Proof.
  intros HS Hn HB Hle. destruct (f_div_bound S n B HS Hn HB Hle) as (m & e & -> & Hm & He & Hle').
  exists m, e. split; [done|]. destruct (int_digits B HB) as (db & Hdb & Hdb'). apply (SFleb_int _ _ B db); [done..|lia|done].
Qed.

(** Rounding a number between two integers stays between them. *)
Lemma normalize_between a b q e d : 0 < a → 53 ≤ d → 2 ^ (d - 1) ≤ q < 2 ^ d → -1074 ≤ e → d + e ≤ 52 →
  a * 2 ^ (- e) ≤ q ≤ b * 2 ^ (- e) →
  ∃ m' e', binary_normalize prec64 emax64 q e false = S754_finite false m' e' ∧ e' ≤ 0 ∧
    a * 2 ^ (- e') ≤ Z.pos m' ≤ b * 2 ^ (- e').
Proof.
  intros Ha Hd Hq He Hde Hle. pose proof (Z.pow_pos_nonneg 2 (d - 1) ltac:(lia) ltac:(lia)).
  destruct q as [|p|p]; [lia| |lia]. cbn [binary_normalize]. unfold binary_round.
  change (Z.pos (digits2_pos p)) with (Zdigits2 (Z.pos p)). rewrite (Zdigits2_unique (Z.pos p) d) by lia.
  replace (fexp prec64 emax64 (d + e)) with (d + e - 53) by (unfold fexp, emin; lia).
  assert (Hal : shl_align p e (d + e - 53) = (p, e)) by (unfold shl_align; destruct (d + e - 53 - e) eqn:E; [done|done|lia]).
  rewrite Hal. destruct (round_aux_spec (Z.pos p) e loc_Exact d) as (R & m & HR & Hres); [lia..|].
  assert (∀ c, c * 2 ^ (- e) = c * 2 ^ (- (e + (d - 53))) * 2 ^ (d - 53)) as Hscale.
  { intros c. rewrite <- Z.mul_assoc, <- Z.pow_add_r by lia. do 2 f_equal. lia. }
  rewrite !Hscale in Hle.
  assert (a * 2 ^ (- (e + (d - 53))) ≤ R) as HaR.
  { transitivity (Z.pos p / 2 ^ (d - 53)); [|lia]. apply Z.div_le_lower_bound; [apply Z.pow_pos_nonneg|]; lia. }
  assert (R ≤ b * 2 ^ (- (e + (d - 53)))) as HbR.
  { apply (rounded_quotient_le (Z.pos p) (d - 53) _ R (loc_Exact = loc_Exact)); [lia|lia|done|done|by left]. }
  destruct Hres as [(Hm & _ & ->)|(HR53 & Hm & ->)]; eexists _, _; (split; [reflexivity|]); (split; [lia|]).
  - by rewrite Hm.
  - replace (- (e + (d - 53))) with (1 + - (e + (d - 53) + 1)) in HaR, HbR by lia.
    rewrite Z.pow_add_r in HaR, HbR by lia. lia.
Qed.

(** Adding a number between 0 and [B] to an integer [a] stays between [a] and [a + B]. *)
Lemma f_add_between a m e B : 0 < a < 2 ^ 50 → -1000 ≤ e ≤ 0 → Z.pos m ≤ B * 2 ^ (- e) → B ≤ 2 ^ 50 →
  ∃ m' e', f_add (f_of_int a) (S754_finite false m e) = S754_finite false m' e' ∧ e' ≤ 0 ∧
    a * 2 ^ (- e') ≤ Z.pos m' ≤ (a + B) * 2 ^ (- e').
Proof.
  intros Ha He Hm HB. destruct (int_digits a ltac:(lia)) as (da & Hda & Hda').
  rewrite (f_of_int_exact a da) by done. unfold f_add, SFadd. set (ez := Z.min (da - 53) e). cbn [cond_Zopp].
  assert (0 < 2 ^ (53 - da)) by (apply Z.pow_pos_nonneg; lia).
  rewrite !shl_align_fst, Z2Pos.id by nia || (subst ez; lia).
  rewrite <- Z.mul_assoc, <- Z.pow_add_r by (subst ez; lia). replace (53 - da + (da - 53 - ez)) with (- ez) by lia.
  set (S := a * 2 ^ (- ez) + Z.pos m * 2 ^ (e - ez)).
  assert (Hb : a * 2 ^ (- ez) < S < 2 ^ 52 * 2 ^ (- ez) ∧ S ≤ (a + B) * 2 ^ (- ez)).
  { subst S. assert (Z.pos m * 2 ^ (e - ez) ≤ B * 2 ^ (- ez)).
    { replace (- ez) with (- e + (e - ez)) by lia. rewrite Z.pow_add_r by (subst ez; lia).
      assert (0 < 2 ^ (e - ez)) by (apply Z.pow_pos_nonneg; subst ez; lia). nia. }
    assert (0 < 2 ^ (e - ez)) by (apply Z.pow_pos_nonneg; subst ez; lia).
    assert (0 < 2 ^ (- ez)) by (apply Z.pow_pos_nonneg; subst ez; lia). nia. }
  assert (Hlow : 2 ^ 52 ≤ a * 2 ^ (- ez)).
  { transitivity (a * 2 ^ (53 - da)).
    - replace 52 with (da - 1 + (53 - da)) by lia. rewrite Z.pow_add_r by lia. nia.
    - apply Z.mul_le_mono_nonneg_l; [lia|]. apply Z.pow_le_mono_r; subst ez; lia. }
  clearbody S. set (D := Z.log2 S + 1).
  assert (HD : 2 ^ (D - 1) ≤ S < 2 ^ D).
  { subst D. rewrite Z.add_simpl_r. apply Z.log2_spec. lia. }
  assert (53 ≤ D) by (apply (Z.log2_le_mono (2 ^ 52)) in Hlow as Hl; pose proof (Z.log2_le_mono (2 ^ 52) S ltac:(lia)); rewrite Z.log2_pow2 in * by lia; lia).
  assert (D ≤ 52 - ez).
  { assert (Z.log2 S < 52 + - ez); [|lia]. apply Z.log2_lt_pow2; [lia|]. rewrite Z.pow_add_r by (subst ez; lia). lia. }
  apply (normalize_between a (a + B) S ez D); [lia|done|done|subst ez; lia|lia|lia].
Qed.

(** An average of [n] integers at most [B] lies in [[0, B]]. *)
Lemma f_average_within S n B : 0 ≤ S ≤ B * n → 0 < n → 0 < B → B * n < 2 ^ 53 →
  f_within B (f_div (f_of_int S) (f_of_int n)) = true.
Proof.
  intros HS Hn HB Hmax. destruct (Z.eq_dec S 0) as [->|HS0].
  - destruct (int_digits n ltac:(nia)) as (d & Hd & Hd'), (int_digits B ltac:(nia)) as (db & Hdb & Hdb').
    change (f_of_int 0) with f_zero. rewrite (f_of_int_exact n d) by done.
    unfold f_within. by rewrite (f_of_int_exact B db).
  - destruct (f_div_le S n B) as (m & e & -> & H); [nia..|lia|]. exact H.
Qed.

(** ** Non-negative arithmetic never produces NaN *)

Lemma round_aux_nonneg m e l : 0 ≤ m → f_nonneg (round_aux64 false m e l) = true.
Proof.
  intros Hm. unfold binary_round_aux.
  destruct (shr_fexp_spec m e l _ Hm eq_refl) as (_ & H1 & _).
  destruct (shr_fexp64 m e l) as [r e']. cbn [fst snd] in H1.
  assert (0 ≤ shr_m r) as Hr.
  { rewrite H1. apply Z.div_pos; [done|]. apply Z.pow_pos_nonneg; lia. }
  set (R := round_nearest_even (shr_m r) (loc_of_shr_record r)).
  assert (0 ≤ R) as HR.
  { subst R. unfold round_nearest_even. repeat case_match; lia. }
  destruct (shr_fexp_spec R e' loc_Exact _ HR eq_refl) as (_ & H2 & _).
  destruct (shr_fexp64 R e' loc_Exact) as [r' e'']. cbn [fst snd] in H2.
  assert (0 ≤ shr_m r') as Hr'.
  { rewrite H2. apply Z.div_pos; [done|]. apply Z.pow_pos_nonneg; lia. }
  destruct (shr_m r'); [done| |lia]. by destruct (_ <=? _).
Qed.

Lemma normalize_nonneg m e : 0 ≤ m → f_nonneg (binary_normalize prec64 emax64 m e false) = true.
Proof.
  intros Hm. destruct m as [|p|p]; [done| |lia]. cbn [binary_normalize]. unfold binary_round.
  destruct (shl_align p e _). by apply round_aux_nonneg.
Qed.

Lemma f_of_int_nonneg n : 0 ≤ n → f_nonneg (f_of_int n) = true.
Proof. apply normalize_nonneg. Qed.

Lemma f_add_nonneg x y : f_nonneg x = true → f_nonneg y = true → f_nonneg (f_add x y) = true.
Proof.
  intros Hx Hy. destruct x as [[]|[]| |[] mx ex], y as [[]|[]| |[] my ey]; try done.
  unfold f_add, SFadd. cbn [cond_Zopp]. by apply normalize_nonneg.
Qed.

Lemma f_mul_nonneg x y : f_nonneg x = true → f_nonneg y = true → SFltb f_zero y = true →
  SFltb y (S754_infinity false) = true → f_nonneg (f_mul x y) = true.
Proof.
  intros Hx Hy Hy0 Hy1. destruct x as [[]|[]| |[] mx ex], y as [[]|[]| |[] my ey]; try done.
  unfold f_mul, SFmul. cbn [xorb]. by apply round_aux_nonneg.
Qed.

Lemma f_div_nonneg x y : f_nonneg x = true → f_nonneg y = true → f_eq y f_zero = false →
  x ≠ S754_infinity false ∨ y ≠ S754_infinity false → f_nonneg (f_div x y) = true.
Proof.
  intros Hx Hy Hy0 Hx1. destruct x as [[]|[]| |[] mx ex], y as [[]|[]| |[] my ey]; try done; [by destruct Hx1|].
  unfold f_div, SFdiv, SFdiv_core_binary. cbn [xorb].
  match goal with |- context [Z.div_eucl ?a (Z.pos my)] => set (a1 := a) end.
  assert (0 ≤ a1) as Ha.
  { subst a1. case_match; [done| |done]. apply Z.shiftl_nonneg. done. }
  clearbody a1. pose proof (Z_div_mod a1 (Z.pos my) ltac:(lia)) as Hqr.
  destruct (Z.div_eucl a1 (Z.pos my)) as [q r]. apply round_aux_nonneg. nia.
Qed.

(** On numbers, [!(x > y)] is [x <= y]. *)
Lemma f_not_gt x y : f_nonneg x = true → f_nonneg y = true → f_gt x y = false → SFleb x y = true.
Proof.
  intros Hx Hy. unfold f_gt, SFltb, SFleb.
  destruct x as [[]|[]| |[] mx ex], y as [[]|[]| |[] my ey]; try done.
  cbn [SFcompare]. rewrite (Z.compare_antisym ex ey). destruct (ex ?= ey) eqn:E; cbn [CompOpp]; try done.
  change (Pos.compare_cont Eq ?a ?b) with (a ?= b)%positive.
  rewrite (Pos.compare_antisym mx my). by destruct (mx ?= my)%positive.
Qed.

Lemma f_within_le n x : f_nonneg x = true → f_gt x (f_of_int n) = false → 0 ≤ n → f_within n x = true.
Proof.
  intros Hx Hgt Hn. unfold f_within. rewrite Hx. apply f_not_gt; [done| |done]. by apply f_of_int_nonneg.
Qed.

(** ** Comparing and converting integers *)

Lemma f_compare_int a b : 0 ≤ a < 2 ^ 53 → 0 ≤ b < 2 ^ 53 →
  SFcompare (f_of_int a) (f_of_int b) = Some (a ?= b).
Proof.
  intros Ha Hb. destruct (Z.eq_dec a 0) as [->|Ha0], (Z.eq_dec b 0) as [->|Hb0]; [done|..].
  - destruct (int_digits b ltac:(lia)) as (d & Hd & Hd'). rewrite (f_of_int_exact b d) by done.
    change (f_of_int 0) with f_zero. cbn [SFcompare f_zero]. f_equal. symmetry. apply Z.compare_lt_iff. lia.
  - destruct (int_digits a ltac:(lia)) as (d & Hd & Hd'). rewrite (f_of_int_exact a d) by done.
    change (f_of_int 0) with f_zero. cbn [SFcompare f_zero]. f_equal. symmetry. apply Z.compare_gt_iff. lia.
  - destruct (int_digits a ltac:(lia)) as (da & Hda & Hda'), (int_digits b ltac:(lia)) as (db & Hdb & Hdb').
    rewrite (f_of_int_exact a da), (f_of_int_exact b db) by done. cbn [SFcompare]. f_equal.
    assert (∀ x y dx dy, 0 < dx → 0 < dy → 2 ^ (dx - 1) ≤ x < 2 ^ dx → 2 ^ (dy - 1) ≤ y < 2 ^ dy → dx < dy → x < y) as Hlt.
    { intros x y dx dy Hdx Hdy Hx Hy Hxy. pose proof (Z.pow_le_mono_r 2 dx (dy - 1) ltac:(lia) ltac:(lia)). lia. }
    destruct (Z.compare_spec (da - 53) (db - 53)) as [Heq|Hl|Hg].
    + assert (db = da) as -> by lia. change (Pos.compare_cont Eq ?x ?y) with (x ?= y)%positive.
      pose proof (Z.pow_pos_nonneg 2 (53 - da) ltac:(lia) ltac:(lia)) as Hp.
      change ((Z.to_pos (a * 2 ^ (53 - da)) ?= Z.to_pos (b * 2 ^ (53 - da)))%positive) with
        (Z.pos (Z.to_pos (a * 2 ^ (53 - da))) ?= Z.pos (Z.to_pos (b * 2 ^ (53 - da)))).
      rewrite !Z2Pos.id by nia. by rewrite <- Zmult_compare_compat_r by lia.
    + symmetry. apply Z.compare_lt_iff. apply (Hlt a b da db); lia.
    + symmetry. apply Z.compare_gt_iff. apply (Hlt b a db da); lia.
Qed.

Lemma f_gt_int a b : 0 ≤ a < 2 ^ 53 → 0 ≤ b < 2 ^ 53 → f_gt (f_of_int a) (f_of_int b) = (b <? a).
Proof.
  intros Ha Hb. unfold f_gt, SFltb. rewrite f_compare_int by done.
  rewrite Z.ltb_compare. by destruct (b ?= a).
Qed.

(** A positive 64-bit integer converts to a finite positive number. *)
Lemma f_of_int_pos n : 0 < n < 2 ^ 64 → ∃ m e, f_of_int n = S754_finite false m e.
Proof.
  intros Hn. destruct (Z.lt_ge_cases n (2 ^ 53)) as [Hlt|Hge].
  - destruct (int_digits n ltac:(lia)) as (d & Hd & Hd'). eexists _, _. by apply f_of_int_exact.
  - set (d := Z.log2 n + 1). pose proof (Z.log2_spec n ltac:(lia)) as Hs. unfold Z.succ in Hs.
    assert (53 ≤ Z.log2 n) by (apply Z.log2_le_pow2; lia).
    assert (Z.log2 n < 64) by (apply Z.log2_lt_pow2; lia).
    unfold f_of_int. destruct n as [|p|p]; [lia| |lia]. cbn [binary_normalize]. unfold binary_round.
    change (Z.pos (digits2_pos p)) with (Zdigits2 (Z.pos p)).
    rewrite (Zdigits2_unique (Z.pos p) d) by (subst d; rewrite ?Z.add_simpl_r; lia).
    replace (fexp prec64 emax64 (d + 0)) with (d - 53) by (unfold fexp, emin; lia).
    unfold shl_align. destruct (d - 53 - 0) as [|k|k] eqn:Ek; [lia| |lia].
    destruct (round_aux_spec (Z.pos p) 0 loc_Exact d) as (R & m & _ & Hres); [lia| |lia|lia|].
    { subst d. rewrite Z.add_simpl_r. lia. }
    destruct Hres as [(_ & _ & ->)|(_ & _ & ->)]; eauto.
Qed.

(** A number within a finite bound is finite. *)
Lemma f_within_finite n x : 0 ≤ n < 2 ^ 53 → f_within n x = true → f_nonneg x = true ∧ x ≠ S754_infinity false.
Proof.
  unfold f_within. intros Hn [Hx Hle]%andb_true_iff. split; [done|]. intros ->.
  destruct (Z.eq_dec n 0) as [->|Hn0]; [done|].
  destruct (int_digits n ltac:(lia)) as (d & Hd & Hd'). by rewrite (f_of_int_exact n d) in Hle.
Qed.

(** ** Truncation to an integer *)

Lemma f_to_int64_between a b m e : e ≤ 0 → a * 2 ^ (- e) ≤ Z.pos m ≤ b * 2 ^ (- e) →
  a ≤ f_to_int64 (S754_finite false m e) ≤ b.
Proof.
  intros He Hm. cbn [f_to_int64]. destruct (Z.leb_spec 0 e).
  - assert (e = 0) as -> by lia. rewrite Z.pow_0_r. change (2 ^ (- 0)) with 1 in Hm. lia.
  - assert (0 < 2 ^ (- e)) by (apply Z.pow_pos_nonneg; lia). rewrite Z.mul_1_l.
    split; [apply Z.div_le_lower_bound; lia|]. apply Z.div_le_upper_bound; lia.
Qed.

Lemma f_to_int64_int n : 0 ≤ n < 2 ^ 53 → f_to_int64 (f_of_int n) = n.
Proof.
  intros Hn. destruct (Z.eq_dec n 0) as [->|]; [by vm_compute|].
  destruct (int_digits n ltac:(lia)) as (d & Hd & Hd'). rewrite (f_of_int_exact n d) by done.
  assert (0 < 2 ^ (53 - d)) by (apply Z.pow_pos_nonneg; lia).
  assert (n ≤ f_to_int64 (S754_finite false (Z.to_pos (n * 2 ^ (53 - d))) (d - 53)) ≤ n); [|lia].
  apply f_to_int64_between; [lia|]. rewrite Z2Pos.id by nia. replace (- (d - 53)) with (53 - d) by lia. lia.
Qed.
