(* ===== verification/Nvml.v ===== *)
(** * metricsd: the NVML process collector

    [internal/metrics/nvml_collector.go] and [noop_collector.go].  NVML itself is
    a library behind cgo: a [library] value holds what every call of one poll
    returns, a value together with a return code, as go-nvml does.  Times are
    nanoseconds since the epoch.  The [joined] map is a [gmap]; the slice built
    from it is in the iteration order given as an argument. *)

From Stdlib Require Import ZArith Lia String.
From stdpp Require Import base gmap list strings countable.
From S2P Require Import Prelude.

#[local] Open Scope string_scope.
#[local] Open Scope list_scope.
#[local] Open Scope Z_scope.

(** ** Data: types.go *)

Record GPUProcessMetric := mkGPUProcessMetric {
  PID : Z;
  PGPUUUID : string;
  PGPUIndex : Z;
  UsedGPUMemoryBytes : Z;
  PSMUtilizationPercent : Z;
  ProcessUtilizationTimestamp : Z
}.
#[global] Instance GPUProcessMetric_eq_dec : EqDecision GPUProcessMetric.
Proof. solve_decision. Defined.

(** The NVML return codes the collector tells apart. *)
Inductive Return :=
| SUCCESS | ERROR_NOT_SUPPORTED | ERROR_NOT_FOUND
| ERROR_ALREADY_INITIALIZED | ERROR_UNINITIALIZED
| ERROR_OTHER (msg : string).
#[global] Instance Return_eq_dec : EqDecision Return.
Proof. solve_decision. Defined.

Inductive DeviceError :=
| GetDevice (index : Z) (ret : Return)
| GetUUIDError (index : Z) (ret : Return)
| GetMinorError (uuid : string) (ret : Return)
| GetMemoryInfoError (uuid : string) (ret : Return)
| GetUtilizationError (uuid : string) (ret : Return)
| GetProcessesError (kind uuid : string) (ret : Return).

Record GPUProcessSnapshot := mkGPUProcessSnapshot {
  Processes : list GPUProcessMetric;
  DeviceUUIDs : gmap Z string;
  DeviceMinorToNVMLIndex : gmap Z Z;
  DeviceTotalMemoryBytes : gmap Z Z;
  DeviceErrors : list DeviceError
}.

(** ** The library *)

Record ProcessUtilizationSample := mkSample {
  SPid : Z; TimeStamp : Z; SmUtil : Z; MemUtil : Z; EncUtil : Z; DecUtil : Z
}.
Record ProcessInfo := mkProcessInfo { Pid : Z; UsedGpuMemory : Z }.

Record Device := mkDevice {
  GetUUID : string * Return;
  GetMinorNumber : Z * Return;
  GetMemoryInfo_Total : Z * Return;
  GetProcessUtilization : Z → list ProcessUtilizationSample * Return;
  GetComputeRunningProcesses : list ProcessInfo * Return;
  GetGraphicsRunningProcesses : list ProcessInfo * Return
}.

Record library := mkLibrary {
  Init : Return;
  Shutdown : Return;
  DeviceGetCount : Z * Return;
  DeviceGetHandleByIndex : Z → Device * Return
}.

(** ** The collector *)

Definition nvmlValueNotAvailable : Z := 2 ^ 64 - 1.

Record gpuProcessKey := mkProcessKey { KGPUUUID : string; KPID : Z }.
#[global] Instance gpuProcessKey_eq_dec : EqDecision gpuProcessKey.
Proof. solve_decision. Defined.
#[global] Instance gpuProcessKey_countable : Countable gpuProcessKey :=
  inj_countable' (λ k, (KGPUUUID k, KPID k)) (λ p, mkProcessKey p.1 p.2) (λ k, match k with mkProcessKey _ _ => eq_refl end).

Abbreviation joined_map := (gmap gpuProcessKey GPUProcessMetric).

Definition zeroMetric : GPUProcessMetric := mkGPUProcessMetric 0 "" 0 0 0 0.

Record nvmlProcessCollector := mkCollector {
  csnapshot : GPUProcessSnapshot;
  cinterval : Z;
  lastPollTime : option Z;
  cdeviceUUIDs : gmap Z string
}.

Definition emptySnapshot : GPUProcessSnapshot := mkGPUProcessSnapshot [] ∅ ∅ ∅ [].

Definition newNVMLProcessCollector (lib : library) (interval : Z)
    : result Return nvmlProcessCollector :=
  if bool_decide (Init lib = SUCCESS) || bool_decide (Init lib = ERROR_ALREADY_INITIALIZED)
  then Ok (mkCollector emptySnapshot interval None ∅)
  else Err (Init lib).

Definition Close (lib : library) : result Return unit :=
  if bool_decide (Shutdown lib = SUCCESS) || bool_decide (Shutdown lib = ERROR_UNINITIALIZED)
  then Ok tt else Err (Shutdown lib).

Definition shouldSkipProcessUtilizationSample (s : ProcessUtilizationSample) (lastSeenTimestamp : Z) : bool :=
  (SPid s =? 0) || (100 <? SmUtil s) || (100 <? MemUtil s) || (100 <? EncUtil s) ||
  (100 <? DecUtil s) || (TimeStamp s <=? lastSeenTimestamp).

(** The listing calls that merely have nothing to report. *)
Definition tolerated (ret : Return) : bool :=
  bool_decide (ret = SUCCESS) || bool_decide (ret = ERROR_NOT_SUPPORTED) || bool_decide (ret = ERROR_NOT_FOUND).

Definition join_sample (uuid : string) (index lastSeenTimestamp : Z) (joined : joined_map)
    (s : ProcessUtilizationSample) : joined_map :=
  if shouldSkipProcessUtilizationSample s lastSeenTimestamp then joined
  else
    let key := mkProcessKey uuid (SPid s) in
    let metric := default zeroMetric (joined !! key) in
    <[key := mkGPUProcessMetric (SPid s) uuid index (UsedGPUMemoryBytes metric) (SmUtil s) (TimeStamp s)]> joined.

Definition collectProcessUtilization (joined : joined_map) (uuid : string) (index lastSeenTimestamp : Z)
    (device : Device) : joined_map * option DeviceError :=
  let '(utilization, ret) := GetProcessUtilization device lastSeenTimestamp in
  if tolerated ret
  then (fold_left (join_sample uuid index lastSeenTimestamp) utilization joined, None)
  else (joined, Some (GetUtilizationError uuid ret)).

Definition join_process (uuid : string) (index : Z) (joined : joined_map) (p : ProcessInfo) : joined_map :=
  let key := mkProcessKey uuid (Pid p) in
  let metric := default zeroMetric (joined !! key) in
  let used := if negb (UsedGpuMemory p =? nvmlValueNotAvailable) && (UsedGPUMemoryBytes metric <? UsedGpuMemory p)
              then UsedGpuMemory p else UsedGPUMemoryBytes metric in
  <[key := mkGPUProcessMetric (Pid p) uuid index used (PSMUtilizationPercent metric)
             (ProcessUtilizationTimestamp metric)]> joined.

Definition mergeRunningProcesses (joined : joined_map) (uuid : string) (index : Z)
    (list_call : list ProcessInfo * Return) : joined_map * option Return :=
  let '(processes, ret) := list_call in
  if tolerated ret then (fold_left (join_process uuid index) processes joined, None)
  else (joined, Some ret).

Definition collectProcessMemory (joined : joined_map) (uuid : string) (index : Z) (device : Device)
    : joined_map * option DeviceError :=
  match mergeRunningProcesses joined uuid index (GetComputeRunningProcesses device) with
  | (joined, Some ret) => (joined, Some (GetProcessesError "compute" uuid ret))
  | (joined, None) =>
      match mergeRunningProcesses joined uuid index (GetGraphicsRunningProcesses device) with
      | (joined, Some ret) => (joined, Some (GetProcessesError "graphics" uuid ret))
      | (joined, None) => (joined, None)
      end
  end.

(** The UUID cache is kept across polls. *)
Definition deviceUUID (cache : gmap Z string) (index : Z) (device : Device)
    : gmap Z string * result DeviceError string :=
  let uuid := default "" (cache !! index) in
  if negb (String.eqb uuid "") then (cache, Ok uuid)
  else
    let '(uuid, ret) := GetUUID device in
    if bool_decide (ret = SUCCESS) then (<[index := uuid]> cache, Ok uuid)
    else (cache, Err (GetUUIDError index ret)).

Definition deviceTotalMemoryBytes (device : Device) : result Return Z :=
  let '(total, ret) := GetMemoryInfo_Total device in
  if bool_decide (ret = SUCCESS) then Ok total else Err ret.

(** The local variables of [collect]. *)
Record poll := mkPoll {
  p_joined : joined_map;
  p_uuids : gmap Z string;
  p_minors : gmap Z Z;
  p_total : gmap Z Z;
  p_errs : list DeviceError;
  p_cache : gmap Z string
}.

Definition option_list {A} (o : option A) : list A := match o with Some a => [a] | None => [] end.

(** One iteration of [for index := range count]. *)
Definition collect_device (lib : library) (lastSeenTimestamp : Z) (st : poll) (index : Z) : poll :=
  let '(device, ret) := DeviceGetHandleByIndex lib index in
  if negb (bool_decide (ret = SUCCESS)) then
    mkPoll (p_joined st) (p_uuids st) (p_minors st) (p_total st) (p_errs st ++ [GetDevice index ret]) (p_cache st)
  else
    match deviceUUID (p_cache st) index device with
    | (cache, Err e) =>
        mkPoll (p_joined st) (p_uuids st) (p_minors st) (p_total st) (p_errs st ++ [e]) cache
    | (cache, Ok uuid) =>
        let uuids := <[index := uuid]> (p_uuids st) in
        let '(minor, ret) := GetMinorNumber device in
        let '(minors, errs) :=
          if bool_decide (ret = SUCCESS) then (<[minor := index]> (p_minors st), p_errs st)
          else (p_minors st, p_errs st ++ [GetMinorError uuid ret]) in
        let '(totals, errs) :=
          match deviceTotalMemoryBytes device with
          | Ok total => (<[index := total]> (p_total st), errs)
          | Err ret => (p_total st, errs ++ [GetMemoryInfoError uuid ret])
          end in
        let '(joined, err) := collectProcessUtilization (p_joined st) uuid index lastSeenTimestamp device in
        let errs := errs ++ option_list err in
        let '(joined, err) := collectProcessMemory joined uuid index device in
        let errs := errs ++ option_list err in
        mkPoll joined uuids minors totals errs cache
    end.

(** [uint64(last.UnixMicro())] *)
Definition unixMicro (t : Z) : Z := wrapu64 (t / 1000).

Definition setSnapshot (s : GPUProcessSnapshot) (c : nvmlProcessCollector) : nvmlProcessCollector :=
  mkCollector s (cinterval c) (lastPollTime c) (cdeviceUUIDs c).

Definition collect (lib : library) (order : joined_map → list GPUProcessMetric) (now : Z)
    (c : nvmlProcessCollector) : nvmlProcessCollector :=
  let last := match lastPollTime c with Some t => t | None => now - cinterval c end in
  let lastSeenTimestamp := unixMicro last in
  let '(count, ret) := DeviceGetCount lib in
  if negb (bool_decide (ret = SUCCESS)) then
    mkCollector (csnapshot c) (cinterval c) (Some now) (cdeviceUUIDs c)
  else
    let st := fold_left (collect_device lib lastSeenTimestamp) (seqZ 0 count)
                (mkPoll ∅ ∅ ∅ ∅ [] (cdeviceUUIDs c)) in
    setSnapshot (mkGPUProcessSnapshot (order (p_joined st)) (p_uuids st) (p_minors st) (p_total st) (p_errs st))
      (mkCollector (csnapshot c) (cinterval c) (Some now) (p_cache st)).

(** [newCollector]: the NVML collector, or the no-op one whose snapshots are empty. *)
Inductive collector := NVML (c : nvmlProcessCollector) | Noop.

Definition newCollector (lib : library) (interval : Z) : collector :=
  match newNVMLProcessCollector lib interval with Ok c => NVML c | Err _ => Noop end.

Definition Snapshot (c : collector) : GPUProcessSnapshot :=
  match c with NVML c => csnapshot c | Noop => emptySnapshot end.

(** One tick of the collector's [Run] loop. *)
Definition poll_once (lib : library) (order : joined_map → list GPUProcessMetric) (now : Z)
    (c : collector) : collector :=
  match c with NVML c => NVML (collect lib order now c) | Noop => Noop end.

(** ** Reference definitions

    What one device reports about a process: its last accepted utilization
    sample and the largest memory figure of the listings that could be read. *)

Definition accepted (last : Z) (device : Device) : list ProcessUtilizationSample :=
  let '(samples, ret) := GetProcessUtilization device last in
  if tolerated ret then filter (λ s, shouldSkipProcessUtilizationSample s last = false) samples else [].

Definition running (device : Device) : list ProcessInfo :=
  let '(compute, ret) := GetComputeRunningProcesses device in
  let '(graphics, ret') := GetGraphicsRunningProcesses device in
  if tolerated ret then compute ++ (if tolerated ret' then graphics else []) else [].

Definition max_memory (infos : list ProcessInfo) : Z :=
  fold_right Z.max 0 (map UsedGpuMemory (filter (λ p, UsedGpuMemory p ≠ nvmlValueNotAvailable) infos)).

Definition reported (last : Z) (uuid : string) (index : Z) (device : Device) (pid : Z) : option GPUProcessMetric :=
  let samples := filter (λ s, SPid s = pid) (accepted last device) in
  let infos := filter (λ p, Pid p = pid) (running device) in
  match list.last samples, infos with
  | None, [] => None
  | s, _ => Some (mkGPUProcessMetric pid uuid index (max_memory infos)
                    (from_option SmUtil 0 s) (from_option TimeStamp 0 s))
  end.

(** The devices that answer: their handle and the UUID in use. *)
Definition answering (lib : library) (cache : gmap Z string) (index : Z) : option (Device * string) :=
  let '(device, ret) := DeviceGetHandleByIndex lib index in
  if bool_decide (ret = SUCCESS) then
    match (deviceUUID cache index device).2 with Ok uuid => Some (device, uuid) | Err _ => None end
  else None.

(** ** Lemmas *)

Lemma lookup_fold_update `{Countable K} {V A} (f : gmap K V → A → gmap K V) (g : option V → A → option V) k l :
  (∀ m a, f m a !! k = g (m !! k) a) → ∀ m, fold_left f l m !! k = fold_left g l (m !! k).
Proof. intros Hf. induction l as [|a l IH]; intros m; cbn [fold_left]; [done|]. by rewrite IH, Hf. Qed.

Definition sample_update (uuid : string) (index last pid : Z) (o : option GPUProcessMetric)
    (s : ProcessUtilizationSample) : option GPUProcessMetric :=
  if negb (shouldSkipProcessUtilizationSample s last) && (SPid s =? pid)
  then Some (mkGPUProcessMetric pid uuid index (from_option UsedGPUMemoryBytes 0 o) (SmUtil s) (TimeStamp s))
  else o.

Lemma join_sample_lookup uuid index last j s u pid :
  join_sample uuid index last j s !! mkProcessKey u pid =
    if String.eqb u uuid then sample_update uuid index last pid (j !! mkProcessKey u pid) s
    else j !! mkProcessKey u pid.
Proof.
  unfold join_sample, sample_update. destruct (shouldSkipProcessUtilizationSample _ _); cbn [negb andb].
  { by destruct (String.eqb u uuid). }
  destruct (String.eqb_spec u uuid) as [->|Hu], (Z.eqb_spec (SPid s) pid) as [<-|Hp].
  - rewrite lookup_insert_eq. by destruct (j !! _).
  - rewrite lookup_insert_ne by congruence. done.
  - rewrite lookup_insert_ne by congruence. done.
  - rewrite lookup_insert_ne by congruence. done.
Qed.

Definition info_update (uuid : string) (index pid : Z) (o : option GPUProcessMetric)
    (p : ProcessInfo) : option GPUProcessMetric :=
  if Pid p =? pid
  then Some (mkGPUProcessMetric pid uuid index
         (if decide (UsedGpuMemory p ≠ nvmlValueNotAvailable)
          then Z.max (from_option UsedGPUMemoryBytes 0 o) (UsedGpuMemory p)
          else from_option UsedGPUMemoryBytes 0 o)
         (from_option PSMUtilizationPercent 0 o) (from_option ProcessUtilizationTimestamp 0 o))
  else o.

Lemma join_process_lookup uuid index j p u pid :
  join_process uuid index j p !! mkProcessKey u pid =
    if String.eqb u uuid then info_update uuid index pid (j !! mkProcessKey u pid) p
    else j !! mkProcessKey u pid.
Proof.
  unfold join_process, info_update.
  destruct (String.eqb_spec u uuid) as [->|Hu], (Z.eqb_spec (Pid p) pid) as [<-|Hp].
  - rewrite lookup_insert_eq. destruct (j !! _) as [m|]; cbn [id default from_option zeroMetric
      UsedGPUMemoryBytes PSMUtilizationPercent ProcessUtilizationTimestamp]; do 2 f_equal;
    destruct (Z.eqb_spec (UsedGpuMemory p) nvmlValueNotAvailable); case_decide; try done; cbn [negb andb];
    match goal with |- context [?a <? ?b] => destruct (Z.ltb_spec a b) end; lia.
  - rewrite lookup_insert_ne by congruence. done.
  - rewrite lookup_insert_ne by congruence. done.
  - rewrite lookup_insert_ne by congruence. done.
Qed.

(** The samples of one process, folded: the last accepted one counts. *)
Lemma fold_sample_update uuid index last pid samples o :
  fold_left (sample_update uuid index last pid) samples o =
    match list.last (filter (λ s, SPid s = pid)
            (filter (λ s, shouldSkipProcessUtilizationSample s last = false) samples)) with
    | None => o
    | Some s => Some (mkGPUProcessMetric pid uuid index (from_option UsedGPUMemoryBytes 0 o) (SmUtil s) (TimeStamp s))
    end.
Proof.
  induction samples as [|s samples IH] using rev_ind; [done|].
  rewrite fold_left_app, !list.filter_app. cbn [fold_left]. rewrite IH. unfold sample_update at 1.
  destruct (shouldSkipProcessUtilizationSample s last) eqn:E; cbn [negb andb].
  { rewrite (filter_cons_False _ s) by congruence. by rewrite filter_nil, filter_nil, app_nil_r. }
  rewrite (filter_cons_True _ s), filter_nil by done.
  destruct (Z.eqb_spec (SPid s) pid) as [Hp|Hp].
  - rewrite filter_cons_True, filter_nil, last_snoc by done. by destruct (list.last _).
  - by rewrite filter_cons_False, filter_nil, app_nil_r by done.
Qed.

Lemma max_memory_nonneg l : 0 ≤ max_memory l.
Proof.
  unfold max_memory. generalize (map UsedGpuMemory (filter (λ p, UsedGpuMemory p ≠ nvmlValueNotAvailable) l)) as x.
  induction x; cbn [foldr]; lia.
Qed.

Lemma max_memory_app a b : max_memory (a ++ b) = Z.max (max_memory a) (max_memory b).
Proof.
  unfold max_memory. rewrite list.filter_app, map_app, foldr_app.
  generalize (map UsedGpuMemory (filter (λ p, UsedGpuMemory p ≠ nvmlValueNotAvailable) a)) as l.
  pose proof (max_memory_nonneg b) as Hb. unfold max_memory in Hb.
  induction l as [|x l IH]; cbn [foldr]; lia.
Qed.

(** The listings of one process, folded: the largest available figure counts. *)
Lemma fold_info_update uuid index pid infos o : 0 ≤ from_option UsedGPUMemoryBytes 0 o →
  fold_left (info_update uuid index pid) infos o =
    match filter (λ p, Pid p = pid) infos with
    | [] => o
    | l => Some (mkGPUProcessMetric pid uuid index (Z.max (from_option UsedGPUMemoryBytes 0 o) (max_memory l))
                   (from_option PSMUtilizationPercent 0 o) (from_option ProcessUtilizationTimestamp 0 o))
    end.
Proof.
  intros Ho. induction infos as [|p infos IH] using rev_ind; [done|].
  rewrite fold_left_app, list.filter_app. cbn [fold_left]. rewrite IH. unfold info_update at 1.
  destruct (Z.eqb_spec (Pid p) pid) as [Hp|Hp].
  - rewrite (filter_cons_True _ p), filter_nil by done.
    set (l := filter (λ p, Pid p = pid) infos). clearbody l.
    assert (max_memory [p] = if decide (UsedGpuMemory p ≠ nvmlValueNotAvailable) then Z.max (UsedGpuMemory p) 0 else 0) as H1.
    { unfold max_memory. rewrite filter_cons. case_decide; by rewrite filter_nil. }
    pose proof (max_memory_nonneg l) as Hl.
    destruct l as [|p' l]; cbn [app from_option UsedGPUMemoryBytes PSMUtilizationPercent ProcessUtilizationTimestamp].
    + do 2 f_equal. rewrite H1. case_decide; lia.
    + change (p' :: l ++ [p]) with ((p' :: l) ++ [p]). rewrite max_memory_app, H1.
      do 2 f_equal. case_decide; lia.
  - by rewrite (filter_cons_False _ p), filter_nil, app_nil_r by done.
Qed.

Lemma option_list_nil {A} (l : list A) o : l ++ option_list o = [] → l = [] ∧ o = None.
Proof. destruct l, o; cbn; try done; by intros ?%app_nil. Qed.

(** What one device adds for one key. *)
Lemma device_joined uuid index last j device u pid :
  (collectProcessMemory (collectProcessUtilization j uuid index last device).1 uuid index device).1
      !! mkProcessKey u pid =
    if String.eqb u uuid
    then fold_left (info_update uuid index pid) (running device)
           (fold_left (sample_update uuid index last pid)
              (if tolerated (GetProcessUtilization device last).2 then (GetProcessUtilization device last).1 else [])
              (j !! mkProcessKey u pid))
    else j !! mkProcessKey u pid.
Proof.
  assert (∀ l j, fold_left (join_process uuid index) l j !! mkProcessKey u pid =
    if String.eqb u uuid then fold_left (info_update uuid index pid) l (j !! mkProcessKey u pid)
    else j !! mkProcessKey u pid) as Hp.
  { induction l as [|p l IH]; intros j'; cbn [fold_left]; [by destruct (String.eqb u uuid)|].
    rewrite IH, join_process_lookup. by destruct (String.eqb u uuid). }
  assert (∀ l j, fold_left (join_sample uuid index last) l j !! mkProcessKey u pid =
    if String.eqb u uuid then fold_left (sample_update uuid index last pid) l (j !! mkProcessKey u pid)
    else j !! mkProcessKey u pid) as Hs.
  { induction l as [|p l IH]; intros j'; cbn [fold_left]; [by destruct (String.eqb u uuid)|].
    rewrite IH, join_sample_lookup. by destruct (String.eqb u uuid). }
  unfold collectProcessUtilization, collectProcessMemory, mergeRunningProcesses, running.
  destruct (GetProcessUtilization device last) as [samples ret], (GetComputeRunningProcesses device) as [compute ret1],
    (GetGraphicsRunningProcesses device) as [graphics ret2]. cbn [fst snd].
  destruct (tolerated ret), (tolerated ret1), (tolerated ret2); cbn [fst snd];
    rewrite ?Hp, ?Hs; destruct (String.eqb u uuid); cbn [fold_left]; rewrite ?fold_left_app; cbn [fold_left];
    rewrite ?app_nil_r; done.
Qed.

(** A process seen on one device only is what that device reports. *)
Lemma device_reported uuid index last device pid :
  fold_left (info_update uuid index pid) (running device)
    (fold_left (sample_update uuid index last pid)
       (if tolerated (GetProcessUtilization device last).2 then (GetProcessUtilization device last).1 else []) None) =
  reported last uuid index device pid.
Proof.
  unfold reported, accepted. rewrite fold_sample_update.
  destruct (GetProcessUtilization device last) as [samples ret]. cbn [fst snd].
  replace (filter (λ s, shouldSkipProcessUtilizationSample s last = false) (if tolerated ret then samples else []))
    with (if tolerated ret then filter (λ s, shouldSkipProcessUtilizationSample s last = false) samples else [])
    by (by destruct (tolerated ret)).
  set (l := list.last _). clearbody l. rewrite fold_info_update by (by destruct l).
  pose proof (max_memory_nonneg (filter (λ p, Pid p = pid) (running device))) as Hn.
  destruct (filter (λ p, Pid p = pid) (running device)) as [|p infos], l as [s|]; cbn [from_option
    UsedGPUMemoryBytes PSMUtilizationPercent ProcessUtilizationTimestamp]; try done; do 2 f_equal; lia.
Qed.

Lemma reported_key last uuid index device pid m :
  reported last uuid index device pid = Some m → PGPUUUID m = uuid ∧ PID m = pid ∧ PGPUIndex m = index.
Proof. unfold reported. by repeat case_match; intros; simplify_eq/=. Qed.

Lemma answering_cache lib c c' index : c !! index = c' !! index → answering lib c index = answering lib c' index.
Proof.
  intros Hc. unfold answering, deviceUUID. rewrite Hc. repeat case_match; simplify_eq/=; done.
Qed.

Lemma collect_device_cache lib last st index i : i ≠ index →
  p_cache (collect_device lib last st index) !! i = p_cache st !! i.
Proof.
  intros Hi. unfold collect_device, deviceUUID. repeat case_match; simplify_eq/=; try done;
    by rewrite lookup_insert_ne by done.
Qed.

Lemma collect_device_joined lib last st index u pid :
  p_joined (collect_device lib last st index) !! mkProcessKey u pid =
    match answering lib (p_cache st) index with
    | Some (device, uuid) =>
        (collectProcessMemory (collectProcessUtilization (p_joined st) uuid index last device).1 uuid index device).1
          !! mkProcessKey u pid
    | None => p_joined st !! mkProcessKey u pid
    end.
Proof.
  unfold collect_device, answering. destruct (DeviceGetHandleByIndex lib index) as [device ret].
  destruct (bool_decide (ret = SUCCESS)); cbn [negb]; [|done].
  destruct (deviceUUID (p_cache st) index device) as [cache [uuid|e]]; cbn [snd]; [|done].
  destruct (GetMinorNumber device), (deviceTotalMemoryBytes device);
  repeat (case_match; simplify_eq/=); done.
Qed.

Lemma collect_device_uuids lib last st index i :
  p_uuids (collect_device lib last st index) !! i =
    match answering lib (p_cache st) index with
    | Some (device, uuid) => if decide (i = index) then Some uuid else p_uuids st !! i
    | None => p_uuids st !! i
    end.
Proof.
  unfold collect_device, answering. destruct (DeviceGetHandleByIndex lib index) as [device ret].
  destruct (bool_decide (ret = SUCCESS)); cbn [negb]; [|done].
  destruct (deviceUUID (p_cache st) index device) as [cache [uuid|e]]; cbn [snd]; [|done].
  destruct (GetMinorNumber device), (deviceTotalMemoryBytes device);
  repeat (case_match; simplify_eq/=); by rewrite ?lookup_insert_eq, ?lookup_insert_ne by done.
Qed.

Section fold_devices.
Context (lib : library) (last : Z) (cache : gmap Z string).

Let start := mkPoll ∅ ∅ ∅ ∅ [] cache.
Abbreviation after ids := (fold_left (collect_device lib last) ids start).

Lemma fold_cache ids i : i ∉ ids → p_cache (after ids) !! i = cache !! i.
Proof.
  induction ids as [|j ids IH] using rev_ind; [done|].
  rewrite fold_left_app, not_elem_of_app, not_elem_of_cons. intros (Hi & Hj & _).
  cbn [fold_left]. rewrite collect_device_cache by done. auto.
Qed.

(** The joined map after visiting distinct devices with distinct UUIDs. *)
Lemma fold_joined ids u pid m : NoDup ids →
  (∀ i j di dj v, i ∈ ids → j ∈ ids → answering lib cache i = Some (di, v) →
     answering lib cache j = Some (dj, v) → i = j) →
  p_joined (after ids) !! mkProcessKey u pid = Some m ↔
    ∃ i device, i ∈ ids ∧ answering lib cache i = Some (device, u) ∧ reported last u i device pid = Some m.
Proof.
  intros Hnd Huniq. revert m. induction ids as [|j ids IH] using rev_ind; intros m.
  { split; [done|]. intros (i & ? & Hi & _). by apply elem_of_nil in Hi. }
  apply list.NoDup_app in Hnd as (Hnd & Hj & _).
  assert (j ∉ ids) as Hj' by (intros Hin; apply (Hj j Hin); by apply list_elem_of_singleton).
  assert (∀ m, p_joined (after ids) !! mkProcessKey u pid = Some m ↔
    ∃ i device, i ∈ ids ∧ answering lib cache i = Some (device, u) ∧ reported last u i device pid = Some m) as IH'.
  { apply IH; [done|]. intros ????? Hi Hi'. by apply Huniq; apply elem_of_app; left. }
  clear IH Hj. rewrite fold_left_app. cbn [fold_left].
  rewrite collect_device_joined, (answering_cache lib _ cache) by (by apply fold_cache).
  destruct (answering lib cache j) as [[device uuid]|] eqn:Ej.
  - rewrite device_joined. destruct (String.eqb_spec u uuid) as [->|Hu].
    + assert (p_joined (after ids) !! mkProcessKey uuid pid = None) as HN.
      { apply eq_None_not_Some. intros [m' (i & di & Hi & Ei & _)%IH'].
        destruct Hj'. by rewrite <- (Huniq i j di device uuid) by
          (try apply elem_of_app; rewrite ?list_elem_of_singleton; auto). }
      rewrite HN, device_reported. split.
      * intros Hm. exists j, device. split; [|done]. apply elem_of_app. right. by apply list_elem_of_singleton.
      * intros (i & di & Hi & Ei & Hm). assert (i = j) as ->.
        { apply (Huniq i j di device uuid); try done. apply elem_of_app. right. by apply list_elem_of_singleton. }
        by simplify_eq.
    + rewrite IH'. split; intros (i & di & Hi & Ei & Hm); exists i, di; (split; [|done]).
      * apply elem_of_app. by left.
      * apply elem_of_app in Hi as [|Hi%list_elem_of_singleton]; [done|]. by simplify_eq.
  - rewrite IH'. split; intros (i & di & Hi & Ei & Hm); exists i, di; (split; [|done]).
    + apply elem_of_app. by left.
    + apply elem_of_app in Hi as [|Hi%list_elem_of_singleton]; [done|]. by simplify_eq.
Qed.

Lemma fold_uuids ids i u : NoDup ids →
  p_uuids (after ids) !! i = Some u ↔ i ∈ ids ∧ ∃ device, answering lib cache i = Some (device, u).
Proof.
  intros Hnd. induction ids as [|j ids IH] using rev_ind.
  { split; [done|]. by intros [?%elem_of_nil _]. }
  apply list.NoDup_app in Hnd as (Hnd & Hj & _).
  assert (j ∉ ids) as Hj' by (intros Hin; apply (Hj j Hin); by apply list_elem_of_singleton).
  rewrite fold_left_app. cbn [fold_left].
  rewrite collect_device_uuids, (answering_cache lib _ cache) by (by apply fold_cache).
  rewrite elem_of_app, list_elem_of_singleton.
  destruct (answering lib cache j) as [[device uuid]|] eqn:Ej; [case_decide as Hij|];
    [subst i; naive_solver|rewrite IH by done; naive_solver..].
Qed.
End fold_devices.

(** ** Properties *)

(** The UUID cache, the timestamp window and the devices of one poll. *)
Definition last_seen (now : Z) (c : nvmlProcessCollector) : Z :=
  unixMicro match lastPollTime c with Some t => t | None => now - cinterval c end.

Definition distinct_devices (lib : library) (c : nvmlProcessCollector) (count : Z) : Prop :=
  ∀ i j di dj u, 0 ≤ i < count → 0 ≤ j < count → answering lib (cdeviceUUIDs c) i = Some (di, u) →
    answering lib (cdeviceUUIDs c) j = Some (dj, u) → i = j.

(** C33: a poll publishes, for every device that answers and every process on
    it, exactly one metric: the last utilization sample newer than the previous
    poll that is a real percentage, and the largest memory figure the readable
    listings report.  A device that fails, or one whose listings fail, takes
    nothing away from the others.  When the device count itself fails the
    previous snapshot is kept. *)
Theorem collect_reports lib order now c
  (Horder : ∀ j, order j ≡ₚ (map_to_list j).*2)
  (Hdevices : distinct_devices lib c (DeviceGetCount lib).1) :
  let snapshot := csnapshot (collect lib order now c) in
  match DeviceGetCount lib with
  | (count, SUCCESS) =>
      (∀ m, m ∈ Processes snapshot ↔ ∃ index device uuid pid, 0 ≤ index < count ∧
         answering lib (cdeviceUUIDs c) index = Some (device, uuid) ∧
         reported (last_seen now c) uuid index device pid = Some m) ∧
      NoDup (map (λ m, (PGPUUUID m, PID m)) (Processes snapshot)) ∧
      (∀ index uuid, DeviceUUIDs snapshot !! index = Some uuid ↔
         0 ≤ index < count ∧ ∃ device, answering lib (cdeviceUUIDs c) index = Some (device, uuid))
  | _ => snapshot = csnapshot c
  end.
Proof.
  cbv zeta. unfold collect. fold (last_seen now c).
  destruct (DeviceGetCount lib) as [count ret] eqn:Ecount. cbn [fst] in Hdevices.
  destruct ret; cbn [negb bool_decide decide]; try done.
  rewrite bool_decide_true by done. cbn [negb setSnapshot csnapshot Processes DeviceUUIDs].
  set (st := fold_left _ _ _).
  assert (NoDup (seqZ 0 count)) as Hnd by apply NoDup_seqZ.
  assert (∀ i, i ∈ seqZ 0 count ↔ 0 ≤ i < count) as Hin.
  { intros i. rewrite elem_of_seqZ. lia. }
  assert (∀ u pid m, p_joined st !! mkProcessKey u pid = Some m ↔ ∃ i device, 0 ≤ i < count ∧
    answering lib (cdeviceUUIDs c) i = Some (device, u) ∧ reported (last_seen now c) u i device pid = Some m) as HJ.
  { intros u pid m. subst st. rewrite (fold_joined lib _ _ (seqZ 0 count)); [by setoid_rewrite Hin|done|].
    intros i j di dj v Hi%Hin Hj%Hin. by apply Hdevices. }
  split; [|split].
  - intros m. rewrite (Horder (p_joined st)), list_elem_of_fmap. split.
    + intros ([[u pid] m'] & -> & Hm%elem_of_map_to_list%HJ). destruct Hm as (i & device & Hm). by exists i, device, u, pid.
    + intros (i & device & u & pid & Hm). exists (mkProcessKey u pid, m). split; [done|].
      apply elem_of_map_to_list, HJ. by exists i, device.
  - assert ((λ m, (PGPUUUID m, PID m)) <$> (map_to_list (p_joined st)).*2 =
      (λ k, (KGPUUUID k, KPID k)) <$> (map_to_list (p_joined st)).*1) as Hkeys.
    { rewrite <- !list_fmap_compose. apply list_fmap_ext. intros _ [[u pid] m] Hm%list_elem_of_lookup_2.
      apply elem_of_map_to_list, HJ in Hm as (i & device & _ & _ & Hm).
      apply reported_key in Hm as (? & ? & _). cbn. by subst. }
    change (NoDup ((λ m, (PGPUUUID m, PID m)) <$> order (p_joined st))). rewrite (Horder (p_joined st)), Hkeys.
    apply NoDup_fmap_2; [|apply NoDup_fst_map_to_list]. intros [] []; cbn; congruence.
  - intros i u. subst st. rewrite fold_uuids by done. by rewrite Hin.
Qed.

(** One healthy device with two processes, and one that does not answer. *)
Definition example_device : Device :=
  mkDevice ("GPU-a", SUCCESS) (3, SUCCESS) (16 * 2 ^ 30, SUCCESS)
    (λ _, ([mkSample 7 1000001 10 0 0 0; mkSample 7 1000002 30 0 0 0; mkSample 9 1 80 0 0 0;
            mkSample 9 1000002 4294967295 0 0 0], SUCCESS))
    ([mkProcessInfo 7 2048; mkProcessInfo 9 nvmlValueNotAvailable], SUCCESS)
    ([mkProcessInfo 7 4096], ERROR_NOT_FOUND).

Definition example_library : library :=
  mkLibrary SUCCESS SUCCESS (2, SUCCESS)
    (λ i, if i =? 0 then (example_device, SUCCESS) else (example_device, ERROR_OTHER "GPU is lost")).

Definition example_collector : nvmlProcessCollector := mkCollector emptySnapshot 5000000000 (Some 1000000000) ∅.

Definition joined_list (j : joined_map) : list GPUProcessMetric := (map_to_list j).*2.

Lemma collect_reports_witness :
  let snapshot := csnapshot (collect example_library joined_list 2000000000 example_collector) in
  (∀ m, m ∈ Processes snapshot ↔ m = mkGPUProcessMetric 7 "GPU-a" 0 4096 30 1000002 ∨
                                 m = mkGPUProcessMetric 9 "GPU-a" 0 0 0 0) ∧
  DeviceErrors snapshot = [GetDevice 1 (ERROR_OTHER "GPU is lost")].
Proof.
  cbv zeta. split; [|vm_compute; reflexivity].
  destruct (collect_reports example_library joined_list 2000000000 example_collector) as (H & _ & _).
  - done.
  - intros i j di dj u Hi Hj. cbn [example_library DeviceGetCount fst] in Hi, Hj.
    assert (i = 0 ∨ i = 1) as [-> | ->] by lia; assert (j = 0 ∨ j = 1) as [-> | ->] by lia; try done;
      unfold answering; cbn; discriminate.
  - intros m. rewrite H. split.
    + intros (i & device & uuid & pid & Hi & Ha & Hr). assert (i = 0 ∨ i = 1) as [-> | ->] by lia; [|by cbv in Ha].
      change (Some (example_device, "GPU-a") = Some (device, uuid)) in Ha. injection Ha as <- <-.
      destruct (decide (pid = 7)) as [->|H7]; [left|destruct (decide (pid = 9)) as [->|H9]; [right|]].
      1, 2: apply (inj Some); rewrite <- Hr; vm_compute; reflexivity.
      exfalso. revert Hr. unfold reported.
      assert (accepted (last_seen 2000000000 example_collector) example_device =
        [mkSample 7 1000001 10 0 0 0; mkSample 7 1000002 30 0 0 0]) as -> by (vm_compute; reflexivity).
      assert (running example_device = [mkProcessInfo 7 2048; mkProcessInfo 9 nvmlValueNotAvailable;
        mkProcessInfo 7 4096]) as -> by (vm_compute; reflexivity).
      rewrite !filter_cons_False, !filter_nil by (cbn; congruence). discriminate.
    + intros [-> | ->]; [exists 0, example_device, "GPU-a", 7|exists 0, example_device, "GPU-a", 9];
        (split; [lia|]); vm_compute; split; reflexivity.
Defined.
