(* ===== verification/PodSource.v ===== *)
(** * metricsd: from a process to its pod

    [internal/metrics/cgroup.go] and [podsource.go].  The engine sees pods through
    the [podSource] interface, here a record of what the point-in-time snapshot
    answers: the n-th call of [ActiveContainers] has an iteration order of its
    own.  [/proc] is a function from file names to contents. *)

From Stdlib Require Import ZArith Lia String Ascii.
From stdpp Require Import base gmap list strings.
From S2P Require Import Prelude GoStrings Runtime Store FileSystem FsStore Nvml.

#[local] Open Scope string_scope.
#[local] Open Scope list_scope.
#[local] Open Scope Z_scope.

(** ** cgroup.go *)

Definition defaultProcRoot : string := "/proc".
Definition cgroupFile : string := "cgroup".
Definition line_feed : ascii := "010"%char.

Definition NewProcCgroupResolver (procRoot : string) : string :=
  let procRoot := TrimSpace procRoot in
  if String.eqb procRoot "" then defaultProcRoot else procRoot.

(** The path field of one line, if the line has one. *)
Definition cgroup_line (line : string) : option string :=
  let line := TrimSpace line in
  if String.eqb line "" then None
  else
    match SplitN line ":"%char 3 with
    | [_; _; p] => let path := TrimSpace p in if String.eqb path "" then None else Some path
    | _ => None
    end.

Definition parseCgroupPaths (data : string) : list string :=
  fold_left (λ paths line, match cgroup_line line with Some p => paths ++ [p] | None => paths end)
    (Split data line_feed) [].

(** [ReadFile] of [/proc]: [None] is an error. *)
Definition CgroupPaths (readFile : string → option string) (procRoot : string) (pid : Z) : option (list string) :=
  option_map parseCgroupPaths (readFile (PathJoin [procRoot; FormatInt pid; cgroupFile])).

(** ** podsource.go *)

Record podSource := mkPodSource {
  ResolveProcess : GPUProcessMetric → option ContainerInfo;
  SActivePodUIDs : gset string;
  SActiveContainers : nat → list ContainerInfo
}.

(** [cgroupPodSource.Snapshot]: one scan of the mapping directory, copied into a
    store of its own. *)
Definition snapshot_store {R : Type → Type} `{MRet R, MBind R, DirReads R} (iter : ContainerStore.t → nat → list ContainerInfo)
    : R ContainerStore.t :=
  cs ← Reader.ActiveContainers iter;
  mret (ContainerStore.Replace cs ContainerStore.NewContainerStore).

(** [podSourceSnapshot]: the answers of that store.  [orders] gives each [range]
    over the store's map an order: by the process and path looked up, and by the
    call of [ActiveContainers]. *)
Definition podSourceSnapshot (resolver : Z → option (list string))
    (match_order : GPUProcessMetric → nat → list ContainerInfo)
    (list_order : nat → list ContainerInfo) (s : ContainerStore.t) : podSource :=
  mkPodSource
    (λ process, match resolver (PID process) with
                | None => None
                | Some paths => ContainerStore.MatchCgroupPaths (match_order process) paths
                end)
    (ContainerStore.ActivePodUIDs s)
    (λ n, ContainerStore.ActiveContainers (λ _, list_order n)).

(** ** Lemmas: a snapshot is the scanned mapping *)

(** Entries are filed under their own non-empty container ID. *)
Definition keyed (s : ContainerStore.t) : Prop :=
  ∀ id c, s !! id = Some c → ContainerID c = id ∧ id ≠ "".

Abbreviation file_container :=
  (λ (next : ContainerStore.t) container,
     if String.eqb (ContainerID container) "" then next
     else <[ContainerID container := container]> next).

Lemma file_keyed cs s : keyed s → keyed (fold_left file_container cs s).
Proof.
  revert s. induction cs as [|c cs IH]; intros s Hs; cbn [fold_left]; [done|]. apply IH.
  destruct (String.eqb_spec (ContainerID c) "") as [|Hc]; [done|].
  intros id c' [[<- <-]|[_ ?]]%lookup_insert_Some; [done|by apply Hs].
Qed.

Lemma Replace_keyed cs s : keyed (ContainerStore.Replace cs s).
Proof. apply file_keyed. intros id c Hc. by rewrite lookup_empty in Hc. Qed.

(** Filing distinct containers keeps all of them. *)
Lemma file_lookup cs s id : NoDup (map ContainerID cs) → id ≠ "" →
  fold_left file_container cs s !! id =
    match List.find (λ c, String.eqb (ContainerID c) id) cs with Some c => Some c | None => s !! id end.
Proof.
  revert s. induction cs as [|c cs IH]; intros s Hnd Hid; cbn [fold_left List.find map] in *; [done|].
  apply NoDup_cons in Hnd as [Hc Hnd]. rewrite IH by done.
  destruct (String.eqb_spec (ContainerID c) id) as [<-|Hne].
  - assert (List.find (λ c', String.eqb (ContainerID c') (ContainerID c)) cs = None) as ->.
    { destruct (List.find _ cs) as [c'|] eqn:E; [|done]. apply find_some in E as [Hin Heq%String.eqb_eq].
      destruct Hc. rewrite <- Heq. apply list_elem_of_fmap. exists c'. split; [done|by apply list_elem_of_In]. }
    rewrite (proj2 (String.eqb_neq _ _)) by done. by rewrite lookup_insert_eq.
  - destruct (List.find _ cs); [done|]. destruct (String.eqb _ ""); [done|]. by rewrite lookup_insert_ne.
Qed.

Lemma keyed_values_NoDup s : keyed s → NoDup (map ContainerID (ContainerStore.values s)).
Proof.
  intros Hs. unfold ContainerStore.values.
  change (NoDup (ContainerID <$> (map_to_list s).*2)). rewrite <- list_fmap_compose.
  rewrite (list_fmap_ext _ fst).
  - apply NoDup_fst_map_to_list.
  - intros _ [id c] Hin%list_elem_of_lookup_2%elem_of_map_to_list. by apply Hs.
Qed.

Lemma Replace_values s cs s0 : keyed s → cs ≡ₚ ContainerStore.values s → ContainerStore.Replace cs s0 = s.
Proof.
  intros Hs Hcs. apply map_eq. intros id.
  assert (NoDup (map ContainerID cs)) as Hnd.
  { change (NoDup (ContainerID <$> cs)). rewrite Hcs. by apply keyed_values_NoDup. }
  destruct (decide (id = "")) as [->|Hid].
  { destruct (s !! "") as [c|] eqn:E; [by apply Hs in E as [_ ?]|].
    destruct (ContainerStore.Replace cs s0 !! "") as [c|] eqn:E'; [|done].
    by apply Replace_keyed in E' as [_ ?]. }
  unfold ContainerStore.Replace. rewrite (file_lookup cs ∅ id Hnd Hid), lookup_empty.
  destruct (List.find _ cs) as [c|] eqn:E.
  - apply find_some in E as [Hin%list_elem_of_In <-%String.eqb_eq]. rewrite Hcs in Hin.
    apply elem_of_values in Hin as [k Hk]. by destruct (Hs k c Hk) as [-> _].
  - destruct (s !! id) as [c|] eqn:Ec; [|done]. exfalso. destruct (Hs id c Ec) as [Hc _].
    eapply find_none in E; [by rewrite (proj2 (String.eqb_eq _ _) Hc) in E|].
    apply list_elem_of_In. rewrite Hcs. apply elem_of_values. eauto.
Qed.

Lemma scan_keyed w : keyed (Reader.scan (R:=M) w).1.
Proof.
  rewrite scan_unfold. destruct (ReadDir w) as [[entries|e] w'].
  - destruct (Reader.scan_entries (R:=M) entries [] w') as [infos w'']. apply Replace_keyed.
  - intros id c Hc. change ((∅ : ContainerStore.t) !! id = Some c) in Hc. by rewrite lookup_empty in Hc.
Qed.

Lemma ActiveContainers_order order : ContainerStore.ActiveContainers order = order O.
Proof.
  assert (∀ l acc, fold_left (λ out (c : ContainerInfo), out ++ [c]) l acc = acc ++ l) as H; [|apply H].
  induction l as [|c l IH]; intros acc; cbn [fold_left]; [by rewrite app_nil_r|].
  by rewrite IH, <- app_assoc.
Qed.

(** The store a collect cycle works on is the mapping the directory holds. *)
Lemma snapshot_store_scan iter w : (∀ s n, iter s n ≡ₚ ContainerStore.values s) →
  snapshot_store (R:=M) iter w = Reader.scan (R:=M) w.
Proof.
  intros Hiter. unfold snapshot_store, Reader.ActiveContainers.
  pose proof (scan_keyed w) as Hk. unfold mbind, M_bind in *.
  destruct (Reader.scan (R:=M) w) as [s w'] eqn:E. cbn [fst] in Hk.
  unfold mret, M_ret. f_equal. apply Replace_values; [done|].
  rewrite ActiveContainers_order.
  apply Hiter.
Qed.

(** ** The interface the engine is proved against *)

(** What a pod source promises about the containers [cs] of one cycle. *)
Class PodSourceOk (pods : podSource) (cs : list ContainerInfo) : Prop := {
  ps_active : ∀ n, SActiveContainers pods n ≡ₚ cs;
  ps_ids : NoDup (map ContainerID cs);
  ps_named : ∀ c, c ∈ cs → ContainerID c ≠ "";
  ps_resolve : ∀ p c, ResolveProcess pods p = Some c → c ∈ cs;
  ps_uids : ∀ u, u ∈ SActivePodUIDs pods ↔ u ≠ "" ∧ ∃ c, c ∈ cs ∧ PodUID c = u
}.

Lemma ActivePodUIDs_spec s u :
  u ∈ ContainerStore.ActivePodUIDs s ↔ u ≠ "" ∧ ∃ c, c ∈ ContainerStore.values s ∧ PodUID c = u.
Proof.
  unfold ContainerStore.ActivePodUIDs. induction (ContainerStore.values s) as [|c cs IH]; cbn [foldr].
  { split; [by intros ?%elem_of_empty|]. by intros (_ & c & ?%elem_of_nil & _). }
  setoid_rewrite elem_of_cons. destruct (String.eqb_spec (PodUID c) "") as [Hc|Hc]; rewrite ?elem_of_union,
    ?elem_of_singleton, IH; naive_solver.
Qed.

(** The snapshot of a keyed store keeps the promise, whatever the orders. *)
#[global] Instance podSourceSnapshot_ok resolver match_order list_order s :
  keyed s → (∀ p n, match_order p n ≡ₚ ContainerStore.values s) → (∀ n, list_order n ≡ₚ ContainerStore.values s) →
  PodSourceOk (podSourceSnapshot resolver match_order list_order s) (ContainerStore.values s).
Proof.
  intros Hs Hm Hl. split; cbn [podSourceSnapshot SActiveContainers ResolveProcess SActivePodUIDs].
  - intros n. rewrite ActiveContainers_order. apply Hl.
  - by apply keyed_values_NoDup.
  - intros c [id Hid]%elem_of_values. destruct (Hs id c Hid) as [-> ?]. done.
  - intros p c. destruct (resolver (PID p)) as [paths|]; [|done]. intros Hc.
    pose proof (match_paths_spec _ _ (Hm p) paths O) as H. unfold ContainerStore.MatchCgroupPaths in Hc.
    rewrite Hc in H. by destruct H as [? _].
  - intros u. apply ActivePodUIDs_spec.
Qed.

(** ** Lemmas: the kernel's cgroup file *)

(** One line of [/proc/<pid>/cgroup]: hierarchy, controller list and path. *)
Record cgroup_entry := mkCgroupEntry { e_hierarchy : string; e_controllers : string; e_path : string }.

Definition free_of (x : ascii) (s : string) : Prop := Forall (λ c, c ≠ x) (bytes_of s).

Definition starts_graph (s : string) : Prop := ∃ a l, bytes_of s = a :: l ∧ is_graph a = true.
Definition ends_graph (s : string) : Prop := ∃ l z, bytes_of s = l ++ [z] ∧ is_graph z = true.

Definition entry_ok (e : cgroup_entry) : Prop :=
  starts_graph (e_hierarchy e) ∧ free_of ":"%char (e_hierarchy e) ∧ free_of line_feed (e_hierarchy e) ∧
  free_of ":"%char (e_controllers e) ∧ free_of line_feed (e_controllers e) ∧
  starts_graph (e_path e) ∧ ends_graph (e_path e) ∧ free_of line_feed (e_path e).

Definition entry_line (e : cgroup_entry) : string :=
  e_hierarchy e +:+ String ":"%char (e_controllers e +:+ String ":"%char (e_path e)).

Definition render_cgroup (es : list cgroup_entry) : string :=
  fold_right (λ e rest, entry_line e +:+ String line_feed rest) "" es.

Lemma splitn_list_sep sep n w l : (2 ≤ n)%nat → Forall (λ c, c ≠ sep) w →
  splitn_list sep n (w ++ sep :: l) = w :: splitn_list sep (n - 1) l.
Proof.
  intros Hn Hw. destruct n as [|[|n]]; [lia..|]. replace (S (S n) - 1)%nat with (S n) by lia.
  cbn [splitn_list]. set (rest := splitn_list sep (S n) l).
  assert (∀ acc, (fix go (acc : list ascii) (l : list ascii) : list (list ascii) :=
    match l with
    | [] => [rev acc]
    | c :: r => if Ascii.eqb c sep then rev acc :: splitn_list sep (S n) r else go (c :: acc) r
    end) acc (w ++ sep :: l) = (rev acc ++ w) :: rest) as H.
  { induction Hw as [|c w Hc Hw IH]; intros acc; cbn [app].
    - rewrite (proj2 (Ascii.eqb_eq _ _)) by done. by rewrite app_nil_r.
    - rewrite (proj2 (Ascii.eqb_neq _ _)) by done. rewrite IH. cbn [rev]. by rewrite <- app_assoc. }
  apply (H []).
Qed.

Lemma cgroup_line_entry e : entry_ok e → cgroup_line (entry_line e) = Some (e_path e).
Proof.
  intros ((a & l & Ha & Hga) & Hh & _ & Hc & _ & (b & l1 & Hb & Hgb) & (l2 & z & Hz & Hgz) & _).
  assert (bytes_of (entry_line e) = bytes_of (e_hierarchy e) ++ ":"%char :: bytes_of (e_controllers e) ++
    ":"%char :: bytes_of (e_path e)) as Hbytes.
  { unfold entry_line. rewrite bytes_of_app. cbn. by rewrite bytes_of_app. }
  assert (TrimSpace (entry_line e) = entry_line e) as Htrim.
  { eapply TrimSpace_graph; [rewrite Hbytes, Ha; reflexivity| |exact Hga|exact Hgz].
    rewrite Hbytes, Hz. by rewrite !app_comm_cons, !app_assoc. }
  unfold cgroup_line. rewrite Htrim.
  destruct (String.eqb_spec (entry_line e) "") as [He|_]; [by rewrite He, Ha in Hbytes|].
  unfold SplitN. rewrite Hbytes, splitn_list_sep, splitn_list_sep by (done || lia). cbn [Nat.sub splitn_list map].
  rewrite string_of_list_ascii_of_string, (TrimSpace_graph (e_path e) b l1 l2 z) by done.
  destruct (String.eqb_spec (e_path e) "") as [He|_]; [by rewrite He in Hb|done].
Qed.

(** Parsing what the kernel wrote gives back the paths. *)
Lemma parse_render_cgroup es : Forall entry_ok es → parseCgroupPaths (render_cgroup es) = map e_path es.
Proof.
  intros Hes. unfold parseCgroupPaths.
  assert (∀ acc, fold_left (λ paths line, match cgroup_line line with Some p => paths ++ [p] | None => paths end)
    (Split (render_cgroup es) line_feed) acc = acc ++ map e_path es) as H; [|by rewrite H].
  induction Hes as [|e es He Hes IH]; intros acc; cbn [render_cgroup fold_right map].
  - change (Split "" line_feed) with [""]. cbn [fold_left]. change (cgroup_line "") with (@None string).
    by rewrite app_nil_r.
  - rewrite Split_line.
    + cbn [fold_left]. rewrite cgroup_line_entry by done. unfold render_cgroup in IH. rewrite IH.
      by rewrite <- app_assoc.
    + destruct He as (_ & _ & H1 & _ & H2 & _ & _ & H3). unfold entry_line. rewrite bytes_of_app. cbn. rewrite bytes_of_app. cbn.
      apply list.Forall_app. split; [done|]. constructor; [done|]. apply list.Forall_app. split; [done|].
      constructor; [done|done].
Qed.

(** ** Properties *)

(** Attribution of a GPU process, from the files to the pod.  With the
    container mapping that a scan of the shared directory holds, and the cgroup
    file the kernel writes for the process, the process resolves to a recorded
    container in whose cgroup its first attributable hierarchy places it, and to
    nothing only when no hierarchy places it in any recorded container. *)
Theorem process_attribution iter w readFile procRoot match_order list_order process es
  (Hiter : ∀ s n, iter s n ≡ₚ ContainerStore.values s)
  (Hmatch : ∀ p n, match_order p n ≡ₚ ContainerStore.values (snapshot_store (R:=M) iter w).1)
  (Hfile : readFile (PathJoin [procRoot; FormatInt (PID process); cgroupFile]) = Some (render_cgroup es))
  (Hes : Forall entry_ok es) :
  let s := (snapshot_store (R:=M) iter w).1 in
  s = (Reader.scan (R:=M) w).1 ∧
  match ResolveProcess (podSourceSnapshot (CgroupPaths readFile procRoot) match_order list_order s) process with
  | Some c => (∃ id, s !! id = Some c ∧ ContainerID c = id) ∧
      ∃ pre e post, es = pre ++ e :: post ∧ cgroupPathMatchesContainer (e_path e) c = true ∧
        ∀ e' id d, e' ∈ pre → s !! id = Some d → cgroupPathMatchesContainer (e_path e') d = false
  | None => ∀ e id d, e ∈ es → s !! id = Some d → cgroupPathMatchesContainer (e_path e) d = false
  end.
Proof.
  cbv zeta. pose proof (snapshot_store_scan iter w Hiter) as Hscan. split; [by rewrite Hscan|].
  assert (keyed (snapshot_store (R:=M) iter w).1) as Hk by (rewrite Hscan; apply scan_keyed).
  set (s := (snapshot_store (R:=M) iter w).1) in *. clearbody s.
  cbn [podSourceSnapshot ResolveProcess]. unfold CgroupPaths. rewrite Hfile. cbn [option_map].
  rewrite parse_render_cgroup by done. unfold ContainerStore.MatchCgroupPaths.
  pose proof (match_paths_spec _ _ (Hmatch process) (map e_path es) O) as H.
  destruct (ContainerStore.match_paths _ O (map e_path es)) as [c|].
  - destruct H as ([id Hid]%elem_of_values & pre & path & post & Hsplit & Hm & Hpre). split.
    { exists id. split; [done|]. by apply Hk. }
    apply map_eq_app in Hsplit as (pre' & rest & -> & <- & Hrest).
    apply map_eq_cons in Hrest as (e & post' & -> & <- & <-).
    exists pre', e, post'. split; [done|]. split; [done|]. intros e' id' d He' Hd.
    apply Hpre; [apply list_elem_of_fmap; eauto|]. apply elem_of_values. eauto.
  - intros e id d He Hd. apply H; [apply list_elem_of_fmap; eauto|]. apply elem_of_values. eauto.
Qed.

Definition example_entry : cgroup_entry := mkCgroupEntry "0" "" "/kubepods/pod1/a1/worker".

Definition example_proc (path : string) : option string :=
  if String.eqb path "/proc/42/cgroup" then Some (render_cgroup [example_entry]) else None.

Definition example_process42 : GPUProcessMetric := mkGPUProcessMetric 42 "GPU-a" 0 0 0 0.

Definition empty_world : world := mkWorld (Some ∅) [] [].

Definition mapped_world : world := (Writer.Upsert (example_info "a1" "/kubepods/pod1/a1") empty_world).2.

Lemma process_attribution_witness :
  let iter s (n : nat) := ContainerStore.values s in
  let s := (snapshot_store (R:=M) iter mapped_world).1 in
  ∃ c, ResolveProcess (podSourceSnapshot (CgroupPaths example_proc "/proc")
         (λ _ _, ContainerStore.values s) (λ _, ContainerStore.values s) s) example_process42 = Some c ∧
       ∃ id, s !! id = Some c ∧ ContainerID c = id.
Proof.
  cbv zeta. set (iter := λ s (_ : nat), ContainerStore.values s).
  destruct (process_attribution iter mapped_world example_proc "/proc"
    (λ _ _, ContainerStore.values (snapshot_store (R:=M) iter mapped_world).1)
    (λ _, ContainerStore.values (snapshot_store (R:=M) iter mapped_world).1) example_process42 [example_entry]) as [_ H].
  - done.
  - done.
  - vm_compute. reflexivity.
  - constructor; [|constructor]. unfold entry_ok, free_of.
    split; [exists "0"%char, []; done|]. split; [eapply bool_decide_unpack; vm_compute; exact I|].
    split; [eapply bool_decide_unpack; vm_compute; exact I|]. split; [constructor|]. split; [constructor|].
    split; [eexists _, _; split; [reflexivity|reflexivity]|].
    split; [exists (bytes_of "/kubepods/pod1/a1/worke"), "r"%char; split; reflexivity|].
    eapply bool_decide_unpack. vm_compute. exact I.
  - destruct (ResolveProcess _ example_process42) as [c|] eqn:E.
    + exists c. split; [done|]. by destruct H as [? _].
    + exfalso. vm_compute in E. discriminate E.
Defined.
