(* ===== verification/Metrics.v ===== *)
(** * metricsd: the metrics engine

    [internal/metrics/engine.go] over the collector's snapshot (Nvml) and the pod
    source (PodSource).  Maps are [gmap]s and the metrics behind pointers of
    [byPodGPU] are updated in place, that is by insertion.  The iteration order
    of [byPodGPU] and of the UUID table are arguments.  The mutex around the
    published snapshot only serialises its two users. *)

From Stdlib Require Import ZArith Lia String.
From stdpp Require Import base gmap list strings countable.
From S2P Require Import Prelude GoStrings Runtime Store Nvml PodSource Float64.

#[local] Open Scope string_scope.
#[local] Open Scope list_scope.
#[local] Open Scope Z_scope.

(** ** types.go *)

Record PodGPUMetric := mkPodGPUMetric {
  MNamespace : string;
  MPod : string;
  MPodUID : string;
  MGPUUUID : string;
  MGPUIndex : Z;
  MemoryBytes : Z;
  SMUtilizationPercent : float64;
  RequestedGPUFraction : float64;
  SMUtilizationPercentNormalized : float64
}.

Record podGPUKey := mkKey {
  KNamespace : string; KPod : string; KPodUID : string; KUUID : string; KIndex : Z
}.
#[global] Instance podGPUKey_eq_dec : EqDecision podGPUKey.
Proof. solve_decision. Defined.
#[global] Instance podGPUKey_countable : Countable podGPUKey :=
  inj_countable' (λ k, (KNamespace k, KPod k, KPodUID k, KUUID k, KIndex k))
    (λ '(n, p, u, g, i), mkKey n p u g i) (λ k, match k with mkKey _ _ _ _ _ => eq_refl end).

Definition podGPUKeyForMetric (m : PodGPUMetric) : podGPUKey :=
  mkKey (MNamespace m) (MPod m) (MPodUID m) (MGPUUUID m) (MGPUIndex m).

(** [ActivePodUIDs] is nil until the first cycle. *)
Record PodSnapshot := mkPodSnapshot { Metrics : list PodGPUMetric; SnapPodUIDs : option (gset string) }.

(** ** Constants and the engine *)

Definition maxSMUtilPercent : Z := 100.
Definition fullGPUFraction : Z := 1.
Definition engineBytesPerMiB : Z := 1024 * 1024.

Record metricsEngine := mkEngine {
  smUtilWindowSize : Z;
  smUtilBuf : gmap podGPUKey (list float64);
  deviceUUIDs : gmap Z string;
  minorToNVMLIndex : gmap Z Z;
  deviceTotalMemoryBytes : gmap Z Z;
  snapshot : PodSnapshot
}.

Definition newMetricsController (interval smUtilWindow : Z) : metricsEngine :=
  let windowSize :=
    if (0 <? interval) && (interval <? smUtilWindow) then Z.quot smUtilWindow interval else 1 in
  mkEngine windowSize ∅ ∅ ∅ ∅ (mkPodSnapshot [] None).

(** [idlePodGPUMetric], also the fresh metric of a first process. *)
Definition idlePodGPUMetric (key : podGPUKey) : PodGPUMetric :=
  mkPodGPUMetric (KNamespace key) (KPod key) (KPodUID key) (KUUID key) (KIndex key) 0 f_zero f_zero f_zero.

Definition setSM (v : float64) (m : PodGPUMetric) : PodGPUMetric :=
  mkPodGPUMetric (MNamespace m) (MPod m) (MPodUID m) (MGPUUUID m) (MGPUIndex m) (MemoryBytes m) v
    (RequestedGPUFraction m) (SMUtilizationPercentNormalized m).
Definition setFraction (v : float64) (m : PodGPUMetric) : PodGPUMetric :=
  mkPodGPUMetric (MNamespace m) (MPod m) (MPodUID m) (MGPUUUID m) (MGPUIndex m) (MemoryBytes m)
    (SMUtilizationPercent m) v (SMUtilizationPercentNormalized m).
Definition setNormalized (v : float64) (m : PodGPUMetric) : PodGPUMetric :=
  mkPodGPUMetric (MNamespace m) (MPod m) (MPodUID m) (MGPUUUID m) (MGPUIndex m) (MemoryBytes m)
    (SMUtilizationPercent m) (RequestedGPUFraction m) v.

(** ** Observed devices *)

Definition podDeviceUUIDKey (key : podGPUKey) : string :=
  KNamespace key +:+ "/" +:+ KPodUID key +:+ "/uuid/" +:+ KUUID key.
Definition podDeviceIndexKey (key : podGPUKey) : string :=
  KNamespace key +:+ "/" +:+ KPodUID key +:+ "/index/" +:+ FormatInt (KIndex key).

Definition observePodDevice (observed : gset string) (key : podGPUKey) : gset string :=
  let observed :=
    if negb (String.eqb (KUUID key) "") then {[podDeviceUUIDKey key]} ∪ observed else observed in
  {[podDeviceIndexKey key]} ∪ observed.

Definition gpuObservedForPodDevice (observed : gset string) (key : podGPUKey) : bool :=
  (negb (String.eqb (KUUID key) "") && bool_decide (podDeviceUUIDKey key ∈ observed)) ||
  bool_decide (podDeviceIndexKey key ∈ observed).

(** ** Requested memory *)

Abbreviation mem_map := (gmap podGPUKey (gmap string Z)).

Definition recordRequestedMemory (memByKey : mem_map) (key : podGPUKey) (containerID : string) (memMiB : Z) : mem_map :=
  if (memMiB <=? 0) || String.eqb containerID "" then memByKey
  else <[key := <[containerID := memMiB]> (default ∅ (memByKey !! key))]> memByKey.

(** The sum wraps in [int64] and does not depend on the iteration order. *)
Definition sumRequestedMemory (byContainer : gmap string Z) : Z :=
  fold_left (λ sum memMiB, wrap64 (sum + memMiB)) (map_to_list byContainer).*2 0.

Definition gpuFraction (s : metricsEngine) (gpuIndex requestedMiB : Z) : float64 :=
  if requestedMiB <=? 0 then f_zero
  else
    let totalBytes := default 0 (deviceTotalMemoryBytes s !! gpuIndex) in
    if totalBytes =? 0 then f_zero
    else f_div (f_mul (f_of_int requestedMiB) (f_of_int engineBytesPerMiB)) (f_of_int totalBytes).

(** ** Learned device tables *)

Definition rememberDeviceTotalMemory (learned : gmap Z Z) (known : gmap Z Z) : gmap Z Z :=
  filter (λ '(_, total), total ≠ 0) learned ∪ known.
Definition rememberDeviceUUIDs (learned known : gmap Z string) : gmap Z string :=
  filter (λ '(_, uuid), uuid ≠ "") learned ∪ known.
Definition rememberMinorToNVMLIndex (learned known : gmap Z Z) : gmap Z Z := learned ∪ known.

(** ** Idle devices *)

Definition indexForUUID (order : list (Z * string)) (uuid : string) : option Z :=
  option_map fst (List.find (λ '(_, deviceUUID), String.eqb deviceUUID uuid) order).

Definition idlePodGPUKey (s : metricsEngine) (order : list (Z * string)) (container : ContainerInfo)
    (device : GPUDevice) : option podGPUKey :=
  let key uuid index := mkKey (Namespace container) (Pod container) (PodUID container) uuid index in
  if negb (String.eqb (UUID device) "") then
    Some (key (UUID device) (default (Index device) (indexForUUID order (UUID device))))
  else if negb (bool_decide (minorToNVMLIndex s = ∅)) then
    let minor := if (MinorNumber device =? 0) && negb (Index device =? 0) then Index device else MinorNumber device in
    match minorToNVMLIndex s !! minor with
    | None => None
    | Some nvmlIdx => Some (key (default "" (deviceUUIDs s !! nvmlIdx)) nvmlIdx)
    end
  else Some (key (default "" (deviceUUIDs s !! Index device)) (Index device)).

(** ** enrich *)

Record enriched := mkEnriched {
  byPodGPU : gmap podGPUKey PodGPUMetric;
  observedPodDevices : gset string;
  memByKey : mem_map;
  unmatched : Z
}.

Definition process_key (container : ContainerInfo) (process : GPUProcessMetric) : podGPUKey :=
  mkKey (Namespace container) (Pod container) (PodUID container) (PGPUUUID process) (PGPUIndex process).

Definition addProcess (process : GPUProcessMetric) (m : PodGPUMetric) : PodGPUMetric :=
  mkPodGPUMetric (MNamespace m) (MPod m) (MPodUID m) (MGPUUUID m) (MGPUIndex m)
    (wrapu64 (MemoryBytes m + UsedGPUMemoryBytes process))
    (f_add (SMUtilizationPercent m) (f_of_int (PSMUtilizationPercent process)))
    (RequestedGPUFraction m) (SMUtilizationPercentNormalized m).

(** The first loop of [enrich]. *)
Definition enrich_process (pods : podSource) (st : enriched) (process : GPUProcessMetric) : enriched :=
  if PID process =? 0 then st
  else
    match ResolveProcess pods process with
    | None => mkEnriched (byPodGPU st) (observedPodDevices st) (memByKey st) (unmatched st + 1)
    | Some container =>
        let key := process_key container process in
        let metric := default (idlePodGPUMetric key) (byPodGPU st !! key) in
        mkEnriched (<[key := addProcess process metric]> (byPodGPU st))
          (observePodDevice (observedPodDevices st) key)
          (recordRequestedMemory (memByKey st) key (ContainerID container) (RequestedMemoryMiB container))
          (unmatched st)
    end.

(** The second loop, over the devices of the active containers. *)
Definition enrich_device (s : metricsEngine) (uuid_order : ContainerInfo → GPUDevice → list (Z * string))
    (container : ContainerInfo) (st : enriched) (device : GPUDevice) : enriched :=
  match idlePodGPUKey s (uuid_order container device) container device with
  | None => st
  | Some key =>
      let mem := recordRequestedMemory (memByKey st) key (ContainerID container) (RequestedMemoryMiB container) in
      let byPod :=
        if bool_decide (is_Some (byPodGPU st !! key)) then byPodGPU st
        else if gpuObservedForPodDevice (observedPodDevices st) key then byPodGPU st
        else <[key := idlePodGPUMetric key]> (byPodGPU st) in
      mkEnriched byPod (observedPodDevices st) mem (unmatched st)
  end.

Definition enrich_container (s : metricsEngine) (uuid_order : ContainerInfo → GPUDevice → list (Z * string))
    (st : enriched) (container : ContainerInfo) : enriched :=
  fold_left (enrich_device s uuid_order container) (elems (GPUDevices container)) st.

(** The last loop: clamp and attach the requested fraction. *)
Definition finish_metric (s : metricsEngine) (mem : mem_map) (entry : podGPUKey * PodGPUMetric) : PodGPUMetric :=
  let '(key, metric) := entry in
  let metric := if f_gt (SMUtilizationPercent metric) (f_of_int maxSMUtilPercent)
                then setSM (f_of_int maxSMUtilPercent) metric else metric in
  setFraction (gpuFraction s (KIndex key) (sumRequestedMemory (default ∅ (mem !! key)))) metric.

Definition enrich_loops (s : metricsEngine) (uuid_order : ContainerInfo → GPUDevice → list (Z * string))
    (processes : list GPUProcessMetric) (pods : podSource) : enriched :=
  fold_left (enrich_container s uuid_order) (SActiveContainers pods 1)
    (fold_left (enrich_process pods) processes (mkEnriched ∅ ∅ ∅ 0)).

Definition enrich (s : metricsEngine) (uuid_order : ContainerInfo → GPUDevice → list (Z * string))
    (order : gmap podGPUKey PodGPUMetric → list (podGPUKey * PodGPUMetric))
    (processes : list GPUProcessMetric) (pods : podSource) : list PodGPUMetric * Z :=
  let st := enrich_loops s uuid_order processes pods in
  (map (finish_metric s (memByKey st)) (order (byPodGPU st)), unmatched st).

(** ** The smoothing window *)

(** [buf[len(buf)-n:]] when longer than [n] *)
Definition keep_last {A} (n : Z) (buf : list A) : list A :=
  if n <? Z.of_nat (List.length buf) then drop (List.length buf - Z.to_nat n) buf else buf.

Definition pushSample (windowSize : Z) (smUtilBuf : gmap podGPUKey (list float64)) (key : podGPUKey)
    (sample : float64) : gmap podGPUKey (list float64) * float64 :=
  let buf := keep_last windowSize (default [] (smUtilBuf !! key) ++ [sample]) in
  (<[key := buf]> smUtilBuf, f_div (f_sum buf) (f_of_int (Z.of_nat (List.length buf)))).

(** The first loop of [windowedSMUtil], over the metrics. *)
Fixpoint push_metrics (windowSize : Z) (smUtilBuf : gmap podGPUKey (list float64)) (metrics : list PodGPUMetric)
    : gmap podGPUKey (list float64) * list PodGPUMetric :=
  match metrics with
  | [] => (smUtilBuf, [])
  | m :: metrics =>
      let '(smUtilBuf, v) := pushSample windowSize smUtilBuf (podGPUKeyForMetric m) (SMUtilizationPercent m) in
      let '(smUtilBuf, out) := push_metrics windowSize smUtilBuf metrics in
      (smUtilBuf, setSM v m :: out)
  end.

Definition windowedSMUtil (windowSize : Z) (smUtilBuf : gmap podGPUKey (list float64)) (metrics : list PodGPUMetric)
    : gmap podGPUKey (list float64) * list PodGPUMetric :=
  let current : gset podGPUKey := list_to_set (map podGPUKeyForMetric metrics) in
  let '(smUtilBuf, metrics) := push_metrics windowSize smUtilBuf metrics in
  (filter (λ '(key, _), key ∈ current) smUtilBuf, metrics).

(** ** Normalisation *)

Definition normalizedSMUtil (smUtil fraction : float64) : float64 :=
  let fraction := if f_eq fraction f_zero then f_of_int fullGPUFraction else fraction in
  let normalized := f_div smUtil fraction in
  if f_gt normalized (f_of_int maxSMUtilPercent) then f_of_int maxSMUtilPercent else normalized.

Definition normalizeSMUtil (metrics : list PodGPUMetric) : list PodGPUMetric :=
  map (λ m, setNormalized (normalizedSMUtil (SMUtilizationPercent m) (RequestedGPUFraction m)) m) metrics.

(** ** One collect cycle *)

Definition setSnapshot (s : metricsEngine) (metrics : list PodGPUMetric) (activePodUIDs : gset string) : metricsEngine :=
  mkEngine (smUtilWindowSize s) (smUtilBuf s) (deviceUUIDs s) (minorToNVMLIndex s) (deviceTotalMemoryBytes s)
    (mkPodSnapshot metrics (Some activePodUIDs)).

(** The tables learned from the collector's snapshot. *)
Definition remember (s : metricsEngine) (g : GPUProcessSnapshot) : metricsEngine :=
  mkEngine (smUtilWindowSize s) (smUtilBuf s) (rememberDeviceUUIDs (DeviceUUIDs g) (deviceUUIDs s))
    (rememberMinorToNVMLIndex (DeviceMinorToNVMLIndex g) (minorToNVMLIndex s))
    (rememberDeviceTotalMemory (DeviceTotalMemoryBytes g) (deviceTotalMemoryBytes s)) (snapshot s).

Definition collect (s : metricsEngine) (g : GPUProcessSnapshot) (pods : podSource)
    (uuid_order : ContainerInfo → GPUDevice → list (Z * string))
    (order : gmap podGPUKey PodGPUMetric → list (podGPUKey * PodGPUMetric)) : metricsEngine :=
  match SActiveContainers pods 0 with
  | [] => setSnapshot s [] (SActivePodUIDs pods)
  | _ =>
      let s := remember s g in
      let '(metrics, _) := enrich s uuid_order order (Processes g) pods in
      let '(buf, metrics) :=
        if 1 <? smUtilWindowSize s then windowedSMUtil (smUtilWindowSize s) (smUtilBuf s) metrics
        else (smUtilBuf s, metrics) in
      let s := mkEngine (smUtilWindowSize s) buf (deviceUUIDs s) (minorToNVMLIndex s)
                 (deviceTotalMemoryBytes s) (snapshot s) in
      setSnapshot s (normalizeSMUtil metrics) (SActivePodUIDs pods)
  end.

(** ** Reference definitions

    The pod x GPU key a process is attributed to, and the processes of a key. *)

Definition owner (pods : podSource) (process : GPUProcessMetric) : option podGPUKey :=
  if PID process =? 0 then None
  else option_map (λ c, process_key c process) (ResolveProcess pods process).

Definition attributed (pods : podSource) (processes : list GPUProcessMetric) (k : podGPUKey) : list GPUProcessMetric :=
  filter (λ p, owner pods p = Some k) processes.

(** The keys the devices of a container resolve to. *)
Definition device_keys (s : metricsEngine) (uuid_order : ContainerInfo → GPUDevice → list (Z * string))
    (container : ContainerInfo) : list podGPUKey :=
  omap (λ d, idlePodGPUKey s (uuid_order container d) container d) (elems (GPUDevices container)).

(** The devices the processes were seen on. *)
Definition observed_devices (pods : podSource) (processes : list GPUProcessMetric) : gset string :=
  fold_left observePodDevice (omap (owner pods) processes) ∅.

(** A container counts towards a key through a process or through a device. *)
Definition contributes (s : metricsEngine) (uuid_order : ContainerInfo → GPUDevice → list (Z * string))
    (pods : podSource) (processes : list GPUProcessMetric) (k : podGPUKey) (c : ContainerInfo) : bool :=
  existsb (λ p, negb (PID p =? 0) && bool_decide (ResolveProcess pods p = Some c) &&
                bool_decide (process_key c p = k)) processes ||
  bool_decide (k ∈ device_keys s uuid_order c).

Definition requested (c : ContainerInfo) : bool := 0 <? RequestedMemoryMiB c.

(** ** Lemmas: the first loop *)

Lemma enrich_process_byPod pods st p k :
  byPodGPU (enrich_process pods st p) !! k =
    if decide (owner pods p = Some k)
    then Some (addProcess p (default (idlePodGPUMetric k) (byPodGPU st !! k)))
    else byPodGPU st !! k.
Proof.
  unfold enrich_process, owner. destruct (PID p =? 0); [by rewrite decide_False by done|].
  destruct (ResolveProcess pods p) as [c|]; cbn [option_map]; [|by rewrite decide_False by done].
  cbn [byPodGPU]. case_decide as Hk.
  - injection Hk as <-. by rewrite lookup_insert_eq.
  - rewrite lookup_insert_ne; [done|]. intros Heq. by destruct Hk; f_equal.
Qed.

(** What a list of processes adds up to. *)
Definition accumulate (k : podGPUKey) (ps : list GPUProcessMetric) : PodGPUMetric :=
  fold_left (λ m p, addProcess p m) ps (idlePodGPUMetric k).

Lemma processes_byPod pods ps k :
  byPodGPU (fold_left (enrich_process pods) ps (mkEnriched ∅ ∅ ∅ 0)) !! k =
    match attributed pods ps k with [] => None | l => Some (accumulate k l) end.
Proof.
  unfold attributed. induction ps as [|p ps IH] using rev_ind; [done|].
  rewrite fold_left_app, list.filter_app, filter_cons, filter_nil. cbn [fold_left].
  rewrite enrich_process_byPod, IH. case_decide.
  - destruct (filter _ ps) as [|p' l]; [done|]. cbn [app default id from_option].
    unfold accumulate. change (p' :: l ++ [p]) with ((p' :: l) ++ [p]). by rewrite fold_left_app.
  - by rewrite app_nil_r.
Qed.

Lemma processes_observed pods ps :
  observedPodDevices (fold_left (enrich_process pods) ps (mkEnriched ∅ ∅ ∅ 0)) = observed_devices pods ps.
Proof.
  unfold observed_devices.
  assert (∀ st, observedPodDevices (fold_left (enrich_process pods) ps st) =
    fold_left observePodDevice (omap (owner pods) ps) (observedPodDevices st)) as H; [|apply H].
  induction ps as [|p ps IH]; intros st; cbn [fold_left omap list_omap]; [done|].
  rewrite IH. unfold enrich_process, owner. destruct (PID p =? 0); [done|].
  by destruct (ResolveProcess pods p).
Qed.

Lemma accumulate_spec k ps :
  let m := accumulate k ps in
  podGPUKeyForMetric m = k ∧
  MemoryBytes m = wrapu64 (foldr Z.add 0 (map UsedGPUMemoryBytes ps)) ∧
  SMUtilizationPercent m = f_sum (map (λ p, f_of_int (PSMUtilizationPercent p)) ps).
Proof.
  cbv zeta. unfold accumulate. induction ps as [|p ps IH] using rev_ind.
  { split; [by destruct k|]. done. }
  rewrite fold_left_app. cbn [fold_left]. set (m := fold_left _ ps _) in *. clearbody m.
  destruct IH as (Hk & Hmem & Hsm). unfold addProcess, podGPUKeyForMetric in *.
  cbn [MNamespace MPod MPodUID MGPUUUID MGPUIndex MemoryBytes SMUtilizationPercent].
  split; [done|]. split.
  - rewrite Hmem, map_app, foldr_app. cbn [map foldr]. unfold wrapu64. rewrite Z.add_mod_idemp_l by lia. f_equal.
    generalize (map UsedGPUMemoryBytes ps) as l. induction l as [|x l IH]; cbn [foldr]; lia.
  - rewrite Hsm, map_app. unfold f_sum. by rewrite fold_left_app.
Qed.

(** ** Lemmas: the second loop *)

Lemma enrich_device_byPod s uo c st d k :
  byPodGPU (enrich_device s uo c st d) !! k =
    match byPodGPU st !! k with
    | Some m => Some m
    | None => if decide (idlePodGPUKey s (uo c d) c d = Some k ∧ gpuObservedForPodDevice (observedPodDevices st) k = false)
              then Some (idlePodGPUMetric k) else None
    end.
Proof.
  unfold enrich_device. destruct (idlePodGPUKey s (uo c d) c d) as [key|]; cbn [byPodGPU].
  2: { rewrite decide_False by naive_solver. by destruct (byPodGPU st !! k). }
  case_bool_decide as Hkey.
  { destruct (byPodGPU st !! k) as [m|] eqn:Ek; [done|]. rewrite decide_False; [done|].
    intros [[= ->] _]. rewrite Ek in Hkey. by destruct Hkey. }
  apply eq_None_not_Some in Hkey. destruct (gpuObservedForPodDevice _ key) eqn:Eo.
  { destruct (byPodGPU st !! k) as [m|] eqn:Ek; [done|]. rewrite decide_False; [done|].
    intros [[= ->] ?]. congruence. }
  destruct (decide (key = k)) as [->|Hne].
  - by rewrite lookup_insert_eq, Hkey, decide_True by done.
  - rewrite lookup_insert_ne by done. destruct (byPodGPU st !! k); [done|]. by rewrite decide_False by naive_solver.
Qed.

Lemma enrich_device_observed s uo c st d :
  observedPodDevices (enrich_device s uo c st d) = observedPodDevices st.
Proof. unfold enrich_device. by destruct (idlePodGPUKey _ _ _ _). Qed.

Lemma enrich_container_spec s uo c st k :
  observedPodDevices (enrich_container s uo st c) = observedPodDevices st ∧
  byPodGPU (enrich_container s uo st c) !! k =
    match byPodGPU st !! k with
    | Some m => Some m
    | None => if decide (k ∈ device_keys s uo c ∧ gpuObservedForPodDevice (observedPodDevices st) k = false)
              then Some (idlePodGPUMetric k) else None
    end.
Proof.
  unfold enrich_container, device_keys. generalize (elems (GPUDevices c)) as ds. intros ds.
  induction ds as [|d ds IH] using rev_ind.
  { cbn [fold_left omap list_omap]. split; [done|]. rewrite decide_False by (intros [?%elem_of_nil _]; done).
    by destruct (byPodGPU st !! k). }
  rewrite !fold_left_app. cbn [fold_left]. destruct IH as [IHo IHk].
  rewrite enrich_device_observed, enrich_device_byPod, IHo, IHk. split; [done|].
  rewrite omap_app. destruct (byPodGPU st !! k) as [m|]; [done|].
  repeat case_decide; try done; exfalso; rewrite elem_of_app in *; cbn [omap list_omap] in *;
    destruct (idlePodGPUKey s (uo c d) c d) as [key|]; rewrite ?list_elem_of_singleton, ?elem_of_nil in *; naive_solver.
Qed.

(** The keys of idle devices: those of the active containers, unless a process
    of the same pod was seen on the device. *)
Definition idle_keys (s : metricsEngine) (uo : ContainerInfo → GPUDevice → list (Z * string))
    (pods : podSource) (ps : list GPUProcessMetric) (cs : list ContainerInfo) : list podGPUKey :=
  filter (λ k, gpuObservedForPodDevice (observed_devices pods ps) k = false) (cs ≫= device_keys s uo).

Lemma loops_byPod s uo ps pods k :
  byPodGPU (enrich_loops s uo ps pods) !! k =
    match attributed pods ps k with
    | [] => if decide (k ∈ idle_keys s uo pods ps (SActiveContainers pods 1)) then Some (idlePodGPUMetric k) else None
    | l => Some (accumulate k l)
    end.
Proof.
  unfold enrich_loops, idle_keys. rewrite <- (processes_observed pods ps).
  set (st := fold_left (enrich_process pods) ps _).
  assert (∀ cs, observedPodDevices (fold_left (enrich_container s uo) cs st) = observedPodDevices st ∧
    byPodGPU (fold_left (enrich_container s uo) cs st) !! k =
    match byPodGPU st !! k with
    | Some m => Some m
    | None => if decide (k ∈ filter (λ k, gpuObservedForPodDevice (observedPodDevices st) k = false)
                  (cs ≫= device_keys s uo)) then Some (idlePodGPUMetric k) else None
    end) as Hcs.
  { induction cs as [|c cs [IHo IHk]] using rev_ind.
    { split; [done|]. cbn [fold_left]. rewrite decide_False by (apply not_elem_of_nil). by destruct (byPodGPU st !! k). }
    rewrite fold_left_app. cbn [fold_left].
    destruct (enrich_container_spec s uo c (fold_left (enrich_container s uo) cs st) k) as [-> ->].
    rewrite IHo, IHk. split; [done|]. destruct (byPodGPU st !! k) as [m|]; [done|].
    rewrite bind_app. cbn [mbind list_bind]. rewrite app_nil_r.
    repeat case_decide; try done; exfalso; rewrite list_elem_of_filter, elem_of_app in *; naive_solver. }
  rewrite (proj2 (Hcs _)). subst st. rewrite processes_byPod. by destruct (attributed pods ps k).
Qed.

(** ** Lemmas: requested memory *)

(** The containers recorded under the keys, in the order of the loops. *)
Definition records (s : metricsEngine) (uo : ContainerInfo → GPUDevice → list (Z * string))
    (pods : podSource) (ps : list GPUProcessMetric) (cs : list ContainerInfo) : list (podGPUKey * ContainerInfo) :=
  omap (λ p, if PID p =? 0 then None else option_map (λ c, (process_key c p, c)) (ResolveProcess pods p)) ps ++
  (cs ≫= λ c, map (λ k, (k, c)) (device_keys s uo c)).

Definition record_event (M : mem_map) (e : podGPUKey * ContainerInfo) : mem_map :=
  recordRequestedMemory M e.1 (ContainerID e.2) (RequestedMemoryMiB e.2).

Lemma loops_mem s uo ps pods :
  memByKey (enrich_loops s uo ps pods) = fold_left record_event (records s uo pods ps (SActiveContainers pods 1)) ∅.
Proof.
  unfold enrich_loops, records. rewrite fold_left_app.
  assert (∀ st, memByKey (fold_left (enrich_process pods) ps st) =
    fold_left record_event (omap (λ p, if PID p =? 0 then None else
      option_map (λ c, (process_key c p, c)) (ResolveProcess pods p)) ps) (memByKey st)) as Hps.
  { induction ps as [|p ps IH]; intros st; [done|]. cbn [fold_left omap list_omap]. rewrite IH.
    unfold enrich_process. destruct (PID p =? 0); [done|]. by destruct (ResolveProcess pods p). }
  assert (∀ c st, memByKey (enrich_container s uo st c) =
    fold_left record_event (map (λ k, (k, c)) (device_keys s uo c)) (memByKey st)) as Hc.
  { intros c. unfold enrich_container, device_keys. induction (elems (GPUDevices c)) as [|d ds IH]; intros st; [done|].
    cbn [fold_left omap list_omap]. rewrite IH. unfold enrich_device.
    by destruct (idlePodGPUKey s (uo c d) c d). }
  generalize (SActiveContainers pods 1) as cs. intros cs.
  change ∅ with (memByKey (mkEnriched ∅ ∅ ∅ 0)) at 4. rewrite <- Hps.
  generalize (fold_left (enrich_process pods) ps (mkEnriched ∅ ∅ ∅ 0)) as st.
  induction cs as [|c cs IH]; intros st; [done|].
  cbn [fold_left mbind list_bind]. rewrite fold_left_app, IH, Hc. done.
Qed.

Definition recorded (M : mem_map) (k : podGPUKey) : gmap string Z := default ∅ (M !! k).

Lemma record_event_lookup M key c k cid :
  recorded (record_event M (key, c)) k !! cid =
    if decide (key = k ∧ ContainerID c = cid ∧ requested c = true ∧ cid ≠ "") then Some (RequestedMemoryMiB c)
    else recorded M k !! cid.
Proof.
  unfold record_event, recordRequestedMemory, requested, recorded. cbn [fst snd].
  destruct (Z.leb_spec (RequestedMemoryMiB c) 0) as [Hm|Hm]; cbn [orb].
  { rewrite decide_False; [done|]. intros (_ & _ & H & _). bool_simpl. lia. }
  destruct (String.eqb_spec (ContainerID c) "") as [He|He].
  { rewrite decide_False; [done|]. intros (_ & <- & _ & ?). done. }
  destruct (decide (key = k)) as [->|Hk].
  - rewrite lookup_insert_eq. cbn [default from_option id].
    destruct (decide (ContainerID c = cid)) as [<-|Hid].
    + rewrite lookup_insert_eq, decide_True; [done|]. repeat split; [by apply Z.ltb_lt|done].
    + rewrite lookup_insert_ne, decide_False by naive_solver. done.
  - rewrite lookup_insert_ne, decide_False by naive_solver. done.
Qed.

(** With one container per ID, exactly the recorded containers are counted. *)
Lemma recorded_spec events k cid v :
  (∀ e e', e ∈ events → e' ∈ events → ContainerID e.2 = ContainerID e'.2 → e.2 = e'.2) →
  recorded (fold_left record_event events ∅) k !! cid = Some v ↔
    cid ≠ "" ∧ ∃ c, (k, c) ∈ events ∧ ContainerID c = cid ∧ requested c = true ∧ RequestedMemoryMiB c = v.
Proof.
  intros Hdep. induction events as [|[key c] events IH] using rev_ind.
  { split; [done|]. by intros (_ & c & ?%elem_of_nil & _). }
  rewrite fold_left_app. cbn [fold_left]. rewrite record_event_lookup.
  assert (recorded (fold_left record_event events ∅) k !! cid = Some v ↔
    cid ≠ "" ∧ ∃ c, (k, c) ∈ events ∧ ContainerID c = cid ∧ requested c = true ∧ RequestedMemoryMiB c = v) as IH'.
  { apply IH. intros e e' He He'. apply Hdep; apply elem_of_app; by left. }
  clear IH. case_decide as Hc.
  - destruct Hc as (-> & Hid & Hr & Hne). split.
    + intros [= <-]. split; [done|]. exists c. split; [|done]. apply elem_of_app. right. by apply list_elem_of_singleton.
    + intros (_ & c' & Hin & Hid' & _ & <-). f_equal. f_equal.
      apply (Hdep (k, c) (k, c')); [apply elem_of_app; right; by apply list_elem_of_singleton|done|cbn; congruence].
  - rewrite IH'. split; intros (Hne & c' & Hin & Hid' & Hr & Hv); (split; [done|]); exists c'.
    + split; [|done]. apply elem_of_app. by left.
    + split; [|done]. apply elem_of_app in Hin as [|[= <- <-]%list_elem_of_singleton]; [done|]. by destruct Hc.
Qed.

Lemma wrap64_add_l a b : wrap64 (wrap64 a + b) = wrap64 (a + b).
Proof.
  unfold wrap64. replace ((a + 2 ^ 63) mod 2 ^ 64 - 2 ^ 63 + b + 2 ^ 63) with ((a + 2 ^ 63) mod 2 ^ 64 + b) by lia.
  rewrite Z.add_mod_idemp_l by lia. do 2 f_equal. lia.
Qed.

(** The sum is that of any listing of the map, wrapped once. *)
Lemma sumRequestedMemory_perm M l : l ≡ₚ (map_to_list M).*2 → sumRequestedMemory M = wrap64 (foldr Z.add 0 l).
Proof.
  intros Hl. unfold sumRequestedMemory.
  assert (∀ l acc, fold_left (λ sum m, wrap64 (sum + m)) l (wrap64 acc) = wrap64 (acc + foldr Z.add 0 l)) as H.
  { clear. induction l as [|x l IH]; intros acc; cbn [fold_left foldr]; [by rewrite Z.add_0_r|].
    rewrite wrap64_add_l, IH. f_equal. lia. }
  change 0 with (wrap64 0) at 1. rewrite H, Z.add_0_l. f_equal.
  apply (foldr_permutation_proper (=) Z.add); [apply _|lia|by symmetry].
Qed.

Section requested_memory.
Context (s : metricsEngine) (uo : ContainerInfo → GPUDevice → list (Z * string)).
Context (pods : podSource) (cs : list ContainerInfo) `{Hok : !PodSourceOk pods cs}.
Context (ps : list GPUProcessMetric).

Lemma same_id c c' : c ∈ cs → c' ∈ cs → ContainerID c = ContainerID c' → c = c'.
Proof.
  intros [i Hi]%list_elem_of_lookup [j Hj]%list_elem_of_lookup Hid.
  assert (i = j) as ->; [|congruence].
  eapply (NoDup_lookup (map ContainerID cs)); [apply ps_ids| |].
  - change (map ContainerID cs) with (ContainerID <$> cs). by rewrite list_lookup_fmap, Hi.
  - change (map ContainerID cs) with (ContainerID <$> cs). rewrite list_lookup_fmap, Hj. cbn. by rewrite Hid.
Qed.

Lemma elem_of_records k c :
  (k, c) ∈ records s uo pods ps (SActiveContainers pods 1) ↔ c ∈ cs ∧ contributes s uo pods ps k c = true.
Proof.
  unfold records, contributes.
  rewrite elem_of_app, orb_true_iff, bool_decide_eq_true, existsb_exists, list_elem_of_bind.
  assert (c ∈ SActiveContainers pods 1 ↔ c ∈ cs) as Hact by (by rewrite ps_active).
  split.
  - intros [(p & Hp & Hr)%list_elem_of_omap|(c' & Hin & Hc)].
    + destruct (Z.eqb_spec (PID p) 0); [done|]. destruct (ResolveProcess pods p) as [c'|] eqn:Er; [|done].
      injection Hr as <- <-. split; [by eapply ps_resolve|]. left. exists p. split; [by apply list_elem_of_In|].
      rewrite Er, !bool_decide_true by done. by rewrite (proj2 (Z.eqb_neq _ _)) by done.
    + apply list_elem_of_fmap in Hin as (k' & [= -> ->] & Hk). split; [by apply Hact|by right].
  - intros [Hc [(p & Hp%list_elem_of_In & Hr)|Hk]].
    + left. apply list_elem_of_omap. exists p. split; [done|]. bool_simpl.
      destruct (Z.eqb_spec (PID p) 0); [done|].
      match goal with H : ResolveProcess pods p = _ |- _ => rewrite H end. cbn [option_map]. by f_equal; f_equal.
    + right. exists c. split; [|by apply Hact]. apply list_elem_of_fmap. by exists k.
Qed.

(** The containers whose request counts under a key. *)
Definition contributors (k : podGPUKey) : list ContainerInfo :=
  filter (λ c, contributes s uo pods ps k c && requested c = true) cs.

Lemma loops_requested k :
  sumRequestedMemory (recorded (memByKey (enrich_loops s uo ps pods)) k) =
    wrap64 (foldr Z.add 0 (map RequestedMemoryMiB (contributors k))).
Proof.
  set (M := recorded _ k). apply sumRequestedMemory_perm.
  set (l := map (λ c, (ContainerID c, RequestedMemoryMiB c)) (contributors k)).
  assert (l.*1 = map ContainerID (contributors k)) as Hl1.
  { subst l. change (fst <$> ((λ c, (ContainerID c, RequestedMemoryMiB c)) <$> contributors k) = ContainerID <$> contributors k).
    by rewrite <- list_fmap_compose. }
  assert (NoDup l.*1) as Hnd.
  { rewrite Hl1. eapply sublist_NoDup; [apply ps_ids|]. apply fmap_sublist, list.sublist_filter. }
  assert (M = list_to_map l) as HM.
  { apply map_eq. intros cid. apply option_eq. intros v.
    rewrite <- elem_of_list_to_map by done. subst M. rewrite loops_mem, recorded_spec.
    - subst l. change (map ?f ?x) with (f <$> x). rewrite list_elem_of_fmap.
      unfold contributors. setoid_rewrite list_elem_of_filter. setoid_rewrite elem_of_records.
      setoid_rewrite andb_true_iff. split.
      + intros (Hne & c & (Hc & Hk) & <- & Hr & <-). by exists c.
      + intros (c & [= -> ->] & (Hk & Hr) & Hc). split; [by eapply ps_named|]. by exists c.
    - intros [k1 c1] [k2 c2] [H1 _]%elem_of_records [H2 _]%elem_of_records. cbn. by apply same_id. }
  assert (map_to_list M ≡ₚ l) as -> by (rewrite HM; by apply map_to_list_to_map).
  subst l. change (map RequestedMemoryMiB (contributors k) ≡ₚ
    snd <$> ((λ c, (ContainerID c, RequestedMemoryMiB c)) <$> contributors k)).
  by rewrite <- list_fmap_compose.
Qed.
End requested_memory.

(** ** Lemmas: observed devices *)

Definition slash_free (a : string) : Prop := Forall (λ x, x ≠ slash) (bytes_of a).

#[global] Instance slash_free_dec a : Decision (slash_free a).
Proof. unfold slash_free. apply _. Defined.

Lemma slash_free_inj a a' b b' : slash_free a → slash_free a' →
  a +:+ "/" +:+ b = a' +:+ "/" +:+ b' → a = a' ∧ b = b'.
Proof.
  unfold slash_free. revert a'. induction a as [|x a IH]; intros [|x' a'] Ha Ha' Heq; cbn in *.
  - by injection Heq.
  - injection Heq as <- _. by apply list.Forall_cons in Ha' as [? _].
  - injection Heq as -> _. by apply list.Forall_cons in Ha as [? _].
  - injection Heq as <- Heq. apply list.Forall_cons in Ha as [_ Ha]. apply list.Forall_cons in Ha' as [_ Ha'].
    destruct (IH a' Ha Ha' Heq) as [-> ->]. done.
Qed.

Definition pod_named (k : podGPUKey) : Prop := slash_free (KNamespace k) ∧ slash_free (KPodUID k).

(** Two keys of one pod that name the same device. *)
Definition same_device (k k' : podGPUKey) : Prop :=
  KNamespace k = KNamespace k' ∧ KPodUID k = KPodUID k' ∧
  (KUUID k ≠ "" ∧ KUUID k = KUUID k' ∨ KIndex k = KIndex k').

Lemma device_strings k k' : pod_named k → pod_named k' →
  (podDeviceUUIDKey k = podDeviceUUIDKey k' ↔
     KNamespace k = KNamespace k' ∧ KPodUID k = KPodUID k' ∧ KUUID k = KUUID k') ∧
  (podDeviceIndexKey k = podDeviceIndexKey k' ↔
     KNamespace k = KNamespace k' ∧ KPodUID k = KPodUID k' ∧ KIndex k = KIndex k') ∧
  podDeviceUUIDKey k ≠ podDeviceIndexKey k'.
Proof.
  intros [Hn Hu] [Hn' Hu']. unfold podDeviceUUIDKey, podDeviceIndexKey.
  assert (∀ x y, KNamespace k +:+ "/" +:+ KPodUID k +:+ "/" +:+ x = KNamespace k' +:+ "/" +:+ KPodUID k' +:+ "/" +:+ y →
    KNamespace k = KNamespace k' ∧ KPodUID k = KPodUID k' ∧ x = y) as Hstrip.
  { intros x y H. destruct (slash_free_inj _ _ _ _ Hn Hn' H) as [? H'].
    by destruct (slash_free_inj _ _ _ _ Hu Hu' H') as [? ?]. }
  split; [|split].
  - split; [|by intros (-> & -> & ->)]. intros H. destruct (Hstrip ("uuid/" +:+ _) ("uuid/" +:+ _) H) as (? & ? & ?%str_app_inj_l). done.
  - split; [|by intros (-> & -> & ->)]. intros H. destruct (Hstrip ("index/" +:+ _) ("index/" +:+ _) H) as (? & ? & Hi%str_app_inj_l).
    split; [done|]. split; [done|].
    pose proof (decimal_value_FormatInt (KIndex k)) as Hv. rewrite Hi, decimal_value_FormatInt in Hv. by injection Hv.
  - intros H. by destruct (Hstrip ("uuid/" +:+ _) ("index/" +:+ _) H) as (_ & _ & ?).
Qed.

Lemma observed_spec keys k : pod_named k → Forall pod_named keys →
  gpuObservedForPodDevice (fold_left observePodDevice keys ∅) k = true ↔ ∃ k', k' ∈ keys ∧ same_device k k'.
Proof.
  intros Hk Hkeys. unfold gpuObservedForPodDevice.
  assert (∀ x, x ∈ fold_left observePodDevice keys ∅ ↔
    ∃ k', k' ∈ keys ∧ (x = podDeviceIndexKey k' ∨ KUUID k' ≠ "" ∧ x = podDeviceUUIDKey k')) as Hin.
  { intros x. induction keys as [|k' keys IH] using rev_ind.
    { split; [by intros ?%elem_of_empty|]. by intros (? & ?%elem_of_nil & _). }
    apply list.Forall_app in Hkeys as [Hkeys _]. specialize (IH Hkeys).
    rewrite fold_left_app. cbn [fold_left]. setoid_rewrite elem_of_app. setoid_rewrite list_elem_of_singleton.
    assert (∀ X, x ∈ observePodDevice X k' ↔
      (x = podDeviceIndexKey k' ∨ KUUID k' ≠ "" ∧ x = podDeviceUUIDKey k') ∨ x ∈ X) as ->.
    { intros X. unfold observePodDevice. destruct (String.eqb_spec (KUUID k') "") as [E|E]; cbn [negb];
        rewrite !elem_of_union, !elem_of_singleton; tauto. }
    rewrite IH. split; [intros [H|(k0 & ? & ?)]; eauto|intros (k0 & [? | ->] & ?); eauto]. }
  rewrite orb_true_iff, andb_true_iff, negb_true_iff, String.eqb_neq, !bool_decide_eq_true, !Hin.
  rewrite list.Forall_forall in Hkeys. unfold same_device. split.
  - intros [(Hne & k' & Hk' & H)|(k' & Hk' & H)]; exists k'; (split; [done|]);
      destruct (device_strings k k' Hk (Hkeys k' Hk')) as (H1 & H2 & H3);
      destruct (device_strings k' k (Hkeys k' Hk') Hk) as (_ & _ & H4); naive_solver.
  - intros (k' & Hk' & Hn & Hu & Hd).
    destruct (device_strings k k' Hk (Hkeys k' Hk')) as (H1 & H2 & H3). naive_solver congruence.
Qed.

Lemma device_keys_pod s uo c k : k ∈ device_keys s uo c → KNamespace k = Namespace c ∧ KPodUID k = PodUID c.
Proof.
  intros (d & _ & Hk)%list_elem_of_omap. revert Hk. unfold idlePodGPUKey.
  repeat case_match; intros [= <-]; done.
Qed.

Lemma idle_keys_spec s uo pods cs ps k `{Hok : !PodSourceOk pods cs} :
  (∀ c, c ∈ cs → slash_free (Namespace c) ∧ slash_free (PodUID c)) →
  k ∈ idle_keys s uo pods ps (SActiveContainers pods 1) ↔
    (∃ c, c ∈ cs ∧ k ∈ device_keys s uo c) ∧
    ¬ (∃ p k', p ∈ ps ∧ owner pods p = Some k' ∧ same_device k k').
Proof.
  intros Hnames. unfold idle_keys, observed_devices. rewrite list_elem_of_filter, list_elem_of_bind.
  assert (Forall pod_named (omap (owner pods) ps)) as Hobs.
  { apply list.Forall_forall. intros k' (p & _ & Hk)%list_elem_of_omap. unfold owner in Hk.
    destruct (PID p =? 0); [done|]. destruct (ResolveProcess pods p) as [c|] eqn:E; [|done].
    injection Hk as <-. apply Hnames. by eapply ps_resolve. }
  assert ((∃ c, k ∈ device_keys s uo c ∧ c ∈ SActiveContainers pods 1) ↔ ∃ c, c ∈ cs ∧ k ∈ device_keys s uo c) as Hc.
  { split; intros (c & H1 & H2); exists c; (split; [|]; try done); [by rewrite <- (ps_active 1)|by rewrite ps_active]. }
  rewrite Hc. split.
  - intros [Ho (c & Hin & Hk)]. split; [by exists c|]. intros (p & k' & Hp & Hk' & Hsame).
    rewrite <- not_true_iff_false in Ho. apply Ho. apply observed_spec; [|done|].
    + destruct (device_keys_pod s uo c k Hk) as [H1 H2]. unfold pod_named. rewrite H1, H2. by apply Hnames.
    + exists k'. split; [|done]. apply list_elem_of_omap. by exists p.
  - intros [(c & Hin & Hk) Hno]. split; [|by exists c]. apply not_true_iff_false. intros Ho.
    apply observed_spec in Ho as (k' & (p & Hp & Hk')%list_elem_of_omap & Hsame); [|..|done].
    + apply Hno. by exists p, k'.
    + destruct (device_keys_pod s uo c k Hk) as [H1 H2]. unfold pod_named. rewrite H1, H2. by apply Hnames.
Qed.

(** ** Lemmas: what smoothing and normalisation leave alone *)

Definition base (m : PodGPUMetric) : podGPUKey * Z * float64 :=
  (podGPUKeyForMetric m, MemoryBytes m, RequestedGPUFraction m).

Lemma push_metrics_base w ms : ∀ buf, map base (push_metrics w buf ms).2 = map base ms.
Proof.
  induction ms as [|m ms IH]; intros buf; [done|]. cbn [push_metrics].
  destruct (pushSample w buf _ _) as [buf' v]. specialize (IH buf').
  destruct (push_metrics w buf' ms) as [buf'' out]. cbn [snd map] in *. by rewrite IH.
Qed.

Lemma windowed_base w buf ms : map base (windowedSMUtil w buf ms).2 = map base ms.
Proof.
  unfold windowedSMUtil. pose proof (push_metrics_base w ms buf) as H.
  by destruct (push_metrics w buf ms) as [buf' out].
Qed.

Lemma normalize_base ms : map base (normalizeSMUtil ms) = map base ms.
Proof. unfold normalizeSMUtil. rewrite map_map. by apply map_ext. Qed.

(** The metrics of a cycle before smoothing. *)
Abbreviation raw_metrics s g pods uo order :=
  (enrich (remember s g) uo order (Processes g) pods).1.

Lemma collect_base s g pods uo order : SActiveContainers pods 0 ≠ [] →
  map base (Metrics (snapshot (collect s g pods uo order))) = map base (raw_metrics s g pods uo order).
Proof.
  intros Hne. unfold collect. destruct (SActiveContainers pods 0) as [|c cs]; [done|].
  destruct (enrich _ uo order (Processes g) pods) as [ms u]. cbn [fst].
  destruct (1 <? _).
  - pose proof (windowed_base (smUtilWindowSize (remember s g)) (smUtilBuf (remember s g)) ms) as H.
    destruct (windowedSMUtil _ _ ms) as [buf out]. cbn [snapshot setSnapshot Metrics snd] in *. by rewrite normalize_base.
  - cbn [snapshot setSnapshot Metrics]. apply normalize_base.
Qed.

Lemma finish_metric_base s M k m : podGPUKeyForMetric m = k →
  base (finish_metric s M (k, m)) = (k, MemoryBytes m, gpuFraction s (KIndex k) (sumRequestedMemory (recorded M k))).
Proof. intros <-. unfold finish_metric, base. by destruct (f_gt _ _). Qed.

Lemma loops_key s uo ps pods k m : byPodGPU (enrich_loops s uo ps pods) !! k = Some m → podGPUKeyForMetric m = k.
Proof.
  rewrite loops_byPod. destruct (attributed pods ps k) as [|p l]; [case_decide; [|done]|]; intros [= <-].
  - by destruct k.
  - apply (accumulate_spec k (p :: l)).
Qed.

(** ** Lemmas: utilization samples *)

(** The utilization a cycle attributes to a key, clamped. *)
Definition sm_total (pods : podSource) (ps : list GPUProcessMetric) (k : podGPUKey) : Z :=
  foldr Z.add 0 (map PSMUtilizationPercent (attributed pods ps k)).
Definition sm_sample (pods : podSource) (ps : list GPUProcessMetric) (k : podGPUKey) : Z :=
  Z.min maxSMUtilPercent (sm_total pods ps k).

(** The collector's numbers are machine integers of their declared widths, and a
    node runs fewer than 2^20 GPU processes. *)
Definition snapshot_typed (g : GPUProcessSnapshot) : Prop :=
  Forall (λ p, 0 ≤ PSMUtilizationPercent p < 2 ^ 32) (Processes g) ∧
  Z.of_nat (List.length (Processes g)) < 2 ^ 20 ∧
  (∀ i t, DeviceTotalMemoryBytes g !! i = Some t → 0 ≤ t < 2 ^ 64).

Lemma sum_bounded l b : Forall (λ n, 0 ≤ n < b) l → 0 ≤ foldr Z.add 0 l ≤ Z.of_nat (List.length l) * b.
Proof. induction 1 as [|x l Hx _ IH]; cbn [foldr List.length]; nia. Qed.

Lemma attributed_Forall (P : GPUProcessMetric → Prop) pods ps k : Forall P ps → Forall P (attributed pods ps k).
Proof.
  rewrite !list.Forall_forall. intros H p [_ Hp]%list_elem_of_filter. auto.
Qed.

Lemma sm_total_bounds pods g k : snapshot_typed g → 0 ≤ sm_total pods (Processes g) k < 2 ^ 53.
Proof.
  intros (Hp & Hlen & _). unfold sm_total.
  assert (Forall (λ n, 0 ≤ n < 2 ^ 32) (map PSMUtilizationPercent (attributed pods (Processes g) k))) as Hall.
  { apply Forall_map. by apply attributed_Forall. }
  apply sum_bounded in Hall. rewrite length_map in Hall.
  assert (List.length (attributed pods (Processes g) k) ≤ List.length (Processes g))%nat.
  { unfold attributed. apply length_filter. }
  nia.
Qed.

Lemma sm_sample_bounds pods g k : snapshot_typed g → 0 ≤ sm_sample pods (Processes g) k ≤ 100.
Proof. intros Hg. pose proof (sm_total_bounds pods g k Hg). unfold sm_sample, maxSMUtilPercent. lia. Qed.

(** A raw metric carries the clamped integer sum of its processes. *)
Lemma finish_sm s uo pods g k m M : snapshot_typed g →
  byPodGPU (enrich_loops s uo (Processes g) pods) !! k = Some m →
  SMUtilizationPercent (finish_metric s M (k, m)) = f_of_int (sm_sample pods (Processes g) k).
Proof.
  intros Hg Hm. assert (SMUtilizationPercent m = f_of_int (sm_total pods (Processes g) k)) as Hsm.
  { rewrite loops_byPod in Hm. unfold sm_total. destruct (attributed pods (Processes g) k) as [|p l] eqn:El.
    - case_decide; [|done]. by injection Hm as <-.
    - injection Hm as <-. destruct (accumulate_spec k (p :: l)) as (_ & _ & ->). rewrite <- El.
      rewrite <- (map_map PSMUtilizationPercent f_of_int). apply f_sum_int.
      + destruct Hg as (Hp & _). apply Forall_map. apply attributed_Forall.
        eapply list.Forall_impl; [exact Hp|]. cbn. lia.
      + apply (sm_total_bounds pods g k Hg). }
  pose proof (sm_total_bounds pods g k Hg) as Hb. unfold finish_metric, sm_sample, maxSMUtilPercent.
  rewrite Hsm, f_gt_int by lia. destruct (Z.ltb_spec 100 (sm_total pods (Processes g) k)); cbn [setFraction SMUtilizationPercent setSM].
  - by rewrite Z.min_l by lia.
  - by rewrite Hsm, Z.min_r by lia.
Qed.

Lemma raw_metrics_sm s g pods uo order : snapshot_typed g → (∀ m, order m ≡ₚ map_to_list m) →
  ∀ m, m ∈ raw_metrics s g pods uo order →
    SMUtilizationPercent m = f_of_int (sm_sample pods (Processes g) (podGPUKeyForMetric m)).
Proof.
  intros Hg Horder m Hm. unfold enrich in Hm. cbn [fst] in Hm.
  apply list_elem_of_fmap in Hm as ([k m'] & -> & Hin). rewrite (Horder _) in Hin.
  apply elem_of_map_to_list in Hin.
  assert (podGPUKeyForMetric (finish_metric (remember s g) (memByKey (enrich_loops (remember s g) uo (Processes g) pods))
    (k, m')) = k) as ->.
  { change (podGPUKeyForMetric ?x) with (base x).1.1. rewrite finish_metric_base; [done|]. by eapply loops_key. }
  by eapply finish_sm.
Qed.

Lemma raw_metrics_keys s g pods uo order : (∀ m, order m ≡ₚ map_to_list m) →
  NoDup (map podGPUKeyForMetric (raw_metrics s g pods uo order)).
Proof.
  intros Horder. unfold enrich. cbn [fst]. rewrite map_map.
  rewrite (map_ext_in _ fst).
  - change (NoDup (order (byPodGPU (enrich_loops (remember s g) uo (Processes g) pods))).*1).
    rewrite (Horder _). apply NoDup_fst_map_to_list.
  - intros [k m] Hin%list_elem_of_In. rewrite (Horder _) in Hin. apply elem_of_map_to_list in Hin.
    change (podGPUKeyForMetric ?x) with (base x).1.1. rewrite finish_metric_base; [done|]. by eapply loops_key.
Qed.

(** ** Lemmas: the window *)

Lemma keep_last_snoc {A} w (l : list A) x : 1 ≤ w → keep_last w (keep_last w l ++ [x]) = keep_last w (l ++ [x]).
Proof.
  intros Hw. unfold keep_last at 2. destruct (Z.ltb_spec w (Z.of_nat (List.length l))); [|done].
  unfold keep_last. rewrite !length_app, length_drop. cbn [List.length].
  rewrite !(proj2 (Z.ltb_lt _ _)) by lia.
  replace (l ++ [x]) with ((take (List.length l - Z.to_nat w) l ++ drop (List.length l - Z.to_nat w) l) ++ [x])
    by (by rewrite take_drop).
  rewrite <- app_assoc, (drop_app_ge (take _ _)) by (rewrite length_take; lia). f_equal. rewrite length_take. lia.
Qed.

Lemma keep_last_map {A B} (f : A → B) w l : keep_last w (map f l) = map f (keep_last w l).
Proof.
  unfold keep_last. rewrite length_map. destruct (_ <? _); [|done].
  change (map f ?x) with (f <$> x). by rewrite fmap_drop.
Qed.

Lemma keep_last_length {A} w (l : list A) : 1 ≤ w → Z.of_nat (List.length (keep_last w l)) ≤ w.
Proof. intros Hw. unfold keep_last. destruct (Z.ltb_spec w (Z.of_nat (List.length l))); [rewrite length_drop; lia|lia]. Qed.

Lemma keep_last_nonempty {A} w (l : list A) x : 1 ≤ w → (0 < List.length (keep_last w (l ++ [x])))%nat.
Proof.
  intros Hw. unfold keep_last. rewrite length_app. cbn [List.length].
  destruct (Z.ltb_spec w (Z.of_nat (List.length l + 1))); [rewrite length_drop|]; rewrite length_app; cbn [List.length]; lia.
Qed.

Lemma keep_last_Forall {A} (P : A → Prop) w l : Forall P l → Forall P (keep_last w l).
Proof. intros H. unfold keep_last. destruct (_ <? _); [by apply Forall_drop|done]. Qed.

(** The mean the window reports. *)
Definition window_mean (buf : list float64) : float64 := f_div (f_sum buf) (f_of_int (Z.of_nat (List.length buf))).

Definition pushed (w : Z) (buf : gmap podGPUKey (list float64)) (m : PodGPUMetric) : list float64 :=
  keep_last w (default [] (buf !! podGPUKeyForMetric m) ++ [SMUtilizationPercent m]).

Lemma push_metrics_spec w ms buf : NoDup (map podGPUKeyForMetric ms) →
  (push_metrics w buf ms).2 = map (λ m, setSM (window_mean (pushed w buf m)) m) ms ∧
  (∀ m, m ∈ ms → (push_metrics w buf ms).1 !! podGPUKeyForMetric m = Some (pushed w buf m)) ∧
  (∀ k, k ∉ map podGPUKeyForMetric ms → (push_metrics w buf ms).1 !! k = buf !! k).
Proof.
  revert buf. induction ms as [|m ms IH]; intros buf Hnd; cbn [push_metrics map] in *.
  { split; [done|]. split; [|done]. by intros m ?%elem_of_nil. }
  apply list.NoDup_cons in Hnd as [Hm Hnd].
  unfold pushSample. fold (pushed w buf m). set (buf' := <[_ := _]> buf). destruct (IH buf' Hnd) as (H1 & H2 & H3).
  assert (∀ m', m' ∈ ms → pushed w buf' m' = pushed w buf m') as Hsame.
  { intros m' Hin. unfold pushed at 1. subst buf'. rewrite lookup_insert_ne; [done|]. intros Heq. destruct Hm.
    rewrite Heq. apply list_elem_of_fmap. eauto. }
  destruct (push_metrics w buf' ms) as [buf'' out]. cbn [fst snd] in *. split; [|split].
  - rewrite H1. f_equal. apply map_ext_in. intros m' Hin%list_elem_of_In. by rewrite Hsame.
  - intros m' [->|Hin]%elem_of_cons; [|rewrite <- Hsame by done; auto].
    rewrite H3 by done. subst buf'. by rewrite lookup_insert_eq.
  - intros k [Hk1 Hk2]%not_elem_of_cons. rewrite H3 by done. subst buf'. by rewrite lookup_insert_ne.
Qed.

(** ** Lemmas: bounds of the published percentages *)

Lemma window_mean_int w l : Forall (λ n, 0 ≤ n ≤ 100) l → l ≠ [] → Z.of_nat (List.length l) ≤ w → w < 2 ^ 46 →
  window_mean (map f_of_int l) = f_div (f_of_int (foldr Z.add 0 l)) (f_of_int (Z.of_nat (List.length l))) ∧
  f_within 100 (window_mean (map f_of_int l)) = true.
Proof.
  intros Hl Hne Hw Hmax. unfold window_mean. rewrite length_map.
  assert (0 ≤ foldr Z.add 0 l ≤ 100 * Z.of_nat (List.length l)) as Hs.
  { clear -Hl. induction Hl as [|x l Hx _ IH]; cbn [foldr List.length]; lia. }
  rewrite f_sum_int; [|eapply list.Forall_impl; [exact Hl|cbn; lia]|lia].
  split; [done|]. apply f_average_within; [lia| |lia|lia]. destruct l; [done|]. cbn [List.length]. lia.
Qed.

(** The known totals stay machine integers. *)
Definition totals_ok (s : metricsEngine) : Prop := ∀ i t, deviceTotalMemoryBytes s !! i = Some t → 0 ≤ t < 2 ^ 64.

Lemma remember_totals s g : totals_ok s → snapshot_typed g → totals_ok (remember s g).
Proof.
  intros Hs (_ & _ & Hg) i t Ht. cbn [remember deviceTotalMemoryBytes] in Ht. unfold rememberDeviceTotalMemory in Ht.
  apply lookup_union_Some_raw in Ht as [Ht|[_ Ht]]; [|by eapply Hs].
  apply map_lookup_filter_Some in Ht as [Ht _]. by eapply Hg.
Qed.

Lemma gpuFraction_nonneg s i req : totals_ok s → in_int64 req → f_nonneg (gpuFraction s i req) = true.
Proof.
  intros Hs Hreq. unfold gpuFraction. destruct (Z.leb_spec req 0) as [|Hpos]; [done|].
  destruct (deviceTotalMemoryBytes s !! i) as [t|] eqn:Et; [|done]. cbn [default from_option id].
  destruct (Z.eqb_spec t 0) as [|Ht]; [done|]. specialize (Hs i t Et).
  destruct (f_of_int_pos t ltac:(lia)) as (mt & et & ->).
  apply f_div_nonneg; [|done|done|by right].
  apply f_mul_nonneg; [apply f_of_int_nonneg; lia|done|done|done].
Qed.

Lemma normalizedSMUtil_within x fr : f_within 100 x = true → f_nonneg fr = true →
  f_within 100 (normalizedSMUtil x fr) = true.
Proof.
  intros Hx Hfr. unfold normalizedSMUtil, fullGPUFraction, maxSMUtilPercent.
  set (fr' := if f_eq fr f_zero then f_of_int 1 else fr).
  assert (f_nonneg fr' = true ∧ f_eq fr' f_zero = false) as [H1 H2].
  { subst fr'. by destruct (f_eq fr f_zero) eqn:E. }
  destruct (f_within_finite 100 x ltac:(lia) Hx) as [H3 H4].
  destruct (f_gt _ _) eqn:Egt; [done|]. apply f_within_le; [|done|lia].
  apply f_div_nonneg; [done..|]. by left.
Qed.

(** ** Runs of the engine *)

Record cycle := mkCycle {
  c_gpu : GPUProcessSnapshot;
  c_pods : podSource;
  c_uuid_order : ContainerInfo → GPUDevice → list (Z * string);
  c_order : gmap podGPUKey PodGPUMetric → list (podGPUKey * PodGPUMetric)
}.

Definition engine_step (s : metricsEngine) (c : cycle) : metricsEngine :=
  collect s (c_gpu c) (c_pods c) (c_uuid_order c) (c_order c).

Definition cycle_ok (c : cycle) : Prop :=
  (∀ m, c_order c m ≡ₚ map_to_list m) ∧ snapshot_typed (c_gpu c).

Definition skipped (c : cycle) : bool :=
  match SActiveContainers (c_pods c) 0 with [] => true | _ => false end.

(** The samples of a series since it last disappeared; a cycle that is skipped
    because no container is active leaves the histories as they are. *)
Definition observe_cycle (h : podGPUKey → list Z) (s : metricsEngine) (c : cycle) : podGPUKey → list Z :=
  if skipped c then h
  else λ k, if decide (k ∈ map podGPUKeyForMetric (Metrics (snapshot s)))
            then h k ++ [sm_sample (c_pods c) (Processes (c_gpu c)) k] else [].

Fixpoint engine_run (s : metricsEngine) (h : podGPUKey → list Z) (cycles : list cycle)
    : metricsEngine * (podGPUKey → list Z) :=
  match cycles with
  | [] => (s, h)
  | c :: cycles => let s := engine_step s c in engine_run s (observe_cycle h s c) cycles
  end.

(** What a published metric says about its history. *)
Definition reported_sm (w : Z) (l : list Z) : float64 :=
  if 1 <? w then f_div (f_of_int (foldr Z.add 0 (keep_last w l))) (f_of_int (Z.of_nat (List.length (keep_last w l))))
  else f_of_int (default 0 (list.last l)).

Definition metric_ok (w : Z) (h : podGPUKey → list Z) (m : PodGPUMetric) : Prop :=
  SMUtilizationPercent m = reported_sm w (h (podGPUKeyForMetric m)) ∧
  f_within 100 (SMUtilizationPercent m) = true ∧
  f_within 100 (SMUtilizationPercentNormalized m) = true.

Record engine_inv (s : metricsEngine) (h : podGPUKey → list Z) : Prop := mkInv {
  inv_window : 1 ≤ smUtilWindowSize s < 2 ^ 46;
  inv_totals : totals_ok s;
  inv_samples : ∀ k, Forall (λ n, 0 ≤ n ≤ 100) (h k);
  inv_buf : 1 < smUtilWindowSize s → ∀ k, smUtilBuf s !! k =
    match h k with [] => None | l => Some (map f_of_int (keep_last (smUtilWindowSize s) l)) end;
  inv_metrics : Forall (metric_ok (smUtilWindowSize s) h) (Metrics (snapshot s))
}.

Lemma keep_last_nil {A} w : keep_last w (@nil A) = [].
Proof. unfold keep_last. by destruct (_ <? _). Qed.

(** What [pushSample] stores, in terms of the history. *)
Lemma pushed_history w buf m l n : 1 ≤ w →
  buf !! podGPUKeyForMetric m = match l with [] => None | l => Some (map f_of_int (keep_last w l)) end →
  SMUtilizationPercent m = f_of_int n →
  pushed w buf m = map f_of_int (keep_last w (l ++ [n])).
Proof.
  intros Hw Hbuf Hsm. unfold pushed. rewrite Hbuf, Hsm.
  assert (default [] match l with [] => None | l => Some (map f_of_int (keep_last w l)) end
    = map f_of_int (keep_last w l)) as ->.
  { destruct l; [|done]. by rewrite keep_last_nil. }
  change [f_of_int n] with (map f_of_int [n]). rewrite <- map_app, keep_last_map. f_equal. by apply keep_last_snoc.
Qed.

(** A metric with the reported utilization is within bounds once normalised. *)
Lemma metric_ok_intro w h m n l : 1 ≤ w < 2 ^ 46 → Forall (λ n, 0 ≤ n ≤ 100) (l ++ [n]) →
  h (podGPUKeyForMetric m) = l ++ [n] → f_nonneg (RequestedGPUFraction m) = true →
  SMUtilizationPercent m = (if 1 <? w then window_mean (map f_of_int (keep_last w (l ++ [n]))) else f_of_int n) →
  metric_ok w h (setNormalized (normalizedSMUtil (SMUtilizationPercent m) (RequestedGPUFraction m)) m).
Proof.
  intros Hw Hall Hh Hfr Hsm.
  assert (SMUtilizationPercent m = reported_sm w (l ++ [n]) ∧ f_within 100 (SMUtilizationPercent m) = true) as [H1 H2].
  { rewrite Hsm. unfold reported_sm. destruct (1 <? w).
    - pose proof (keep_last_nonempty w l n ltac:(lia)) as Hne.
      destruct (window_mean_int w (keep_last w (l ++ [n]))) as [<- ?]; [by apply keep_last_Forall| | |lia|done].
      + intros Hnil. rewrite Hnil in Hne. cbn in Hne. lia.
      + apply keep_last_length. lia.
    - rewrite last_snoc. cbn [default from_option id]. split; [done|].
      apply list.Forall_app in Hall as [_ Hn]. rewrite list.Forall_singleton in Hn.
      apply f_within_le; [apply f_of_int_nonneg; lia| |lia]. rewrite f_gt_int by lia. apply Z.ltb_ge. lia. }
  split; [|split].
  - change (SMUtilizationPercent m = reported_sm w (h (podGPUKeyForMetric m))). by rewrite Hh.
  - exact H2.
  - cbn [setNormalized SMUtilizationPercentNormalized]. by apply normalizedSMUtil_within.
Qed.

Lemma raw_metrics_fraction s g pods uo order m : totals_ok s → snapshot_typed g →
  m ∈ raw_metrics s g pods uo order → f_nonneg (RequestedGPUFraction m) = true.
Proof.
  intros Hs Hg Hm. unfold enrich in Hm. cbn [fst] in Hm. apply list_elem_of_fmap in Hm as ([k m'] & -> & _).
  cbn [finish_metric setFraction RequestedGPUFraction]. apply gpuFraction_nonneg; [by apply remember_totals|].
  erewrite sumRequestedMemory_perm by reflexivity. apply wrap64_range.
Qed.

(** One cycle over the raw metrics [ms], each with the sample [smp] of its series: [h] are the
    samples so far and [h'] those after the cycle. *)
Section reporting.
Context (w : Z) (ms : list PodGPUMetric) (h h' : podGPUKey → list Z) (smp : podGPUKey → Z).
Context (Hw : 1 ≤ w < 2 ^ 46) (Hnd : NoDup (map podGPUKeyForMetric ms)).
Context (Hsm : ∀ m, m ∈ ms → SMUtilizationPercent m = f_of_int (smp (podGPUKeyForMetric m))).
Context (Hfr : ∀ m, m ∈ ms → f_nonneg (RequestedGPUFraction m) = true).
Context (Hh' : ∀ k, h' k = if decide (k ∈ map podGPUKeyForMetric ms) then h k ++ [smp k] else []).
Context (Hsam : ∀ k, Forall (λ n, 0 ≤ n ≤ 100) (h' k)).

Lemma history_of m : m ∈ ms → h' (podGPUKeyForMetric m) = h (podGPUKeyForMetric m) ++ [smp (podGPUKeyForMetric m)].
Proof. intros Hm. rewrite Hh', decide_True; [done|]. apply list_elem_of_fmap. eauto. Qed.

Lemma reported_ok (f : PodGPUMetric → PodGPUMetric) :
  (∀ m, podGPUKeyForMetric (f m) = podGPUKeyForMetric m ∧ RequestedGPUFraction (f m) = RequestedGPUFraction m) →
  (∀ m, m ∈ ms → SMUtilizationPercent (f m) =
     if 1 <? w then window_mean (map f_of_int (keep_last w (h' (podGPUKeyForMetric m)))) else f_of_int (smp (podGPUKeyForMetric m))) →
  Forall (metric_ok w h') (normalizeSMUtil (map f ms)).
Proof.
  intros Hf Hv. unfold normalizeSMUtil. apply Forall_map, Forall_map, list.Forall_forall. intros m Hm.
  destruct (Hf m) as [Hk Hr].
  apply (metric_ok_intro w h' (f m) (smp (podGPUKeyForMetric m)) (h (podGPUKeyForMetric m))); rewrite ?Hk, ?Hr.
  - done.
  - rewrite <- history_of by done. done.
  - by apply history_of.
  - by apply Hfr.
  - rewrite <- history_of by done. by apply Hv.
Qed.

Context (buf : gmap podGPUKey (list float64)).
Context (Hbuf : ∀ k, buf !! k = match h k with [] => None | l => Some (map f_of_int (keep_last w l)) end).

Lemma pushed_of m : m ∈ ms → pushed w buf m = map f_of_int (keep_last w (h' (podGPUKeyForMetric m))).
Proof.
  intros Hm. rewrite history_of by done. apply pushed_history; [lia|rewrite Hbuf; by destruct (h _)|by apply Hsm].
Qed.

(** The window keeps the last samples of the series that are still reported. *)
Lemma windowed_buffers k : (windowedSMUtil w buf ms).1 !! k =
  match h' k with [] => None | l => Some (map f_of_int (keep_last w l)) end.
Proof.
  unfold windowedSMUtil. destruct (push_metrics_spec w ms buf Hnd) as (_ & H2 & _).
  destruct (push_metrics w buf ms) as [buf' out]. cbn [fst snd] in *. apply option_eq. intros b.
  rewrite map_lookup_filter_Some, elem_of_list_to_set. split.
  - intros [Hb Hk]. apply list_elem_of_fmap in Hk as (m & -> & Hm). rewrite H2, pushed_of in Hb by done.
    rewrite history_of in Hb |- * by done. by destruct (h _ ++ [_]) eqn:E; [apply app_nil in E as [_ ?]|].
  - intros Hb. rewrite Hh' in Hb. case_decide as Hk; [|done].
    pose proof Hk as Hk'. apply list_elem_of_fmap in Hk' as (m & -> & Hm). split; [|done].
    rewrite H2, pushed_of, history_of by done. by destruct (h _ ++ [_]) eqn:E; [apply app_nil in E as [_ ?]|].
Qed.

Lemma windowed_ok : 1 < w → Forall (metric_ok w h') (normalizeSMUtil (windowedSMUtil w buf ms).2).
Proof.
  intros Hw1. unfold windowedSMUtil. destruct (push_metrics_spec w ms buf Hnd) as (H1 & _ & _).
  destruct (push_metrics w buf ms) as [buf' out]. cbn [fst snd] in *. subst out.
  apply (reported_ok (λ m, setSM (window_mean (pushed w buf m)) m)); [done|]. intros m Hm.
  cbn [setSM SMUtilizationPercent]. rewrite (proj2 (Z.ltb_lt _ _)) by done. by rewrite pushed_of.
Qed.

Lemma unwindowed_ok : ¬ 1 < w → Forall (metric_ok w h') (normalizeSMUtil ms).
Proof.
  intros Hw1. rewrite <- (map_id ms). apply (reported_ok (λ m, m)); [done|]. intros m Hm.
  rewrite (proj2 (Z.ltb_ge _ _)) by lia. by apply Hsm.
Qed.

End reporting.

(** The history after a cycle, over the raw metrics. *)
Lemma observed_history s h c : SActiveContainers (c_pods c) 0 ≠ [] → ∀ k, observe_cycle h (engine_step s c) c k =
  if decide (k ∈ map podGPUKeyForMetric (raw_metrics s (c_gpu c) (c_pods c) (c_uuid_order c) (c_order c)))
  then h k ++ [sm_sample (c_pods c) (Processes (c_gpu c)) k] else [].
Proof.
  intros Hact k. unfold observe_cycle, skipped. destruct (SActiveContainers (c_pods c) 0) as [|a0 as0] eqn:Eact; [done|].
  apply decide_ext. assert (∀ l, map podGPUKeyForMetric l = map (λ b, b.1.1) (map base l)) as Hl by (intros; by rewrite map_map).
  rewrite !Hl. unfold engine_step. by rewrite collect_base by congruence.
Qed.

Lemma engine_step_inv s h c : engine_inv s h → cycle_ok c →
  engine_inv (engine_step s c) (observe_cycle h (engine_step s c) c) ∧
  smUtilWindowSize (engine_step s c) = smUtilWindowSize s.
Proof.
  intros [Hw Ht Hsam Hbuf Hmet] [Horder Hg]. destruct (SActiveContainers (c_pods c) 0) as [|a0 as0] eqn:Eact.
  { unfold observe_cycle, skipped, engine_step, collect. rewrite Eact. split; [|done]. split; cbn; try done. }
  pose proof (observed_history s h c ltac:(congruence)) as Hh'. revert Hh'. generalize (observe_cycle h (engine_step s c) c). intros h' Hh'.
  pose proof (raw_metrics_sm s (c_gpu c) (c_pods c) (c_uuid_order c) (c_order c) Hg Horder) as Hsm.
  pose proof (raw_metrics_keys s (c_gpu c) (c_pods c) (c_uuid_order c) (c_order c) Horder) as Hnd.
  pose proof (λ m, raw_metrics_fraction s (c_gpu c) (c_pods c) (c_uuid_order c) (c_order c) m Ht Hg) as Hfr.
  pose proof (remember_totals s (c_gpu c) Ht Hg) as Ht'.
  assert (∀ k, Forall (λ n, 0 ≤ n ≤ 100) (h' k)) as Hsam'.
  { intros k. rewrite Hh'. case_decide; [|by constructor]. apply list.Forall_app. split; [done|].
    apply list.Forall_singleton. by apply sm_sample_bounds. }
  unfold engine_step, collect. rewrite Eact.
  destruct (enrich (remember s (c_gpu c)) (c_uuid_order c) (c_order c) (Processes (c_gpu c)) (c_pods c)) as [ms u] eqn:Eraw.
  cbn [fst] in *. change (smUtilWindowSize (remember s (c_gpu c))) with (smUtilWindowSize s).
  change (smUtilBuf (remember s (c_gpu c))) with (smUtilBuf s). clear Eraw Eact.
  destruct (Z.ltb_spec 1 (smUtilWindowSize s)) as [Hw1|Hw1].
  - pose proof (windowed_buffers _ ms h h' _ Hw Hnd Hsm Hh' (smUtilBuf s) (Hbuf Hw1)) as Hb.
    pose proof (windowed_ok _ ms h h' _ Hw Hnd Hsm Hfr Hh' Hsam' (smUtilBuf s) (Hbuf Hw1) Hw1) as Hok.
    destruct (windowedSMUtil _ _ ms) as [buf out]. split; [|done]. by split.
  - split; [|done]. split; try done.
    + cbn [setSnapshot smUtilWindowSize]. intros Hgt. change (1 < smUtilWindowSize s) in Hgt. lia.
    + apply (unwindowed_ok _ ms h h' _ Hw Hsm Hfr Hh' Hsam'). lia.
Qed.


Lemma new_engine_inv interval smUtilWindow : 2000000000 ≤ interval → smUtilWindow ≤ int64_max →
  engine_inv (newMetricsController interval smUtilWindow) (λ _, []).
Proof.
  intros Hinterval Hwindow. split; try done; try (intros; by constructor). cbn [newMetricsController smUtilWindowSize].
  destruct (Z.ltb_spec 0 interval), (Z.ltb_spec interval smUtilWindow); cbn [andb]; try lia.
  rewrite Z.quot_div_nonneg by lia. unfold int64_max in Hwindow. split.
  - apply Z.div_le_lower_bound; lia.
  - apply Z.div_lt_upper_bound; lia.
Qed.

Lemma collect_series s g pods cs uo order `{Hok : !PodSourceOk pods cs}
  (Hcs : cs ≠ [])
  (Hnames : ∀ c, c ∈ cs → slash_free (Namespace c) ∧ slash_free (PodUID c))
  (Horder : ∀ m, order m ≡ₚ map_to_list m) :
  let s' := remember s g in
  let out := Metrics (snapshot (collect s g pods uo order)) in
  NoDup (map podGPUKeyForMetric out) ∧
  (∀ k, k ∈ map podGPUKeyForMetric out ↔
     attributed pods (Processes g) k ≠ [] ∨
     (∃ c, c ∈ cs ∧ k ∈ device_keys s' uo c) ∧
     ¬ (∃ p k', p ∈ Processes g ∧ owner pods p = Some k' ∧ same_device k k')) ∧
  (∀ m, m ∈ out →
     let k := podGPUKeyForMetric m in
     MemoryBytes m = wrapu64 (foldr Z.add 0 (map UsedGPUMemoryBytes (attributed pods (Processes g) k))) ∧
     RequestedGPUFraction m = gpuFraction s' (KIndex k)
       (wrap64 (foldr Z.add 0 (map RequestedMemoryMiB (contributors s' uo pods cs (Processes g) k))))).
Proof.
  cbv zeta. set (s' := remember s g). set (out := Metrics _).
  set (st := enrich_loops s' uo (Processes g) pods).
  assert (SActiveContainers pods 0 ≠ []) as Hne.
  { intros H0. apply Hcs. apply Permutation_nil. rewrite <- H0. apply ps_active. }
  assert (map base out = map (λ e, (e.1, MemoryBytes e.2, gpuFraction s' (KIndex e.1)
    (sumRequestedMemory (recorded (memByKey st) e.1)))) (order (byPodGPU st))) as Hbase.
  { subst out. rewrite collect_base by done. unfold enrich. cbn [fst]. rewrite map_map.
    apply map_ext_in. intros [k m] Hin%list_elem_of_In. apply finish_metric_base.
    rewrite (Horder _) in Hin. apply elem_of_map_to_list in Hin. by eapply loops_key. }
  assert (map podGPUKeyForMetric out = (order (byPodGPU st)).*1) as Hkeys.
  { transitivity (map (λ b, b.1.1) (map base out)); [by rewrite map_map|]. rewrite Hbase, map_map. done. }
  rewrite Hkeys.
  assert (∀ k, k ∈ idle_keys s' uo pods (Processes g) (SActiveContainers pods 1) ↔
    (∃ c, c ∈ cs ∧ k ∈ device_keys s' uo c) ∧
    ¬ (∃ p k', p ∈ Processes g ∧ owner pods p = Some k' ∧ same_device k k')) as Hidle.
  { intros k. by apply idle_keys_spec. }
  split; [|split].
  - rewrite (Horder _). apply NoDup_fst_map_to_list.
  - intros k. rewrite (Horder _), list_elem_of_fmap, <- Hidle. split.
    + intros ([k' m] & -> & Hm%elem_of_map_to_list). cbn. subst st. rewrite loops_byPod in Hm.
      destruct (attributed _ _ k'); [|by left]. case_decide; [by right|done].
    + intros Hk. assert (is_Some (byPodGPU st !! k)) as [m Hm].
      { subst st. rewrite loops_byPod. destruct (attributed _ _ k); [|eauto]. rewrite decide_True; [eauto|].
        by destruct Hk. }
      exists (k, m). split; [done|]. by apply elem_of_map_to_list.
  - intros m Hm. set (k := podGPUKeyForMetric m).
    assert (base m ∈ map base out) as Hb by (apply list_elem_of_fmap; eauto).
    rewrite Hbase in Hb. apply list_elem_of_fmap in Hb as ([k' m'] & [= Hk Hmem Hfr] & Hin). cbn [fst snd] in *.
    rewrite (Horder _) in Hin. apply elem_of_map_to_list in Hin. subst k'. fold k in Hin, Hfr.
    rewrite Hmem, Hfr. split.
    + subst st. rewrite loops_byPod in Hin. destruct (attributed _ _ k) as [|p l] eqn:El.
      { case_decide; [|done]. injection Hin as <-. done. }
      injection Hin as <-. apply (accumulate_spec k (p :: l)).
    + subst st. by rewrite (loops_requested s' uo pods cs).
Qed.

(** ** Properties *)

(** C16: one collect cycle attributes every process and every device exactly
    once.  There is one series per pod x GPU; a series exists exactly for the
    keys with attributed processes and for the resolved devices of active
    containers on which no process of the same pod was seen; its memory is the
    sum over its processes; and its requested fraction counts every container
    that has a process or a device under the key exactly once, however many
    processes it runs. *)
Theorem collect_attributes s g pods cs uo order `{Hok : !PodSourceOk pods cs}
  (Hcs : cs ≠ [])
  (Hnames : ∀ c, c ∈ cs → slash_free (Namespace c) ∧ slash_free (PodUID c))
  (Horder : ∀ m, order m ≡ₚ map_to_list m) :
  let s' := remember s g in
  let out := Metrics (snapshot (collect s g pods uo order)) in
  NoDup (map podGPUKeyForMetric out) ∧
  (∀ k, k ∈ map podGPUKeyForMetric out ↔
     attributed pods (Processes g) k ≠ [] ∨
     (∃ c, c ∈ cs ∧ k ∈ device_keys s' uo c) ∧
     ¬ (∃ p k', p ∈ Processes g ∧ owner pods p = Some k' ∧ same_device k k')) ∧
  (∀ m, m ∈ out →
     let k := podGPUKeyForMetric m in
     MemoryBytes m = wrapu64 (foldr Z.add 0 (map UsedGPUMemoryBytes (attributed pods (Processes g) k))) ∧
     RequestedGPUFraction m = gpuFraction s' (KIndex k)
       (wrap64 (foldr Z.add 0 (map RequestedMemoryMiB (contributors s' uo pods cs (Processes g) k))))).
Proof. by apply collect_series. Qed.

(** A pod with one container holding half of a 16 GiB device, and a neighbour
    that runs two processes on the same device. *)
Definition example_container (cid pod : string) (mem : Z) : ContainerInfo :=
  mkContainerInfo cid "main" pod "team-a" ("uid-" +:+ pod) ("/kubepods/" +:+ cid)
    (Some [mkGPUDevice 0 3 ""]) mem.

Definition example_process (pid used sm : Z) : GPUProcessMetric := mkGPUProcessMetric pid "GPU-a" 0 used sm 1.

Definition example_gpu (ps : list GPUProcessMetric) : GPUProcessSnapshot :=
  mkGPUProcessSnapshot ps {[0 := "GPU-a"]} {[3 := 0]} {[0 := 16 * 2 ^ 30]} [].

Definition example_containers : list ContainerInfo :=
  [example_container "c1" "p1" 8192; example_container "c2" "p2" 4096].

Definition example_resolver (pid : Z) : option (list string) :=
  if pid =? 0 then None else Some ["/kubepods/" +:+ (if pid <? 10 then "c1" else "c2")].

Definition example_store (cs : list ContainerInfo) : ContainerStore.t := ContainerStore.Replace cs ∅.

Definition example_pods (cs : list ContainerInfo) : podSource :=
  podSourceSnapshot example_resolver (λ _ _, ContainerStore.values (example_store cs))
    (λ _, ContainerStore.values (example_store cs)) (example_store cs).

#[global] Instance example_pods_ok cs :
  PodSourceOk (example_pods cs) (ContainerStore.values (example_store cs)).
Proof. apply podSourceSnapshot_ok; [apply Replace_keyed|done|done]. Qed.

Definition table_order (_ : ContainerInfo) (_ : GPUDevice) : list (Z * string) := [(0, "GPU-a")].

Lemma collect_attributes_witness :
  let g := example_gpu [example_process 11 100 30; example_process 12 200 90] in
  let out := Metrics (snapshot (collect (newMetricsController 5000000000 0) g (example_pods example_containers)
               table_order map_to_list)) in
  NoDup (map podGPUKeyForMetric out) ∧
  map (λ m, (MPod m, MemoryBytes m)) out = [("p1", 0); ("p2", 300)] ∧
  mkKey "team-a" "p1" "uid-p1" "GPU-a" 0 ∈ map podGPUKeyForMetric out.
Proof.
  cbv zeta.
  destruct (collect_attributes (newMetricsController 5000000000 0)
    (example_gpu [example_process 11 100 30; example_process 12 200 90]) (example_pods example_containers)
    (ContainerStore.values (example_store example_containers)) table_order map_to_list) as (H1 & H2 & _).
  - vm_compute. discriminate.
  - assert (ContainerStore.values (example_store example_containers) ≡ₚ example_containers) as Hv
      by (vm_compute; reflexivity || apply Permutation_swap).
    intros c Hc. rewrite Hv in Hc. unfold example_containers in Hc.
    apply elem_of_cons in Hc as [->|[->|Hc]%elem_of_cons]; [..|by apply elem_of_nil in Hc];
      (split; eapply bool_decide_unpack; vm_compute; exact I).
  - done.
  - split; [exact H1|]. split; [vm_compute; reflexivity|]. apply H2. right. split.
    + exists (example_container "c1" "p1" 8192). split.
      * apply elem_of_values. exists "c1". vm_compute. reflexivity.
      * eapply bool_decide_unpack. vm_compute. exact I.
    + intros (p & k' & Hp & Hk & _ & Hu & _). apply elem_of_cons in Hp as [->|[->|Hp]%elem_of_cons]; [..|by apply elem_of_nil in Hp];
        vm_compute in Hk; injection Hk as <-; discriminate Hu.
Defined.

(** C32: over any run of collect cycles the published utilization of a series is
    the mean of its last [w] samples (the last one when smoothing is off), where
    a sample is the sum of its processes' percentages clamped at 100, and both
    the utilization and its normalised form are numbers between 0 and 100; the
    buffers never exceed the window and exist only for the series that were
    present in the last cycle that was not skipped. *)
Theorem sm_utilization_smoothed interval smUtilWindow cycles
  (Hinterval : 2000000000 ≤ interval)
  (Hwindow : smUtilWindow ≤ int64_max)
  (Hcycles : Forall cycle_ok cycles) :
  let s0 := newMetricsController interval smUtilWindow in
  let '(s, h) := engine_run s0 (λ _, []) cycles in
  Forall (metric_ok (smUtilWindowSize s0) h) (Metrics (snapshot s)) ∧
  (1 < smUtilWindowSize s0 → ∀ k buf, smUtilBuf s !! k = Some buf →
     Z.of_nat (List.length buf) ≤ smUtilWindowSize s0 ∧ h k ≠ []).
Proof.
  cbv zeta. set (s0 := newMetricsController interval smUtilWindow).
  pose proof (new_engine_inv interval smUtilWindow Hinterval Hwindow) as Hinv. fold s0 in Hinv. pose proof (inv_window _ _ Hinv) as Hw.
  assert (∀ s h, engine_inv s h → let '(s', h') := engine_run s h cycles in
    engine_inv s' h' ∧ smUtilWindowSize s' = smUtilWindowSize s) as Hrun.
  { clear Hinv. induction Hcycles as [|c cycles Hc _ IH]; intros s h Hs; cbn [engine_run]; [done|].
    destruct (engine_step_inv s h c Hs Hc) as [Hs' Hw']. specialize (IH _ _ Hs').
    destruct (engine_run _ _ cycles) as [s' h']. by rewrite <- Hw'. }
  specialize (Hrun s0 (λ _, []) Hinv). destruct (engine_run s0 (λ _, []) cycles) as [s h].
  destruct Hrun as [[Hw' Ht Hsam Hbuf Hmet] Heq]. rewrite Heq in *. split; [done|].
  intros Hw1 k buf Hk. rewrite Hbuf in Hk by done. destruct (h k) as [|n l]; [done|]. injection Hk as <-.
  split; [|done]. rewrite length_map. apply keep_last_length. lia.
Qed.

Definition example_cycle (cs : list ContainerInfo) (ps : list GPUProcessMetric) : cycle :=
  mkCycle (example_gpu ps) (example_pods cs) table_order map_to_list.

Definition one_container : list ContainerInfo := [example_container "c1" "p1" 8192].
Definition busy : cycle := example_cycle one_container [example_process 5 100 80; example_process 6 100 60].
Definition idle : cycle := example_cycle one_container [].
Definition gap : cycle := example_cycle [] [].

Lemma example_cycles_ok : Forall cycle_ok [busy; idle; gap].
Proof.
  assert (∀ cs ps, Forall (λ p, 0 ≤ PSMUtilizationPercent p < 2 ^ 32) ps → Z.of_nat (List.length ps) < 2 ^ 20 →
    cycle_ok (example_cycle cs ps)) as H.
  { intros cs ps H1 H2. split; [done|]. split; [done|]. split; [done|].
    intros i t Ht. change (({[0 := 16 * 2 ^ 30]} : gmap Z Z) !! i = Some t) in Ht.
    apply lookup_singleton_Some in Ht as [_ <-]. done. }
  apply list.Forall_forall. intros c Hc. rewrite !elem_of_cons in Hc. destruct Hc as [->|[->|[->|Hc]]];
    [apply H; [repeat constructor; cbn; lia|done]..|by apply elem_of_nil in Hc].
Qed.

(** Window of two samples: 100 (clamped from 140), then idle. *)
Lemma sm_utilization_smoothed_witness :
  let '(s, h) := engine_run (newMetricsController 5000000000 10000000000) (λ _, []) [busy; idle] in
  Forall (metric_ok 2 h) (Metrics (snapshot s)) ∧
  map SMUtilizationPercent (Metrics (snapshot s)) = [f_of_int 50] ∧
  map SMUtilizationPercentNormalized (Metrics (snapshot s)) = [f_of_int 100].
Proof.
  pose proof (sm_utilization_smoothed 5000000000 10000000000 [busy; idle]) as H. cbv zeta in H.
  assert (map SMUtilizationPercent (Metrics (snapshot
      (engine_run (newMetricsController 5000000000 10000000000) (λ _, []) [busy; idle]).1)) = [f_of_int 50] ∧
    map SMUtilizationPercentNormalized (Metrics (snapshot
      (engine_run (newMetricsController 5000000000 10000000000) (λ _, []) [busy; idle]).1)) = [f_of_int 100]) as Hv.
  { split; vm_compute; reflexivity. }
  destruct (engine_run (newMetricsController 5000000000 10000000000) (λ _, []) [busy; idle]) as [s h].
  split; [|exact Hv]. apply H; [lia|unfold int64_max; lia|].
  pose proof example_cycles_ok as Hall. inversion_clear Hall as [|? ? H1 H2]. inversion_clear H2 as [|? ? H3 _].
  constructor; [exact H1|]. constructor; [exact H3|]. constructor.
Defined.

(** Smoothing survives a gap.  When no container is active the cycle is
    skipped before the buffers are pruned, so a pod whose mapping disappears
    and comes back idle still reports the average with its old samples. *)
Theorem window_survives_gap :
  let run cycles := (engine_run (newMetricsController 5000000000 10000000000) (λ _, []) cycles).1 in
  Metrics (snapshot (run [busy; gap])) = [] ∧
  map SMUtilizationPercent (Metrics (snapshot (run [busy; gap; idle]))) = [f_of_int 50].
Proof. split; vm_compute; reflexivity. Qed.
