(* ===== verification/Exporter.v ===== *)
(** * metricsd: the Prometheus exporter

    [internal/metrics/exporter.go]: the configuration, the gauges and their
    refresh on every scrape.  Prometheus' [GaugeVec] belongs to client_golang; the
    exporter is modelled over the class [GaugeVec], which states what its
    documentation promises about [With(labels).Set] and [Delete]. *)

From Stdlib Require Import ZArith Lia String Ascii.
From stdpp Require Import base gmap list strings.
From S2P Require Import Prelude GoStrings Runtime Float64 Nvml PodSource Metrics.

#[local] Open Scope string_scope.
#[local] Open Scope list_scope.
#[local] Open Scope Z_scope.

(** ** Configuration *)

Definition HealthzPath : string := "/healthz".
Definition MetricsReadyzPath : string := "/readyz".
Definition DefaultPath : string := "/metrics".
Definition MinCollectInterval : Z := 2 * 1000000000.
Definition DefaultCollectInterval : Z := 5 * 1000000000.

Record MetricNames := mkMetricNames {
  GPUMemoryUsedBytes : string;
  GPUSMUtilizationPercent : string;
  GPUSMUtilizationPercentNormalized : string
}.

Definition defaultMetricNames : MetricNames :=
  mkMetricNames "gpu_fractioning_gpu_memory_used_bytes" "gpu_fractioning_gpu_sm_utilization_percent"
    "gpu_fractioning_gpu_sm_utilization_percent_normalized".

Definition WithDefaults (n : MetricNames) : MetricNames :=
  let d := defaultMetricNames in
  let pick name default := if String.eqb (TrimSpace name) "" then default else name in
  mkMetricNames (pick (GPUMemoryUsedBytes n) (GPUMemoryUsedBytes d))
    (pick (GPUSMUtilizationPercent n) (GPUSMUtilizationPercent d))
    (pick (GPUSMUtilizationPercentNormalized n) (GPUSMUtilizationPercentNormalized d)).

(** [metricNamePattern]: [^[a-zA-Z_:][a-zA-Z0-9_:]*$] *)
Definition name_start (a : ascii) : bool :=
  let n := N_of_ascii a in
  ((97 <=? n) && (n <=? 122) || (65 <=? n) && (n <=? 90) || (n =? 95) || (n =? 58))%N.
Definition name_char (a : ascii) : bool :=
  let n := N_of_ascii a in (name_start a || ((48 <=? n) && (n <=? 57)))%N.
Definition metricNamePattern (s : string) : bool :=
  match bytes_of s with a :: r => name_start a && forallb name_char r | [] => false end.

Inductive NameError :=
| NotValid (key name : string)
| Duplicates (key name other : string).

(** The loop of [validate]: [seen] maps names to the fields that use them. *)
Fixpoint validate_fields (seen : gmap string string) (fields : list (string * string)) : result NameError unit :=
  match fields with
  | [] => Ok tt
  | (key, name) :: fields =>
      if negb (metricNamePattern name) then Err (NotValid key name)
      else match seen !! name with
           | Some other => Err (Duplicates key name other)
           | None => validate_fields (<[name := key]> seen) fields
           end
  end.

Definition name_fields (n : MetricNames) : list (string * string) :=
  [("gpuMemoryUsedBytes", GPUMemoryUsedBytes n);
   ("gpuSmUtilizationPercent", GPUSMUtilizationPercent n);
   ("gpuSmUtilizationPercentNormalized", GPUSMUtilizationPercentNormalized n)].

Definition validate (n : MetricNames) : result NameError unit := validate_fields ∅ (name_fields n).

Record ExporterConfig := mkExporterConfig {
  Path : string;
  ProcRoot : string;
  Interval : Z;
  SMUtilizationWindow : Z;
  Names : MetricNames
}.

Definition metricsPath (c : ExporterConfig) : string :=
  let path := TrimSpace (Path c) in
  if String.eqb path "" then DefaultPath
  else if negb (HasPrefix path "/") then "/" +:+ path else path.

Definition collectInterval (c : ExporterConfig) : Z :=
  if Interval c <=? 0 then DefaultCollectInterval
  else if Interval c <? MinCollectInterval then MinCollectInterval
  else Interval c.

(** The patterns registered on the mux, in order. *)
Definition routes (c : ExporterConfig) : list string :=
  let path := metricsPath c in
  [path] ++ (if negb (String.eqb path HealthzPath) then [HealthzPath] else [])
         ++ (if negb (String.eqb path MetricsReadyzPath) then [MetricsReadyzPath] else []).

(** ** Gauges *)

Abbreviation Labels := (gmap string string).

(** What the exporter relies on of [prometheus.GaugeVec]: a table of values by
    label set. *)
Class GaugeVec (V : Type) := {
  vec_new : V;
  vec_get : Labels → V → option float64;
  vec_set : Labels → float64 → V → V;
  vec_delete : Labels → V → V
}.
Class GaugeVecLaws (V : Type) `{GaugeVec V} : Prop := {
  vec_new_get : ∀ l, vec_get l vec_new = None;
  vec_set_get : ∀ l l' x v, vec_get l (vec_set l' x v) = if decide (l = l') then Some x else vec_get l v;
  vec_delete_get : ∀ l l' v, vec_get l (vec_delete l' v) = if decide (l = l') then None else vec_get l v
}.

Section exporter.
Context {V : Type} `{HV : GaugeVec V}.

Record Exporter := mkExporter {
  memoryBytes : V;
  smUtilization : V;
  smUtilizationNormalized : V;
  knownLabels : gmap podGPUKey Labels
}.

Definition newRuntime : Exporter := mkExporter vec_new vec_new vec_new ∅.

Definition label_set (key : podGPUKey) : Labels :=
  <["namespace" := KNamespace key]> (<["pod" := KPod key]> (<["pod_uuid" := KPodUID key]>
    (<["gpu_uuid" := KUUID key]> {["gpu" := FormatInt (KIndex key)]}))).

Definition metricLabels (metric : PodGPUMetric) : podGPUKey * Labels :=
  (podGPUKeyForMetric metric, label_set (podGPUKeyForMetric metric)).

Definition set_all (labels : Labels) (mem sm norm : float64) (r : Exporter) : Exporter :=
  mkExporter (vec_set labels mem (memoryBytes r)) (vec_set labels sm (smUtilization r))
    (vec_set labels norm (smUtilizationNormalized r)) (knownLabels r).

Definition setZero (r : Exporter) (labels : Labels) : Exporter := set_all labels f_zero f_zero f_zero r.

Definition deleteSeries (r : Exporter) (key : podGPUKey) : Exporter :=
  let r' := match knownLabels r !! key with
            | Some labels => mkExporter (vec_delete labels (memoryBytes r)) (vec_delete labels (smUtilization r))
                               (vec_delete labels (smUtilizationNormalized r)) (knownLabels r)
            | None => r
            end in
  mkExporter (memoryBytes r') (smUtilization r') (smUtilizationNormalized r') (delete key (knownLabels r')).

(** A [range] over [knownLabels] that deletes the entries it visits: the keys
    present when it starts, in some order. *)
Definition known_keys (r : Exporter) : list podGPUKey := (map_to_list (knownLabels r)).*1.

Definition pruneDeletedPods (activePodUIDs : option (gset string)) (r : Exporter) : Exporter :=
  match activePodUIDs with
  | None => r
  | Some active =>
      fold_left (λ r key, if bool_decide (KPodUID key ∈ active) then r else deleteSeries r key) (known_keys r) r
  end.

Definition is_idle_label (observed key : podGPUKey) : bool :=
  String.eqb (KNamespace key) (KNamespace observed) && String.eqb (KPodUID key) (KPodUID observed) &&
  String.eqb (KUUID key) "" && (KIndex key =? KIndex observed).

Definition deleteIdleLabelsForObservedGPU (observed : podGPUKey) (r : Exporter) : Exporter :=
  if String.eqb (KUUID observed) "" then r
  else fold_left (λ r key, if is_idle_label observed key then deleteSeries r key else r) (known_keys r) r.

Definition observe_metric (r : Exporter) (metric : PodGPUMetric) : Exporter :=
  let '(key, labels) := metricLabels metric in
  let r := deleteIdleLabelsForObservedGPU key r in
  let r := mkExporter (memoryBytes r) (smUtilization r) (smUtilizationNormalized r)
             (<[key := labels]> (knownLabels r)) in
  set_all labels (f_of_int (MemoryBytes metric)) (SMUtilizationPercent metric)
    (SMUtilizationPercentNormalized metric) r.

Definition observe (metrics : list PodGPUMetric) (activePodUIDs : option (gset string)) (r : Exporter) : Exporter :=
  let r := pruneDeletedPods activePodUIDs r in
  let r := fold_left setZero (map_to_list (knownLabels r)).*2 r in
  fold_left observe_metric metrics r.

(** A scrape: the provider's snapshot, or the last values when it fails. *)
Definition refresh (snapshot : option PodSnapshot) (r : Exporter) : Exporter :=
  match snapshot with
  | None => r
  | Some s => observe (Metrics s) (SnapPodUIDs s) r
  end.
End exporter.
Arguments Exporter V : clear implicits.

(** ** The abstract view: the exposed values by pod and GPU *)

Abbreviation values3 := (float64 * float64 * float64)%type.
Definition zeros : values3 := (f_zero, f_zero, f_zero).
Definition metric_values (m : PodGPUMetric) : values3 :=
  (f_of_int (MemoryBytes m), SMUtilizationPercent m, SMUtilizationPercentNormalized m).

(** An idle placeholder that the observed key replaces. *)
Definition shadows (observed k : podGPUKey) : bool := negb (String.eqb (KUUID observed) "") && is_idle_label observed k.

Definition is_active (activePodUIDs : option (gset string)) (k : podGPUKey) : bool :=
  match activePodUIDs with None => true | Some active => bool_decide (KPodUID k ∈ active) end.

Definition abstract_metric (A : gmap podGPUKey values3) (m : PodGPUMetric) : gmap podGPUKey values3 :=
  <[podGPUKeyForMetric m := metric_values m]>
    (filter (λ '(k, _), shadows (podGPUKeyForMetric m) k = false) A).

Definition abstract_observe (metrics : list PodGPUMetric) (active : option (gset string))
    (A : gmap podGPUKey values3) : gmap podGPUKey values3 :=
  fold_left abstract_metric metrics
    ((λ _, zeros) <$> filter (λ '(k, _), is_active active k = true) A).

(** ** Lemmas *)

Lemma label_set_inj k k' : label_set k = label_set k' → k = k'.
Proof.
  intros H. assert (∀ f, label_set k !! f = label_set k' !! f) as Hf by (by rewrite H).
  pose proof (Hf "namespace") as H1. pose proof (Hf "pod") as H2. pose proof (Hf "pod_uuid") as H3.
  pose proof (Hf "gpu_uuid") as H4. pose proof (Hf "gpu") as H5. clear H Hf.
  unfold label_set in *. simplify_map_eq.
  pose proof (decimal_value_FormatInt (KIndex k)) as H. rewrite H5, decimal_value_FormatInt in H.
  destruct k, k'; cbn in *. by simplify_eq.
Qed.

Section refinement.
Context {V : Type} `{HV : GaugeVec V, !GaugeVecLaws V}.
Implicit Types (r : Exporter V) (A : gmap podGPUKey values3).

(** One gauge shows one column of the view and nothing else. *)
Definition shows (proj : values3 → float64) (v : V) A : Prop :=
  (∀ k, vec_get (label_set k) v = proj <$> A !! k) ∧
  (∀ l x, vec_get l v = Some x → ∃ k, l = label_set k).

Definition sees r A : Prop :=
  (∀ k, knownLabels r !! k = (λ _, label_set k) <$> A !! k) ∧
  shows (λ v, v.1.1) (memoryBytes r) A ∧ shows (λ v, v.1.2) (smUtilization r) A ∧
  shows (λ v, v.2) (smUtilizationNormalized r) A.

Lemma shows_set proj v A k x : shows proj v A → shows proj (vec_set (label_set k) (proj x) v) (<[k := x]> A).
Proof.
  intros [H1 H2]. split.
  - intros k'. rewrite vec_set_get. case_decide as Hk.
    + apply label_set_inj in Hk as ->. by rewrite lookup_insert_eq.
    + rewrite lookup_insert_ne by congruence. apply H1.
  - intros l y. rewrite vec_set_get. case_decide; [eauto|apply H2].
Qed.

Lemma shows_delete proj v A k : shows proj v A → shows proj (vec_delete (label_set k) v) (delete k A).
Proof.
  intros [H1 H2]. split.
  - intros k'. rewrite vec_delete_get. case_decide as Hk.
    + apply label_set_inj in Hk as ->. by rewrite lookup_delete_eq.
    + rewrite lookup_delete_ne by congruence. apply H1.
  - intros l y. rewrite vec_delete_get. case_decide; [done|apply H2].
Qed.

Lemma sees_new : sees newRuntime ∅.
Proof.
  assert (∀ proj, shows proj vec_new ∅) as H.
  { intros proj. split; intros; rewrite ?vec_new_get in *; by rewrite ?lookup_empty. }
  split; [|split; [|split]]; try apply H. intros k. cbn. by rewrite !lookup_empty.
Qed.

Lemma sees_delete r A k : sees r A → sees (deleteSeries r k) (delete k A).
Proof.
  intros (Hk & H1 & H2 & H3). unfold deleteSeries. rewrite Hk.
  destruct (A !! k) as [v|] eqn:E; cbn [fmap option_fmap option_map memoryBytes smUtilization smUtilizationNormalized knownLabels].
  - split; [|split; [|split]]; try by apply shows_delete.
    intros k'. cbn [knownLabels]. destruct (decide (k = k')) as [<-|Hne].
    + by rewrite !lookup_delete_eq.
    + rewrite !lookup_delete_ne by done. apply Hk.
  - rewrite (delete_id A) by done. split; [|done]. intros k'. cbn [knownLabels].
    rewrite delete_id; [apply Hk|]. by rewrite Hk, E.
Qed.

Lemma sees_set r A k v : sees r A →
  sees (set_all (label_set k) v.1.1 v.1.2 v.2
    (mkExporter (memoryBytes r) (smUtilization r) (smUtilizationNormalized r) (<[k := label_set k]> (knownLabels r))))
    (<[k := v]> A).
Proof.
  intros (Hk & H1 & H2 & H3). unfold set_all. cbn [memoryBytes smUtilization smUtilizationNormalized knownLabels].
  split; [|split; [|split]].
  - intros k'. cbn [knownLabels]. destruct (decide (k = k')) as [<-|Hne].
    + by rewrite !lookup_insert_eq.
    + rewrite !lookup_insert_ne by done. apply Hk.
  - by apply (shows_set (λ v, v.1.1)).
  - by apply (shows_set (λ v, v.1.2)).
  - by apply (shows_set (λ v, v.2)).
Qed.

(** Deleting a selection of keys. *)
Lemma sees_delete_fold (P : podGPUKey → bool) ks : ∀ r A, sees r A →
  sees (fold_left (λ r key, if P key then deleteSeries r key else r) ks r)
    (filter (λ '(k, _), ¬ (k ∈ ks ∧ P k = true)) A).
Proof.
  induction ks as [|k ks IH]; intros r A Hs; cbn [fold_left].
  - rewrite map_filter_id; [done|]. intros k v _ [Hin _]. by apply elem_of_nil in Hin.
  - assert (sees (if P k then deleteSeries r k else r) (if P k then delete k A else A)) as Hs'.
    { destruct (P k); [by apply sees_delete|done]. }
    apply IH in Hs'. eapply eq_rect; [exact Hs'|]. apply map_eq. intros k'. apply option_eq. intros v.
    rewrite !map_lookup_filter_Some, elem_of_cons.
    destruct (P k) eqn:EP; rewrite ?lookup_delete_Some.
    + split; [intros [[Hne HA] Hn]|intros [HA Hn]].
      * split; [done|]. intros [[->|?] ?]; [done|]. by apply Hn.
      * split; [split; [|done]; intros <-; apply Hn; auto|]. intros [? ?]. apply Hn. auto.
    + split; (intros [HA Hn]; split; [done|]); intros [Hin HP]; apply Hn; [|auto].
      destruct Hin as [->|?]; [congruence|auto].
Qed.

(** Deleting the known keys that satisfy [P]. *)
Lemma sees_delete_known (P : podGPUKey → bool) r A : sees r A →
  sees (fold_left (λ r key, if P key then deleteSeries r key else r) (known_keys r) r)
    (filter (λ '(k, _), P k = false) A).
Proof.
  intros Hs. pose proof (sees_delete_fold P (known_keys r) r A Hs) as H.
  eapply eq_rect; [exact H|]. apply map_filter_ext. intros k v HA.
  assert (k ∈ known_keys r) as Hk.
  { unfold known_keys. destruct Hs as [Hk _]. specialize (Hk k). rewrite HA in Hk. cbn in Hk.
    apply list_elem_of_fmap. exists (k, label_set k). split; [done|]. by apply elem_of_map_to_list. }
  rewrite <- not_true_iff_false. naive_solver.
Qed.

Lemma sees_prune r A active : sees r A →
  sees (pruneDeletedPods active r) (filter (λ '(k, _), is_active active k = true) A).
Proof.
  intros Hs. unfold pruneDeletedPods, is_active. destruct active as [active|].
  - rewrite (fold_left_ext _ (λ r key, if negb (bool_decide (KPodUID key ∈ active)) then deleteSeries r key else r))
      by (intros x y; by destruct (bool_decide _)).
    pose proof (sees_delete_known (λ k, negb (bool_decide (KPodUID k ∈ active))) r A Hs) as H.
    eapply eq_rect; [exact H|]. apply map_filter_ext. intros k v _. apply negb_false_iff.
  - by rewrite map_filter_id.
Qed.

Lemma sees_zero r A : sees r A → sees (fold_left setZero (map_to_list (knownLabels r)).*2 r) ((λ _, zeros) <$> A).
Proof.
  intros Hs. pose proof Hs as (Hk & _).
  assert (∀ ks r A, sees r A → Forall (λ k, is_Some (A !! k)) ks →
    sees (fold_left setZero (map label_set ks) r)
      (map_imap (λ k v, Some (if decide (k ∈ ks) then zeros else v)) A)) as Hfold.
  { clear r A Hs Hk. induction ks as [|k ks IH]; intros r A Hs Hks; cbn [map fold_left].
    - eapply eq_rect; [exact Hs|]. apply map_eq. intros k. rewrite map_lookup_imap.
      destruct (A !! k); [|done]. cbn. by rewrite decide_False by apply not_elem_of_nil.
    - apply list.Forall_cons in Hks as [[v Hv] Hks].
      assert (sees (setZero r (label_set k)) (<[k := zeros]> A)) as Hs'.
      { pose proof (sees_set r A k zeros Hs) as H. unfold setZero, set_all in *. cbn [memoryBytes smUtilization
          smUtilizationNormalized knownLabels] in H.
        rewrite insert_id in H; [exact H|]. destruct Hs as [Hk _]. by rewrite Hk, Hv. }
      apply IH in Hs'.
      2: { eapply list.Forall_impl; [exact Hks|]. intros k' Hk'. by apply lookup_insert_is_Some; destruct (decide (k = k')); auto. }
      eapply eq_rect; [exact Hs'|]. apply map_eq. intros k'. rewrite !map_lookup_imap.
      destruct (decide (k = k')) as [<-|Hne].
      + rewrite lookup_insert_eq, Hv. cbn. rewrite (decide_True (P := k ∈ k :: ks)) by apply list_elem_of_here.
        by destruct (decide (k ∈ ks)).
      + rewrite lookup_insert_ne by done. destruct (A !! k') as [v'|]; [|done]. cbn. f_equal. apply decide_ext.
        rewrite elem_of_cons. naive_solver. }
  assert ((map_to_list (knownLabels r)).*2 = map label_set (known_keys r)) as ->.
  { unfold known_keys. change (map label_set ?l) with (label_set <$> l). rewrite <- list_fmap_compose.
    apply list_fmap_ext. intros _ [k l] Hin%list_elem_of_lookup_2%elem_of_map_to_list. cbn.
    rewrite Hk in Hin. destruct (A !! k); cbn in Hin; [by injection Hin|done]. }
  assert (∀ k, k ∈ known_keys r ↔ is_Some (A !! k)) as Hknown.
  { intros k. unfold known_keys. rewrite list_elem_of_fmap. split.
    - intros ([k' l] & -> & Hin%elem_of_map_to_list). rewrite Hk in Hin. cbn. destruct (A !! k'); [eauto|done].
    - intros [v Hv]. exists (k, label_set k). split; [done|]. apply elem_of_map_to_list. by rewrite Hk, Hv. }
  pose proof (Hfold (known_keys r) r A Hs) as H. eapply eq_rect; [apply H|].
  - apply list.Forall_forall. intros k. apply Hknown.
  - apply map_eq. intros k. rewrite map_lookup_imap, lookup_fmap. destruct (A !! k) eqn:E; [|done]. cbn.
    rewrite decide_True; [done|]. apply Hknown. eauto.
Qed.

Lemma sees_metric r A m : sees r A → sees (observe_metric r m) (abstract_metric A m).
Proof.
  intros Hs. unfold observe_metric, abstract_metric, metricLabels. set (k := podGPUKeyForMetric m).
  apply (sees_set _ _ k (metric_values m)). unfold deleteIdleLabelsForObservedGPU, shadows.
  destruct (String.eqb (KUUID k) ""); cbn [negb andb].
  - by rewrite map_filter_id.
  - by apply sees_delete_known.
Qed.

Lemma sees_observe r A metrics active : sees r A →
  sees (observe metrics active r) (abstract_observe metrics active A).
Proof.
  intros Hs. unfold observe, abstract_observe. apply (sees_prune _ _ active), sees_zero in Hs. revert Hs.
  generalize (fold_left setZero (map_to_list (knownLabels (pruneDeletedPods active r))).*2 (pruneDeletedPods active r)) as r'.
  generalize ((λ _, zeros) <$> filter (λ '(k, _), is_active active k = true) A) as A'.
  induction metrics as [|m ms IH]; intros A' r' Hs; cbn [fold_left]; [done|]. by apply IH, sees_metric.
Qed.

(** The values a scrape exposes for a key. *)
Definition exposed r (k : podGPUKey) : option values3 :=
  match vec_get (label_set k) (memoryBytes r), vec_get (label_set k) (smUtilization r),
        vec_get (label_set k) (smUtilizationNormalized r) with
  | Some a, Some b, Some c => Some (a, b, c)
  | _, _, _ => None
  end.

Lemma sees_exposed r A k : sees r A → exposed r k = A !! k.
Proof.
  intros (_ & [H1 _] & [H2 _] & [H3 _]). unfold exposed. rewrite H1, H2, H3.
  destruct (A !! k) as [[[a b] c]|]; done.
Qed.

Lemma abstract_metrics_lookup ms A k : NoDup (map podGPUKeyForMetric ms) →
  (∀ m m', m ∈ ms → m' ∈ ms → shadows (podGPUKeyForMetric m) (podGPUKeyForMetric m') = false) →
  fold_left abstract_metric ms A !! k =
    match List.find (λ m, bool_decide (podGPUKeyForMetric m = k)) ms with
    | Some m => Some (metric_values m)
    | None => if existsb (λ m, shadows (podGPUKeyForMetric m) k) ms then None else A !! k
    end.
Proof.
  intros Hnd Hsh. induction ms as [|m ms IH] using rev_ind; [done|].
  change (map podGPUKeyForMetric (ms ++ [m])) with (podGPUKeyForMetric <$> (ms ++ [m])) in Hnd.
  rewrite fmap_app in Hnd. apply list.NoDup_app in Hnd as (Hnd & Hdisj & _).
  rewrite fold_left_app. cbn [fold_left]. unfold abstract_metric at 1. rewrite existsb_app, find_app.
  assert (∀ m', m' ∈ ms → m' ∈ ms ++ [m]) as Hsub by (intros; apply elem_of_app; by left).
  assert (m ∈ ms ++ [m]) as Hmm by (apply elem_of_app; right; by apply list_elem_of_singleton).
  specialize (IH Hnd ltac:(auto)). cbn [List.find existsb]. rewrite orb_false_r.
  destruct (decide (podGPUKeyForMetric m = k)) as [<-|Hk].
  - rewrite lookup_insert_eq, bool_decide_true by done.
    destruct (List.find _ ms) as [m'|] eqn:E; [|done]. exfalso.
    apply find_some in E as [Hin%list_elem_of_In Heq%bool_decide_eq_true].
    eapply (Hdisj (podGPUKeyForMetric m')); [apply list_elem_of_fmap; eauto|].
    rewrite Heq. by apply list_elem_of_singleton.
  - rewrite lookup_insert_ne, (bool_decide_false (podGPUKeyForMetric m = k)) by done.
    destruct (List.find (λ m0, bool_decide (podGPUKeyForMetric m0 = k)) ms) as [m'|] eqn:E.
    + apply find_some in E as [Hin%list_elem_of_In Heq%bool_decide_eq_true].
      apply map_lookup_filter_Some. split; [exact IH|]. rewrite <- Heq. auto.
    + destruct (shadows (podGPUKeyForMetric m) k) eqn:Es.
      * rewrite orb_true_r. apply map_lookup_filter_None. right. intros v _. by rewrite Es.
      * rewrite orb_false_r, <- IH. destruct (fold_left abstract_metric ms A !! k) as [v|] eqn:Ev.
        -- by apply map_lookup_filter_Some.
        -- apply map_lookup_filter_None. by left.
Qed.
End refinement.

(** ** Properties *)

(** C22: what a scrape exposes.  After any sequence of earlier scrapes (some of
    which may have failed to fetch a snapshot), refreshing with a snapshot
    exposes exactly one value triple per series: the snapshot's values for its
    metrics, zeros for an earlier series whose pod is still active and that is
    not an idle placeholder replaced by a device seen in the snapshot, and
    nothing else; no label set outside those series remains, and a failed fetch
    changes nothing. *)
Theorem scrape_exposes {V} `{HV : GaugeVec V, !GaugeVecLaws V} (past : list (option PodSnapshot)) (s : PodSnapshot)
  (Hkeys : NoDup (map podGPUKeyForMetric (Metrics s)))
  (Hshadow : ∀ m m', m ∈ Metrics s → m' ∈ Metrics s → shadows (podGPUKeyForMetric m) (podGPUKeyForMetric m') = false) :
  let r : Exporter V := fold_left (λ r snapshot, refresh snapshot r) past newRuntime in
  let r' := refresh (Some s) r in
  (∀ k, exposed r' k =
     match List.find (λ m, bool_decide (podGPUKeyForMetric m = k)) (Metrics s) with
     | Some m => Some (metric_values m)
     | None =>
         if bool_decide (is_Some (exposed r k)) && is_active (SnapPodUIDs s) k &&
            negb (existsb (λ m, shadows (podGPUKeyForMetric m) k) (Metrics s))
         then Some zeros else None
     end) ∧
  (∀ l, vec_get l (memoryBytes r') ≠ None → ∃ k, l = label_set k ∧ is_Some (exposed r' k)) ∧
  refresh None r' = r'.
Proof.
  cbv zeta. set (r := fold_left _ past newRuntime).
  assert (∃ A, sees r A) as [A HA].
  { subst r. assert (∀ r0 A0, sees r0 A0 → ∃ A, sees (fold_left (λ r snapshot, refresh snapshot r) past r0) A) as H.
    { induction past as [|[sn|] past IH]; intros r0 A0 H0; cbn [fold_left refresh]; [by exists A0| |by eapply IH].
      eapply IH. by apply sees_observe. }
    eapply H. apply sees_new. }
  pose proof (sees_observe r A (Metrics s) (SnapPodUIDs s) HA) as HA'. cbn [refresh].
  split; [|split; [|done]].
  - intros k. rewrite (sees_exposed _ _ k HA'), (sees_exposed _ _ k HA). unfold abstract_observe.
    rewrite abstract_metrics_lookup by done. destruct (List.find _ (Metrics s)) as [m|]; [done|].
    rewrite lookup_fmap. destruct (existsb _ (Metrics s)); [by rewrite andb_false_r|]. cbn [negb]. rewrite andb_true_r.
    destruct (A !! k) as [v|] eqn:Ek.
    + rewrite (bool_decide_true (is_Some (Some v))) by eauto. cbn [andb].
      destruct (is_active (SnapPodUIDs s) k) eqn:Ea.
      * rewrite (proj2 (map_lookup_filter_Some _ _ _ v)); [done|]. by split.
      * rewrite (proj2 (map_lookup_filter_None _ _ _)); [done|]. right. intros v' _. by rewrite Ea.
    + rewrite bool_decide_false by (by intros [? ?]). cbn [andb].
      rewrite (proj2 (map_lookup_filter_None _ _ _)); [done|]. by left.
  - intros l Hl. destruct (vec_get l _) as [x|] eqn:E; [|done].
    pose proof HA' as (_ & [H1 H2] & _). destruct (H2 l x E) as [k ->]. exists k. split; [done|].
    rewrite (sees_exposed _ _ k HA'). rewrite H1 in E. by destruct (_ !! k).
Qed.

(** A table by label set is such a gauge. *)
#[global] Instance gmap_vec : GaugeVec (gmap Labels float64) := {
  vec_new := ∅; vec_get := lookup; vec_set := insert; vec_delete := delete
}.
#[global] Instance gmap_vec_laws : GaugeVecLaws (gmap Labels float64).
Proof.
  split; cbn.
  - intros l. apply lookup_empty.
  - intros l l' x v. case_decide; [subst; apply lookup_insert_eq|by apply lookup_insert_ne].
  - intros l l' v. case_decide; [subst; apply lookup_delete_eq|by apply lookup_delete_ne].
Qed.

Definition example_series (pod uuid : string) (mem sm : Z) : PodGPUMetric :=
  mkPodGPUMetric "team-a" pod ("uid-" +:+ pod) uuid 0 mem (f_of_int sm) f_zero (f_of_int sm).

(** An idle placeholder and a pod; then the device is seen and the pod is gone. *)
Lemma scrape_exposes_witness :
  let past := [Some (mkPodSnapshot [example_series "p1" "" 0 0; example_series "p2" "GPU-a" 10 5;
                                    example_series "p3" "GPU-a" 20 6] (Some {["uid-p1"; "uid-p2"; "uid-p3"]})); None] in
  let s := mkPodSnapshot [example_series "p1" "GPU-a" 30 7] (Some {["uid-p1"; "uid-p3"]}) in
  let r : Exporter (gmap Labels float64) := fold_left (λ r snapshot, refresh snapshot r) past newRuntime in
  let key pod uuid := mkKey "team-a" pod ("uid-" +:+ pod) uuid 0 in
  exposed (refresh (Some s) r) (key "p1" "GPU-a") = Some (f_of_int 30, f_of_int 7, f_of_int 7) ∧
  exposed (refresh (Some s) r) (key "p1" "") = None ∧
  exposed (refresh (Some s) r) (key "p2" "GPU-a") = None ∧
  exposed (refresh (Some s) r) (key "p3" "GPU-a") = Some zeros.
Proof.
  cbv zeta.
  pose proof (scrape_exposes (V := gmap Labels float64)
    [Some (mkPodSnapshot [example_series "p1" "" 0 0; example_series "p2" "GPU-a" 10 5;
                          example_series "p3" "GPU-a" 20 6] (Some {["uid-p1"; "uid-p2"; "uid-p3"]})); None]
    (mkPodSnapshot [example_series "p1" "GPU-a" 30 7] (Some {["uid-p1"; "uid-p3"]}))) as H.
  cbv zeta in H. destruct H as (H & _ & _).
  - cbn. apply NoDup_singleton.
  - intros m m' ->%list_elem_of_singleton ->%list_elem_of_singleton. reflexivity.
  - rewrite !H. split; [reflexivity|]. split; [|split]; vm_compute; reflexivity.
Defined.

(** What the loop of [validate] decides, given the names seen so far. *)
Lemma validate_fields_spec fields : ∀ seen,
  match validate_fields seen fields with
  | Ok _ => Forall (λ f, metricNamePattern f.2 = true ∧ seen !! f.2 = None) fields ∧ NoDup (map snd fields)
  | Err (NotValid key name) => (key, name) ∈ fields ∧ metricNamePattern name = false
  | Err (Duplicates key name other) =>
      (key, name) ∈ fields ∧ metricNamePattern name = true ∧
      (seen !! name = Some other ∨ ∃ pre mid post, fields = pre ++ (other, name) :: mid ++ (key, name) :: post)
  end.
Proof.
  induction fields as [|[key name] fields IH]; intros seen; cbn [validate_fields].
  { split; constructor. }
  destruct (metricNamePattern name) eqn:Ep; cbn [negb]; [|split; [apply list_elem_of_here|done]].
  destruct (seen !! name) as [other|] eqn:Es.
  { split; [apply list_elem_of_here|]. split; [done|]. by left. }
  specialize (IH (<[name := key]> seen)). destruct (validate_fields _ fields) as [u|[k n|k n o]].
  - destruct IH as [Hall Hnd]. split.
    + constructor; [done|]. eapply list.Forall_impl; [exact Hall|]. intros [k n] [Hp Hn]. split; [done|].
      cbn in *. apply lookup_insert_None in Hn as [Hn _]. done.
    + cbn [map snd]. apply list.NoDup_cons. split; [|done]. intros ([k n] & Heq & Hin)%list_elem_of_fmap. cbn in Heq. subst n.
      rewrite list.Forall_forall in Hall. destruct (Hall _ Hin) as [_ Hn]. cbn in Hn. by rewrite lookup_insert_eq in Hn.
  - destruct IH as [Hin Hp]. split; [by apply list_elem_of_further|done].
  - destruct IH as (Hin & Hp & H). split; [by apply list_elem_of_further|]. split; [done|].
    destruct H as [H|(pre & mid & post & ->)].
    + apply lookup_insert_Some in H as [[-> ->]|[_ H]]; [|by left]. right.
      apply list_elem_of_split in Hin as (mid & post & ->). by exists [], mid, post.
    + right. by exists ((key, name) :: pre), mid, post.
Qed.

(** The metric names are checked exactly.  [validate] accepts a
    configuration iff its three names are valid Prometheus names and mutually
    distinct; otherwise it names a field that is invalid, or two fields that
    share a name.  The defaults are accepted. *)
Theorem validate_decides n :
  match validate n with
  | Ok _ => Forall (λ f, metricNamePattern f.2 = true) (name_fields n) ∧ NoDup (map snd (name_fields n))
  | Err (NotValid key name) => (key, name) ∈ name_fields n ∧ metricNamePattern name = false
  | Err (Duplicates key name other) =>
      ∃ pre mid post, name_fields n = pre ++ (other, name) :: mid ++ (key, name) :: post
  end ∧
  validate (WithDefaults (mkMetricNames "" "" "")) = Ok tt.
Proof.
  split; [|vm_compute; reflexivity].
  pose proof (validate_fields_spec (name_fields n) ∅) as H. fold (validate n) in H.
  destruct (validate n) as [u|[k m|k m o]]; [|done|].
  - destruct H as [Hall Hnd]. split; [|done]. eapply list.Forall_impl; [exact Hall|]. by intros f [? _].
  - destruct H as (_ & _ & [H|H]); [by rewrite lookup_empty in H|done].
Qed.

(** The exporter's HTTP surface.  Whatever metrics path is configured, the
    mux gets distinct rooted patterns (no duplicate registration) among which
    both probe paths are served; and the sampling interval never goes below two
    seconds. *)
Theorem exporter_routes c :
  NoDup (routes c) ∧ Forall (λ p, HasPrefix p "/" = true) (routes c) ∧
  HealthzPath ∈ routes c ∧ MetricsReadyzPath ∈ routes c ∧ metricsPath c ∈ routes c ∧
  MinCollectInterval ≤ collectInterval c.
Proof.
  assert (HasPrefix (metricsPath c) "/" = true) as Hp.
  { unfold metricsPath. destruct (String.eqb _ ""); [done|]. destruct (HasPrefix (TrimSpace (Path c)) "/") eqn:E;
      cbn [negb]; [done|]. unfold HasPrefix. cbn. by destruct (TrimSpace (Path c)). }
  assert (MinCollectInterval ≤ collectInterval c) as Hi.
  { unfold collectInterval, MinCollectInterval, DefaultCollectInterval.
    destruct (Z.leb_spec (Interval c) 0); [lia|]. destruct (Z.ltb_spec (Interval c) (2 * 1000000000)); lia. }
  unfold routes. set (p := metricsPath c) in *. clearbody p.
  destruct (String.eqb_spec p HealthzPath) as [->|H1]; [|destruct (String.eqb_spec p MetricsReadyzPath) as [->|H2]];
    cbn [negb app].
  - change (negb (HealthzPath =? MetricsReadyzPath)%string) with true. cbv iota. split; [eapply bool_decide_unpack; vm_compute; exact I|]. split; [by repeat constructor|]. rewrite !elem_of_cons. auto 10.
  - split; [eapply bool_decide_unpack; vm_compute; exact I|]. split; [by repeat constructor|]. rewrite !elem_of_cons. auto 10.
  - split; [|split; [by repeat constructor|rewrite !elem_of_cons; auto 10]].
    apply list.NoDup_cons. split; [rewrite !elem_of_cons, elem_of_nil; naive_solver|].
    eapply bool_decide_unpack. vm_compute. exact I.
Qed.
