(* ===== verification/GoTime.v ===== *)
(** * Go's time.Duration

    [Duration.String], [ParseDuration] and [Duration.Seconds] of the standard
    library, which carry durations from the operator to the command lines of the
    daemons.  A duration is an [int64] number of nanoseconds; strings are handled
    as their bytes.  The fraction of [ParseDuration] is computed in [float64], as
    in Go.  The result of the file: printing and parsing are inverse on every
    duration. *)

From Stdlib Require Import ZArith Lia String Ascii DecimalString Floats.SpecFloat.
From stdpp Require Import base list strings.
From S2P Require Import Prelude GoStrings Json Float64.

#[local] Open Scope string_scope.
#[local] Open Scope list_scope.
#[local] Open Scope Z_scope.

Definition Nanosecond : Z := 1.
Definition Microsecond : Z := 1000.
Definition Millisecond : Z := 1000 * 1000.
Definition Second : Z := 1000 * 1000 * 1000.
Definition Minute : Z := 60 * Second.
Definition Hour : Z := 60 * Minute.

(** [Duration.Seconds] *)
Definition Seconds (d : Z) : float64 :=
  f_add (f_of_int (d ÷ Second)) (f_div (f_of_int (Z.rem d Second)) (f_of_int Second)).

(** ** Printing *)

Definition digit_char (d : Z) : ascii := ascii_of_nat (Z.to_nat (48 + d)).

(** [fmtFrac]: the last [prec] digits of [v] without trailing zeros, and what is left of [v]. *)
Fixpoint fmtFrac (prec : nat) (v : Z) (print : bool) (acc : list ascii) : list ascii * Z :=
  match prec with
  | O => ((if print then ["."%char] else []) ++ acc, v)
  | S p =>
      let digit := v mod 10 in
      let print := print || negb (digit =? 0) in
      fmtFrac p (v / 10) print (if print then digit_char digit :: acc else acc)
  end.

Definition fmtInt (v : Z) : list ascii := bytes_of (FormatInt v).

Definition micro_sign : list ascii := ["194"%char; "181"%char].

(** The unit and the number of fraction digits below one second. *)
Definition sub_second (u : Z) : list ascii * nat :=
  if u <? Microsecond then (["n"%char; "s"%char], 0%nat)
  else if u <? Millisecond then (micro_sign ++ ["s"%char], 3%nat)
  else (["m"%char; "s"%char], 6%nat).

Definition format_magnitude (u : Z) : list ascii :=
  if u =? 0 then ["0"%char; "s"%char]
  else if u <? Second then
    let '(unit, prec) := sub_second u in
    let '(frac, v) := fmtFrac prec u false [] in
    fmtInt v ++ frac ++ unit
  else
    let '(frac, v) := fmtFrac 9 u false [] in
    let seconds := fmtInt (v mod 60) ++ frac ++ ["s"%char] in
    let v := v / 60 in
    if 0 <? v then
      let minutes := fmtInt (v mod 60) ++ "m"%char :: seconds in
      let v := v / 60 in
      if 0 <? v then fmtInt v ++ "h"%char :: minutes else minutes
    else seconds.

(** [d.String()] of an [int64] *)
Definition DurationString (d : Z) : string :=
  string_of_list_ascii ((if d <? 0 then ["-"%char] else []) ++ format_magnitude (Z.abs d)).

(** ** Parsing *)

Definition digit_value (a : ascii) : Z := Z.of_nat (nat_of_ascii a) - 48.

(** [leadingInt]: [None] on overflow. *)
Fixpoint leadingInt (x : Z) (s : list ascii) : option (Z * list ascii) :=
  match s with
  | c :: r =>
      if is_digit c then
        if 2 ^ 63 / 10 <? x then None
        else
          let x := x * 10 + digit_value c in
          if 2 ^ 63 <? x then None else leadingInt x r
      else Some (x, s)
  | [] => Some (x, [])
  end.

(** [leadingFraction]: digits that would overflow are dropped. *)
Fixpoint leadingFraction (x : Z) (scale : float64) (overflow : bool) (s : list ascii) : Z * float64 * list ascii :=
  match s with
  | c :: r =>
      if is_digit c then
        if overflow then leadingFraction x scale true r
        else if (2 ^ 63 - 1) / 10 <? x then leadingFraction x scale true r
        else
          let y := x * 10 + digit_value c in
          if 2 ^ 63 <? y then leadingFraction x scale true r
          else leadingFraction y (f_mul scale (f_of_int 10)) false r
      else (x, scale, s)
  | [] => (x, scale, [])
  end.

Definition starts_number (c : ascii) : bool := Ascii.eqb c "." || is_digit c.

(** The unit: everything up to the next number. *)
Fixpoint leadingUnit (s : list ascii) : list ascii * list ascii :=
  match s with
  | c :: r => if starts_number c then ([], s) else let '(u, r') := leadingUnit r in (c :: u, r')
  | [] => ([], [])
  end.

Definition unitMap (u : list ascii) : option Z :=
  if bool_decide (u = ["n"%char; "s"%char]) then Some Nanosecond
  else if bool_decide (u = ["u"%char; "s"%char]) then Some Microsecond
  else if bool_decide (u = micro_sign ++ ["s"%char]) then Some Microsecond
  else if bool_decide (u = ["206"%char; "188"%char; "s"%char]) then Some Microsecond
  else if bool_decide (u = ["m"%char; "s"%char]) then Some Millisecond
  else if bool_decide (u = ["s"%char]) then Some Second
  else if bool_decide (u = ["m"%char]) then Some Minute
  else if bool_decide (u = ["h"%char]) then Some Hour
  else None.

(** [uint64(x)] of a float that is not negative and below [2^64]. *)
Definition f_to_uint (x : float64) : Z :=
  match x with
  | S754_finite false m e => if 0 <=? e then Z.pos m * 2 ^ e else Z.pos m / 2 ^ (- e)
  | _ => 0
  end.

(** One group, [number unit]: its nanoseconds and the rest. *)
Definition parse_group (s : list ascii) : option (Z * list ascii) :=
  match s with
  | [] => None
  | c :: _ =>
      if negb (starts_number c) then None
      else
        match leadingInt 0 s with
        | None => None
        | Some (v, s1) =>
            let pre := negb (bool_decide (List.length s1 = List.length s)) in
            let '(f, scale, s2, post) :=
              match s1 with
              | c1 :: s' =>
                  if Ascii.eqb c1 "." then
                    let '(f, scale, s2) := leadingFraction 0 (f_of_int 1) false s' in
                    (f, scale, s2, negb (bool_decide (List.length s2 = List.length s')))
                  else (0, f_of_int 1, s1, false)
              | [] => (0, f_of_int 1, s1, false)
              end in
            if negb pre && negb post then None
            else
              let '(u, rest) := leadingUnit s2 in
              if bool_decide (u = []) then None
              else
                match unitMap u with
                | None => None
                | Some unit =>
                    if 2 ^ 63 / unit <? v then None
                    else
                      let v := v * unit in
                      let v := if 0 <? f then v + f_to_uint (f_mul (f_of_int f) (f_div (f_of_int unit) scale)) else v in
                      if 2 ^ 63 <? v then None else Some (v, rest)
                end
        end
  end.

(** The loop over the groups; each consumes at least one byte. *)
Fixpoint parse_groups (fuel : nat) (d : Z) (s : list ascii) : option Z :=
  match s, fuel with
  | [], _ => Some d
  | _, O => None
  | _, S fuel =>
      match parse_group s with
      | None => None
      | Some (v, rest) =>
          let d := wrapu64 (d + v) in
          if 2 ^ 63 <? d then None else parse_groups fuel d rest
      end
  end.

(** An optional sign. *)
Definition cut_sign (s : list ascii) : bool * list ascii :=
  match s with
  | c :: r => if Ascii.eqb c "-" then (true, r) else if Ascii.eqb c "+" then (false, r) else (false, s)
  | [] => (false, s)
  end.

Definition ParseDuration (str : string) : option Z :=
  let '(neg, s) := cut_sign (bytes_of str) in
  if bool_decide (s = ["0"%char]) then Some 0
  else if bool_decide (s = []) then None
  else
    match parse_groups (List.length s) 0 s with
    | None => None
    | Some d => if neg : bool then Some (- d) else if 2 ^ 63 - 1 <? d then None else Some d
    end.

Example print_parse : map (λ d, (DurationString d, ParseDuration (DurationString d))) [0; 1; -1500; 90 * Second; 2 ^ 63 - 1; - 2 ^ 63]
  = [("0s", Some 0); ("1ns", Some 1); (string_of_list_ascii (["-"; "1"; "."; "5"; "194"; "181"; "s"]%char), Some (-1500));
     ("1m30s", Some 90000000000); ("2562047h47m16.854775807s", Some (2 ^ 63 - 1)); ("-2562047h47m16.854775808s", Some (- 2 ^ 63))].
Proof. vm_compute. reflexivity. Qed.

(** ** Lemmas: digits *)

(** The number a digit sequence denotes. *)
Definition horner (x : Z) (l : list ascii) : Z := fold_left (λ x a, x * 10 + digit_value a) l x.

Lemma digit_value_range a : is_digit a = true → 0 ≤ digit_value a ≤ 9.
Proof. destruct a as [[] [] [] [] [] [] [] []]; vm_compute; intros H; try done; split; intros; discriminate. Qed.

Lemma horner_app x l l' : horner x (l ++ l') = horner (horner x l) l'.
Proof. apply fold_left_app. Qed.

Lemma horner_shift l : ∀ x, horner x l = x * 10 ^ Z.of_nat (List.length l) + horner 0 l.
Proof.
  induction l as [|a l IH]; intros x; [cbn; lia|]. unfold horner. cbn [fold_left List.length]. fold (horner (x * 10 + digit_value a) l).
  fold (horner (0 * 10 + digit_value a) l). rewrite IH, (IH (0 * 10 + digit_value a)). rewrite Nat2Z.inj_succ, Z.pow_succ_r by lia. ring.
Qed.

Lemma horner_bounds l : Forall (λ a, is_digit a = true) l → 0 ≤ horner 0 l < 10 ^ Z.of_nat (List.length l).
Proof.
  induction l as [|a l IH] using rev_ind; intros H; [cbn; lia|]. apply list.Forall_app in H as [Hl [Ha _]%list.Forall_cons].
  rewrite horner_app, length_app, Nat2Z.inj_add, Z.pow_add_r by lia. change (Z.of_nat (List.length [a])) with 1.
  rewrite Z.pow_1_r. change (horner (horner 0 l) [a]) with (horner 0 l * 10 + digit_value a).
  pose proof (digit_value_range a Ha). specialize (IH Hl). lia.
Qed.

Lemma horner_ge x l : 0 ≤ x → Forall (λ a, is_digit a = true) l → x ≤ horner x l.
Proof.
  intros Hx Hl. rewrite horner_shift. pose proof (horner_bounds l Hl).
  pose proof (Z.pow_pos_nonneg 10 (Z.of_nat (List.length l)) ltac:(lia) ltac:(lia)). nia.
Qed.

Lemma horner_uint d : ∀ p, horner (Z.pos p) (bytes_of (NilEmpty.string_of_uint d)) = Z.pos (Pos.of_uint_acc d p).
Proof.
  induction d; intros p; [done|..]; cbn [NilEmpty.string_of_uint bytes_of list_ascii_of_string Pos.of_uint_acc];
    unfold horner; cbn [fold_left]; rewrite <- IHd; unfold horner; f_equal;
    match goal with |- context [digit_value ?a] => let v := eval vm_compute in (digit_value a) in change (digit_value a) with v end; lia.
Qed.

Lemma horner_FormatInt n : 0 ≤ n → horner 0 (fmtInt n) = n.
Proof.
  intros Hn. destruct n as [|p|p]; [done| |done]. unfold fmtInt, FormatInt. cbn [Z.to_int NilZero.string_of_int].
  pose proof (DecimalPos.Unsigned.of_to p) as Hof. pose proof (DecimalPos.Unsigned.to_uint_nonnil p) as Hnn.
  destruct (pos_uint_head p) as (a & r & Hhead & _ & Hz & _). revert Hof Hhead.
  destruct (Pos.to_uint p) as [|d|d|d|d|d|d|d|d|d|d]; [done|by intros _ [= <- _]|..]; intros Hof _;
    change (Z.pos p) with (Z.of_N (N.pos p)); rewrite <- Hof; cbn [Pos.of_uint Z.of_N];
    rewrite <- horner_uint; reflexivity.
Qed.

Lemma fmtInt_digits n : 0 ≤ n → Forall (λ a, is_digit a = true) (fmtInt n) ∧ fmtInt n ≠ [].
Proof.
  intros Hn. unfold fmtInt. split.
  - destruct n as [|p|p]; [by repeat constructor| |done]. unfold FormatInt. cbn [Z.to_int NilZero.string_of_int].
    destruct (pos_uint_head p) as (a & r & -> & Ha & _ & Hr). by constructor.
  - pose proof (FormatInt_nonempty n). by destruct (FormatInt n).
Qed.

(** A rest that does not continue the number. *)
Definition no_digit (s : list ascii) : Prop := match s with c :: _ => is_digit c = false | [] => True end.

Lemma leadingInt_digits l rest : ∀ x, 0 ≤ x → Forall (λ a, is_digit a = true) l → no_digit rest → horner x l ≤ 2 ^ 63 →
  leadingInt x (l ++ rest) = Some (horner x l, rest).
Proof.
  induction l as [|a l IH]; intros x Hx Hl Hr Hb; cbn [app leadingInt].
  - destruct rest as [|c r]; [done|]. cbn. by rewrite Hr.
  - apply list.Forall_cons in Hl as [Ha Hl]. rewrite Ha. pose proof (digit_value_range a Ha) as Hv.
    change (horner x (a :: l)) with (horner (x * 10 + digit_value a) l) in *.
    pose proof (horner_ge (x * 10 + digit_value a) l ltac:(lia) Hl).
    rewrite (proj2 (Z.ltb_ge _ _)) by (apply Z.div_le_lower_bound; lia).
    rewrite (proj2 (Z.ltb_ge (2 ^ 63) _)) by lia. apply IH; [lia|done..].
Qed.

(** [scale] after so many digits. *)
Fixpoint scale_of (n : nat) (scale : float64) : float64 :=
  match n with O => scale | S n => scale_of n (f_mul scale (f_of_int 10)) end.

Lemma leadingFraction_digits l rest : ∀ x scale, 0 ≤ x → Forall (λ a, is_digit a = true) l → no_digit rest →
  horner x l ≤ 2 ^ 63 - 1 →
  leadingFraction x scale false (l ++ rest) = (horner x l, scale_of (List.length l) scale, rest).
Proof.
  induction l as [|a l IH]; intros x scale Hx Hl Hr Hb; cbn [app leadingFraction].
  - destruct rest as [|c r]; [done|]. cbn. by rewrite Hr.
  - apply list.Forall_cons in Hl as [Ha Hl]. rewrite Ha. pose proof (digit_value_range a Ha) as Hv.
    change (horner x (a :: l)) with (horner (x * 10 + digit_value a) l) in *.
    pose proof (horner_ge (x * 10 + digit_value a) l ltac:(lia) Hl).
    rewrite (proj2 (Z.ltb_ge _ _)) by (apply Z.div_le_lower_bound; lia).
    rewrite (proj2 (Z.ltb_ge (2 ^ 63) _)) by lia. cbn [List.length scale_of]. apply IH; [lia|done..].
Qed.

(** ** Lemmas: the fraction *)

Lemma digit_char_spec d : 0 ≤ d ≤ 9 → is_digit (digit_char d) = true ∧ digit_value (digit_char d) = d.
Proof.
  intros Hd. assert (Hc : d = 0 ∨ d = 1 ∨ d = 2 ∨ d = 3 ∨ d = 4 ∨ d = 5 ∨ d = 6 ∨ d = 7 ∨ d = 8 ∨ d = 9) by lia.
  by repeat (destruct Hc as [-> | Hc]; [done|]); subst.
Qed.

(** What [fmtFrac] has printed, once it prints. *)
Lemma fmtFrac_printing p : ∀ v acc, 0 ≤ v → Forall (λ a, is_digit a = true) acc → ∃ ds,
  fmtFrac p v true acc = ("."%char :: ds, v / 10 ^ Z.of_nat p) ∧ Forall (λ a, is_digit a = true) ds ∧
  List.length ds = (p + List.length acc)%nat ∧
  horner 0 ds = (v mod 10 ^ Z.of_nat p) * 10 ^ Z.of_nat (List.length acc) + horner 0 acc.
Proof.
  induction p as [|p IH]; intros v acc Hv Hacc; cbn [fmtFrac].
  - exists acc. rewrite Z.pow_0_r, Z.div_1_r, Z.mod_1_r. done.
  - cbn [orb]. destruct (digit_char_spec (v mod 10)) as [Hd Hdv]; [pose proof (Z.mod_pos_bound v 10); lia|].
    destruct (IH (v / 10) (digit_char (v mod 10) :: acc)) as (ds & -> & Hds & Hlen & Hval);
      [apply Z.div_pos; lia|by constructor|].
    pose proof (Z.pow_pos_nonneg 10 (Z.of_nat p) ltac:(lia) ltac:(lia)).
    exists ds. rewrite Nat2Z.inj_succ, Z.pow_succ_r by lia. split_and!; [|done|cbn in Hlen |- *; lia|].
    + by rewrite Z.div_div by lia.
    + rewrite Hval. cbn [List.length]. change (horner 0 (digit_char (v mod 10) :: acc)) with (horner (digit_value (digit_char (v mod 10))) acc).
      rewrite Hdv, (horner_shift acc (v mod 10)), Nat2Z.inj_succ, Z.pow_succ_r by lia.
      rewrite (Z.rem_mul_r v 10 (10 ^ Z.of_nat p)) by lia. ring.
Qed.

Lemma fmtFrac_spec p : ∀ v, 0 ≤ v →
  (v mod 10 ^ Z.of_nat p = 0 ∧ fmtFrac p v false [] = ([], v / 10 ^ Z.of_nat p)) ∨
  ∃ ds, fmtFrac p v false [] = ("."%char :: ds, v / 10 ^ Z.of_nat p) ∧ Forall (λ a, is_digit a = true) ds ∧
    (0 < List.length ds ≤ p)%nat ∧
    horner 0 ds * 10 ^ (Z.of_nat p - Z.of_nat (List.length ds)) = v mod 10 ^ Z.of_nat p.
Proof.
  induction p as [|p IH]; intros v Hv; cbn [fmtFrac].
  { left. by rewrite Z.pow_0_r, Z.div_1_r, Z.mod_1_r. }
  pose proof (Z.mod_pos_bound v 10 ltac:(lia)) as Hb. pose proof (Z.pow_pos_nonneg 10 (Z.of_nat p) ltac:(lia) ltac:(lia)) as Hp.
  rewrite Nat2Z.inj_succ, Z.pow_succ_r by lia. rewrite (Z.rem_mul_r v 10 (10 ^ Z.of_nat p)), <- (Z.div_div v 10) by lia.
  cbn [orb]. destruct (Z.eqb_spec (v mod 10) 0) as [Hz|Hz]; cbn [negb].
  - destruct (IH (v / 10)) as [[Hm ->]|(ds & -> & Hds & Hlen & Hval)]; [apply Z.div_pos; lia|left; split; [lia|done]|].
    right. exists ds. split_and!; [done|done|lia|lia|].
    replace (Z.succ (Z.of_nat p) - Z.of_nat (List.length ds)) with (Z.succ (Z.of_nat p - Z.of_nat (List.length ds))) by lia.
    rewrite Z.pow_succ_r, Hz by lia. nia.
  - destruct (digit_char_spec (v mod 10) ltac:(lia)) as [Hd Hdv].
    destruct (fmtFrac_printing p (v / 10) [digit_char (v mod 10)]) as (ds & -> & Hds & Hlen & Hval);
      [apply Z.div_pos; lia|by constructor|].
    right. exists ds. cbn in Hlen. split_and!; [done|done|lia|lia|].
    rewrite Hval, Hlen. cbn [List.length]. change (horner 0 [digit_char (v mod 10)]) with (digit_value (digit_char (v mod 10))).
    rewrite Hdv. replace (Z.succ (Z.of_nat p) - Z.of_nat (p + 1)) with 0 by lia. rewrite Z.pow_0_r, Z.pow_1_r. ring.
Qed.

(** Multiplying integers whose product is below [2^53] is exact. *)
Lemma f_mul_int a b : 0 < a → 0 < b → a * b < 2 ^ 53 → f_mul (f_of_int a) (f_of_int b) = f_of_int (a * b).
Proof.
  intros Ha Hb Hab.
  destruct (int_digits a ltac:(nia)) as (da & Hda & Hda'). destruct (int_digits b ltac:(nia)) as (db & Hdb & Hdb').
  destruct (int_digits (a * b) ltac:(nia)) as (d & Hd & Hd').
  rewrite (f_of_int_exact a da), (f_of_int_exact b db), (f_of_int_exact (a * b) d) by done.
  assert (Hpa : 0 < 2 ^ (53 - da)) by (apply Z.pow_pos_nonneg; lia).
  assert (Hpb : 0 < 2 ^ (53 - db)) by (apply Z.pow_pos_nonneg; lia).
  unfold f_mul, SFmul. cbn [xorb].
  assert (Hq : Z.pos (Z.to_pos (a * 2 ^ (53 - da)) * Z.to_pos (b * 2 ^ (53 - db))) = a * b * 2 ^ (106 - da - db)).
  { rewrite Pos2Z.inj_mul, !Z2Pos.id by nia. replace (106 - da - db) with (53 - da + (53 - db)) by lia.
    rewrite Z.pow_add_r by lia. ring. }
  rewrite Hq. set (k := 106 - da - db).
  assert (Hk : 0 < 2 ^ k) by (apply Z.pow_pos_nonneg; lia).
  assert (Hup : da + db - 1 <= d).
  { apply Z.lt_pred_le. apply (Z.pow_lt_mono_r_iff 2); [lia|lia|]. unfold Z.pred.
    replace (da + db - 1 + -1) with (da - 1 + (db - 1)) by lia. rewrite Z.pow_add_r by lia. nia. }
  destruct (round_aux_spec (a * b * 2 ^ k) (da - 53 + (db - 53)) loc_Exact (d + k)) as (R & m & HR & Hres);
    [lia| |lia|lia|].
  { replace (d + k - 1) with (d - 1 + k) by lia. rewrite !Z.pow_add_r by lia. nia. }
  replace (d + k - 53) with (d - 53 + k) in * by lia.
  assert (Hdiv : a * b * 2 ^ k = a * b * 2 ^ (53 - d) * 2 ^ (d - 53 + k)).
  { rewrite <- (Z.mul_assoc (a * b)), <- Z.pow_add_r by lia. do 2 f_equal. lia. }
  pose proof (Z.pow_pos_nonneg 2 (d - 53 + k) ltac:(lia) ltac:(lia)) as Hdk.
  rewrite Hdiv, Z.div_mul, Z.mod_mul in HR by lia. destruct HR as [HR|[_ HR]]; [|by destruct HR].
  assert (HRlt : a * b * 2 ^ (53 - d) < 2 ^ 53).
  { replace (2 ^ 53) with (2 ^ d * 2 ^ (53 - d)) by (rewrite <- Z.pow_add_r by lia; f_equal; lia).
    pose proof (Z.pow_pos_nonneg 2 (53 - d) ltac:(lia) ltac:(lia)). nia. }
  destruct Hres as [(Hm & _ & ->)|(HR53 & _ & _)]; [|lia].
  f_equal; [|subst k; lia]. rewrite <- HR, <- Hm. done.
Qed.

Lemma f_to_uint_int n : 0 < n < 2 ^ 53 → f_to_uint (f_of_int n) = n.
Proof.
  intros Hn. destruct (int_digits n Hn) as (d & Hd & Hd'). rewrite (f_of_int_exact n d) by done. cbn [f_to_uint].
  pose proof (Z.pow_pos_nonneg 2 (53 - d) ltac:(lia) ltac:(lia)).
  rewrite Z2Pos.id by nia. destruct (Z.leb_spec 0 (d - 53)).
  - replace d with 53 by lia. rewrite Z.sub_diag, Z.pow_0_r. lia.
  - replace (- (d - 53)) with (53 - d) by lia. rewrite Z.div_mul by lia. done.
Qed.

(** ** Lemmas: a group *)

(** The printed fraction of [r] out of [10^p]. *)
Definition frac_ok (p : nat) (r : Z) (frac : list ascii) : Prop :=
  (frac = [] ∧ r = 0) ∨
  ∃ ds, frac = "."%char :: ds ∧ Forall (λ a, is_digit a = true) ds ∧ (0 < List.length ds ≤ p)%nat ∧
    horner 0 ds * 10 ^ (Z.of_nat p - Z.of_nat (List.length ds)) = r.

Lemma fmtFrac_ok p v : 0 ≤ v → ∃ frac, fmtFrac p v false [] = (frac, v / 10 ^ Z.of_nat p) ∧ frac_ok p (v mod 10 ^ Z.of_nat p) frac.
Proof.
  intros Hv. destruct (fmtFrac_spec p v Hv) as [[Hm ->]|(ds & -> & Hds & Hlen & Hval)].
  - exists []. split; [done|by left].
  - eexists. split; [done|]. right. eauto.
Qed.

(** A power of ten over the scale of a shorter fraction is exact. *)
Lemma unit_over_scale p k : (k ≤ p ≤ 9)%nat →
  f_div (f_of_int (10 ^ Z.of_nat p)) (scale_of k (f_of_int 1)) = f_of_int (10 ^ (Z.of_nat p - Z.of_nat k)).
Proof.
  intros Hk.
  assert (Hall : forallb (λ p, forallb (λ k, bool_decide
    (f_div (f_of_int (10 ^ Z.of_nat p)) (scale_of k (f_of_int 1)) = f_of_int (10 ^ (Z.of_nat p - Z.of_nat k)))) (seq 0 (S p))) (seq 0 10) = true)
    by (vm_compute; reflexivity).
  rewrite forallb_forall in Hall. specialize (Hall p ltac:(apply in_seq; lia)). rewrite forallb_forall in Hall.
  specialize (Hall k ltac:(apply in_seq; lia)). by apply bool_decide_eq_true in Hall.
Qed.

Lemma frac_value p ds : Forall (λ a, is_digit a = true) ds → (List.length ds ≤ p ≤ 9)%nat → 0 < horner 0 ds →
  f_to_uint (f_mul (f_of_int (horner 0 ds)) (f_div (f_of_int (10 ^ Z.of_nat p)) (scale_of (List.length ds) (f_of_int 1)))) =
  horner 0 ds * 10 ^ (Z.of_nat p - Z.of_nat (List.length ds)).
Proof.
  intros Hds Hlen Hpos. rewrite unit_over_scale by lia. pose proof (horner_bounds ds Hds) as Hb.
  pose proof (Z.pow_pos_nonneg 10 (Z.of_nat p - Z.of_nat (List.length ds)) ltac:(lia) ltac:(lia)) as Hp.
  assert (Hlt : horner 0 ds * 10 ^ (Z.of_nat p - Z.of_nat (List.length ds)) < 2 ^ 53).
  { apply Z.lt_le_trans with (10 ^ Z.of_nat p).
    - replace (Z.of_nat p) with (Z.of_nat (List.length ds) + (Z.of_nat p - Z.of_nat (List.length ds))) at 2 by lia.
      rewrite Z.pow_add_r by lia. nia.
    - apply Z.le_trans with (10 ^ 9); [apply Z.pow_le_mono_r; lia|done]. }
  rewrite f_mul_int by (done || lia). apply f_to_uint_int. nia.
Qed.

Definition starts_or_ends (rest : list ascii) : Prop := match rest with c :: _ => starts_number c = true | [] => True end.

Lemma leadingUnit_app u rest : Forall (λ c, starts_number c = false) u → starts_or_ends rest →
  leadingUnit (u ++ rest) = (u, rest).
Proof.
  intros Hu Hr. induction Hu as [|c u Hc _ IH]; cbn [app leadingUnit].
  - destruct rest as [|c r]; [done|]. cbn in Hr |- *. by rewrite Hr.
  - by rewrite Hc, IH.
Qed.

Lemma starts_number_digit c : starts_number c = false → is_digit c = false.
Proof. unfold starts_number. by intros [_ ?]%orb_false_iff. Qed.

(** A printed number with a printed fraction and its unit reads back as that many nanoseconds. *)
Lemma parse_group_printed v p r frac u unit rest :
  0 ≤ v → frac_ok p r frac → (p ≤ 9)%nat → (frac = [] ∨ unit = 10 ^ Z.of_nat p) → 0 < unit →
  unitMap u = Some unit → u ≠ [] → Forall (λ c, starts_number c = false) u → starts_or_ends rest →
  0 ≤ r → v * unit + r ≤ 2 ^ 63 →
  parse_group (fmtInt v ++ frac ++ u ++ rest) = Some (v * unit + r, rest).
Proof.
  intros Hv Hfrac Hp Hunit Hpos Hmap Hune Hu Hrest Hr Hb.
  destruct (fmtInt_digits v Hv) as [Hd Hne]. unfold parse_group.
  destruct (fmtInt v ++ frac ++ u ++ rest) as [|c s] eqn:Es; [by apply app_eq_nil in Es as [? _]|].
  assert (Hc : starts_number c = true).
  { destruct (fmtInt v) as [|a l]; [done|]. cbn in Es. injection Es as <- _. apply list.Forall_cons in Hd as [Ha _].
    unfold starts_number. by rewrite Ha, orb_true_r. }
  rewrite Hc. cbn [negb]. rewrite <- Es. clear Hc.
  assert (Huv : v * 1 ≤ v * unit) by (apply Z.mul_le_mono_nonneg_l; lia).
  destruct u as [|u0 u]; [done|]. pose proof Hu as [Hu0 _]%list.Forall_cons.
  rewrite leadingInt_digits; [|lia|done| |rewrite horner_FormatInt; lia].
  2:{ destruct Hfrac as [[-> _]|(ds & -> & _)]; [|done]. by apply starts_number_digit. }
  rewrite (horner_FormatInt v Hv). rewrite bool_decide_eq_false_2; cbn [negb andb].
  2:{ intros Hl. rewrite (length_app (fmtInt v)) in Hl. destruct (fmtInt v); [done|]. cbn [List.length] in Hl. lia. }
  assert (Hdiv : (2 ^ 63 / unit <? v) = false) by (apply Z.ltb_ge, Z.div_le_lower_bound; lia).
  destruct Hfrac as [[-> ->]|(ds & -> & Hds & Hlen & Hval)].
  - assert (Hdot : Ascii.eqb u0 "." = false) by (by apply orb_false_iff in Hu0 as [? _]).
    cbn [app]. rewrite Hdot. change (u0 :: u ++ rest) with ((u0 :: u) ++ rest).
    rewrite leadingUnit_app by done. rewrite (bool_decide_eq_false_2 (u0 :: u = [])), Hmap, Hdiv by done.
    cbn [Z.ltb Z.compare]. by rewrite Z.add_0_r in *; rewrite (proj2 (Z.ltb_ge _ _)) by lia.
  - destruct Hunit as [?| ->]; [done|]. cbn [app]. rewrite Ascii.eqb_refl.
    change (u0 :: u ++ rest) with ((u0 :: u) ++ rest).
    assert (Hf : horner 0 ds ≤ 2 ^ 63 - 1).
    { pose proof (horner_bounds ds Hds). apply Z.le_trans with (10 ^ Z.of_nat (List.length ds)); [lia|].
      apply Z.le_trans with (10 ^ 9); [apply Z.pow_le_mono_r; lia|done]. }
    rewrite leadingFraction_digits; [|lia|done|by apply starts_number_digit|done].
    rewrite leadingUnit_app by done. rewrite (bool_decide_eq_false_2 (u0 :: u = [])), Hmap, Hdiv by done.
    pose proof (horner_bounds ds Hds) as [Hf0 _].
    destruct (Z.ltb_spec 0 (horner 0 ds)) as [Hfp|Hfz].
    + rewrite frac_value, Hval by (done || lia). by rewrite (proj2 (Z.ltb_ge _ _)) by lia.
    + replace (horner 0 ds) with 0 in Hval by lia. rewrite Z.mul_0_l in Hval. subst r.
      rewrite Z.add_0_r in *. by rewrite (proj2 (Z.ltb_ge _ _)) by lia.
Qed.

(** ** Printing and parsing are inverse *)

Lemma parse_groups_step fuel d s v rest : parse_group s = Some (v, rest) → 0 ≤ d → 0 ≤ v → d + v ≤ 2 ^ 63 →
  parse_groups (S fuel) d s = parse_groups fuel (d + v) rest.
Proof.
  intros Hg Hd Hv Hb. destruct s as [|c s]; [done|]. cbn [parse_groups]. rewrite Hg, wrapu64_small by lia.
  by rewrite (proj2 (Z.ltb_ge _ _)) by lia.
Qed.

Lemma parse_groups_nil fuel d : parse_groups fuel d [] = Some d.
Proof. by destruct fuel. Qed.

Lemma starts_fmtInt v s : 0 ≤ v → starts_or_ends (fmtInt v ++ s).
Proof.
  intros Hv. destruct (fmtInt_digits v Hv) as [Hd Hne]. destruct (fmtInt v) as [|a l]; [done|].
  apply list.Forall_cons in Hd as [Ha _]. cbn. unfold starts_number. by rewrite Ha, orb_true_r.
Qed.

(** A whole number of a unit, then the rest. *)
Lemma parse_whole v c unit rest : 0 ≤ v → 0 < unit → unitMap [c] = Some unit → starts_number c = false → starts_or_ends rest →
  v * unit ≤ 2 ^ 63 → parse_group (fmtInt v ++ c :: rest) = Some (v * unit, rest).
Proof.
  intros Hv Hu Hm Hc Hr Hb. rewrite <- (Z.add_0_r (v * unit)).
  apply (parse_group_printed v 0 0 [] [c] unit rest); try done; [by left|lia|by left|by constructor|lia].
Qed.

(** The last group: a fraction of [10^p] units. *)
Lemma parse_last p u name rest : 0 ≤ u ≤ 2 ^ 63 → (p ≤ 9)%nat → unitMap name = Some (10 ^ Z.of_nat p) → name ≠ [] →
  Forall (λ c, starts_number c = false) name → starts_or_ends rest → ∀ v frac, frac_ok p (u mod 10 ^ Z.of_nat p) frac →
  0 ≤ v ≤ u / 10 ^ Z.of_nat p →
  parse_group (fmtInt v ++ frac ++ name ++ rest) = Some (v * 10 ^ Z.of_nat p + u mod 10 ^ Z.of_nat p, rest).
Proof.
  intros Hu Hp Hm Hne Hname Hrest v frac Hfrac Hv.
  pose proof (Z.pow_pos_nonneg 10 (Z.of_nat p) ltac:(lia) ltac:(lia)) as Hpos.
  pose proof (Z.mod_pos_bound u (10 ^ Z.of_nat p) Hpos). pose proof (Z.div_mod u (10 ^ Z.of_nat p) ltac:(lia)).
  apply (parse_group_printed v p); [lia|done|done|by right|done|done|done|done|done|lia|nia].
Qed.

Lemma parse_sub_second u : 0 < u < Second → ∀ fuel, parse_groups (S fuel) 0 (format_magnitude u) = Some u.
Proof.
  intros Hu fuel. unfold format_magnitude. rewrite (proj2 (Z.eqb_neq u 0)), (proj2 (Z.ltb_lt u Second)) by lia.
  assert (Hsub : ∃ p, (sub_second u).2 = p ∧ (p ≤ 9)%nat ∧ unitMap (sub_second u).1 = Some (10 ^ Z.of_nat p) ∧
    (sub_second u).1 ≠ [] ∧ Forall (λ c, starts_number c = false) (sub_second u).1).
  { unfold sub_second. destruct (u <? Microsecond); [|destruct (u <? Millisecond)]; eexists;
      (split_and!; [reflexivity|cbn; lia|reflexivity|done|by repeat constructor]). }
  destruct (sub_second u) as [name p']. destruct Hsub as (p & Hp & Hle & Hm & Hne & Hname). cbn [fst snd] in *. subst p'.
  destruct (fmtFrac_ok p u ltac:(lia)) as (frac & -> & Hfrac).
  pose proof (Z.pow_pos_nonneg 10 (Z.of_nat p) ltac:(lia) ltac:(lia)) as Hpos.
  assert (Hg := parse_last p u name [] ltac:(unfold Second in *; lia) Hle Hm Hne Hname I (u / 10 ^ Z.of_nat p) frac Hfrac
    ltac:(split; [apply Z.div_pos; lia|lia])).
  rewrite !app_nil_r in Hg. pose proof (Z.div_mod u (10 ^ Z.of_nat p) ltac:(lia)).
  erewrite parse_groups_step; [|exact Hg|lia|lia|unfold Second in *; lia]. rewrite parse_groups_nil. f_equal. lia.
Qed.

Lemma parse_seconds u : Second ≤ u ≤ 2 ^ 63 → ∀ fuel, parse_groups (S (S (S fuel))) 0 (format_magnitude u) = Some u.
Proof.
  intros Hu fuel. unfold format_magnitude.
  rewrite (proj2 (Z.eqb_neq u 0)), (proj2 (Z.ltb_ge u Second)) by (unfold Second in *; lia).
  destruct (fmtFrac_ok 9 u ltac:(unfold Second in *; lia)) as (frac & -> & Hfrac).
  change (10 ^ Z.of_nat 9) with Second in *. set (v := u / Second) in *. set (r := u mod Second) in *.
  assert (Huv : u = v * Second + r) by (subst v r; pose proof (Z.div_mod u Second ltac:(done)); lia).
  assert (Hr : 0 ≤ r < Second) by (subst r; by apply Z.mod_pos_bound).
  assert (Hv : 0 < v) by (unfold Second in *; lia).
  pose proof (Z.div_mod v 60 ltac:(lia)) as Hm. pose proof (Z.mod_pos_bound v 60 ltac:(lia)) as Hm'.
  set (m := v / 60) in *. set (s := v mod 60) in *.
  assert (Hsec : parse_group (fmtInt s ++ frac ++ ["s"%char]) = Some (s * Second + r, [])).
  { pose proof (parse_last 9 u ["s"%char] [] ltac:(unfold Second in *; lia) ltac:(lia) eq_refl ltac:(done) ltac:(by repeat constructor) I
      s frac Hfrac) as Hp. change (10 ^ Z.of_nat 9) with Second in Hp. apply Hp. lia. }
  destruct (Z.ltb_spec 0 m) as [Hmpos|Hmz].
  2:{ erewrite parse_groups_step; [|exact Hsec|lia|unfold Second in *; lia..]. rewrite parse_groups_nil. f_equal. nia. }
  pose proof (Z.div_mod m 60 ltac:(lia)) as Hh. pose proof (Z.mod_pos_bound m 60 ltac:(lia)) as Hh'.
  set (h := m / 60) in *. set (mm := m mod 60) in *.
  assert (Hmin : parse_group (fmtInt mm ++ "m"%char :: fmtInt s ++ frac ++ ["s"%char]) =
    Some (mm * Minute, fmtInt s ++ frac ++ ["s"%char])).
  { apply parse_whole; [lia|done|done|done|by apply starts_fmtInt; lia|unfold Minute, Second; lia]. }
  destruct (Z.ltb_spec 0 h) as [Hhpos|Hhz].
  - assert (Hhour : parse_group (fmtInt h ++ "h"%char :: fmtInt mm ++ "m"%char :: fmtInt s ++ frac ++ ["s"%char]) =
      Some (h * Hour, fmtInt mm ++ "m"%char :: fmtInt s ++ frac ++ ["s"%char])).
    { apply parse_whole; [lia|done|done|done|by apply starts_fmtInt; lia|unfold Hour, Minute, Second in *; lia]. }
    unfold Hour, Minute, Second in *.
    erewrite parse_groups_step; [|exact Hhour|lia..]. erewrite parse_groups_step; [|exact Hmin|lia..].
    erewrite parse_groups_step; [|exact Hsec|lia..]. rewrite parse_groups_nil. f_equal. lia.
  - unfold Minute, Second in *. erewrite parse_groups_step; [|exact Hmin|lia..].
    erewrite parse_groups_step; [|exact Hsec|lia..]. rewrite parse_groups_nil. f_equal. lia.
Qed.

(** The fuel of [parse_groups] is enough: a group consumes at least its unit. *)
Lemma leadingInt_length s : ∀ x v r, leadingInt x s = Some (v, r) → (List.length r ≤ List.length s)%nat.
Proof.
  induction s as [|c s IH]; intros x v r; cbn [leadingInt]; [by intros [= _ <-]|].
  destruct (is_digit c); [|by intros [= _ <-]]. destruct (_ <? _); [done|]. destruct (_ <? _); [done|].
  intros H%IH. cbn. lia.
Qed.

Lemma leadingFraction_length s : ∀ x scale o, (List.length (leadingFraction x scale o s).2 ≤ List.length s)%nat.
Proof.
  induction s as [|c s IH]; intros x scale o; cbn [leadingFraction]; [done|].
  destruct (is_digit c); [|done].
  repeat case_match; (etransitivity; [apply IH|cbn; lia]).
Qed.

Lemma leadingUnit_length s : List.length s = (List.length (leadingUnit s).1 + List.length (leadingUnit s).2)%nat.
Proof.
  induction s as [|c s IH]; cbn [leadingUnit]; [done|]. destruct (starts_number c); [done|].
  destruct (leadingUnit s) as [u r]. cbn in *. lia.
Qed.

Lemma parse_group_consumes s v rest : parse_group s = Some (v, rest) → (List.length rest < List.length s)%nat.
Proof.
  unfold parse_group. destruct s as [|c s]; [done|]. destruct (negb _); [done|].
  destruct (leadingInt 0 (c :: s)) as [[x s1]|] eqn:Ei; [|done]. apply leadingInt_length in Ei.
  assert (Hpart : ∀ f scale s2 (post : bool),
    match s1 with
    | c1 :: s' =>
        if Ascii.eqb c1 "." then
          let '(f, scale, s2) := leadingFraction 0 (f_of_int 1) false s' in
          (f, scale, s2, negb (bool_decide (List.length s2 = List.length s')))
        else (0, f_of_int 1, s1, false)
    | [] => (0, f_of_int 1, s1, false)
    end = (f, scale, s2, post) → (List.length s2 ≤ List.length s1)%nat).
  { intros f scale s2 post. destruct s1 as [|c1 s']; [by intros [= _ _ <- _]|].
    destruct (Ascii.eqb c1 "."); [|by intros [= _ _ <- _]].
    pose proof (leadingFraction_length s' 0 (f_of_int 1) false) as Hf.
    destruct (leadingFraction _ _ _ _) as [[f' scale'] s2']. intros [= _ _ <- _]. cbn in *. lia. }
  destruct (match s1 with [] => _ | _ :: _ => _ end) as [[[f scale] s2] post]. specialize (Hpart _ _ _ _ eq_refl).
  destruct (_ && _); [done|]. pose proof (leadingUnit_length s2) as Hu. destruct (leadingUnit s2) as [u r].
  case_bool_decide as Hne; [done|]. destruct (unitMap u); [|done]. destruct (_ <? _); [done|].
  destruct (_ <? _); [done|]. intros [= _ <-]. destruct u; [done|]. cbn in *. lia.
Qed.

Lemma parse_groups_fuel fuel : ∀ fuel' d s, (List.length s ≤ fuel)%nat → (List.length s ≤ fuel')%nat →
  parse_groups fuel d s = parse_groups fuel' d s.
Proof.
  induction fuel as [|fuel IH]; intros fuel' d s Hf Hf'.
  { destruct s; [by rewrite !parse_groups_nil|cbn in Hf; lia]. }
  destruct s as [|c s]; [by rewrite !parse_groups_nil|]. destruct fuel' as [|fuel']; [cbn in Hf'; lia|].
  cbn [parse_groups]. destruct (parse_group (c :: s)) as [[v rest]|] eqn:E; [|done].
  apply parse_group_consumes in E. cbn in *. destruct (_ <? _); [done|]. apply IH; lia.
Qed.

Lemma format_magnitude_head u : 0 ≤ u ≤ 2 ^ 63 → ∃ c r, format_magnitude u = c :: r ∧ is_digit c = true ∧ r ≠ [].
Proof.
  intros Hu. assert (Hnum : ∀ n s, 0 ≤ n → s ≠ [] → ∃ c r, fmtInt n ++ s = c :: r ∧ is_digit c = true ∧ r ≠ []).
  { intros n s Hn Hs. destruct (fmtInt_digits n Hn) as [Hd Hne]. destruct (fmtInt n) as [|a l]; [done|].
    apply list.Forall_cons in Hd as [Ha _]. exists a, (l ++ s). split_and!; [done|done|]. by intros [_ ?]%app_eq_nil. }
  unfold format_magnitude. destruct (Z.eqb_spec u 0); [by eexists _, _|].
  destruct (Z.ltb_spec u Second).
  - unfold sub_second. destruct (u <? Microsecond); [|destruct (u <? Millisecond)];
      match goal with |- context [fmtFrac ?p u false []] => destruct (fmtFrac_ok p u ltac:(lia)) as (frac & -> & _) end;
      (apply Hnum; [apply Z.div_pos; lia|by destruct frac]).
  - destruct (fmtFrac_ok 9 u ltac:(lia)) as (frac & -> & _).
    assert (Hfs : frac ++ ["s"%char] ≠ []) by (by destruct frac). change (10 ^ Z.of_nat 9) with Second.
    assert (0 ≤ u / Second) by (apply Z.div_pos; [lia|done]).
    destruct (0 <? u / Second / 60); [destruct (0 <? u / Second / 60 / 60)|]; apply Hnum; try done;
      try (apply Z.mod_pos_bound; lia); repeat (apply Z.div_pos; [|lia]); lia.
Qed.

Lemma cut_sign_digit c r : is_digit c = true → cut_sign (c :: r) = (false, c :: r).
Proof. intros Hc. destruct c as [[] [] [] [] [] [] [] []]; try done; by vm_compute in Hc. Qed.

(** Every duration survives printing and parsing. *)
Lemma ParseDuration_String d : in_int64 d → ParseDuration (DurationString d) = Some d.
Proof.
  unfold in_int64, int64_min, int64_max. intros Hd. unfold ParseDuration, DurationString.
  rewrite list_ascii_of_string_of_list_ascii.
  destruct (format_magnitude_head (Z.abs d) ltac:(lia)) as (c & r & Hf & Hc & Hr).
  assert (Hparse : parse_groups (List.length (format_magnitude (Z.abs d))) 0 (format_magnitude (Z.abs d)) = Some (Z.abs d)).
  { set (n := List.length (format_magnitude (Z.abs d))).
    rewrite (parse_groups_fuel n (S (S (S n)))) by (subst n; lia).
    destruct (Z.eq_dec (Z.abs d) 0) as [->|Hz]; [by vm_compute|].
    destruct (Z.lt_ge_cases (Z.abs d) Second); [apply parse_sub_second; lia|apply parse_seconds; lia]. }
  destruct (Z.ltb_spec d 0) as [Hneg|Hpos]; cbn [app].
  - rewrite Hf in *. change (cut_sign ("-"%char :: c :: r)) with (true, c :: r). cbv beta iota.
    rewrite (bool_decide_eq_false_2 (c :: r = ["0"%char])), (bool_decide_eq_false_2 (c :: r = [])) by (congruence || done).
    rewrite Hparse. f_equal. lia.
  - rewrite Hf in *. rewrite (cut_sign_digit c r Hc). rewrite (bool_decide_eq_false_2 (c :: r = ["0"%char])), (bool_decide_eq_false_2 (c :: r = [])) by (congruence || done).
    rewrite Hparse. rewrite (proj2 (Z.ltb_ge _ _)) by lia. f_equal. lia.
Qed.

(** ** Whole seconds

    [int64(d.Seconds())] loses no whole second; rounding may add one. *)
Lemma Seconds_between t : 0 ≤ t ≤ int64_max → t / Second ≤ f_to_int64 (Seconds t) ≤ t / Second + 1.
Proof.
  intros Ht. unfold Seconds. rewrite Z.quot_div_nonneg, Z.rem_mod_nonneg by (unfold Second; lia).
  assert (Hq : 0 ≤ t / Second < 2 ^ 50).
  { unfold int64_max, Second in *. split; [apply Z.div_pos; lia|]. apply Z.div_lt_upper_bound; lia. }
  pose proof (Z.mod_pos_bound t Second ltac:(unfold Second; lia)) as Hr. set (a := t / Second) in *. set (r := t mod Second) in *.
  clearbody a r. destruct (Z.eq_dec r 0) as [->|Hr0].
  - change (f_div (f_of_int 0) (f_of_int Second)) with (f_of_int 0).
    rewrite f_add_int, Z.add_0_r, f_to_int64_int by lia. lia.
  - destruct (f_div_bound r Second 1) as (m & e & -> & Hm & He & Hle); [unfold Second in *; lia..|].
    destruct (Z.eq_dec a 0) as [->|Ha].
    + change (f_of_int 0) with f_zero. cbn [f_add SFadd f_zero]. apply f_to_int64_between; lia.
    + destruct (f_add_between a m e 1) as (m' & e' & -> & He' & Hle'); [lia..|]. by apply f_to_int64_between.
Qed.
