(* ===== verification/GoFlag.v ===== *)
(** * Go's flag package and pkg/env

    [flag.Parse] as the daemons use it: string, bool, int and duration variables
    declared with a default, one or two leading dashes, [-name=value],
    [-name value] and a bare name for booleans.  [strconv.ParseBool] and
    [strconv.ParseInt] with base 0 are the parsers behind the variables.
    [pkg/env] reads the defaults from the environment. *)

From Stdlib Require Import ZArith Lia String Ascii.
From stdpp Require Import base list strings.
From S2P Require Import Prelude GoStrings Json GoTime.

#[local] Open Scope string_scope.
#[local] Open Scope list_scope.
#[local] Open Scope Z_scope.

(** ** strconv *)

Definition ParseBool (s : string) : option bool :=
  if bool_decide (s ∈ ["1"; "t"; "T"; "TRUE"; "true"; "True"]) then Some true
  else if bool_decide (s ∈ ["0"; "f"; "F"; "FALSE"; "false"; "False"]) then Some false
  else None.

Definition lower (a : ascii) : ascii :=
  let n := N_of_ascii a in if ((65 <=? n) && (n <=? 90))%N then ascii_of_N (n + 32) else a.

(** The value of a digit in any base up to 36, if it is one. *)
Definition digit_in_base (base : Z) (a : ascii) : option Z :=
  let n := Z.of_N (N_of_ascii (lower a)) in
  let v := if is_digit a then n - 48 else if (97 <=? n) && (n <=? 122) then n - 87 else 36 in
  if v <? base then Some v else None.

(** The base prefix of a literal, for base 0. *)
Definition base_prefix (s : list ascii) : Z * list ascii :=
  match s with
  | "0"%char :: r =>
      match r with
      | c :: (_ :: _) as r' =>
          if Ascii.eqb (lower c) "b" then (2, tail r') else if Ascii.eqb (lower c) "o" then (8, tail r')
          else if Ascii.eqb (lower c) "x" then (16, tail r') else (8, r)
      | _ => (8, r)
      end
  | _ => (10, s)
  end.

Fixpoint digits_value (base acc : Z) (s : list ascii) : option Z :=
  match s with
  | [] => Some acc
  | c :: r =>
      if Ascii.eqb c "_" then digits_value base acc r
      else match digit_in_base base c with Some d => digits_value base (acc * base + d) r | None => None end
  end.

(** [underscoreOK]: underscores only between digits or after a base prefix; [i] is the class of
    the last character seen: digit, underscore, or other. *)
Inductive seen := SeenDigit | SeenUnderscore | SeenOther | SeenStart.
Fixpoint underscores_ok (hex : bool) (i : seen) (s : list ascii) : bool :=
  match s with
  | [] => match i with SeenUnderscore => false | _ => true end
  | c :: r =>
      if is_digit c || hex && (let n := N_of_ascii (lower c) in ((97 <=? n) && (n <=? 102))%N)
      then underscores_ok hex SeenDigit r
      else if Ascii.eqb c "_" then match i with SeenDigit => underscores_ok hex SeenUnderscore r | _ => false end
      else match i with SeenUnderscore => false | _ => underscores_ok hex SeenOther r end
  end.
Definition underscoreOK (s : list ascii) : bool :=
  match s with
  | "0"%char :: (c :: r) =>
      let x := lower c in
      if Ascii.eqb x "b" || Ascii.eqb x "o" || Ascii.eqb x "x" then underscores_ok (Ascii.eqb x "x") SeenDigit r
      else underscores_ok false SeenStart s
  | _ => underscores_ok false SeenStart s
  end.

(** [strconv.ParseInt(s, 0, 64)] *)
Definition ParseInt0 (str : string) : option Z :=
  let '(neg, s) := cut_sign (bytes_of str) in
  if bool_decide (s = []) then None
  else
    let '(base, digits) := base_prefix s in
    match digits_value base 0 digits with
    | None => None
    | Some n =>
        if bool_decide ("_"%char ∈ digits) && negb (underscoreOK s) then None
        else
          let n := if neg : bool then - n else n in
          if bool_decide (in_int64 n) then Some n else None
    end.

(** ** flag *)

(** The value of a variable; its constructor is the kind it was declared with. *)
Inductive value := VString (s : string) | VBool (b : bool) | VInt (n : Z) | VDuration (d : Z)
  (** a [Func] flag that appends its argument to a slice *)
  | VList (l : list string).

(** The declared variables and their present values. *)
Abbreviation FlagSet := (list (string * value)).

Inductive FlagError :=
| BadSyntax (arg : string) | NotDefined (name : string) | HelpRequested | NeedsArgument (name : string)
| InvalidValue (name value : string).

(** [Value.Set] *)
Definition Set_value (v : value) (text : string) : option value :=
  match v with
  | VString _ => Some (VString text)
  | VBool _ => VBool <$> ParseBool text
  | VInt _ => VInt <$> ParseInt0 text
  | VDuration _ => VDuration <$> ParseDuration text
  | VList l => Some (VList (l ++ [text]))
  end.
Definition is_bool_flag (v : value) : bool := match v with VBool _ => true | _ => false end.

(** [name=value] split at the first [=] after the first character. *)
Fixpoint cut_at (sep : ascii) (s : string) : string * option string :=
  match s with
  | EmptyString => (s, None)
  | String c r => if Ascii.eqb c sep then ("", Some r) else let '(a, b) := cut_at sep r in (String c a, b)
  end.
Definition split_value (name : string) : string * option string :=
  match name with
  | EmptyString => (name, None)
  | String c r => let '(n, v) := cut_at "=" r in (String c n, v)
  end.

Definition lookup_flag (flags : FlagSet) (name : string) : option value :=
  snd <$> List.find (λ e, String.eqb e.1 name) flags.
Definition update_flag (flags : FlagSet) (name : string) (v : value) : FlagSet :=
  map (λ e, if String.eqb e.1 name then (e.1, v) else e) flags.

(** The flag part of an argument, after its dashes; [None] where flags end. *)
Definition flag_name (s : string) : option string :=
  match s with
  | String "-" (String c r) => if Ascii.eqb c "-" then Some r else Some (String c r)
  | _ => None
  end.

(** The values after parsing, and the arguments that are left. *)
Fixpoint ParseArgs (flags : FlagSet) (args : list string) : result FlagError (FlagSet * list string) :=
  match args with
  | [] => Ok (flags, [])
  | s :: args' =>
      if String.eqb s "--" then Ok (flags, args')
      else match flag_name s with
      | None => Ok (flags, args)
      | Some name =>
          if String.eqb name "" || HasPrefix name "-" || HasPrefix name "=" then Err (BadSyntax s)
          else
            let '(name, text) := split_value name in
            match lookup_flag flags name with
            | None => Err (if String.eqb name "help" || String.eqb name "h" then HelpRequested else NotDefined name)
            | Some v =>
                if is_bool_flag v then
                  match Set_value v (default "true" text) with
                  | Some v => ParseArgs (update_flag flags name v) args'
                  | None => Err (InvalidValue name (default "true" text))
                  end
                else
                  match text, args' with
                  | Some text, _ =>
                      match Set_value v text with
                      | Some v => ParseArgs (update_flag flags name v) args'
                      | None => Err (InvalidValue name text)
                      end
                  | None, text :: args'' =>
                      match Set_value v text with
                      | Some v => ParseArgs (update_flag flags name v) args''
                      | None => Err (InvalidValue name text)
                      end
                  | None, [] => Err (NeedsArgument name)
                  end
            end
      end
  end.

Definition Parse (flags : FlagSet) (args : list string) : result FlagError FlagSet :=
  r <-? ParseArgs flags args;; Ok r.1.

(** Reading the variables back, after [flag.Parse]. *)
Definition get_string (flags : FlagSet) (name : string) : string :=
  match lookup_flag flags name with Some (VString s) => s | _ => "" end.
Definition get_bool (flags : FlagSet) (name : string) : bool :=
  match lookup_flag flags name with Some (VBool b) => b | _ => false end.
Definition get_int (flags : FlagSet) (name : string) : Z :=
  match lookup_flag flags name with Some (VInt n) => n | _ => 0 end.
Definition get_duration (flags : FlagSet) (name : string) : Z :=
  match lookup_flag flags name with Some (VDuration d) => d | _ => 0 end.
Definition get_list (flags : FlagSet) (name : string) : list string :=
  match lookup_flag flags name with Some (VList l) => l | _ => [] end.

(** ** pkg/env: typed variables with a fallback *)

Module env.
Section env.
Context (Getenv : string → string).

Definition Str (key fallback : string) : string := if negb (String.eqb (Getenv key) "") then Getenv key else fallback.
Definition Bool (key : string) (fallback : bool) : bool :=
  if String.eqb (Getenv key) "" then fallback else default fallback (ParseBool (Getenv key)).
Definition Int (key : string) (fallback : Z) : Z :=
  if String.eqb (Getenv key) "" then fallback else default fallback (ParseInt (Getenv key)).
Definition Duration (key : string) (fallback : Z) : Z :=
  if String.eqb (Getenv key) "" then fallback else default fallback (ParseDuration (Getenv key)).
End env.
End env.

(** ** Lemmas: numbers *)

Lemma digit_in_base_10 a : is_digit a = true → digit_in_base 10 a = Some (digit_value a) ∧ Ascii.eqb a "_" = false.
Proof. destruct a as [[] [] [] [] [] [] [] []]; vm_compute; done. Qed.

Lemma digits_value_10 l : ∀ acc, Forall (λ a, is_digit a = true) l → digits_value 10 acc l = Some (horner acc l).
Proof.
  induction l as [|a l IH]; intros acc Hl; cbn [digits_value]; [done|]. apply list.Forall_cons in Hl as [Ha Hl].
  destruct (digit_in_base_10 a Ha) as [-> ->]. by rewrite IH.
Qed.

Lemma ParseInt0_digits (neg : bool) a r : is_digit a = true → Ascii.eqb a "0" = false → Forall (λ a, is_digit a = true) r →
  in_int64 (if neg then - horner 0 (a :: r) else horner 0 (a :: r)) →
  ParseInt0 (string_of_list_ascii ((if neg then ["-"%char] else []) ++ a :: r)) =
    Some (if neg then - horner 0 (a :: r) else horner 0 (a :: r)).
Proof.
  intros Ha H0 Hr Hrange. unfold ParseInt0. rewrite list_ascii_of_string_of_list_ascii.
  assert (Hsign : cut_sign ((if neg then ["-"%char] else []) ++ a :: r) = (neg, a :: r)).
  { destruct neg; [done|by apply cut_sign_digit]. }
  rewrite Hsign. rewrite (bool_decide_eq_false_2 (a :: r = [])) by done.
  assert (Hbase : base_prefix (a :: r) = (10, a :: r)).
  { destruct a as [[] [] [] [] [] [] [] []]; try done; by vm_compute in H0. }
  assert (Hd : Forall (λ a, is_digit a = true) (a :: r)) by (by constructor).
  rewrite Hbase, digits_value_10 by done.
  rewrite (bool_decide_eq_false_2 ("_"%char ∈ a :: r)).
  2:{ intros Hin. rewrite list.Forall_forall in Hd. by specialize (Hd _ Hin). }
  cbn [andb]. by rewrite bool_decide_eq_true_2.
Qed.

(** What [strconv.Itoa] prints is an integer flag's value. *)
Lemma ParseInt0_FormatInt n : in_int64 n → ParseInt0 (FormatInt n) = Some n.
Proof.
  intros Hn. destruct n as [|p|p]; [by vm_compute| |].
  all: destruct (pos_uint_head p) as (a & r & Hb & Ha & H0 & Hr).
  all: assert (Hv : horner 0 (a :: r) = Z.pos p) by (rewrite <- Hb; apply (horner_FormatInt (Z.pos p)); lia).
  - pose proof (ParseInt0_digits false a r Ha H0 Hr) as H. rewrite Hv in H. cbn [app] in H. rewrite <- H by done. f_equal.
    rewrite <- Hb. symmetry. apply string_of_list_ascii_of_string.
  - pose proof (ParseInt0_digits true a r Ha H0 Hr) as H. rewrite Hv in H. cbn [app] in H. change (Z.neg p) with (- Z.pos p).
    rewrite <- H by done. f_equal. rewrite <- Hb. cbn [string_of_list_ascii]. rewrite string_of_list_ascii_of_string. reflexivity.
Qed.

Lemma ParseBool_FormatBool b : ParseBool (FormatBool b) = Some b.
Proof. by destruct b. Qed.

(** ** Lemmas: one flag *)

(** A name as the daemons declare them. *)
Definition good_name (n : string) : bool :=
  negb (String.eqb n "") && negb (HasPrefix n "-") && negb (HasPrefix n "=") && forallb (λ a, negb (Ascii.eqb a "=")) (bytes_of n).

Lemma cut_at_absent sep s : forallb (λ a, negb (Ascii.eqb a sep)) (bytes_of s) = true → cut_at sep s = (s, None).
Proof.
  induction s as [|c s IH]; cbn; [done|]. destruct (Ascii.eqb c sep); cbn; [done|]. intros H. by rewrite IH.
Qed.

Lemma cut_at_present sep s v : forallb (λ a, negb (Ascii.eqb a sep)) (bytes_of s) = true →
  cut_at sep (s +:+ String sep v) = (s, Some v).
Proof.
  induction s as [|c s IH]; intros H; [rewrite str_app_nil_l; cbn; by rewrite Ascii.eqb_refl|].
  rewrite str_app_cons. cbn in H |- *. destruct (Ascii.eqb c sep); cbn in H; [done|]. by rewrite IH.
Qed.

Lemma good_name_inv n : good_name n = true → ∃ c r, n = String c r ∧
  HasPrefix n "-" = false ∧ HasPrefix n "=" = false ∧ forallb (λ a, negb (Ascii.eqb a "=")) (bytes_of r) = true.
Proof.
  unfold good_name. intros [[[Hn H1]%andb_prop H2]%andb_prop H3]%andb_prop. destruct n as [|c r]; [done|].
  exists c, r. cbn in H3. apply andb_prop in H3 as [_ H3]. split_and!; [done|by apply negb_true_iff..|done].
Qed.

Lemma flag_name_dashes n : flag_name ("--" +:+ n) = Some n.
Proof. done. Qed.

Lemma HasPrefix_first c r s x : HasPrefix (String c r +:+ s) (String x "") = HasPrefix (String c r) (String x "").
Proof. rewrite str_app_cons, !HasPrefix_cons, !HasPrefix_nil. done. Qed.

Lemma Parse_separate flags n text rest v v' : good_name n = true → lookup_flag flags n = Some v → is_bool_flag v = false →
  Set_value v text = Some v' → Parse flags (("--" +:+ n) :: text :: rest) = Parse (update_flag flags n v') rest.
Proof.
  intros (c & r & -> & H1 & H2 & H3)%good_name_inv Hl Hb Hs. unfold Parse. cbn [ParseArgs].
  rewrite (proj2 (String.eqb_neq _ _)) by done. rewrite flag_name_dashes, H1, H2.
  rewrite (proj2 (String.eqb_neq (String c r) "")) by done. cbn [orb split_value]. rewrite (cut_at_absent _ _ H3), Hl, Hb, Hs. done.
Qed.

Lemma Parse_equals flags n text rest b0 b : good_name n = true → lookup_flag flags n = Some (VBool b0) → ParseBool text = Some b →
  Parse flags (("--" +:+ n +:+ String "=" text) :: rest) = Parse (update_flag flags n (VBool b)) rest.
Proof.
  intros (c & r & -> & H1 & H2 & H3)%good_name_inv Hl Hb. unfold Parse. cbn [ParseArgs].
  rewrite (proj2 (String.eqb_neq _ _)) by done. rewrite flag_name_dashes, !HasPrefix_first, H1, H2.
  rewrite str_app_cons. rewrite (proj2 (String.eqb_neq (String c (r +:+ String "=" text)) "")) by done. cbn [orb split_value].
  rewrite (cut_at_present _ _ _ H3), Hl. cbn [is_bool_flag default Set_value]. unfold id. by rewrite Hb.
Qed.

Lemma Parse_bare flags n rest b0 : good_name n = true → lookup_flag flags n = Some (VBool b0) →
  Parse flags (("--" +:+ n) :: rest) = Parse (update_flag flags n (VBool true)) rest.
Proof.
  intros (c & r & -> & H1 & H2 & H3)%good_name_inv Hl. unfold Parse. cbn [ParseArgs].
  rewrite (proj2 (String.eqb_neq _ _)) by done. rewrite flag_name_dashes, H1, H2.
  rewrite (proj2 (String.eqb_neq (String c r) "")) by done. cbn [orb split_value]. rewrite (cut_at_absent _ _ H3), Hl. done.
Qed.

(** *** Values of the declared kinds *)

Definition same_kind (v v' : value) : bool :=
  match v, v' with
  | VString _, VString _ | VBool _, VBool _ | VInt _, VInt _ | VDuration _, VDuration _ => true
  | _, _ => false
  end.

Lemma lookup_update flags n v m : lookup_flag (update_flag flags n v) m =
  if String.eqb n m then (λ _, v) <$> lookup_flag flags m else lookup_flag flags m.
Proof.
  unfold lookup_flag, update_flag. induction flags as [|[k u] flags IH]; cbn; [by destruct (String.eqb n m)|].
  destruct (String.eqb_spec k n) as [->|Hk]; cbn.
  - destruct (String.eqb_spec n m); [done|]. by rewrite IH.
  - destruct (String.eqb_spec k m) as [->|]; [|exact IH]. by rewrite (proj2 (String.eqb_neq _ _)).
Qed.

(** A setting that the operator passes only when it has a value. *)
Definition update_opt (flags : FlagSet) (n : string) (o : option value) : FlagSet :=
  match o with Some v => update_flag flags n v | None => flags end.

(** How a value is written on the command line after a name. *)
Definition written (v : value) (text : string) : Prop :=
  match v with
  | VString s => text = s
  | VInt n => in_int64 n ∧ text = FormatInt n
  | VDuration d => in_int64 d ∧ text = DurationString d
  | VBool _ | VList _ => False
  end.

Lemma written_Set v0 v text : same_kind v0 v = true → written v text → Set_value v0 text = Some v ∧ is_bool_flag v0 = false.
Proof.
  destruct v0, v; cbn; try done.
  - by intros _ ->.
  - intros _ [Hn ->]. by rewrite ParseInt0_FormatInt.
  - intros _ [Hd ->]. by rewrite ParseDuration_String.
Qed.

Lemma Parse_written flags n v0 (o : option value) (args : list string) rest : good_name n = true → lookup_flag flags n = Some v0 →
  match o with
  | Some v => same_kind v0 v = true ∧ ∃ text, written v text ∧ args = ["--" +:+ n; text]
  | None => args = []
  end → Parse flags (args ++ rest) = Parse (update_opt flags n o) rest.
Proof.
  intros Hn Hl. destruct o as [v|]; [|by intros ->]. intros (Hk & text & Hw & ->). cbn [app].
  destruct (written_Set v0 v text Hk Hw) as [Hs Hb]. by apply (Parse_separate _ _ _ _ v0).
Qed.

Lemma lookup_update_opt flags n o m : lookup_flag (update_opt flags n o) m =
  match o with
  | Some v => if String.eqb n m then (λ _, v) <$> lookup_flag flags m else lookup_flag flags m
  | None => lookup_flag flags m
  end.
Proof. destruct o; [apply lookup_update|done]. Qed.
