(* ===== verification/DaemonFlags.v ===== *)
(** * Command lines of the daemons

    [fractiond/cmd/flags.go], [mpsd/cmd/flags.go] and [metricsd/cmd/flags.go]:
    the flags each daemon declares, with the environment variables and constants
    behind their defaults, and the record each [parseFlags] returns. *)

From Stdlib Require Import ZArith Lia String Ascii.
From stdpp Require Import base list strings.
From S2P Require Import Prelude GoStrings GoTime GoFlag Annotations Retry MpsConfig Exporter.

#[local] Open Scope string_scope.
#[local] Open Scope list_scope.
#[local] Open Scope Z_scope.

(** [fsstore.DefaultMapDir] *)
Definition DefaultMapDir : string := "/var/run/gpu-fractioning/map".

Module fractiond_cmd.
Definition defaultNRISocketPath : string := "/var/run/nri/nri.sock".
Definition defaultCRISocketPath : string := "/run/containerd/containerd.sock".
Definition defaultReadinessPort : Z := 8093.
Definition DefaultPluginName : string := "gpu-fractioning".
Definition DefaultPluginIdx : string := "10".

Record cliFlags := mkCliFlags {
  pluginName : string;
  pluginIdx : string;
  socketPath : string;
  annotationPrefix : string;
  mpsPipeDir : string;
  failOpen : bool;
  supportSMSharing : bool;
  injectCDIDevice : bool;
  mapDir : string;
  logPodEvents : bool;
  logLevel : string;
  retryInterval : Z;
  stableThreshold : Z;
  maxRetries : Z;
  readinessPort : Z;
  retroactiveEnforcement : bool;
  criSocket : string;
  stopTimeout : Z
}.

Definition declared (Getenv : string → string) : FlagSet :=
  [("plugin-name", VString DefaultPluginName);
   ("plugin-idx", VString DefaultPluginIdx);
   ("socket-path", VString (env.Str Getenv "NRI_SOCKET_PATH" defaultNRISocketPath));
   ("annotation-prefix", VString DefaultAnnotationPrefix);
   ("pipe-dir", VString DefaultMPSPipeDirectory);
   ("fail-open", VBool false);
   ("support-sm-sharing", VBool (env.Bool Getenv "SUPPORT_SM_SHARING" true));
   ("inject-cdi-device", VBool (env.Bool Getenv "INJECT_CDI_DEVICE" false));
   ("map-dir", VString (env.Str Getenv "MAP_DIR" DefaultMapDir));
   ("log-pod-events", VBool (env.Bool Getenv "LOG_POD_EVENTS" false));
   ("log-level", VString "info");
   ("retry-interval", VDuration (5 * GoTime.Second));
   ("stable-threshold", VDuration (5 * GoTime.Minute));
   ("max-retries", VInt 0);
   ("readiness-port", VInt (env.Int Getenv "READINESS_PORT" defaultReadinessPort));
   ("retroactive-enforcement", VBool (env.Bool Getenv "RETROACTIVE_ENFORCEMENT" true));
   ("cri-socket", VString (env.Str Getenv "CRI_SOCKET" defaultCRISocketPath));
   ("stop-timeout", VDuration (30 * GoTime.Second))].

Definition of_flags (f : FlagSet) : cliFlags :=
  mkCliFlags (get_string f "plugin-name") (get_string f "plugin-idx") (get_string f "socket-path")
    (get_string f "annotation-prefix") (get_string f "pipe-dir") (get_bool f "fail-open")
    (get_bool f "support-sm-sharing") (get_bool f "inject-cdi-device") (get_string f "map-dir")
    (get_bool f "log-pod-events") (get_string f "log-level") (get_duration f "retry-interval")
    (get_duration f "stable-threshold") (get_int f "max-retries") (get_int f "readiness-port")
    (get_bool f "retroactive-enforcement") (get_string f "cri-socket") (get_duration f "stop-timeout").

Definition parseFlags (Getenv : string → string) (args : list string) : result FlagError cliFlags :=
  f <-? Parse (declared Getenv) args;; Ok (of_flags f).
End fractiond_cmd.

Module mpsd_cmd.
Definition DefaultMPSBinary : string := "/usr/bin/nvidia-cuda-mps-control".
Definition DefaultMPSControlPort : string := "3".
Definition DefaultMPSConfigPath : string := "/etc/nvidia-mps/mps-control.toml".
Definition DefaultMemacctAuditLog : bool := true.
Definition DefaultSupportSMSharing : bool := true.
Definition DefaultLogDir : string := "/var/log/nvidia-mps".
Definition DefaultGracefulStopDelay : Z := 60 * GoTime.Second.

(** The flags that reach the supervisor, the log level and the graceful stop delay. *)
Record cliFlags := mkCliFlags {
  supervised : mpsdFlags;
  logLevel : string;
  gracefulStopDelay : Z
}.

Definition declared (Getenv : string → string) : FlagSet :=
  [("mps-binary", VString (env.Str Getenv "MPS_CONTROL_BINARY" DefaultMPSBinary));
   ("mps-control-port", VString (env.Str Getenv "MPS_CONTROL_PORT" DefaultMPSControlPort));
   ("mps-config-path", VString (env.Str Getenv "MPS_CONFIG_PATH" DefaultMPSConfigPath));
   ("memacct-audit-log", VBool (env.Bool Getenv "MPS_MEMACCT_AUDIT_LOG" DefaultMemacctAuditLog));
   ("support-sm-sharing", VBool (env.Bool Getenv "MPS_SUPPORT_SM_SHARING" DefaultSupportSMSharing));
   ("pipe-dir", VString (env.Str Getenv "CUDA_MPS_PIPE_DIRECTORY" DefaultMPSPipeDirectory));
   ("log-dir", VString (env.Str Getenv "CUDA_MPS_LOG_DIRECTORY" DefaultLogDir));
   ("log-level", VString (env.Str Getenv "LOG_LEVEL" "info"));
   ("backoff", VDuration (env.Duration Getenv "MPS_RESTART_BACKOFF" Supervisor.DefaultBackoff));
   ("max-retries", VInt (env.Int Getenv "MPS_MAX_RETRIES" Supervisor.DefaultMaxRetries));
   ("stable-threshold", VDuration (env.Duration Getenv "MPS_STABLE_THRESHOLD" Supervisor.DefaultStableThreshold));
   ("graceful-stop-delay", VDuration (env.Duration Getenv "MPS_GRACEFUL_STOP_DELAY" DefaultGracefulStopDelay))].

Definition of_flags (f : FlagSet) : cliFlags :=
  mkCliFlags
    (mkMpsdFlags (get_string f "mps-binary") (get_string f "mps-control-port") (get_string f "mps-config-path")
       (get_bool f "memacct-audit-log") (get_bool f "support-sm-sharing") (get_string f "pipe-dir")
       (get_string f "log-dir") (get_duration f "backoff") (get_int f "max-retries") (get_duration f "stable-threshold"))
    (get_string f "log-level") (get_duration f "graceful-stop-delay").

Definition parseFlags (Getenv : string → string) (args : list string) : result FlagError cliFlags :=
  f <-? Parse (declared Getenv) args;; Ok (of_flags f).
End mpsd_cmd.

Module metricsd_cmd.
Definition defaultLogLevel : string := "info".
Definition defaultAddress : string := ":2112".
Definition defaultProcRoot : string := "/proc".

Record cliFlags := mkCliFlags {
  mapDir : string;
  logLevel : string;
  metricsEnabled : bool;
  address : string;
  path : string;
  procRoot : string;
  interval : Z;
  smUtilWindow : Z;
  metricNames : MetricNames
}.

Definition declared (Getenv : string → string) : FlagSet :=
  [("map-dir", VString (env.Str Getenv "MAP_DIR" DefaultMapDir));
   ("log-level", VString (env.Str Getenv "LOG_LEVEL" defaultLogLevel));
   ("metrics-enabled", VBool (env.Bool Getenv "METRICS_ENABLED" true));
   ("metrics-address", VString (env.Str Getenv "METRICS_ADDRESS" defaultAddress));
   ("metrics-path", VString (env.Str Getenv "METRICS_PATH" DefaultPath));
   ("proc-root", VString (env.Str Getenv "PROC_ROOT" defaultProcRoot));
   ("metrics-interval", VDuration (env.Duration Getenv "METRICS_INTERVAL" DefaultCollectInterval));
   ("sm-util-window", VDuration (env.Duration Getenv "SM_UTIL_WINDOW" 0));
   ("metric-name-gpu-memory-used-bytes", VString (env.Str Getenv "METRIC_NAME_GPU_MEMORY_USED_BYTES" ""));
   ("metric-name-gpu-sm-utilization-percent", VString (env.Str Getenv "METRIC_NAME_GPU_SM_UTILIZATION_PERCENT" ""));
   ("metric-name-gpu-sm-utilization-percent-normalized",
    VString (env.Str Getenv "METRIC_NAME_GPU_SM_UTILIZATION_PERCENT_NORMALIZED" ""))].

Definition of_flags (f : FlagSet) : cliFlags :=
  mkCliFlags (get_string f "map-dir") (get_string f "log-level") (get_bool f "metrics-enabled")
    (get_string f "metrics-address") (get_string f "metrics-path") (get_string f "proc-root")
    (get_duration f "metrics-interval") (get_duration f "sm-util-window")
    (mkMetricNames (get_string f "metric-name-gpu-memory-used-bytes") (get_string f "metric-name-gpu-sm-utilization-percent")
       (get_string f "metric-name-gpu-sm-utilization-percent-normalized")).

Definition parseFlags (Getenv : string → string) (args : list string) : result FlagError cliFlags :=
  f <-? Parse (declared Getenv) args;; Ok (of_flags f).
End metricsd_cmd.

(** [operator/internal/config/config.go] *)
Module operator_config.
Record Config := mkConfig {
  MetricsAddr : string;
  ProbeAddr : string;
  EnableLeaderElect : bool;
  SecureMetrics : bool;
  EnableHTTP2 : bool;
  MetricsCertPath : string;
  MetricsCertName : string;
  MetricsCertKey : string;
  Development : bool
}.

(** [kubeconfig] is registered on the same flag set by controller-runtime's client configuration. *)
Definition declared : FlagSet :=
  [("kubeconfig", VString "");
   ("metrics-bind-address", VString "0");
   ("health-probe-bind-address", VString ":8081");
   ("leader-elect", VBool false);
   ("metrics-secure", VBool true);
   ("metrics-cert-path", VString "");
   ("metrics-cert-name", VString "tls.crt");
   ("metrics-cert-key", VString "tls.key");
   ("enable-http2", VBool false);
   ("development", VBool false)].

Definition ParseFlags (args : list string) : result FlagError Config :=
  f <-? Parse declared args;;
  Ok (mkConfig (get_string f "metrics-bind-address") (get_string f "health-probe-bind-address") (get_bool f "leader-elect")
        (get_bool f "metrics-secure") (get_bool f "enable-http2") (get_string f "metrics-cert-path")
        (get_string f "metrics-cert-name") (get_string f "metrics-cert-key") (get_bool f "development")).
End operator_config.
