(* ===== verification/CriStopper.v ===== *)
(** * fractiond/internal/audit/cri_stopper.go: stopping containers through the CRI

    The production [ContainerStopper]: a gRPC client of the node's container
    runtime, dialed on the first stop and reused, and the part of fractiond's
    [main] that builds it and hands it to the plugin.  gRPC and the runtime are
    the class [CRIRuntime]: every call acts on the state of the runtime and may
    fail.  [Recording] adds to any runtime the list of the calls it received, over
    which the theorem is stated. *)

From Stdlib Require Import ZArith Lia String Ascii.
From stdpp Require Import base gmap list strings.
From S2P Require Import Prelude GoStrings Annotations Runtime Store Events Float64 GoTime.
From S2P Require Import RetroAudit Plugin GoFlag DaemonFlags.

#[local] Open Scope string_scope.
#[local] Open Scope list_scope.
#[local] Open Scope Z_scope.

Definition defaultCRIStopTimeout : Z := 30 * GoTime.Second.
Definition criStopSlack : Z := 5 * GoTime.Second.

(** [runtimeapi.StopContainerRequest] *)
Record StopContainerRequest := mkStopContainerRequest { ContainerId : string; Timeout : Z }.

(** The calls on gRPC and on the runtime service; [StopContainer] takes the time
    the call may last. *)
Class CRIRuntime (Rt : Type) := {
  RpcError : Type;
  ClientConn : Type;
  RuntimeServiceClient : Type;
  NewRuntimeServiceClient : ClientConn → RuntimeServiceClient;
  NewClient : string → Rt → result RpcError ClientConn * Rt;
  StopContainer : RuntimeServiceClient → Z → StopContainerRequest → Rt → option RpcError * Rt;
  CloseConn : ClientConn → Rt → option RpcError * Rt
}.
Arguments RpcError Rt {_}.
Arguments ClientConn Rt {_}.
Arguments RuntimeServiceClient Rt {_}.

Inductive CRIError (E : Type) :=
| ConnectError (endpoint : string) (cause : E)
| StopContainerError (containerID : string) (cause : E).
Arguments ConnectError {E} endpoint cause.
Arguments StopContainerError {E} containerID cause.

Section stopper.
Context {Rt : Type} `{CRIRuntime Rt}.

Definition dialFunc : Type :=
  string → Rt → result (RpcError Rt) (RuntimeServiceClient Rt * ClientConn Rt) * Rt.

Record CRIStopper := mkCRIStopper {
  endpoint : string;
  timeout : Z;
  conn : option (ClientConn Rt);
  client : option (RuntimeServiceClient Rt);
  dial : dialFunc
}.

Definition dialCRI : dialFunc := λ endpoint rt,
  let '(r, rt) := NewClient ("unix://" +:+ endpoint) rt in
  match r with
  | Err err => (Err err, rt)
  | Ok conn => (Ok (NewRuntimeServiceClient conn, conn), rt)
  end.

Definition StopperOption : Type := CRIStopper → CRIStopper.
Definition WithDial (dial : dialFunc) : StopperOption := λ s,
  mkCRIStopper (endpoint s) (timeout s) (conn s) (client s) dial.

Definition NewCRIStopper (endpoint : string) (timeout : Z) (opts : list StopperOption) : CRIStopper :=
  let timeout := if timeout <=? 0 then defaultCRIStopTimeout else timeout in
  fold_left (λ s opt, opt s) opts (mkCRIStopper endpoint timeout None None dialCRI).

Definition runtimeClient (s : CRIStopper) (rt : Rt)
    : result (RpcError Rt) (RuntimeServiceClient Rt) * (CRIStopper * Rt) :=
  match client s with
  | Some c => (Ok c, (s, rt))
  | None =>
      let '(r, rt) := dial s (endpoint s) rt in
      match r with
      | Err err => (Err err, (s, rt))
      | Ok (client, conn) =>
          (Ok client, (mkCRIStopper (endpoint s) (timeout s) (Some conn) (Some client) (dial s), rt))
      end
  end.

Definition cri_Stop (containerID : string) (st : CRIStopper * Rt)
    : result (CRIError (RpcError Rt)) unit * (CRIStopper * Rt) :=
  let '(s, rt) := st in
  let '(r, (s, rt)) := runtimeClient s rt in
  match r with
  | Err err => (Err (ConnectError (endpoint s) err), (s, rt))
  | Ok client =>
      let '(err, rt) := StopContainer client (wrap64 (timeout s + criStopSlack))
        (mkStopContainerRequest containerID (f_to_int64 (Seconds (timeout s)))) rt in
      match err with
      | Some err => (Err (StopContainerError containerID err), (s, rt))
      | None => (Ok tt, (s, rt))
      end
  end.

Definition Close (st : CRIStopper * Rt) : option (RpcError Rt) * (CRIStopper * Rt) :=
  let '(s, rt) := st in
  match conn s with
  | None => (None, (s, rt))
  | Some c =>
      let '(err, rt) := CloseConn c rt in
      (err, (mkCRIStopper (endpoint s) (timeout s) None None (dial s), rt))
  end.

(** The remediation contract. *)
#[global] Instance CRI_ContainerStopper : ContainerStopper (CRIStopper * Rt) := {|
  StopError := CRIError (RpcError Rt);
  Stop := cri_Stop
|}.

(** *** fractiond/cmd/main.go: the stopper and the plugin *)

Definition main_stopper (flags : fractiond_cmd.cliFlags) : option CRIStopper :=
  if fractiond_cmd.retroactiveEnforcement flags then
    Some (NewCRIStopper (fractiond_cmd.criSocket flags) (fractiond_cmd.stopTimeout flags) [])
  else None.

End stopper.
Arguments CRIStopper Rt {_}.
Arguments dialFunc Rt {_}.
Arguments StopperOption Rt {_}.

Definition main_config (flags : fractiond_cmd.cliFlags) : Plugin.Config :=
  Plugin.mkConfig (fractiond_cmd.annotationPrefix flags) (fractiond_cmd.mpsPipeDir flags)
    (fractiond_cmd.failOpen flags) (fractiond_cmd.supportSMSharing flags)
    (fractiond_cmd.injectCDIDevice flags) (fractiond_cmd.retroactiveEnforcement flags).

Definition main_plugin {St Rt} `{StoreWriter St} `{CRIRuntime Rt} (flags : fractiond_cmd.cliFlags) (w : St)
    : result PluginError (Plugin St) :=
  NewPlugin (main_config flags) (bool_decide (is_Some (main_stopper (Rt:=Rt) flags))) w.

(** ** What the runtime receives *)

Inductive rpc :=
| NewClientCall (target : string) (ok : bool)
| StopContainerCall (limit : Z) (req : StopContainerRequest)
| CloseCall.

(** Any runtime, with the list of the calls made to it. *)
#[global] Instance Recording {Rt} `{CRIRuntime Rt} : CRIRuntime (Rt * list rpc) | 10 := {|
  RpcError := RpcError Rt;
  ClientConn := ClientConn Rt;
  RuntimeServiceClient := RuntimeServiceClient Rt;
  NewRuntimeServiceClient := NewRuntimeServiceClient;
  NewClient target st :=
    let '(r, rt) := NewClient target st.1 in (r, (rt, st.2 ++ [NewClientCall target (is_ok r)]));
  StopContainer c limit req st :=
    let '(r, rt) := StopContainer c limit req st.1 in (r, (rt, st.2 ++ [StopContainerCall limit req]));
  CloseConn c st :=
    let '(r, rt) := CloseConn c st.1 in (r, (rt, st.2 ++ [CloseCall]))
|}.

Section recording.
Context {Rt : Type} `{CRIRuntime Rt}.
Implicit Types (s : CRIStopper (Rt * list rpc)) (rt : Rt) (log : list rpc).

Definition stop_call s (id : string) : rpc :=
  StopContainerCall (wrap64 (timeout s + criStopSlack)) (mkStopContainerRequest id (f_to_int64 (Seconds (timeout s)))).

Definition log_of (st : CRIStopper (Rt * list rpc) * (Rt * list rpc)) : list rpc := st.2.2.

(** The calls of stopping [ids] when the first [k] dials fail. *)
Definition expected_calls s (k : nat) (ids : list string) : list rpc :=
  replicate k (NewClientCall ("unix://" +:+ endpoint s) false) ++
  match drop k ids with
  | [] => []
  | rest => NewClientCall ("unix://" +:+ endpoint s) true :: map (stop_call s) rest
  end.

Lemma Stop_connected s rt log c id : client s = Some c → ∃ rt',
  (Stop id (s, (rt, log))).2 = (s, (rt', log ++ [stop_call s id])).
Proof.
  intros Hc. cbn [Stop CRI_ContainerStopper]. unfold cri_Stop, runtimeClient. rewrite Hc. cbn.
  destruct (@StopContainer _ H c _ _ rt) as [[err|] rt']; by exists rt'.
Qed.

(** A stop that has to dial: a failing dial changes nothing but the log, and a
    successful one leaves the stopper connected. *)
Lemma Stop_dials s rt log id (target := "unix://" +:+ endpoint s) : client s = None → dial s = dialCRI →
  (∃ rt', (Stop id (s, (rt, log))).2 = (s, (rt', log ++ [NewClientCall target false]))) ∨
  (∃ c rt', let s' := mkCRIStopper (endpoint s) (timeout s) (Some c) (Some (NewRuntimeServiceClient c)) dialCRI in
     (Stop id (s, (rt, log))).2 = (s', (rt', log ++ [NewClientCall target true; stop_call s id]))).
Proof.
  intros Hc Hd. cbn [Stop CRI_ContainerStopper]. unfold cri_Stop, runtimeClient. rewrite Hc, Hd. unfold dialCRI. cbn.
  fold target. destruct (@NewClient _ H target rt) as [[c|err] rt1]; [right|left; by exists rt1].
  exists c. cbn. destruct (@StopContainer _ H _ _ _ rt1) as [[err|] rt2]; exists rt2; cbn; by rewrite <- app_assoc.
Qed.

(** A connected stopper keeps its connection and leaves no violator out. *)
Lemma remediate_connected vs s rt log c : client s = Some c → ∃ rt',
  remediate vs (s, (rt, log)) = (s, (rt', log ++ map (stop_call s) (map vContainerID vs))).
Proof.
  intros Hc. revert rt log. induction vs as [|v vs IH]; intros rt log.
  - exists rt. cbn. by rewrite app_nil_r.
  - destruct (Stop_connected s rt log c (vContainerID v) Hc) as [rt1 Hs].
    destruct (IH rt1 (log ++ [stop_call s (vContainerID v)])) as [rt' IH']. exists rt'.
    rewrite (remediate_cons v vs _ _ Hs), IH'. cbn [map]. by rewrite <- app_assoc.
Qed.

(** From a stopper that has not dialed: each failing dial costs one violator, the
    first that succeeds is the last. *)
Lemma remediate_dials vs s rt log : client s = None → conn s = None → dial s = dialCRI → ∃ k s' rt',
  (k ≤ length vs)%nat ∧
  remediate vs (s, (rt, log)) = (s', (rt', log ++ expected_calls s k (map vContainerID vs))) ∧
  (k = length vs → s' = s) ∧ ((k < length vs)%nat → is_Some (conn s')).
Proof.
  intros Hc Hk Hd. revert rt log. induction vs as [|v vs IH]; intros rt log.
  - exists 0%nat, s, rt. unfold expected_calls. cbn. split_and!; [lia|by rewrite app_nil_r|done|lia].
  - destruct (Stop_dials s rt log (vContainerID v) Hc Hd) as [[rt1 Hs]|(c & rt1 & Hs)]; cbv zeta in Hs;
      rewrite (remediate_cons v vs _ _ Hs).
    + destruct (IH rt1 (log ++ [NewClientCall ("unix://" +:+ endpoint s) false])) as (k & s' & rt' & Hlen & Hr & H1 & H2).
      exists (S k), s', rt'. split_and!; cbn; [lia| |intros; apply H1; lia|intros; apply H2; lia].
      etransitivity; [exact Hr|]. by rewrite <- app_assoc.
    + set (s1 := mkCRIStopper (endpoint s) (timeout s) (Some c) (Some (NewRuntimeServiceClient c)) dialCRI).
      destruct (remediate_connected vs s1 rt1 (log ++ [NewClientCall ("unix://" +:+ endpoint s) true; stop_call s (vContainerID v)]) _ eq_refl) as [rt' Hr].
      exists 0%nat, s1, rt'. split_and!; cbn; [lia| |done|by eexists].
      etransitivity; [exact Hr|]. by rewrite <- app_assoc.
Qed.

(** Closing releases a connection once. *)
Lemma Close_once s rt log : ∃ rt',
  (Close (Close (s, (rt, log))).2).2.2 = (rt', log ++ (if decide (is_Some (conn s)) then [CloseCall] else [])).
Proof.
  unfold Close at 2. destruct (conn s) as [c|] eqn:Hc.
  - cbn. destruct (@CloseConn _ H c rt) as [err rt']. exists rt'. by rewrite decide_True by (by eexists).
  - exists rt. cbn. rewrite Hc. cbn. rewrite decide_False by (by intros [? ?]). by rewrite app_nil_r.
Qed.

End recording.

(** The grace the runtime is asked for and the time the call may last. *)
Lemma stop_times t : 0 < t ≤ int64_max - criStopSlack →
  wrap64 (t + criStopSlack) = t + criStopSlack ∧ t / GoTime.Second ≤ f_to_int64 (Seconds t) ∧
  f_to_int64 (Seconds t) * GoTime.Second + 4 * GoTime.Second ≤ t + criStopSlack.
Proof.
  intros Ht. assert (0 ≤ criStopSlack) by (unfold criStopSlack, GoTime.Second; lia).
  pose proof (Seconds_between t ltac:(lia)) as Hs. split; [|split; [lia|]].
  - apply wrap64_small. unfold in_int64, int64_min, int64_max in *. lia.
  - pose proof (Z.mul_div_le t GoTime.Second ltac:(unfold GoTime.Second; lia)). unfold criStopSlack, GoTime.Second in *. nia.
Qed.

(** C14: retroactive enforcement reaches the container runtime.  When fractiond
    starts with it on, the background goroutine of the first Synchronize
    makes these calls to the runtime at the configured socket and no other: the
    dials that fail, each of which gives up one container, then one dial that
    succeeds and a StopContainer request over that connection for every remaining
    container, whatever the runtime answers.  The containers are exactly those
    that must be stopped.  A request asks for at least the whole
    seconds of the stop timeout (30 seconds unless it is positive) and may last
    the timeout and five seconds, at least four seconds longer than the grace.
    Closing the stopper twice closes the connection once, if there is one. *)
Theorem enforcement_reaches_runtime {St Rt} `{StoreWriter St} `{QuantityLib} `{CRIRuntime Rt}
    flags (w : St) p (s : CRIStopper (Rt * list rpc)) pods ctrs (rt : Rt)
  (Hnew : main_plugin (Rt:=Rt * list rpc) flags w = Ok p)
  (Hstop : main_stopper flags = Some s)
  (Hmax : fractiond_cmd.stopTimeout flags ≤ int64_max - criStopSlack)
  (t := if fractiond_cmd.stopTimeout flags <=? 0 then 30 * GoTime.Second else fractiond_cmd.stopTimeout flags)
  (target := "unix://" +:+ fractiond_cmd.criSocket flags) :
  ∃ ids k grace,
    let st := remediate (to_stop (Synchronize p pods ctrs)) (s, (rt, [])) in
    let stops := map (λ id, StopContainerCall (t + 5 * GoTime.Second) (mkStopContainerRequest id grace)) (drop k ids) in
    (k ≤ length ids)%nat ∧
    log_of st = replicate k (NewClientCall target false) ++
                (if decide (k < length ids)%nat then NewClientCall target true :: stops else []) ∧
    (∀ id, id ∈ ids ↔ ∃ c pod, Some c ∈ ctrs ∧ Id c = id ∧
       podSandboxLookup pods !! PodSandboxId c = Some pod ∧ misses_injection p pod c) ∧
    t / GoTime.Second ≤ grace ∧ grace * GoTime.Second + 4 * GoTime.Second ≤ t + 5 * GoTime.Second ∧
    log_of (Close (Close st).2).2 = log_of st ++ (if decide (k < length ids)%nat then [CloseCall] else []).
Proof.
  unfold main_plugin in Hnew. rewrite Hstop, bool_decide_eq_true_2 in Hnew by (by eexists).
  unfold main_stopper in Hstop. destruct (fractiond_cmd.retroactiveEnforcement flags) eqn:Hre; [|done].
  injection Hstop as <-. set (s := NewCRIStopper _ _ _).
  assert (timeout s = t) as Hts by reflexivity.
  assert (∃ sent, sentinel p = Some sent) as [sent Hsent].
  { unfold NewPlugin, main_config in Hnew. cbn in Hnew. rewrite Hre in Hnew. injection Hnew as <-. by eexists. }
  destruct (stop_times t) as (Hw & Hg & Hd).
  { subst t. clear -Hmax. destruct (Z.leb_spec (fractiond_cmd.stopTimeout flags) 0); [by vm_compute|lia]. }
  set (vs := to_stop (Synchronize p pods ctrs)).
  destruct (remediate_dials vs s rt [] eq_refl eq_refl eq_refl) as (k & s' & rt' & Hk & Hr & Hs1 & Hs2).
  exists (map vContainerID vs), k, (f_to_int64 (Seconds t)). cbv zeta. rewrite Hr, length_map.
  destruct (Close_once s' rt' ([] ++ expected_calls s k (map vContainerID vs))) as [rt'' Hclose].
  split_and!; [done| |by apply (Synchronize_to_stop (main_config flags) w p sent)|done|done|].
  - unfold log_of, expected_calls. cbn [snd app]. f_equal. change (5 * GoTime.Second) with criStopSlack. rewrite <- Hw, <- Hts. change (_ +:+ endpoint s) with target.
    pose proof (length_drop (map vContainerID vs) k) as Hl. rewrite length_map in Hl.
    destruct (decide (k < length vs)%nat); destruct (drop k (map vContainerID vs)); cbn [length] in Hl; done || lia.
  - unfold log_of at 1. rewrite Hclose. cbn [snd]. f_equal.
    destruct (decide (is_Some (conn s'))) as [Hc|Hc], (decide (k < length vs)%nat); [done| |tauto|done].
    rewrite Hs1 in Hc by lia. by destruct Hc.
Qed.

(** A runtime whose first dials fail and that refuses every stop. *)
#[local] Instance BusyRuntime : CRIRuntime nat := {|
  RpcError := string;
  ClientConn := unit;
  RuntimeServiceClient := unit;
  NewRuntimeServiceClient c := c;
  NewClient _ n := match n with O => (Ok tt, O) | S n => (Err "refused", n) end;
  StopContainer _ _ _ n := (Some "not found", n);
  CloseConn _ n := (None, n)
|}.

Definition example_flags : fractiond_cmd.cliFlags :=
  fractiond_cmd.mkCliFlags "gpu-fractioning" "10" "" DefaultAnnotationPrefix DefaultMPSPipeDirectory false true true
    "" false "info" (5 * GoTime.Second) (5 * GoTime.Minute) 0 8093 true "/run/cri.sock" (10 * GoTime.Second).

Lemma enforcement_reaches_runtime_witness :
  let s := NewCRIStopper (Rt:=nat * list rpc) "/run/cri.sock" (10 * GoTime.Second) [] in
  let ctrs := [Some (example_container ["PATH=/bin"]); Some (example_container ["HOME=/"]); None] in
  let st := remediate (to_stop (@Synchronize _ DecimalQuantities example_plugin [Some example_pod] ctrs)) (s, (1%nat, [])) in
  log_of st = [NewClientCall "unix:///run/cri.sock" false; NewClientCall "unix:///run/cri.sock" true;
               StopContainerCall (15 * GoTime.Second) (mkStopContainerRequest "c1" 10)] ∧
  ∃ ids : list string, ∀ id, id ∈ ids ↔ ∃ c pod, Some c ∈ ctrs ∧ Id c = id ∧
    podSandboxLookup [Some example_pod] !! PodSandboxId c = Some pod ∧
    @misses_injection _ _ DecimalQuantities example_plugin pod c.
Proof.
  cbv zeta. split; [vm_compute; reflexivity|].
  destruct (@enforcement_reaches_runtime _ nat _ DecimalQuantities BusyRuntime example_flags ∅ example_plugin
    (NewCRIStopper "/run/cri.sock" (10 * GoTime.Second) []) [Some example_pod]
    [Some (example_container ["PATH=/bin"]); Some (example_container ["HOME=/"]); None] 1%nat)
    as (ids & k & grace & _ & _ & H & _).
  - vm_compute. reflexivity.
  - reflexivity.
  - vm_compute. discriminate.
  - exists ids. exact H.
Defined.
