(* ===== verification/Status.v ===== *)
(** * operator: conditions and driver upgrades

    [common/daemonmgr/status.go], [driverupgrade.go], [managed_daemon.go] and
    [pkg/driverinfo], with the part of [Reconcile] that turns the observed health
    of the daemons into the Ready condition.  Statuses are the strings of the
    Kubernetes API.  Each reading of [time.Now] is an argument. *)

From Stdlib Require Import ZArith Lia String Ascii.
From stdpp Require Import base gmap list strings.
From S2P Require Import Prelude GoStrings.

#[local] Open Scope string_scope.
#[local] Open Scope list_scope.
#[local] Open Scope Z_scope.

(** ** Constants *)

Definition NodeConditionType : string := "gpu-fractioning.nvidia.com/Ready".
Definition ConditionReady : string := "Ready".
Definition ConditionDriverUpgradeInProgress : string := "DriverUpgradeInProgress".
Definition ReasonReconcileError : string := "ReconcileError".
Definition ReasonNoTargetNodes : string := "NoTargetNodes".
Definition ReasonAllPodsReady : string := "AllPodsReady".
Definition ReasonPartiallyAvailable : string := "PartiallyAvailable".
Definition ReasonRolloutInProgress : string := "RolloutInProgress".
Definition ReasonComponentNotReady : string := "ComponentNotReady".
Definition ReasonComponentUnknown : string := "ComponentUnknown".
Definition ReasonAllComponentsReady : string := "AllComponentsReady".
Definition ReasonNoComponents : string := "NoComponents".
Definition MessageNoTargetNodes : string := "no target nodes found".
Definition MessageAllComponentsReady : string := "all components are healthy".
Definition MessageNoComponents : string := "no components have been evaluated".

(** [metav1.ConditionStatus] *)
Definition ConditionTrue : string := "True".
Definition ConditionFalse : string := "False".
Definition ConditionUnknown : string := "Unknown".

Record Condition := mkCondition {
  CType : string;
  CStatus : string;
  ObservedGeneration : Z;
  LastTransitionTime : Z;
  CReason : string;
  CMessage : string
}.

Record DaemonHealth := mkHealth { DesiredNodes : Z; ReadyNodes : Z }.

(** ** status.go *)

(** [strings.ToUpper] of a one-byte string: a byte that is not ASCII is not valid
    UTF-8 on its own, and is replaced by the encoding of U+FFFD. *)
Definition ToUpper_byte (a : ascii) : string :=
  let n := N_of_ascii a in
  if (128 <=? n)%N then String "239" (String "191" (String "189" EmptyString))
  else if ((97 <=? n) && (n <=? 122))%N then String (ascii_of_N (n - 32)) EmptyString
  else String a EmptyString.
Definition Capitalize (s : string) : string :=
  match s with EmptyString => s | String a r => ToUpper_byte a +:+ r end.

Definition pods_ready_message (h : DaemonHealth) : string :=
  FormatInt (ReadyNodes h) +:+ " of " +:+ FormatInt (DesiredNodes h) +:+ " pods ready".

Definition DaemonHealthToCondition (daemonName : string) (health : DaemonHealth) (generation : Z)
    (reconcileErr : option string) (now : Z) : Condition :=
  let condType := Capitalize daemonName +:+ "Ready" in
  match reconcileErr with
  | Some err => mkCondition condType ConditionFalse generation now ReasonReconcileError err
  | None =>
      if DesiredNodes health =? 0 then
        mkCondition condType ConditionTrue generation now ReasonNoTargetNodes MessageNoTargetNodes
      else if ReadyNodes health =? DesiredNodes health then
        mkCondition condType ConditionTrue generation now ReasonAllPodsReady (pods_ready_message health)
      else
        let reason := if ReadyNodes health =? 0 then ReasonRolloutInProgress else ReasonPartiallyAvailable in
        mkCondition condType ConditionFalse generation now reason (pods_ready_message health)
  end.

Definition componentSummary (c : Condition) : string :=
  if String.eqb (CMessage c) "" then CType c else CType c +:+ " (" +:+ CMessage c +:+ ")".

(** The aggregate itself and the driver-upgrade condition do not drive Ready. *)
Definition is_component (c : Condition) : bool :=
  negb (String.eqb (CType c) ConditionReady || String.eqb (CType c) ConditionDriverUpgradeInProgress).

(** The loop of [AggregateReadyCondition]. *)
Definition aggregate_step (acc : list string * list string) (c : Condition) : list string * list string :=
  let '(falses, unknowns) := acc in
  if negb (is_component c) then acc
  else if String.eqb (CStatus c) ConditionFalse then (falses ++ [componentSummary c], unknowns)
  else if String.eqb (CStatus c) ConditionUnknown then (falses, unknowns ++ [componentSummary c])
  else acc.

Definition AggregateReadyCondition (conditions : list Condition) (generation now : Z) : Condition :=
  match conditions with
  | [] => mkCondition ConditionReady ConditionUnknown generation now ReasonNoComponents MessageNoComponents
  | _ =>
      let '(falses, unknowns) := fold_left aggregate_step conditions ([], []) in
      match falses, unknowns with
      | _ :: _, _ => mkCondition ConditionReady ConditionFalse generation now ReasonComponentNotReady
                       ("not ready: " +:+ Join falses ", ")
      | [], _ :: _ => mkCondition ConditionReady ConditionUnknown generation now ReasonComponentUnknown
                        ("unknown: " +:+ Join unknowns ", ")
      | [], [] => mkCondition ConditionReady ConditionTrue generation now ReasonAllComponentsReady
                    MessageAllComponentsReady
      end
  end.

Fixpoint SetCondition (conditions : list Condition) (cond : Condition) : list Condition :=
  match conditions with
  | [] => [cond]
  | existing :: rest =>
      if String.eqb (CType existing) (CType cond) then
        (if String.eqb (CStatus existing) (CStatus cond)
         then mkCondition (CType cond) (CStatus cond) (ObservedGeneration cond) (LastTransitionTime existing)
                (CReason cond) (CMessage cond)
         else cond) :: rest
      else existing :: SetCondition rest cond
  end.

Definition isConditionTrue (conditions : list Condition) (condType : string) : bool :=
  match List.find (λ c, String.eqb (CType c) condType) conditions with
  | Some c => String.eqb (CStatus c) ConditionTrue
  | None => false
  end.

(** ** The daemon loop of [Reconcile]

    [observed] is what [ReconcileDaemon] returned for each daemon. *)

Record observation := mkObservation {
  daemon : string;
  health : DaemonHealth;
  reconcile_err : option string;
  observed_at : Z
}.

Definition daemon_step (generation : Z) (acc : list Condition * bool) (o : observation) : list Condition * bool :=
  let '(conditions, needsRequeue) := acc in
  let '(h, needsRequeue) := match reconcile_err o with
                            | Some _ => (mkHealth 0 0, true)
                            | None => (health o, needsRequeue)
                            end in
  let cond := DaemonHealthToCondition (daemon o) h generation (reconcile_err o) (observed_at o) in
  (SetCondition conditions cond, if ReadyNodes h <? DesiredNodes h then true else needsRequeue).

(** The status conditions, the aggregate computed from them, and whether to requeue. *)
Definition daemon_pass (generation now : Z) (conditions : list Condition) (observed : list observation)
    : list Condition * bool * Condition :=
  let '(conditions, needsRequeue) := fold_left (daemon_step generation) observed (conditions, false) in
  (conditions, needsRequeue, AggregateReadyCondition conditions generation now).

(** ** driverupgrade.go *)

Definition DriverUpgradeStateLabel : string := "nvidia.com/gpu-driver-upgrade-state".
Definition DriverUpgradeStateDone : string := "upgrade-done".
Definition GPUDeployClientLabel : string := "nvidia.com/gpu.deploy.client".
Definition GPUDeployClientValue : string := "true".

Abbreviation labels_map := (gmap string string).

Definition DaemonNodeSelector (crSelector : labels_map) : labels_map :=
  <[GPUDeployClientLabel := GPUDeployClientValue]> crSelector.

Definition DriverUpgradeActive (labelValue : string) : bool :=
  negb (String.eqb labelValue "") && negb (String.eqb labelValue DriverUpgradeStateDone).

(** Node selector requirements: key, operator and values. *)
Inductive NodeSelectorRequirement :=
| OpDoesNotExist (key : string)
| OpExists (key : string)
| OpIn (key : string) (values : list string)
| OpNotIn (key : string) (values : list string).

Definition driverUpgradeNodeAffinity : list (list NodeSelectorRequirement) :=
  [[OpDoesNotExist DriverUpgradeStateLabel]; [OpIn DriverUpgradeStateLabel [DriverUpgradeStateDone]]].

(** The requirements [evaluateDriverUpgrade] adds to the CR's node selector. *)
Definition upgrading_requirements : list NodeSelectorRequirement :=
  [OpExists DriverUpgradeStateLabel; OpNotIn DriverUpgradeStateLabel [DriverUpgradeStateDone]].

Definition DriverUpgradeCondition (active : bool) (generation now : Z) : Condition :=
  if active
  then mkCondition ConditionDriverUpgradeInProgress ConditionTrue generation now "DriverUpgrading"
         "a targeted GPU node is undergoing a driver upgrade; its managed daemons are drained"
  else mkCondition ConditionDriverUpgradeInProgress ConditionFalse generation now "NoDriverUpgrade" "".

(** ** driverinfo *)

Definition NVIDIADriverMajorLabel : string := "gpu-fractioning.kai.scheduler/nvidia-driver-version.major".

Inductive DriverError := DriverVersionEmpty | ValueEmpty | NotInteger (value : string) | NotPositive.

Definition parsePositiveInt (value : string) : result DriverError Z :=
  if String.eqb value "" then Err ValueEmpty
  else match ParseInt value with
       | None => Err (NotInteger value)
       | Some parsed => if parsed <=? 0 then Err NotPositive else Ok parsed
       end.

Definition ParseDriverVersionMajor (version : string) : result DriverError Z :=
  let version := TrimSpace version in
  if String.eqb version "" then Err DriverVersionEmpty
  else parsePositiveInt (cut_before "."%char version).

Definition ParseDriverMajorLabel (value : string) : result DriverError Z := parsePositiveInt (TrimSpace value).

(** ** Lemmas: conditions *)

Definition find_condition (t : string) (cs : list Condition) : option Condition :=
  List.find (λ c, String.eqb (CType c) t) cs.

(** The condition as stored: its transition time is kept when the status is. *)
Definition stored (old : option Condition) (c : Condition) : Condition :=
  match old with
  | Some e => if String.eqb (CStatus e) (CStatus c)
              then mkCondition (CType c) (CStatus c) (ObservedGeneration c) (LastTransitionTime e) (CReason c) (CMessage c)
              else c
  | None => c
  end.

Lemma stored_fields old c : CType (stored old c) = CType c ∧ CStatus (stored old c) = CStatus c.
Proof. unfold stored. by repeat case_match. Qed.

Lemma find_SetCondition t cs c :
  find_condition t (SetCondition cs c) =
    if String.eqb (CType c) t then Some (stored (find_condition t cs) c) else find_condition t cs.
Proof.
  induction cs as [|e cs IH]; cbn [SetCondition find_condition List.find].
  { by destruct (String.eqb (CType c) t). }
  destruct (String.eqb_spec (CType e) (CType c)) as [He|He]; cbn [List.find].
  - replace (CType (if String.eqb (CStatus e) (CStatus c) then _ else c)) with (CType c)
      by (by destruct (String.eqb (CStatus e) (CStatus c))).
    rewrite He. destruct (String.eqb_spec (CType c) t) as [<-|Ht]; [done|done].
  - destruct (String.eqb_spec (CType e) t) as [<-|Ht].
    + by rewrite (proj2 (String.eqb_neq _ _)) by congruence.
    + exact IH.
Qed.

Lemma SetCondition_types cs c :
  map CType (SetCondition cs c) = map CType cs ∨
  CType c ∉ map CType cs ∧ map CType (SetCondition cs c) = map CType cs ++ [CType c].
Proof.
  induction cs as [|e cs IH]; cbn [SetCondition map].
  { right. split; [apply not_elem_of_nil|done]. }
  destruct (String.eqb_spec (CType e) (CType c)) as [He|He]; cbn [map].
  - left. f_equal. rewrite He. by destruct (String.eqb (CStatus e) (CStatus c)).
  - destruct IH as [->|[Hn ->]]; [by left|]. right. split; [|done]. apply not_elem_of_cons. done.
Qed.

Lemma SetCondition_NoDup cs c : NoDup (map CType cs) → NoDup (map CType (SetCondition cs c)).
Proof.
  intros Hnd. destruct (SetCondition_types cs c) as [->|[Hn ->]]; [done|].
  apply list.NoDup_app. split; [done|]. split; [|apply NoDup_singleton].
  by intros t Ht ->%list_elem_of_singleton.
Qed.

Lemma elem_of_find_condition cs c : NoDup (map CType cs) → c ∈ cs ↔ find_condition (CType c) cs = Some c.
Proof.
  intros Hnd. split.
  - induction cs as [|e cs IH]; cbn [map] in Hnd; [by intros ?%elem_of_nil|].
    apply list.NoDup_cons in Hnd as [He Hnd]. intros [->|Hin]%elem_of_cons; unfold find_condition; cbn [List.find].
    + by rewrite String.eqb_refl.
    + destruct (String.eqb_spec (CType e) (CType c)) as [Heq|_]; [|by apply IH].
      destruct He. rewrite Heq. apply list_elem_of_fmap. eauto.
  - intros [Hin _]%find_some. by apply list_elem_of_In.
Qed.

(** ** Lemmas: the aggregate *)

Definition failing (status : string) (cs : list Condition) : list Condition :=
  filter (λ c, is_component c && String.eqb (CStatus c) status = true) cs.

Lemma aggregate_fold cs : ∀ acc, fold_left aggregate_step cs acc =
  (acc.1 ++ map componentSummary (failing ConditionFalse cs), acc.2 ++ map componentSummary (failing ConditionUnknown cs)).
Proof.
  induction cs as [|c cs IH]; intros [f u]; cbn [fold_left fst snd].
  { by rewrite !app_nil_r. }
  rewrite IH. unfold failing, aggregate_step. rewrite !filter_cons.
  destruct (is_component c); cbn [negb andb fst snd].
  - destruct (String.eqb_spec (CStatus c) ConditionFalse) as [E|E].
    + rewrite E. rewrite decide_True, decide_False by done. cbn [fst snd map]. by rewrite <- app_assoc.
    + rewrite (decide_False (P := false = true)) by done.
      destruct (String.eqb (CStatus c) ConditionUnknown); cbn [fst snd map].
      * rewrite decide_True by done. by rewrite <- app_assoc.
      * by rewrite decide_False by done.
  - by rewrite !decide_False by done.
Qed.

Lemma aggregate_status cs generation now : cs ≠ [] →
  CStatus (AggregateReadyCondition cs generation now) =
    match failing ConditionFalse cs, failing ConditionUnknown cs with
    | _ :: _, _ => ConditionFalse
    | [], _ :: _ => ConditionUnknown
    | [], [] => ConditionTrue
    end.
Proof.
  intros Hne. unfold AggregateReadyCondition. destruct cs as [|c cs]; [done|].
  rewrite aggregate_fold. cbn [fst snd app].
  by destruct (failing ConditionFalse (c :: cs)), (failing ConditionUnknown (c :: cs)).
Qed.

(** ** Lemmas: the daemon pass *)

Definition condition_type (o : observation) : string := Capitalize (daemon o) +:+ "Ready".
Definition healthy (o : observation) : bool :=
  match reconcile_err o with
  | Some _ => false
  | None => (DesiredNodes (health o) =? 0) || (ReadyNodes (health o) =? DesiredNodes (health o))
  end.

Lemma ToUpper_byte_length a : (1 <= String.length (ToUpper_byte a))%nat.
Proof. unfold ToUpper_byte. repeat case_match; cbn; lia. Qed.

Lemma component_type o : daemon o ≠ "" → ∀ c, CType c = condition_type o → is_component c = true.
Proof.
  intros Hne c Hc. unfold is_component. rewrite Hc. apply negb_true_iff, orb_false_iff. unfold condition_type. split.
  - apply String.eqb_neq. destruct (daemon o) as [|a r]; [done|]. cbn [Capitalize]. intros H.
    apply (f_equal String.length) in H. rewrite !str_length_app in H. pose proof (ToUpper_byte_length a).
    cbn in H. lia.
  - apply String.eqb_neq. intros H. pose proof (HasSuffix_app (Capitalize (daemon o)) "Ready") as Hs.
    rewrite H in Hs. by vm_compute in Hs.
Qed.

Lemma step_condition generation o :
  let h := match reconcile_err o with Some _ => mkHealth 0 0 | None => health o end in
  let c := DaemonHealthToCondition (daemon o) h generation (reconcile_err o) (observed_at o) in
  CType c = condition_type o ∧ CStatus c = if healthy o then ConditionTrue else ConditionFalse.
Proof.
  cbv zeta. unfold DaemonHealthToCondition, healthy, condition_type. destruct (reconcile_err o); [done|].
  destruct (DesiredNodes (health o) =? 0); [done|]. by destruct (_ =? _).
Qed.

(** A daemon leaves the loop wanting a requeue. *)
Definition wants_requeue (o : observation) : bool :=
  match reconcile_err o with Some _ => true | None => ReadyNodes (health o) <? DesiredNodes (health o) end.

Lemma daemon_step_eq generation cs rq o : ∃ c,
  daemon_step generation (cs, rq) o = (SetCondition cs c, rq || wants_requeue o) ∧
  CType c = condition_type o ∧ CStatus c = if healthy o then ConditionTrue else ConditionFalse.
Proof.
  eexists. split; [|apply (step_condition generation o)].
  unfold daemon_step, wants_requeue. destruct (reconcile_err o); cbn [ReadyNodes DesiredNodes]; f_equal.
  - by rewrite orb_true_r.
  - destruct (_ <? _); [by rewrite orb_true_r|by rewrite orb_false_r].
Qed.

(** What the loop leaves: the requeue flag, unique types, the conditions of other types as
    they were, and for each observed daemon a condition that says whether it is healthy. *)
Lemma daemon_fold generation os : ∀ cs rq, NoDup (map condition_type os) → NoDup (map CType cs) →
  let '(cs', rq') := fold_left (daemon_step generation) os (cs, rq) in
  rq' = rq || existsb wants_requeue os ∧
  NoDup (map CType cs') ∧
  (∀ t, t ∉ map condition_type os → find_condition t cs' = find_condition t cs) ∧
  (∀ o, o ∈ os → ∃ c, find_condition (condition_type o) cs' = Some c ∧
                      CStatus c = if healthy o then ConditionTrue else ConditionFalse).
Proof.
  induction os as [|o os IH]; intros cs rq Hos Hcs; cbn [fold_left existsb map].
  { rewrite orb_false_r. split_and!; [done..|]. by intros o ?%elem_of_nil. }
  cbn [map] in Hos. apply list.NoDup_cons in Hos as [Ho Hos].
  destruct (daemon_step_eq generation cs rq o) as (c & -> & Ht & Hs).
  specialize (IH (SetCondition cs c) (rq || wants_requeue o) Hos (SetCondition_NoDup _ c Hcs)).
  destruct (fold_left _ _ _) as [cs' rq']. destruct IH as (-> & Hnd & Hother & Hobs).
  split_and!; [by rewrite orb_assoc|done| |].
  - intros t [Hne Hnin]%not_elem_of_cons. rewrite Hother by done. rewrite find_SetCondition, Ht.
    by rewrite (proj2 (String.eqb_neq _ _)) by congruence.
  - intros o' [->|Hin]%elem_of_cons; [|by apply Hobs].
    rewrite Hother by done. rewrite find_SetCondition, Ht, String.eqb_refl. eexists. split; [done|].
    by rewrite (proj2 (stored_fields _ _)).
Qed.

Lemma failing_nil status cs : failing status cs = [] ↔
  ∀ c, c ∈ cs → is_component c = true → CStatus c ≠ status.
Proof.
  unfold failing. split.
  - intros Hnil c Hin Hc Hs. apply (not_elem_of_nil c). rewrite <- Hnil. apply list_elem_of_filter.
    split; [|done]. by rewrite Hc, Hs, String.eqb_refl.
  - intros H. apply list_nil_subseteq. intros c [[Hc Hs%String.eqb_eq]%andb_prop Hin]%list_elem_of_filter.
    by destruct (H c Hin Hc).
Qed.

(** Every component condition after the loop belongs to an observed daemon. *)
Lemma daemon_fold_components generation cs os c : NoDup (map condition_type os) → NoDup (map CType cs) →
  (∀ c, c ∈ cs → is_component c = true → CType c ∈ map condition_type os) →
  let cs' := (fold_left (daemon_step generation) os (cs, false)).1 in
  c ∈ cs' → is_component c = true →
  ∃ o, o ∈ os ∧ CType c = condition_type o ∧ CStatus c = if healthy o then ConditionTrue else ConditionFalse.
Proof.
  intros Hos Hcs Hcov cs' Hin Hc. subst cs'. pose proof (daemon_fold generation os cs false Hos Hcs) as H.
  destruct (fold_left _ _ _) as [cs' rq]. destruct H as (_ & Hnd & Hother & Hobs). cbn [fst] in Hin.
  apply (elem_of_find_condition _ _ Hnd) in Hin.
  destruct (decide (CType c ∈ map condition_type os)) as [Ht|Ht].
  - apply list_elem_of_fmap in Ht as (o & Ht & Ho). exists o. split_and!; [done|done|].
    destruct (Hobs o Ho) as (c' & Hc' & Hs). rewrite <- Ht in Hc'. congruence.
  - rewrite Hother in Hin by done. apply (elem_of_find_condition _ _ Hcs) in Hin. by destruct Ht; apply Hcov.
Qed.

Lemma healthy_requeue o : 0 <= ReadyNodes (health o) <= DesiredNodes (health o) → wants_requeue o = negb (healthy o).
Proof. intros H. unfold wants_requeue, healthy. destruct (reconcile_err o); [done|]. lia. Qed.

Lemma not_forallb {A} (f : A → bool) xs : forallb f xs = false → ∃ x, x ∈ xs ∧ f x = false.
Proof.
  induction xs as [|x xs IH]; cbn [forallb]; [done|]. destruct (f x) eqn:E; cbn [andb].
  - intros (y & Hy & Hf)%IH. exists y. split; [by right|done].
  - intros _. exists x. split; [by left|done].
Qed.

Lemma negb_forallb {A} (f : A → bool) xs : negb (forallb f xs) = existsb (negb ∘ f) xs.
Proof. induction xs as [|x xs IH]; cbn; [done|]. by rewrite negb_andb, IH. Qed.

Lemma existsb_requeue os : (∀ o, o ∈ os → 0 <= ReadyNodes (health o) <= DesiredNodes (health o)) →
  existsb wants_requeue os = negb (forallb healthy os).
Proof.
  intros Hb. rewrite negb_forallb. induction os as [|o os IH]; cbn; [done|].
  rewrite healthy_requeue by (apply Hb; by left). f_equal. apply IH. intros o' Ho'. apply Hb. by right.
Qed.

Lemma aggregate_type cs generation now : CType (AggregateReadyCondition cs generation now) = ConditionReady.
Proof. unfold AggregateReadyCondition. by repeat case_match. Qed.

Lemma isConditionTrue_SetCondition cs c : isConditionTrue (SetCondition cs c) (CType c) = String.eqb (CStatus c) ConditionTrue.
Proof.
  unfold isConditionTrue. fold (find_condition (CType c) (SetCondition cs c)).
  by rewrite find_SetCondition, String.eqb_refl, (proj2 (stored_fields _ _)).
Qed.

(** The aggregate of conditions that represent the observed daemons. *)
Lemma aggregate_of_daemons generation now cs os : os ≠ [] →
  (∀ c, c ∈ cs → is_component c = true →
    ∃ o, o ∈ os ∧ CStatus c = if healthy o then ConditionTrue else ConditionFalse) →
  (∀ o, o ∈ os → ∃ c, c ∈ cs ∧ is_component c = true ∧
    CStatus c = if healthy o then ConditionTrue else ConditionFalse) →
  CStatus (AggregateReadyCondition cs generation now) = if forallb healthy os then ConditionTrue else ConditionFalse.
Proof.
  intros Hne Hcomp Hobs. rewrite aggregate_status.
  2:{ destruct os as [|o os]; [done|]. destruct (Hobs o) as (c & Hin & _); [by left|].
      by intros ->; apply elem_of_nil in Hin. }
  destruct (forallb healthy os) eqn:Hall.
  - assert (Hgood : ∀ st, st ≠ ConditionTrue → failing st cs = []).
    { intros st Hst. apply failing_nil. intros c Hin Hc. destruct (Hcomp c Hin Hc) as (o & Ho & Hs).
      rewrite forallb_forall in Hall. rewrite (Hall o) in Hs by (by apply list_elem_of_In). congruence. }
    by rewrite !Hgood.
  - apply not_forallb in Hall as (o & Ho & Hh). destruct (Hobs o Ho) as (c & Hin & Hc & Hs). rewrite Hh in Hs.
    destruct (failing ConditionFalse cs) eqn:E; [|done]. rewrite failing_nil in E. by destruct (E c Hin Hc).
Qed.

(** The pass: the aggregate, the requeue flag, and a condition for each observed daemon. *)
Lemma daemon_pass_spec generation now cs os :
  NoDup (map CType cs) → NoDup (map condition_type os) → os ≠ [] →
  (∀ o, o ∈ os → daemon o ≠ "") →
  (∀ c, c ∈ cs → is_component c = true → CType c ∈ map condition_type os) →
  let '(cs', needsRequeue, ready) := daemon_pass generation now cs os in
  CStatus ready = (if forallb healthy os then ConditionTrue else ConditionFalse) ∧
  needsRequeue = existsb wants_requeue os ∧ NoDup (map CType cs') ∧
  (∀ o, o ∈ os → ∃ c, find_condition (condition_type o) cs' = Some c ∧
                      CStatus c = if healthy o then ConditionTrue else ConditionFalse).
Proof.
  intros Hcs Hos Hne Hnames Hcov. unfold daemon_pass.
  pose proof (daemon_fold generation os cs false Hos Hcs) as H.
  pose proof (λ c, daemon_fold_components generation cs os c Hos Hcs Hcov) as Hcomp.
  destruct (fold_left _ _ _) as [cs' rq]. cbn [fst orb] in H, Hcomp. destruct H as (-> & Hnd & _ & Hobs).
  split_and!; [|done..]. apply aggregate_of_daemons; [done| |].
  - intros c Hin Hc. destruct (Hcomp c Hin Hc) as (o & ? & _ & ?). eauto.
  - intros o Ho. destruct (Hobs o Ho) as (c & Hc & Hs). exists c.
    pose proof Hc as [Hin Ht%String.eqb_eq]%find_some. apply list_elem_of_In in Hin.
    split_and!; [done| |done]. by apply (component_type o); [apply Hnames|].
Qed.

Lemma daemon_pass_type generation now cs os : CType (daemon_pass generation now cs os).2 = ConditionReady.
Proof. unfold daemon_pass. destruct (fold_left _ _ _). apply aggregate_type. Qed.

(** C29: one pass over the daemons.  Starting from status conditions of distinct types whose
    components are the daemons being reconciled, the Ready condition the pass writes is True
    when every daemon reconciled without error and either targets no node or has all its pods
    ready, and False otherwise; the pass asks for a requeue exactly when a daemon failed to
    reconcile or has fewer ready nodes than desired, which with consistent counters is exactly
    when Ready is not True; the status still has one condition per type, and the next reconcile
    reads the health back from it. *)
Theorem ready_iff_daemons_healthy generation now cs os :
  NoDup (map CType cs) → NoDup (map condition_type os) → os ≠ [] →
  (∀ o, o ∈ os → daemon o ≠ "") →
  (∀ c, c ∈ cs → is_component c = true → CType c ∈ map condition_type os) →
  let '(cs', needsRequeue, ready) := daemon_pass generation now cs os in
  CStatus ready = (if forallb healthy os then ConditionTrue else ConditionFalse) ∧
  needsRequeue = existsb wants_requeue os ∧
  ((∀ o, o ∈ os → 0 <= ReadyNodes (health o) <= DesiredNodes (health o)) →
   needsRequeue = negb (String.eqb (CStatus ready) ConditionTrue)) ∧
  NoDup (map CType (SetCondition cs' ready)) ∧
  isConditionTrue (SetCondition cs' ready) ConditionReady = forallb healthy os.
Proof.
  intros Hcs Hos Hne Hnames Hcov. pose proof (daemon_pass_spec generation now cs os Hcs Hos Hne Hnames Hcov) as H.
  pose proof (daemon_pass_type generation now cs os) as Ht.
  destruct (daemon_pass _ _ _ _) as [[cs' rq] ready]. cbn [snd] in Ht. destruct H as (Hready & -> & Hnd & _).
  split_and!; [done|done| |by apply SetCondition_NoDup|].
  - intros Hb. rewrite existsb_requeue, Hready by done. by destruct (forallb healthy os).
  - rewrite <- Ht, isConditionTrue_SetCondition, Hready. by destruct (forallb healthy os).
Qed.

(** A recovering install: fractiond is back, mpsd still rolls out. *)
Definition sample_status : list Condition :=
  [mkCondition "FractiondReady" ConditionFalse 1 10 ReasonRolloutInProgress "0 of 3 pods ready";
   mkCondition "Ready" ConditionFalse 1 10 ReasonComponentNotReady "";
   mkCondition "DriverUpgradeInProgress" ConditionFalse 1 10 "NoDriverUpgrade" ""].
Definition sample_observed : list observation :=
  [mkObservation "fractiond" (mkHealth 3 3) None 20; mkObservation "mpsd" (mkHealth 3 2) None 21].

Lemma ready_iff_daemons_healthy_witness :
  let '(_, needsRequeue, ready) := daemon_pass 2 22 sample_status sample_observed in
  CStatus ready = ConditionFalse ∧ CMessage ready = "not ready: MpsdReady (2 of 3 pods ready)" ∧ needsRequeue = true.
Proof.
  assert (H := ready_iff_daemons_healthy 2 22 sample_status sample_observed).
  assert (H' : let '(_, rq, ready) := daemon_pass 2 22 sample_status sample_observed in
    CStatus ready = ConditionFalse ∧ rq = true).
  { destruct (daemon_pass _ _ _ _) as [[cs' rq] ready]. destruct H as (Hs & Hr & _).
    - eapply bool_decide_unpack. vm_compute. exact I.
    - eapply bool_decide_unpack. vm_compute. exact I.
    - done.
    - apply (list.Forall_forall (λ o, daemon o ≠ "")). eapply bool_decide_unpack. vm_compute. exact I.
    - apply (list.Forall_forall (λ c, is_component c = true → CType c ∈ map condition_type sample_observed)).
      eapply bool_decide_unpack. vm_compute. exact I.
    - by split. }
  revert H'. vm_compute. intros [_ _]. done.
Defined.

(** ** The history of a condition *)

(** When a condition took its present status: [earlier] are the previous conditions of its
    type, the latest first. *)
Fixpoint since (c : Condition) (earlier : list Condition) : Z :=
  match earlier with
  | [] => LastTransitionTime c
  | e :: older => if String.eqb (CStatus e) (CStatus c) then since e older else LastTransitionTime c
  end.

Definition with_transition (c : Condition) (t : Z) : Condition :=
  mkCondition (CType c) (CStatus c) (ObservedGeneration c) t (CReason c) (CMessage c).

(** What the list of updates says of the conditions of one type. *)
Definition history (t : string) (updates : list Condition) : option Condition :=
  match filter (λ c, CType c = t) (rev updates) with
  | [] => None
  | c :: earlier => Some (with_transition c (since c earlier))
  end.

Lemma with_transition_own c : with_transition c (LastTransitionTime c) = c.
Proof. by destruct c. Qed.

(** However many conditions are set, in whatever order, the status holds for each type the
    last condition set for it, with the transition time at which that type last changed
    status: updates that repeat the status keep the time of the first of them, and updates of
    other types do not touch it. *)
Theorem conditions_keep_history t updates :
  find_condition t (fold_left SetCondition updates []) = history t updates.
Proof.
  induction updates as [|c updates IH] using rev_ind; [done|].
  rewrite fold_left_app. cbn [fold_left]. rewrite find_SetCondition, IH. unfold history.
  rewrite rev_app_distr. cbn [rev app]. rewrite filter_cons.
  destruct (String.eqb_spec (CType c) t) as [Ht|Ht]; [rewrite decide_True by done|by rewrite decide_False by done].
  f_equal. destruct (filter _ (rev updates)) as [|e older]; cbn [stored since].
  - by rewrite with_transition_own.
  - cbn [with_transition CStatus LastTransitionTime]. destruct (String.eqb (CStatus e) (CStatus c)); [done|].
    by rewrite with_transition_own.
Qed.

(** ** Driver upgrades *)

(** What the operator relies on of the cluster: a node selector lists labels the node must
    carry, and the four requirement operators mean what the Kubernetes documentation says,
    [NotIn] holding also where the label is absent. *)
Class NodeSelection := {
  selects : labels_map → labels_map → bool;
  matches : NodeSelectorRequirement → labels_map → bool
}.

Class NodeSelectionLaws `(NodeSelection) := {
  selects_spec sel l : selects sel l = true ↔ sel ⊆ l;
  matches_DoesNotExist k l : matches (OpDoesNotExist k) l = negb (bool_decide (is_Some (l !! k)));
  matches_Exists k l : matches (OpExists k) l = bool_decide (is_Some (l !! k));
  matches_In k vs l : matches (OpIn k vs) l = match l !! k with Some v => bool_decide (v ∈ vs) | None => false end;
  matches_NotIn k vs l : matches (OpNotIn k vs) l = match l !! k with Some v => negb (bool_decide (v ∈ vs)) | None => true end
}.

Section Upgrades.
Context `{NodeSelectionLaws}.

(** The nodes a managed daemon is kept on: its node selector, and one of the affinity terms. *)
Definition daemon_placed (crSelector node : labels_map) : bool :=
  selects (DaemonNodeSelector crSelector) node &&
  existsb (forallb (λ r, matches r node)) driverUpgradeNodeAffinity.

(** The nodes [evaluateDriverUpgrade] lists. *)
Definition counted_upgrading (crSelector node : labels_map) : bool :=
  selects crSelector node && forallb (λ r, matches r node) upgrading_requirements.

Lemma affinity_spec node :
  existsb (forallb (λ r, matches r node)) driverUpgradeNodeAffinity =
  negb (forallb (λ r, matches r node) upgrading_requirements).
Proof.
  unfold driverUpgradeNodeAffinity, upgrading_requirements. cbn [existsb forallb].
  rewrite matches_DoesNotExist, matches_Exists, matches_In, matches_NotIn.
  destruct (node !! DriverUpgradeStateLabel) as [v|]; cbn; [|done].
  by destruct (bool_decide _).
Qed.

Lemma upgrading_spec node :
  forallb (λ r, matches r node) upgrading_requirements =
  match node !! DriverUpgradeStateLabel with Some v => negb (String.eqb v DriverUpgradeStateDone) | None => false end.
Proof.
  unfold upgrading_requirements. cbn [forallb]. rewrite matches_Exists, matches_NotIn.
  destruct (node !! DriverUpgradeStateLabel) as [v|]; cbn; [|done]. rewrite andb_true_r. f_equal.
  destruct (String.eqb_spec v DriverUpgradeStateDone) as [->|Hne]; [done|].
  apply bool_decide_eq_false. by intros ->%list_elem_of_singleton.
Qed.

Lemma daemon_selector_subseteq crSelector node : crSelector !! GPUDeployClientLabel = None →
  DaemonNodeSelector crSelector ⊆ node ↔ crSelector ⊆ node ∧ node !! GPUDeployClientLabel = Some GPUDeployClientValue.
Proof.
  intros Hnone. unfold DaemonNodeSelector. rewrite !map_subseteq_spec. split.
  - intros Hs. split; [|apply Hs, lookup_insert_eq]. intros k v Hk. apply Hs. rewrite lookup_insert_ne; [done|congruence].
  - intros [Hs Hc] k v [[<- <-]|[Hne Hk]]%lookup_insert_Some; [done|by apply Hs].
Qed.

(** C35: on a node the CR targets, the daemons are placed exactly when the GPU operator lets GPU
    clients run there and the node is not counted as upgrading, so placement and the
    DriverUpgradeInProgress condition never disagree; and a node counts as upgrading exactly
    when its state label is present with a value other than upgrade-done, which is what
    [DriverUpgradeActive] says of the value unless the value is empty: a node whose label is
    present and empty is drained and counted, though [DriverUpgradeActive] calls it idle. *)
Theorem upgrade_drains_daemons crSelector node :
  selects crSelector node = true → crSelector !! GPUDeployClientLabel = None →
  daemon_placed crSelector node =
    bool_decide (node !! GPUDeployClientLabel = Some GPUDeployClientValue) && negb (counted_upgrading crSelector node) ∧
  (∀ v, node !! DriverUpgradeStateLabel = Some v → v ≠ "" →
        counted_upgrading crSelector node = DriverUpgradeActive v) ∧
  (node !! DriverUpgradeStateLabel = Some "" →
   counted_upgrading crSelector node = true ∧ DriverUpgradeActive "" = false).
Proof.
  intros Hsel Hnone. unfold daemon_placed, counted_upgrading. rewrite Hsel, affinity_spec. cbn [andb]. split_and!.
  - f_equal. apply eq_true_iff_eq. rewrite selects_spec, bool_decide_eq_true, daemon_selector_subseteq by done.
    apply selects_spec in Hsel. tauto.
  - intros v Hv Hne. rewrite upgrading_spec, Hv. unfold DriverUpgradeActive.
    by rewrite (proj2 (String.eqb_neq _ _) Hne).
  - intros Hv. by rewrite upgrading_spec, Hv.
Qed.

(** A CR that pins the client label itself cannot opt out of driver-upgrade coordination:
    a daemon is placed only on nodes that carry the label with the value true and are not
    upgrading, whatever the CR selects. *)
Theorem no_upgrade_opt_out crSelector node : daemon_placed crSelector node = true →
  node !! GPUDeployClientLabel = Some GPUDeployClientValue ∧
  ∀ v, node !! DriverUpgradeStateLabel = Some v → v = DriverUpgradeStateDone.
Proof.
  unfold daemon_placed. rewrite affinity_spec, upgrading_spec. intros [Hs Hu]%andb_prop. split.
  - apply selects_spec in Hs. rewrite map_subseteq_spec in Hs. apply Hs. apply lookup_insert_eq.
  - intros v Hv. rewrite Hv, negb_involutive in Hu. by apply String.eqb_eq in Hu.
Qed.
End Upgrades.

(** The documented semantics, as functions. *)
#[local] Instance k8s_selection : NodeSelection := {|
  selects sel l := bool_decide (sel ⊆ l);
  matches r l := match r with
    | OpDoesNotExist k => negb (bool_decide (is_Some (l !! k)))
    | OpExists k => bool_decide (is_Some (l !! k))
    | OpIn k vs => match l !! k with Some v => bool_decide (v ∈ vs) | None => false end
    | OpNotIn k vs => match l !! k with Some v => negb (bool_decide (v ∈ vs)) | None => true end
    end
|}.

#[local] Instance k8s_selection_laws : NodeSelectionLaws k8s_selection.
Proof. split; try done. intros sel l. apply bool_decide_eq_true. Qed.

Definition upgrading_node : labels_map :=
  {["gpu" := "a"; GPUDeployClientLabel := "true"; DriverUpgradeStateLabel := "cordon-required"]}.
Definition upgraded_node : labels_map :=
  {["gpu" := "a"; GPUDeployClientLabel := "true"; DriverUpgradeStateLabel := DriverUpgradeStateDone]}.

Lemma upgrade_drains_daemons_witness :
  daemon_placed {["gpu" := "a"]} upgrading_node = false ∧ DriverUpgradeActive "cordon-required" = true.
Proof.
  destruct (upgrade_drains_daemons {["gpu" := "a"]} upgrading_node) as (-> & Ha & _); [done|done|].
  by rewrite (Ha "cordon-required") by done.
Defined.

Lemma no_upgrade_opt_out_witness :
  daemon_placed {[GPUDeployClientLabel := "false"]} upgraded_node = true ∧
  upgraded_node !! GPUDeployClientLabel = Some GPUDeployClientValue.
Proof.
  assert (H : daemon_placed {[GPUDeployClientLabel := "false"]} upgraded_node = true) by done.
  split; [done|]. apply (no_upgrade_opt_out _ _ H).
Defined.
