(* ===== verification/DaemonSets.v ===== *)
(** * operator: the DaemonSets

    The configuration API ([api/v1alpha1]), the shared builders
    ([common/daemonmgr]: managed_daemon.go, daemonset_helpers.go, cdi.go) and the
    two managed daemons ([components/fractiond], [components/mpsd]).  Kubernetes
    objects are records of the fields the code sets; quantities and the user's
    own volumes are kept as given.  Logging is left out. *)

From Stdlib Require Import ZArith Lia String Ascii Floats.SpecFloat.
From stdpp Require Import base gmap list strings.
From S2P Require Import Prelude GoStrings GoTime Float64 Status.

#[local] Open Scope string_scope.
#[local] Open Scope list_scope.
#[local] Open Scope Z_scope.

(** ** Kubernetes objects *)

Inductive EnvSource := EnvValue (v : string) | FieldRef (path : string).
Record EnvVar := mkEnvVar { env_name : string; env_source : EnvSource }.

Inductive VolumeSource := HostPath (path : string) (type : option string) | OtherSource (spec : string).
Record Volume := mkVolume { volume_name : string; volume_source : VolumeSource }.
Record VolumeMount := mkVolumeMount { mount_name : string; MountPath : string; ReadOnly : bool }.

Inductive ProbeHandler := HTTPGet (path : string) (port : Z) | TCPSocket (port : Z) | Exec (command : list string).
Record Probe := mkProbe { probe_handler : ProbeHandler; InitialDelaySeconds : Z; PeriodSeconds : Z; FailureThreshold : Z }.

Record ContainerPort := mkPort { port_name : string; port_number : Z }.
Record ResourceRequirements := mkResources { Requests : gmap string string; Limits : gmap string string }.

Record Container := mkContainer {
  container_name : string;
  Image : string;
  ImagePullPolicy : string;
  Privileged : bool;
  Args : list string;
  ReadinessProbe : Probe;
  LivenessProbe : Probe;
  Resources : ResourceRequirements;
  Env : list EnvVar;
  Ports : list ContainerPort;
  VolumeMounts : list VolumeMount
}.

Record Toleration := mkToleration { tol_key : string; tol_operator : string; tol_value : string; tol_effect : string }.

Record PodSpec := mkPodSpec {
  NodeSelector : labels_map;
  Tolerations : list Toleration;
  HostPID : bool;
  ServiceAccountName : string;
  AutomountServiceAccountToken : option bool;
  RuntimeClassName : option string;
  TerminationGracePeriodSeconds : option Z;
  Affinity : list (list NodeSelectorRequirement);
  Containers : list Container;
  Volumes : list Volume
}.

Record DaemonSet := mkDaemonSet {
  ds_name : string;
  ds_namespace : string;
  ds_labels : labels_map;
  ds_selector : labels_map;
  template_labels : labels_map;
  template_annotations : labels_map;
  pod_spec : PodSpec
}.

(** ** api/v1alpha1 *)

Record FractioningAgentSpec := mkFractioningAgentSpec {
  AnnotationPrefix : string;
  FailOpen : option bool;
  NRISocketPath : string;
  RetroactiveEnforcement : bool;
  CRISocketPath : string;
  fa_LogLevel : string;
  RetryInterval : option Z;
  fa_StableThreshold : option Z;
  fa_MaxRetries : option Z;
  ReadinessPort : option Z
}.

Record MetricNamesSpec := mkMetricNamesSpec {
  GPUMemoryUsedBytesName : string;
  GPUSMUtilizationPercentName : string;
  GPUSMUtilizationPercentNormalizedName : string
}.

Record MetricsAgentSpec := mkMetricsAgentSpec {
  Enabled : bool;
  ma_LogLevel : string;
  Address : string;
  ma_Path : string;
  ma_Volumes : list Volume;
  ma_VolumeMounts : list VolumeMount;
  MetricNamesOverride : option MetricNamesSpec
}.

Record MpsDaemonSpec := mkMpsDaemonSpec {
  md_LogLevel : string;
  md_Backoff : option Z;
  md_MaxRetries : option Z;
  md_StableThreshold : option Z;
  GracefulStopDelay : option Z
}.

Record GpuFractioningConfigSpec := mkConfigSpec {
  spec_NodeSelector : labels_map;
  spec_Tolerations : list Toleration;
  spec_RuntimeClassName : option string;
  FractioningAgent : option FractioningAgentSpec;
  MetricsAgent : option MetricsAgentSpec;
  MpsDaemon : option MpsDaemonSpec
}.

(** ** daemonmgr *)

Definition LabelManagedBy : string := "app.kubernetes.io/managed-by".
Definition LabelComponentKey : string := "app.kubernetes.io/component".
Definition ManagedByValue : string := "gpu-fractioning".
Definition DefaultRuntimeClassName : string := "nvidia".
Definition daemonSetPrefix : string := "gpu-fractioning".

Record ImageSpec := mkImageSpec { Repository : string; Tag : string; PullPolicyText : string }.
Definition FullImage (s : ImageSpec) : string :=
  if String.eqb (Repository s) "" then ""
  else if negb (String.eqb (Tag s) "") then Repository s +:+ ":" +:+ Tag s
  else Repository s.
Definition PullPolicy (s : ImageSpec) : string :=
  if negb (String.eqb (PullPolicyText s) "") then PullPolicyText s else "IfNotPresent".

Record BuildOptions := mkBuildOptions {
  Namespace : string;
  opt_NodeSelector : labels_map;
  opt_Tolerations : list Toleration;
  opt_ServiceAccountName : string;
  opt_RuntimeClassName : option string;
  DefaultImages : gmap string ImageSpec;
  FIPSOnly : bool;
  opt_NRIPluginEnabled : bool
}.

(** Indexing a Go map: the zero value when absent. *)
Definition image_of (opts : BuildOptions) (name : string) : ImageSpec :=
  default (mkImageSpec "" "" "") (DefaultImages opts !! name).

Definition ResolveRuntimeClassName (runtimeClassName : option string) : option string :=
  match runtimeClassName with
  | None => Some DefaultRuntimeClassName
  | Some name => if String.eqb name "" then None else runtimeClassName
  end.

Definition daemonEphemeralStorageRequest : string := "100Mi".
Definition DaemonResources (cpuRequest memRequest memLimit : string) : ResourceRequirements :=
  mkResources {["cpu" := cpuRequest; "memory" := memRequest; "ephemeral-storage" := daemonEphemeralStorageRequest]}
    {["memory" := memLimit]}.

Definition fipsOnlyGODEBUG : string := "fips140=only,tlsmlkem=0".
Definition FIPSOnlyEnv (fipsOnly : bool) : list EnvVar :=
  if negb fipsOnly then [] else [mkEnvVar "GODEBUG" (EnvValue fipsOnlyGODEBUG)].

Definition nriAnnotationDomain : string := "nvidia.cdi.k8s.io".
Definition ManagementCDIDeviceAll : string := "management.nvidia.com/gpu=all".
Definition managementCDIDeviceAnnotation (containerName : string) : string :=
  nriAnnotationDomain +:+ "/container." +:+ containerName.
Definition SetManagementCDIDevice (annotations : labels_map) (containerName : string) (nriPluginEnabled : bool) : labels_map :=
  if negb nriPluginEnabled then annotations
  else <[managementCDIDeviceAnnotation containerName := ManagementCDIDeviceAll]> annotations.

Definition base_labels (component : string) : labels_map :=
  {[LabelManagedBy := ManagedByValue; LabelComponentKey := component]}.
Definition BaseDaemonSet (component namespace : string) (annotations : labels_map) (spec : PodSpec) : DaemonSet :=
  mkDaemonSet (daemonSetPrefix +:+ "-" +:+ component) namespace (base_labels component) (base_labels component)
    (base_labels component) annotations spec.

(** [net.SplitHostPort], which the listen address goes through. *)
Fixpoint index_byte (c : ascii) (l : list ascii) : option nat :=
  match l with
  | [] => None
  | a :: r => if Ascii.eqb a c then Some O else S <$> index_byte c r
  end.
Definition last_index_byte (c : ascii) (l : list ascii) : option nat :=
  (λ i, (List.length l - 1 - i)%nat) <$> index_byte c (rev l).
Definition has_byte (c : ascii) (l : list ascii) : bool := bool_decide (is_Some (index_byte c l)).

(** The host and the port. *)
Definition SplitHostPort (hostport : string) : option (string * string) :=
  let l := bytes_of hostport in
  match last_index_byte ":" l with
  | None => None
  | Some i =>
      let port := drop (S i) l in
      match l with
      | "["%char :: _ =>
          match index_byte "]" l with
          | None => None
          | Some close =>
              if negb (bool_decide (S close = i)) then None
              else if has_byte "[" (drop 1 l) || has_byte "]" (drop (S close) l) then None
              else Some (string_of_list_ascii (take (close - 1) (drop 1 l)), string_of_list_ascii port)
          end
      | _ =>
          let host := take i l in
          if has_byte ":" host then None
          else if has_byte "[" l || has_byte "]" l then None
          else Some (string_of_list_ascii host, string_of_list_ascii port)
      end
  end.

(** ** components/fractiond *)

Module fractiond.
Definition daemonName : string := "fractiond".
Definition metricsdName : string := "metricsd".
Definition defaultMPSPipeDir : string := "/run/nvidia-mps".
Definition defaultNRISocketDir : string := "/var/run/nri".
Definition defaultCRISocketPath : string := "/run/containerd/containerd.sock".
Definition containerPodMapDir : string := "/var/run/gpu-fractioning/map".
Definition metricsPort : Z := 2112.
Definition volumeNRISocket : string := "nri-socket".
Definition volumeMPSPipe : string := "mps-pipe".
Definition volumeMapDir : string := "map-dir".
Definition volumeCRISocket : string := "cri-socket".
Definition defaultReadinessPort : Z := 8093.
Definition readyzPath : string := "/readyz".
Definition metricsdHealthzPath : string := "/healthz".
Definition metricsdReadyzPath : string := "/readyz".
Definition DirectoryOrCreate : string := "DirectoryOrCreate".

Record daemon := mkDaemon {
  fractioningSpec : option FractioningAgentSpec;
  metricsSpec : option MetricsAgentSpec;
  supportSMSharing : bool
}.

Definition metricsEnabled (d : daemon) : bool := match metricsSpec d with Some m => Enabled m | None => false end.

Definition metricsListenPort (d : daemon) : Z :=
  match metricsSpec d with
  | Some m =>
      if negb (String.eqb (Address m) "") then
        match SplitHostPort (Address m) with
        | None => metricsPort
        | Some (_, port) =>
            match ParseInt port with
            | Some p => if (0 <? p) && (p <=? 65535) then p else metricsPort
            | None => metricsPort
            end
        end
      else metricsPort
  | None => metricsPort
  end.
Definition metricsAnnotationPort (d : daemon) : string := FormatInt (metricsListenPort d).
Definition metricsAnnotationPath (d : daemon) : string :=
  match metricsSpec d with
  | Some m => if negb (String.eqb (ma_Path m) "") then ma_Path m else "/metrics"
  | None => "/metrics"
  end.

Definition readinessPort (d : daemon) : Z :=
  match fractioningSpec d with Some s => default defaultReadinessPort (ReadinessPort s) | None => defaultReadinessPort end.
Definition nriSocketDir (d : daemon) : string :=
  match fractioningSpec d with
  | Some s => if String.eqb (NRISocketPath s) "" then defaultNRISocketDir else PathDir (NRISocketPath s)
  | None => defaultNRISocketDir
  end.
Definition retroactiveEnforcementEnabled (d : daemon) : bool :=
  match fractioningSpec d with Some s => RetroactiveEnforcement s | None => false end.
Definition criSocketPath (d : daemon) : string :=
  match fractioningSpec d with
  | Some s => if String.eqb (CRISocketPath s) "" then defaultCRISocketPath else CRISocketPath s
  | None => defaultCRISocketPath
  end.

(** [if value != "" { args = append(args, name, value) }], and the like for pointers. *)
Definition string_arg (name value : string) : list string := if negb (String.eqb value "") then [name; value] else [].
Definition duration_arg (name : string) (value : option Z) : list string :=
  match value with Some d => [name; DurationString d] | None => [] end.
Definition int_arg (name : string) (value : option Z) : list string :=
  match value with Some n => [name; FormatInt n] | None => [] end.

Definition buildArgs (d : daemon) (opts : BuildOptions) : list string :=
  ["--support-sm-sharing=" +:+ FormatBool (supportSMSharing d);
   "--inject-cdi-device=" +:+ FormatBool (opt_NRIPluginEnabled opts)] ++
  match fractioningSpec d with
  | None => []
  | Some spec =>
      string_arg "--annotation-prefix" (AnnotationPrefix spec) ++
      (if default false (FailOpen spec) then ["--fail-open"] else []) ++
      string_arg "--socket-path" (NRISocketPath spec) ++
      string_arg "--log-level" (fa_LogLevel spec) ++
      duration_arg "--retry-interval" (RetryInterval spec) ++
      duration_arg "--stable-threshold" (fa_StableThreshold spec) ++
      int_arg "--max-retries" (fa_MaxRetries spec) ++
      int_arg "--readiness-port" (ReadinessPort spec) ++
      ["--retroactive-enforcement=" +:+ FormatBool (RetroactiveEnforcement spec)] ++
      string_arg "--cri-socket" (CRISocketPath spec)
  end.

Definition buildMetricsdArgs (d : daemon) : list string :=
  match metricsSpec d with
  | None => []
  | Some m =>
      string_arg "--log-level" (ma_LogLevel m) ++
      string_arg "--metrics-address" (Address m) ++
      string_arg "--metrics-path" (ma_Path m) ++
      match MetricNamesOverride m with
      | None => []
      | Some n =>
          string_arg "--metric-name-gpu-memory-used-bytes" (GPUMemoryUsedBytesName n) ++
          string_arg "--metric-name-gpu-sm-utilization-percent" (GPUSMUtilizationPercentName n) ++
          string_arg "--metric-name-gpu-sm-utilization-percent-normalized" (GPUSMUtilizationPercentNormalizedName n)
      end
  end.

(** The map-dir volume and the writer's mount of it. *)
Definition metricsSharedVolume : Volume * VolumeMount :=
  (mkVolume volumeMapDir (HostPath containerPodMapDir (Some DirectoryOrCreate)),
   mkVolumeMount volumeMapDir containerPodMapDir false).

Definition buildFractiondContainer (d : daemon) (opts : BuildOptions) (extra_mounts : list VolumeMount) : Container * list Volume :=
  let image := image_of opts daemonName in
  let enforced := retroactiveEnforcementEnabled d in
  let criSocketDir := PathDir (criSocketPath d) in
  (mkContainer daemonName (FullImage image) (PullPolicy image) true (buildArgs d opts)
     (mkProbe (HTTPGet readyzPath (readinessPort d)) 5 10 0)
     (mkProbe (TCPSocket (readinessPort d)) 10 20 3)
     (DaemonResources "50m" "64Mi" "256Mi")
     (FIPSOnlyEnv (FIPSOnly opts))
     [mkPort "readiness" (readinessPort d)]
     ([mkVolumeMount volumeNRISocket (nriSocketDir d) false; mkVolumeMount volumeMPSPipe defaultMPSPipeDir false] ++
      (if enforced then [mkVolumeMount volumeCRISocket criSocketDir false] else []) ++ extra_mounts),
   [mkVolume volumeNRISocket (HostPath (nriSocketDir d) None); mkVolume volumeMPSPipe (HostPath defaultMPSPipeDir None)] ++
   (if enforced then [mkVolume volumeCRISocket (HostPath criSocketDir (Some DirectoryOrCreate))] else [])).

Definition buildMetricsdContainer (d : daemon) (opts : BuildOptions) : Container :=
  let image := image_of opts metricsdName in
  let port := metricsListenPort d in
  mkContainer metricsdName (FullImage image) (PullPolicy image) true (buildMetricsdArgs d)
    (mkProbe (HTTPGet metricsdReadyzPath port) 5 10 0)
    (mkProbe (HTTPGet metricsdHealthzPath port) 15 20 3)
    (DaemonResources "50m" "128Mi" "512Mi")
    ([mkEnvVar "NVIDIA_VISIBLE_DEVICES" (EnvValue "all"); mkEnvVar "NVIDIA_DRIVER_CAPABILITIES" (EnvValue "utility")] ++
     FIPSOnlyEnv (FIPSOnly opts))
    [mkPort "metrics" port]
    ([mkVolumeMount volumeMapDir containerPodMapDir true] ++
     match metricsSpec d with Some m => ma_VolumeMounts m | None => [] end).

(** [applyMetricsSidecar]: the volumes and the container it appends, and the annotations. *)
Definition sidecar_volumes (d : daemon) : list Volume := match metricsSpec d with Some m => ma_Volumes m | None => [] end.
Definition sidecar_annotations (d : daemon) (opts : BuildOptions) : labels_map :=
  SetManagementCDIDevice
    (<["prometheus.io/path" := metricsAnnotationPath d]>
     (<["prometheus.io/port" := metricsAnnotationPort d]> {["prometheus.io/scrape" := "true"]}))
    metricsdName (opt_NRIPluginEnabled opts).

Definition BuildDaemonSet (d : daemon) (opts : BuildOptions) : DaemonSet :=
  let metricsOn := metricsEnabled d in
  let '(vol, mount) := metricsSharedVolume in
  let '(container, volumes) := buildFractiondContainer d opts (if metricsOn then [mount] else []) in
  BaseDaemonSet daemonName (Namespace opts)
    (if metricsOn then sidecar_annotations d opts else ∅)
    (mkPodSpec (DaemonNodeSelector (opt_NodeSelector opts)) (opt_Tolerations opts) true
       (opt_ServiceAccountName opts) (Some false)
       (if metricsOn then opt_RuntimeClassName opts else None) None driverUpgradeNodeAffinity
       ([container] ++ if metricsOn then [buildMetricsdContainer d opts] else [])
       (volumes ++ if metricsOn then [vol] ++ sidecar_volumes d else [])).
End fractiond.

(** ** components/mpsd *)

Module mpsd.
Definition daemonName : string := "mpsd".
Definition defaultMPSPipeDir : string := "/run/nvidia-mps".
Definition defaultMPSLogDir : string := "/var/log/nvidia-mps".
Definition volumeMPSPipe : string := "mps-pipe".
Definition volumeMPSLog : string := "mps-log".
Definition defaultGracefulStopDelay : Z := 60 * Second.
Definition terminationGraceBuffer : Z := 15 * Second.

Record daemon := mkDaemon { spec : option MpsDaemonSpec; auditLog : bool; supportSMSharing : bool }.

Definition grace (d : daemon) : Z :=
  match spec d with Some s => default defaultGracefulStopDelay (GracefulStopDelay s) | None => defaultGracefulStopDelay end.

Definition terminationGraceSeconds (d : daemon) : Z := f_to_int64 (Seconds (wrap64 (grace d + terminationGraceBuffer))).

Definition buildArgs (d : daemon) : list string :=
  match spec d with
  | None => []
  | Some s =>
      fractiond.string_arg "--log-level" (md_LogLevel s) ++
      fractiond.duration_arg "--backoff" (md_Backoff s) ++
      fractiond.int_arg "--max-retries" (md_MaxRetries s) ++
      fractiond.duration_arg "--stable-threshold" (md_StableThreshold s) ++
      fractiond.duration_arg "--graceful-stop-delay" (GracefulStopDelay s)
  end.

Definition buildContainer (d : daemon) (image : ImageSpec) (env : list EnvVar) : Container * list Volume :=
  let socket := Exec ["test"; "-S"; defaultMPSPipeDir +:+ "/control"] in
  (mkContainer daemonName (FullImage image) (PullPolicy image) true (buildArgs d)
     (mkProbe socket 5 10 0) (mkProbe socket 60 30 6)
     (DaemonResources "50m" "64Mi" "256Mi") env []
     [mkVolumeMount volumeMPSPipe defaultMPSPipeDir false; mkVolumeMount volumeMPSLog defaultMPSLogDir false],
   [mkVolume volumeMPSPipe (HostPath defaultMPSPipeDir (Some fractiond.DirectoryOrCreate));
    mkVolume volumeMPSLog (HostPath defaultMPSLogDir (Some fractiond.DirectoryOrCreate))]).

Definition container_env (d : daemon) (opts : BuildOptions) : list EnvVar :=
  [mkEnvVar "NODE_NAME" (FieldRef "spec.nodeName");
   mkEnvVar "NVIDIA_VISIBLE_DEVICES" (EnvValue "all");
   mkEnvVar "NVIDIA_DRIVER_CAPABILITIES" (EnvValue "compute,utility");
   mkEnvVar "MPS_MEMACCT_AUDIT_LOG" (EnvValue (FormatBool (auditLog d)));
   mkEnvVar "MPS_SUPPORT_SM_SHARING" (EnvValue (FormatBool (supportSMSharing d)))] ++ FIPSOnlyEnv (FIPSOnly opts).

Definition BuildDaemonSet (d : daemon) (opts : BuildOptions) : DaemonSet :=
  let '(container, volumes) := buildContainer d (image_of opts daemonName) (container_env d opts) in
  BaseDaemonSet daemonName (Namespace opts)
    (SetManagementCDIDevice ∅ daemonName (opt_NRIPluginEnabled opts))
    (mkPodSpec (DaemonNodeSelector (opt_NodeSelector opts)) (opt_Tolerations opts) true
       (opt_ServiceAccountName opts) None (opt_RuntimeClassName opts) (Some (terminationGraceSeconds d))
       driverUpgradeNodeAffinity [container] volumes).
End mpsd.
