(* ===== verification/Deploy.v ===== *)
(** * From the configuration to the daemons' settings

    Composition of the operator's builders with the daemons they start: the
    command line and the environment of each built container, read back by the
    daemon's own flag parser, and the host directories mounted for it.  The
    container's environment is what the image sets, a parameter, overridden by
    the variables of the pod template; arguments reach the process as built. *)

From Stdlib Require Import ZArith Lia String Ascii Floats.SpecFloat.
From stdpp Require Import base gmap list strings.
From S2P Require Import Prelude GoStrings GoTime Float64 GoFlag Annotations Retry MpsConfig Exporter DaemonFlags Status DaemonSets.

#[local] Open Scope string_scope.
#[local] Open Scope list_scope.
#[local] Open Scope Z_scope.

(** ** The environment and the mounts of a container *)

(** The last variable of a name wins; a field reference is resolved by the kubelet. *)
Definition env_value (field : string → string) (v : EnvVar) : string :=
  match env_source v with EnvValue s => s | FieldRef path => field path end.
Definition process_env (image field : string → string) (env : list EnvVar) (key : string) : string :=
  match List.find (λ v, String.eqb (env_name v) key) (rev env) with
  | Some v => env_value field v
  | None => image key
  end.

(** [path] in the container is the same path of the node, with the given access. *)
Definition host_mounted (pod : PodSpec) (c : Container) (path : string) (readonly : bool) : Prop :=
  ∃ m v type, m ∈ VolumeMounts c ∧ MountPath m = path ∧ ReadOnly m = readonly ∧
    List.find (λ v, String.eqb (volume_name v) (mount_name m)) (Volumes pod) = Some v ∧ volume_source v = HostPath path type.

(** ** What the configuration asks for *)

Definition or_default (dflt s : string) : string := if negb (String.eqb s "") then s else dflt.

(** The width of the fields, in the API types. *)
Definition in_int32 (n : Z) : Prop := - 2 ^ 31 ≤ n < 2 ^ 31.
Definition option_all (P : Z → Prop) (o : option Z) : Prop := match o with Some n => P n | None => True end.

Definition agent_typed (s : FractioningAgentSpec) : Prop :=
  option_all in_int64 (RetryInterval s) ∧ option_all in_int64 (fa_StableThreshold s) ∧
  option_all in_int32 (fa_MaxRetries s) ∧ option_all in_int32 (ReadinessPort s).
Definition mps_typed (s : MpsDaemonSpec) : Prop :=
  option_all in_int64 (md_Backoff s) ∧ option_all in_int32 (md_MaxRetries s) ∧
  option_all in_int64 (md_StableThreshold s) ∧ option_all in_int64 (GracefulStopDelay s).

(** No field set. *)
Definition empty_agent (retroactive : bool) : FractioningAgentSpec :=
  mkFractioningAgentSpec "" None "" retroactive "" "" None None None None.

(** The settings of fractiond for a configured agent. *)
Definition agent_settings (d : fractiond.daemon) (opts : BuildOptions) (s : FractioningAgentSpec) : fractiond_cmd.cliFlags :=
  fractiond_cmd.mkCliFlags fractiond_cmd.DefaultPluginName fractiond_cmd.DefaultPluginIdx
    (or_default "/var/run/nri/nri.sock" (NRISocketPath s))
    (or_default "nvidia.com/container." (AnnotationPrefix s))
    "/run/nvidia-mps" (default false (FailOpen s))
    (fractiond.supportSMSharing d) (opt_NRIPluginEnabled opts)
    DefaultMapDir false (or_default "info" (fa_LogLevel s))
    (default (5 * GoTime.Second) (RetryInterval s)) (default (5 * GoTime.Minute) (fa_StableThreshold s))
    (default 0 (fa_MaxRetries s)) (default 8093 (ReadinessPort s))
    (RetroactiveEnforcement s) (or_default "/run/containerd/containerd.sock" (CRISocketPath s))
    (30 * GoTime.Second).

Definition mps_settings (d : mpsd.daemon) (s : MpsDaemonSpec) : mpsd_cmd.cliFlags :=
  mpsd_cmd.mkCliFlags
    (mkMpsdFlags mpsd_cmd.DefaultMPSBinary mpsd_cmd.DefaultMPSControlPort mpsd_cmd.DefaultMPSConfigPath
       (mpsd.auditLog d) (mpsd.supportSMSharing d) "/run/nvidia-mps" "/var/log/nvidia-mps"
       (default (5 * GoTime.Second) (md_Backoff s)) (default 5 (md_MaxRetries s))
       (default (5 * GoTime.Minute) (md_StableThreshold s)))
    (or_default "info" (md_LogLevel s)) (default (60 * GoTime.Second) (GracefulStopDelay s)).

Definition empty_names : MetricNamesSpec := mkMetricNamesSpec "" "" "".
Definition metrics_settings (m : MetricsAgentSpec) : metricsd_cmd.cliFlags :=
  let names := default empty_names (MetricNamesOverride m) in
  metricsd_cmd.mkCliFlags DefaultMapDir (or_default "info" (ma_LogLevel m)) true
    (or_default ":2112" (Address m)) (or_default "/metrics" (ma_Path m)) "/proc" DefaultCollectInterval 0
    (mkMetricNames (GPUMemoryUsedBytesName names) (GPUSMUtilizationPercentName names)
       (GPUSMUtilizationPercentNormalizedName names)).

(** ** Lemmas: flags through a chain of updates *)

Lemma lookup_update_ne flags n v m : String.eqb n m = false → lookup_flag (update_flag flags n v) m = lookup_flag flags m.
Proof. intros H. by rewrite lookup_update, H. Qed.

Lemma lookup_update_eq flags n v : lookup_flag (update_flag flags n v) n = (λ _, v) <$> lookup_flag flags n.
Proof. by rewrite lookup_update, String.eqb_refl. Qed.

Lemma lookup_update_opt_ne flags n o m : String.eqb n m = false → lookup_flag (update_opt flags n o) m = lookup_flag flags m.
Proof. intros H. rewrite lookup_update_opt. destruct o; by rewrite ?H. Qed.

Lemma lookup_update_opt_eq flags n o : lookup_flag (update_opt flags n o) n = (λ v, default v o) <$> lookup_flag flags n.
Proof. rewrite lookup_update_opt, String.eqb_refl. destruct o, (lookup_flag flags n); done. Qed.

(** Look a declared flag up through the updates. *)
Ltac skip_updates := repeat first [rewrite lookup_update_opt_ne by reflexivity | rewrite lookup_update_ne by reflexivity].
Ltac find_flag := skip_updates; rewrite ?lookup_update_opt_eq, ?lookup_update_eq; skip_updates.

Definition string_setting (s : string) : option value := if negb (String.eqb s "") then Some (VString s) else None.

Lemma string_arg_written flags n s0 s rest : good_name n = true → lookup_flag flags n = Some (VString s0) →
  Parse flags (fractiond.string_arg ("--" +:+ n) s ++ rest) = Parse (update_opt flags n (string_setting s)) rest.
Proof.
  intros Hn Hl. apply (Parse_written _ _ (VString s0)); [done|done|]. unfold string_setting, fractiond.string_arg.
  destruct (String.eqb s ""); cbn [negb]; [done|]. split; [done|]. by exists s.
Qed.

Lemma duration_arg_written flags n d0 o rest : good_name n = true → lookup_flag flags n = Some (VDuration d0) →
  option_all in_int64 o →
  Parse flags (fractiond.duration_arg ("--" +:+ n) o ++ rest) = Parse (update_opt flags n (VDuration <$> o)) rest.
Proof.
  intros Hn Hl Ho. apply (Parse_written _ _ (VDuration d0)); [done|done|]. destruct o as [d|]; cbn [fmap option_fmap option_map]; [|done].
  split; [done|]. by exists (DurationString d).
Qed.

Lemma in_int32_64 n : in_int32 n → in_int64 n.
Proof. unfold in_int32, in_int64, int64_min, int64_max. change (2 ^ 31) with 2147483648. lia. Qed.

Lemma int_arg_written flags n k o rest : good_name n = true → lookup_flag flags n = Some (VInt k) →
  option_all in_int32 o →
  Parse flags (fractiond.int_arg ("--" +:+ n) o ++ rest) = Parse (update_opt flags n (VInt <$> o)) rest.
Proof.
  intros Hn Hl Ho. apply (Parse_written _ _ (VInt k)); [done|done|]. destruct o as [i|]; cbn [fmap option_fmap option_map]; [|done].
  split; [done|]. exists (FormatInt i). split; [|done]. split; [|done].
  by apply in_int32_64.
Qed.

Lemma fail_open_written flags n b0 o rest : good_name n = true → lookup_flag flags n = Some (VBool b0) →
  Parse flags ((if default false o then ["--" +:+ n] else []) ++ rest) =
  Parse (update_opt flags n (if default false o then Some (VBool true) else None)) rest.
Proof. intros Hn Hl. destruct (default false o); [|done]. by apply (Parse_bare _ _ _ b0). Qed.

(** ** fractiond *)

(** The variables fractiond reads its defaults from. *)
Definition fractiond_env : list string :=
  ["NRI_SOCKET_PATH"; "SUPPORT_SM_SHARING"; "INJECT_CDI_DEVICE"; "MAP_DIR"; "LOG_POD_EVENTS"; "READINESS_PORT";
   "RETROACTIVE_ENFORCEMENT"; "CRI_SOCKET"].

(** The flags before parsing, when none of the variables is set. *)
Lemma fractiond_declared_default G : Forall (λ k, G k = "") fractiond_env → fractiond_cmd.declared G = fractiond_cmd.declared (λ _, "").
Proof.
  intros H. unfold fractiond_env in H. rewrite !list.Forall_cons in H. destruct_and!.
  unfold fractiond_cmd.declared, env.Str, env.Bool, env.Int.
  repeat match goal with E : G ?k = "" |- _ => rewrite !E; clear E end. reflexivity.
Qed.

(** Discharge what the argument lemmas ask of the flags so far. *)
Ltac declared_flag := first [reflexivity | find_flag; reflexivity | assumption].

Lemma FormatBool_flag flags n b0 b rest : good_name n = true → lookup_flag flags n = Some (VBool b0) →
  Parse flags ((("--" +:+ n +:+ "=") +:+ FormatBool b) :: rest) = Parse (update_flag flags n (VBool b)) rest.
Proof.
  intros Hn Hl. rewrite <- (Parse_equals flags n (FormatBool b) rest b0 b Hn Hl (ParseBool_FormatBool b)).
  by rewrite !str_app_assoc.
Qed.

(** The flags after the command line of a configured agent. *)
Definition agent_flags (d : fractiond.daemon) (opts : BuildOptions) (s : FractioningAgentSpec) (flags : FlagSet) : FlagSet :=
  let flags := update_flag flags "support-sm-sharing" (VBool (fractiond.supportSMSharing d)) in
  let flags := update_flag flags "inject-cdi-device" (VBool (opt_NRIPluginEnabled opts)) in
  let flags := update_opt flags "annotation-prefix" (string_setting (AnnotationPrefix s)) in
  let flags := update_opt flags "fail-open" (if default false (FailOpen s) then Some (VBool true) else None) in
  let flags := update_opt flags "socket-path" (string_setting (NRISocketPath s)) in
  let flags := update_opt flags "log-level" (string_setting (fa_LogLevel s)) in
  let flags := update_opt flags "retry-interval" (VDuration <$> RetryInterval s) in
  let flags := update_opt flags "stable-threshold" (VDuration <$> fa_StableThreshold s) in
  let flags := update_opt flags "max-retries" (VInt <$> fa_MaxRetries s) in
  let flags := update_opt flags "readiness-port" (VInt <$> ReadinessPort s) in
  let flags := update_flag flags "retroactive-enforcement" (VBool (RetroactiveEnforcement s)) in
  update_opt flags "cri-socket" (string_setting (CRISocketPath s)).

Lemma agent_args_parse d opts s : fractiond.fractioningSpec d = Some s → agent_typed s →
  Parse (fractiond_cmd.declared (λ _, "")) (fractiond.buildArgs d opts) = Ok (agent_flags d opts s (fractiond_cmd.declared (λ _, ""))).
Proof.
  intros Hs (H1 & H2 & H3 & H4). unfold fractiond.buildArgs, agent_flags. rewrite Hs. cbv zeta. cbn [app].
  rewrite (FormatBool_flag _ "support-sm-sharing" true) by reflexivity.
  rewrite (FormatBool_flag _ "inject-cdi-device" false) by reflexivity.
  rewrite (string_arg_written _ "annotation-prefix" DefaultAnnotationPrefix) by declared_flag.
  rewrite (fail_open_written _ "fail-open" false) by declared_flag.
  rewrite (string_arg_written _ "socket-path" fractiond_cmd.defaultNRISocketPath) by declared_flag.
  rewrite (string_arg_written _ "log-level" "info") by declared_flag.
  rewrite (duration_arg_written _ "retry-interval" (5 * GoTime.Second)) by declared_flag.
  rewrite (duration_arg_written _ "stable-threshold" (5 * GoTime.Minute)) by declared_flag.
  rewrite (int_arg_written _ "max-retries" 0) by declared_flag.
  rewrite (int_arg_written _ "readiness-port" 8093) by declared_flag. cbn [app].
  rewrite (FormatBool_flag _ "retroactive-enforcement" true) by declared_flag.
  rewrite <- (app_nil_r (fractiond.string_arg _ _)).
  rewrite (string_arg_written _ "cri-socket" fractiond_cmd.defaultCRISocketPath) by declared_flag.
  reflexivity.
Qed.

Lemma get_string_setting flags n s0 s : lookup_flag flags n = Some (VString s0) →
  match (λ v, default v (string_setting s)) <$> lookup_flag flags n with Some (VString t) => t | _ => "" end = or_default s0 s.
Proof. intros ->. unfold string_setting, or_default. by destruct (String.eqb s ""). Qed.

Lemma agent_flags_settings d opts s :
  fractiond_cmd.of_flags (agent_flags d opts s (fractiond_cmd.declared (λ _, ""))) = agent_settings d opts s.
Proof.
  unfold fractiond_cmd.of_flags, agent_settings, agent_flags, get_string, get_bool, get_int, get_duration. cbv zeta.
  f_equal.
  all: find_flag; first [reflexivity | by apply get_string_setting | cbn].
  - by destruct (default false (FailOpen s)).
  - by destruct (RetryInterval s).
  - by destruct (fa_StableThreshold s).
  - by destruct (fa_MaxRetries s).
  - by destruct (ReadinessPort s).
Qed.

(** Without an agent in the configuration only the toggles are passed. *)
Lemma no_agent_settings d opts : fractiond.fractioningSpec d = None →
  (f <-? Parse (fractiond_cmd.declared (λ _, "")) (fractiond.buildArgs d opts);; Ok (fractiond_cmd.of_flags f)) =
  Ok (agent_settings d opts (empty_agent true)).
Proof.
  intros Hs. unfold fractiond.buildArgs. rewrite Hs. cbn [app].
  rewrite (FormatBool_flag _ "support-sm-sharing" true) by reflexivity.
  rewrite (FormatBool_flag _ "inject-cdi-device" false) by reflexivity. reflexivity.
Qed.

Lemma fips_env_absent image field fips keys : Forall (λ k, k ≠ "GODEBUG") keys → Forall (λ k, image k = "") keys →
  Forall (λ k, process_env image field (FIPSOnlyEnv fips) k = "") keys.
Proof.
  intros H1 H2. apply list.Forall_forall. intros k Hk. rewrite list.Forall_forall in H1, H2.
  specialize (H1 k Hk). specialize (H2 k Hk). unfold process_env, FIPSOnlyEnv. destruct fips; cbn [negb rev app List.find env_name]; [|done].
  by rewrite (proj2 (String.eqb_neq _ _)).
Qed.

(** Without a [fractioningAgent] no flag of the agent is passed, and fractiond falls back on its own
    defaults, which have retroactive enforcement on. *)
Definition agent_of (d : fractiond.daemon) : FractioningAgentSpec := default (empty_agent true) (fractiond.fractioningSpec d).

Lemma fractiond_settings d opts G : Forall (λ k, G k = "") fractiond_env → agent_typed (agent_of d) →
  fractiond_cmd.parseFlags G (fractiond.buildArgs d opts) = Ok (agent_settings d opts (agent_of d)).
Proof.
  intros Hg Ht. unfold fractiond_cmd.parseFlags. rewrite (fractiond_declared_default G Hg). unfold agent_of in *.
  destruct (fractiond.fractioningSpec d) as [s|] eqn:Hs; cbn [default from_option id] in *; [|by apply no_agent_settings].
  rewrite (agent_args_parse d opts s Hs Ht). cbn [rbind]. by rewrite agent_flags_settings.
Qed.

(** What the operator assumes fractiond uses, in terms of the settings. *)
Lemma fractiond_socket_dirs d opts : let f := agent_settings d opts (agent_of d) in
  fractiond.readinessPort d = fractiond_cmd.readinessPort f ∧
  fractiond.nriSocketDir d = PathDir (fractiond_cmd.socketPath f) ∧
  fractiond.criSocketPath d = fractiond_cmd.criSocket f ∧
  (is_Some (fractiond.fractioningSpec d) → fractiond.retroactiveEnforcementEnabled d = fractiond_cmd.retroactiveEnforcement f).
Proof.
  cbv zeta. unfold fractiond.readinessPort, fractiond.nriSocketDir, fractiond.criSocketPath, fractiond.retroactiveEnforcementEnabled,
    agent_settings, agent_of, or_default. cbn.
  destruct (fractiond.fractioningSpec d) as [s|]; cbn; [|split_and!; [done|by vm_compute|done|by intros []]].
  destruct (String.eqb (NRISocketPath s) ""), (String.eqb (CRISocketPath s) ""); split_and!; try done; by vm_compute.
Qed.

(** A mount built next to its volume. *)
Lemma host_mounted_intro pod c m v type : m ∈ VolumeMounts c →
  List.find (λ v, String.eqb (volume_name v) (mount_name m)) (Volumes pod) = Some v → volume_source v = HostPath (MountPath m) type →
  host_mounted pod c (MountPath m) (ReadOnly m).
Proof. intros Hm Hv Hs. by exists m, v, type. Qed.

Definition fractiond_container (d : fractiond.daemon) (opts : BuildOptions) : Container :=
  (fractiond.buildFractiondContainer d opts (if fractiond.metricsEnabled d then [fractiond.metricsSharedVolume.2] else [])).1.

Lemma fractiond_mounts d opts (pod := pod_spec (fractiond.BuildDaemonSet d opts)) (c := fractiond_container d opts) :
  host_mounted pod c (fractiond.nriSocketDir d) false ∧
  host_mounted pod c fractiond.defaultMPSPipeDir false ∧
  (fractiond.metricsEnabled d = true → host_mounted pod c fractiond.containerPodMapDir false) ∧
  (fractiond.retroactiveEnforcementEnabled d = true → host_mounted pod c (PathDir (fractiond.criSocketPath d)) false).
Proof.
  unfold pod, c, fractiond_container. clear pod c. split_and!.
  - eapply (host_mounted_intro _ _ (mkVolumeMount fractiond.volumeNRISocket _ false)); [left|reflexivity|reflexivity].
  - eapply (host_mounted_intro _ _ (mkVolumeMount fractiond.volumeMPSPipe _ false)); [right; left|reflexivity|reflexivity].
  - intros Hm. eapply (host_mounted_intro _ _ (mkVolumeMount fractiond.volumeMapDir _ false)).
    + unfold fractiond.buildFractiondContainer. cbn [fst VolumeMounts]. rewrite Hm, !elem_of_app. right. right. left.
    + unfold fractiond.BuildDaemonSet. rewrite Hm. by destruct (fractiond.retroactiveEnforcementEnabled d) eqn:E; cbn; rewrite ?E.
    + reflexivity.
  - intros Hr. eapply (host_mounted_intro _ _ (mkVolumeMount fractiond.volumeCRISocket _ false)).
    + unfold fractiond.buildFractiondContainer. cbn [fst VolumeMounts]. rewrite Hr, !elem_of_app. right. left. left.
    + unfold fractiond.BuildDaemonSet, fractiond.buildFractiondContainer. by rewrite Hr.
    + reflexivity.
Qed.

(** Without a [fractioningAgent] the operator leaves the CRI socket out of the pod. *)
Lemma unconfigured_no_socket d opts ro (c := fractiond_container d opts) : fractiond.fractioningSpec d = None →
  ¬ host_mounted (pod_spec (fractiond.BuildDaemonSet d opts)) c (PathDir (fractiond_cmd.criSocket (agent_settings d opts (agent_of d)))) ro.
Proof.
  intros Hs (m & v & ty & Hm & Hp & _). unfold agent_of in Hp. rewrite Hs in Hp.
  unfold c, fractiond_container, fractiond.buildFractiondContainer, fractiond.nriSocketDir, fractiond.retroactiveEnforcementEnabled in Hm.
  rewrite Hs in Hm. cbn [fst VolumeMounts app] in Hm. revert Hp. change (PathDir _) with "/run/containerd".
  rewrite !elem_of_cons in Hm. destruct Hm as [->|[->|Hm]]; [done|done|].
  destruct (fractiond.metricsEnabled d); [|by apply elem_of_nil in Hm]. apply list_elem_of_singleton in Hm as ->. done.
Qed.

(** C13: fractiond runs with the configuration's settings, and which of what they name is mounted.  Whatever
    the GpuFractioningConfig says about the agent, the flag parser of
    fractiond accepts the command line the operator builds, and the flags it returns are
    each field of the configuration where it is set and fractiond's own default where it is
    not, with the sm-sharing toggle and the CDI mode the operator was given.  Both probes and
    the declared port are the port fractiond then serves readiness on.  The directories of
    the NRI socket and of the MPS pipe are mounted from the node; so is, writable, the
    mapping directory when the metrics sidecar is on.  When the settings enforce
    retroactively, the directory of the CRI socket is mounted exactly if the configuration
    has a fractioningAgent: without one fractiond enforces, by its default, with a socket it
    cannot reach. *)
Theorem fractiond_runs_as_configured d opts image field : Forall (λ k, image k = "") fractiond_env → agent_typed (agent_of d) →
  let pod := pod_spec (fractiond.BuildDaemonSet d opts) in
  let f := agent_settings d opts (agent_of d) in
  ∃ c sidecars, Containers pod = c :: sidecars ∧ container_name c = "fractiond" ∧
    fractiond_cmd.parseFlags (process_env image field (Env c)) (Args c) = Ok f ∧
    probe_handler (ReadinessProbe c) = HTTPGet "/readyz" (fractiond_cmd.readinessPort f) ∧
    probe_handler (LivenessProbe c) = TCPSocket (fractiond_cmd.readinessPort f) ∧
    port_number <$> Ports c = [fractiond_cmd.readinessPort f] ∧
    host_mounted pod c (PathDir (fractiond_cmd.socketPath f)) false ∧
    host_mounted pod c (fractiond_cmd.mpsPipeDir f) false ∧
    (fractiond.metricsEnabled d = true → host_mounted pod c (fractiond_cmd.mapDir f) false) ∧
    (fractiond_cmd.retroactiveEnforcement f = true →
     host_mounted pod c (PathDir (fractiond_cmd.criSocket f)) false ↔ is_Some (fractiond.fractioningSpec d)).
Proof.
  intros Himg Ht pod f. destruct (fractiond_socket_dirs d opts) as (Hp & Hn & Hc & Hr). fold f in Hp, Hn, Hc, Hr.
  destruct (fractiond_mounts d opts) as (M1 & M2 & M3 & M4). fold pod in M1, M2, M3, M4.
  exists (fractiond_container d opts), (if fractiond.metricsEnabled d then [fractiond.buildMetricsdContainer d opts] else []).
  split; [reflexivity|]. split; [reflexivity|]. split.
  { apply fractiond_settings; [|done]. apply fips_env_absent; [|done]. by repeat constructor. }
  rewrite <- Hp, <- Hn, <- Hc. split_and!; try done. intros Hf. split.
  - intros Hm. destruct (fractiond.fractioningSpec d) eqn:Hs; [by eexists|]. rewrite Hc in Hm. by apply unconfigured_no_socket in Hm.
  - intros Hs. apply M4. by rewrite Hr.
Qed.

Lemma fractiond_runs_as_configured_witness :
  let s := mkFractioningAgentSpec "example.com/container." (Some true) "/run/nri/custom.sock" true "" "debug"
             (Some (90 * GoTime.Second)) None (Some 3) (Some 9000) in
  let d := fractiond.mkDaemon (Some s) (Some (mkMetricsAgentSpec true "" "" "" [] [] None)) false in
  let opts := mkBuildOptions "gpu" ∅ [] "sa" None ∅ true true in
  let pod := pod_spec (fractiond.BuildDaemonSet d opts) in
  ∃ c sidecars f, Containers pod = c :: sidecars ∧
    fractiond_cmd.parseFlags (process_env (λ _, "") (λ _, "") (Env c)) (Args c) = Ok f ∧
    fractiond_cmd.retryInterval f = 90 * GoTime.Second ∧ fractiond_cmd.stableThreshold f = 5 * GoTime.Minute ∧
    probe_handler (LivenessProbe c) = TCPSocket 9000 ∧
    host_mounted pod c "/run/nri" false ∧ host_mounted pod c "/run/containerd" false.
Proof.
  intros s d opts pod.
  destruct (fractiond_runs_as_configured d opts (λ _, "") (λ _, "")) as (c & sc & H1 & _ & H2 & _ & H3 & _ & H4 & _ & _ & H5).
  { by repeat constructor. }
  { unfold agent_typed, d, s. cbn. split_and!; first [exact I | split; vm_compute; congruence]. }
  exists c, sc, (agent_settings d opts (agent_of d)). split; [exact H1|]. split; [exact H2|]. split; [reflexivity|]. split; [reflexivity|].
  split; [exact H3|]. split; [exact H4|]. apply H5; [reflexivity|by eexists].
Defined.

(** Without a [fractioningAgent] in the configuration the operator takes retroactive
    enforcement for off and leaves the CRI socket out of the pod; fractiond, whose own
    default is on, enforces with a socket it cannot reach. *)
Theorem unconfigured_agent_enforces_without_socket d opts image field : Forall (λ k, image k = "") fractiond_env →
  fractiond.fractioningSpec d = None →
  let pod := pod_spec (fractiond.BuildDaemonSet d opts) in
  fractiond.retroactiveEnforcementEnabled d = false ∧
  ∃ c sidecars f, Containers pod = c :: sidecars ∧
    fractiond_cmd.parseFlags (process_env image field (Env c)) (Args c) = Ok f ∧
    fractiond_cmd.retroactiveEnforcement f = true ∧
    ∀ ro, ¬ host_mounted pod c (PathDir (fractiond_cmd.criSocket f)) ro.
Proof.
  intros Himg Hs pod. split; [unfold fractiond.retroactiveEnforcementEnabled; by rewrite Hs|].
  exists (fractiond_container d opts), (if fractiond.metricsEnabled d then [fractiond.buildMetricsdContainer d opts] else []),
    (agent_settings d opts (agent_of d)).
  split; [reflexivity|]. split.
  { apply fractiond_settings; [apply fips_env_absent; [by repeat constructor|done]|]. unfold agent_of. rewrite Hs. done. }
  split; [unfold agent_of; by rewrite Hs|]. intros ro. by apply unconfigured_no_socket.
Qed.

(** ** metricsd *)

Definition metricsd_env : list string :=
  ["MAP_DIR"; "LOG_LEVEL"; "METRICS_ENABLED"; "METRICS_ADDRESS"; "METRICS_PATH"; "PROC_ROOT"; "METRICS_INTERVAL"; "SM_UTIL_WINDOW";
   "METRIC_NAME_GPU_MEMORY_USED_BYTES"; "METRIC_NAME_GPU_SM_UTILIZATION_PERCENT"; "METRIC_NAME_GPU_SM_UTILIZATION_PERCENT_NORMALIZED"].

Lemma metricsd_declared_default G : Forall (λ k, G k = "") metricsd_env → metricsd_cmd.declared G = metricsd_cmd.declared (λ _, "").
Proof.
  intros H. unfold metricsd_env in H. rewrite !list.Forall_cons in H. destruct_and!.
  unfold metricsd_cmd.declared, env.Str, env.Bool, env.Duration.
  repeat match goal with E : G ?k = "" |- _ => rewrite !E; clear E end. reflexivity.
Qed.

Definition metrics_flags (m : MetricsAgentSpec) (flags : FlagSet) : FlagSet :=
  let names := default empty_names (MetricNamesOverride m) in
  let flags := update_opt flags "log-level" (string_setting (ma_LogLevel m)) in
  let flags := update_opt flags "metrics-address" (string_setting (Address m)) in
  let flags := update_opt flags "metrics-path" (string_setting (ma_Path m)) in
  let flags := update_opt flags "metric-name-gpu-memory-used-bytes" (string_setting (GPUMemoryUsedBytesName names)) in
  let flags := update_opt flags "metric-name-gpu-sm-utilization-percent" (string_setting (GPUSMUtilizationPercentName names)) in
  update_opt flags "metric-name-gpu-sm-utilization-percent-normalized" (string_setting (GPUSMUtilizationPercentNormalizedName names)).

Lemma metrics_args_parse d m : fractiond.metricsSpec d = Some m →
  Parse (metricsd_cmd.declared (λ _, "")) (fractiond.buildMetricsdArgs d) = Ok (metrics_flags m (metricsd_cmd.declared (λ _, ""))).
Proof.
  intros Hm. unfold fractiond.buildMetricsdArgs, metrics_flags. rewrite Hm. cbv zeta.
  rewrite (string_arg_written _ "log-level" "info") by declared_flag.
  rewrite (string_arg_written _ "metrics-address" ":2112") by declared_flag.
  rewrite (string_arg_written _ "metrics-path" "/metrics") by declared_flag.
  destruct (MetricNamesOverride m) as [n|]; [|reflexivity]. cbn [default from_option id].
  rewrite (string_arg_written _ "metric-name-gpu-memory-used-bytes" EmptyString) by declared_flag.
  rewrite (string_arg_written _ "metric-name-gpu-sm-utilization-percent" EmptyString) by declared_flag.
  rewrite <- (app_nil_r (fractiond.string_arg _ _)).
  rewrite (string_arg_written _ "metric-name-gpu-sm-utilization-percent-normalized" EmptyString) by declared_flag.
  reflexivity.
Qed.

Lemma or_default_empty s : or_default "" s = s.
Proof. unfold or_default. by destruct (String.eqb_spec s ""). Qed.

Lemma metrics_flags_settings m : metricsd_cmd.of_flags (metrics_flags m (metricsd_cmd.declared (λ _, ""))) = metrics_settings m.
Proof.
  unfold metricsd_cmd.of_flags, metrics_settings, metrics_flags, get_string, get_bool, get_duration. cbv zeta.
  f_equal; [..|f_equal]; find_flag; first [reflexivity | by apply get_string_setting | idtac].
  all: rewrite (get_string_setting _ _ EmptyString) by declared_flag; apply or_default_empty.
Qed.

(** The exporter's configuration, in metricsd's [main]. *)
Definition metrics_config (f : metricsd_cmd.cliFlags) : ExporterConfig :=
  mkExporterConfig (metricsd_cmd.path f) (metricsd_cmd.procRoot f) (metricsd_cmd.interval f) (metricsd_cmd.smUtilWindow f)
    (WithDefaults (metricsd_cmd.metricNames f)).

(** The port of a listen address, as a number. *)
Definition listen_port (address : string) : option Z :=
  '(_, port) ← SplitHostPort address; p ← ParseInt port; if (0 <? p) && (p <=? 65535) then Some p else None.

Lemma metricsListenPort_address d m : fractiond.metricsSpec d = Some m →
  fractiond.metricsListenPort d = default 2112 (listen_port (or_default ":2112" (Address m))).
Proof.
  intros Hm. unfold fractiond.metricsListenPort, or_default. rewrite Hm. destruct (String.eqb (Address m) ""); cbn [negb]; [by vm_compute|].
  unfold listen_port. destruct (SplitHostPort (Address m)) as [[h p]|]; [|done]. cbn [mbind option_bind].
  destruct (ParseInt p) as [n|]; [|done]. cbn [mbind option_bind]. by destruct ((0 <? n) && (n <=? 65535)).
Qed.

Lemma metricsd_settings d m G : fractiond.metricsSpec d = Some m → Forall (λ k, G k = "") metricsd_env →
  metricsd_cmd.parseFlags G (fractiond.buildMetricsdArgs d) = Ok (metrics_settings m).
Proof.
  intros Hm Hg. unfold metricsd_cmd.parseFlags. rewrite (metricsd_declared_default G Hg), (metrics_args_parse d m Hm).
  cbn [rbind]. by rewrite metrics_flags_settings.
Qed.

(** Variables the pod template does not set keep the image's value. *)
Lemma process_env_absent image field env key : Forall (λ v, String.eqb (env_name v) key = false) env →
  process_env image field env key = image key.
Proof.
  intros H. unfold process_env. destruct (List.find _ (rev env)) as [v|] eqn:E; [|done].
  apply find_some in E as [Hin Hv]. rewrite list.Forall_forall in H.
  rewrite H in Hv; [done|]. by apply list_elem_of_In, in_rev.
Qed.

Lemma metricsd_image_env image field fips : Forall (λ k, image k = "") metricsd_env →
  Forall (λ k, process_env image field
    ([mkEnvVar "NVIDIA_VISIBLE_DEVICES" (EnvValue "all"); mkEnvVar "NVIDIA_DRIVER_CAPABILITIES" (EnvValue "utility")] ++ FIPSOnlyEnv fips) k = "")
    metricsd_env.
Proof.
  intros H. unfold metricsd_env in *. rewrite !list.Forall_cons in *. destruct_and!.
  split_and!; try (rewrite process_env_absent; [done|]; by destruct fips; repeat constructor). constructor.
Qed.

Lemma sidecar_annotations_scrape d opts :
  fractiond.sidecar_annotations d opts !! "prometheus.io/port" = Some (FormatInt (fractiond.metricsListenPort d)) ∧
  fractiond.sidecar_annotations d opts !! "prometheus.io/path" = Some (fractiond.metricsAnnotationPath d).
Proof.
  unfold fractiond.sidecar_annotations, SetManagementCDIDevice.
  destruct (opt_NRIPluginEnabled opts); cbn [negb]; rewrite ?(lookup_insert_ne _ (managementCDIDeviceAnnotation _)) by done.
  all: split; [rewrite lookup_insert_ne by done|]; by rewrite lookup_insert_eq.
Qed.

Lemma metricsAnnotationPath_served d m : fractiond.metricsSpec d = Some m → let f := metrics_settings m in
  TrimSpace (metricsd_cmd.path f) = metricsd_cmd.path f → HasPrefix (metricsd_cmd.path f) "/" = true →
  fractiond.metricsAnnotationPath d = metricsPath (metrics_config f).
Proof.
  intros Hm f Ht Hp. unfold fractiond.metricsAnnotationPath, metricsPath. rewrite Hm. cbn [Path metrics_config]. rewrite Ht, Hp.
  change (metricsd_cmd.path f) with (or_default "/metrics" (ma_Path m)) in *. unfold or_default in *.
  destruct (String.eqb (ma_Path m) "") eqn:E; cbn [negb] in *; [done|]. by rewrite E.
Qed.

Lemma metricsListenPort_range d : 0 < fractiond.metricsListenPort d ≤ 65535.
Proof.
  destruct (fractiond.metricsSpec d) as [m|] eqn:Hm; [|unfold fractiond.metricsListenPort; rewrite Hm; by vm_compute].
  rewrite (metricsListenPort_address d m Hm). unfold listen_port.
  destruct (SplitHostPort _) as [[h p]|]; cbn [mbind option_bind default from_option]; [|lia].
  destruct (ParseInt p) as [n|]; cbn [mbind option_bind default from_option]; [|lia].
  destruct (Z.ltb_spec 0 n), (Z.leb_spec n 65535); cbn [andb default from_option id]; lia.
Qed.

Lemma metricsd_map_dir d opts : fractiond.metricsEnabled d = true →
  host_mounted (pod_spec (fractiond.BuildDaemonSet d opts)) (fractiond.buildMetricsdContainer d opts) DefaultMapDir true.
Proof.
  intros Hm. eapply (host_mounted_intro _ _ (mkVolumeMount fractiond.volumeMapDir _ true)); [left| |].
  - unfold fractiond.BuildDaemonSet. rewrite Hm. by destruct (fractiond.retroactiveEnforcementEnabled d) eqn:E; cbn; rewrite ?E.
  - reflexivity.
Qed.

(** The metrics sidecar runs with the configuration's settings, where the probes and
    the scraper look for it.  When metrics are on, metricsd parses the command line the
    operator builds into the configured log level, address, path and metric names, each at
    its default when unset.  The port of both probes, of the container and of the scrape
    annotation is the port of the address it listens on, when that address has a port in
    range; the probes' paths are routes of the exporter it builds; the scrape path is the
    exporter's when it was given trimmed and rooted.  The mapping directory it reads is mounted
    read-only from the directory fractiond writes. *)
Theorem metricsd_serves_where_probed d opts m image field :
  fractiond.metricsSpec d = Some m → Enabled m = true → Forall (λ k, image k = "") metricsd_env →
  let ds := fractiond.BuildDaemonSet d opts in
  let f := metrics_settings m in
  ∃ main c port, Containers (pod_spec ds) = [main; c] ∧ container_name c = "metricsd" ∧
    metricsd_cmd.parseFlags (process_env image field (Env c)) (Args c) = Ok f ∧
    (∀ p, listen_port (metricsd_cmd.address f) = Some p → port = p) ∧ 0 < port ≤ 65535 ∧
    probe_handler (ReadinessProbe c) = HTTPGet MetricsReadyzPath port ∧
    probe_handler (LivenessProbe c) = HTTPGet HealthzPath port ∧
    MetricsReadyzPath ∈ routes (metrics_config f) ∧ HealthzPath ∈ routes (metrics_config f) ∧
    port_number <$> Ports c = [port] ∧ template_annotations ds !! "prometheus.io/port" = Some (FormatInt port) ∧
    (TrimSpace (metricsd_cmd.path f) = metricsd_cmd.path f → HasPrefix (metricsd_cmd.path f) "/" = true →
     template_annotations ds !! "prometheus.io/path" = Some (metricsPath (metrics_config f))) ∧
    host_mounted (pod_spec ds) c (metricsd_cmd.mapDir f) true ∧
    host_mounted (pod_spec ds) main (metricsd_cmd.mapDir f) false.
Proof.
  intros Hm He Hi ds f.
  assert (Hen : fractiond.metricsEnabled d = true) by (unfold fractiond.metricsEnabled; by rewrite Hm).
  exists (fractiond_container d opts), (fractiond.buildMetricsdContainer d opts), (fractiond.metricsListenPort d).
  destruct (sidecar_annotations_scrape d opts) as [Hport Hpath].
  assert (Ha : template_annotations ds = fractiond.sidecar_annotations d opts).
  { unfold ds, fractiond.BuildDaemonSet. by rewrite Hen. }
  rewrite Ha, Hport, Hpath. destruct (exporter_routes (metrics_config f)) as (_ & _ & R1 & R2 & _).
  split; [unfold ds, fractiond.BuildDaemonSet, fractiond_container; by rewrite Hen|]. split; [reflexivity|].
  split; [apply (metricsd_settings d m); [done|by apply metricsd_image_env]|].
  split; [intros p Hp; rewrite (metricsListenPort_address d m Hm); change (metricsd_cmd.address f) with (or_default ":2112" (Address m)) in Hp; by rewrite Hp|].
  split; [apply metricsListenPort_range|].
  split_and!; [done..| | |].
  - intros H1 H2. f_equal. by apply metricsAnnotationPath_served.
  - by apply metricsd_map_dir.
  - by apply fractiond_mounts.
Qed.

Lemma metricsd_serves_where_probed_witness :
  let m := mkMetricsAgentSpec true "" "0.0.0.0:9400" "" [] [] (Some (mkMetricNamesSpec "mem" "" "")) in
  let d := fractiond.mkDaemon None (Some m) true in
  let ds := fractiond.BuildDaemonSet d (mkBuildOptions "gpu" ∅ [] "sa" None ∅ false true) in
  ∃ main c, Containers (pod_spec ds) = [main; c] ∧
    metricsd_cmd.parseFlags (process_env (λ _, "") (λ _, "") (Env c)) (Args c) = Ok (metrics_settings m) ∧
    probe_handler (ReadinessProbe c) = HTTPGet "/readyz" 9400 ∧
    template_annotations ds !! "prometheus.io/path" = Some "/metrics".
Proof.
  intros m d ds.
  destruct (metricsd_serves_where_probed d (mkBuildOptions "gpu" ∅ [] "sa" None ∅ false true) m (λ _, "") (λ _, ""))
    as (main & c & port & H1 & _ & H2 & H3 & _ & H4 & _ & _ & _ & _ & _ & H5 & _).
  { reflexivity. } { reflexivity. } { by repeat constructor. }
  rewrite (H3 9400) in H4 by (vm_compute; reflexivity).
  exists main, c. split; [exact H1|]. split; [exact H2|]. split; [exact H4|]. apply H5; vm_compute; reflexivity.
Defined.


(** ** mpsd *)

Definition mpsd_env : list string :=
  ["MPS_CONTROL_BINARY"; "MPS_CONTROL_PORT"; "MPS_CONFIG_PATH"; "CUDA_MPS_PIPE_DIRECTORY"; "CUDA_MPS_LOG_DIRECTORY"; "LOG_LEVEL";
   "MPS_RESTART_BACKOFF"; "MPS_MAX_RETRIES"; "MPS_STABLE_THRESHOLD"; "MPS_GRACEFUL_STOP_DELAY"].

(** The environment with only the two toggles set. *)
Definition toggles_env (audit sm : bool) (key : string) : string :=
  if String.eqb key "MPS_MEMACCT_AUDIT_LOG" then FormatBool audit
  else if String.eqb key "MPS_SUPPORT_SM_SHARING" then FormatBool sm else "".

Lemma mpsd_declared_default d opts image field : Forall (λ k, image k = "") mpsd_env →
  mpsd_cmd.declared (process_env image field (mpsd.container_env d opts)) =
  mpsd_cmd.declared (toggles_env (mpsd.auditLog d) (mpsd.supportSMSharing d)).
Proof.
  intros H. unfold mpsd_env in H. rewrite !list.Forall_cons in H. destruct_and!.
  unfold mpsd_cmd.declared, env.Str, env.Bool, env.Int, env.Duration, process_env, mpsd.container_env, FIPSOnlyEnv.
  destruct (FIPSOnly opts); cbn [negb app rev List.find env_name String.eqb Ascii.eqb Bool.eqb env_value env_source];
    repeat match goal with E : image ?k = "" |- _ => rewrite !E; clear E end;
    destruct (mpsd.auditLog d), (mpsd.supportSMSharing d); reflexivity.
Qed.

Definition mps_flags (s : MpsDaemonSpec) (flags : FlagSet) : FlagSet :=
  let flags := update_opt flags "log-level" (string_setting (md_LogLevel s)) in
  let flags := update_opt flags "backoff" (VDuration <$> md_Backoff s) in
  let flags := update_opt flags "max-retries" (VInt <$> md_MaxRetries s) in
  let flags := update_opt flags "stable-threshold" (VDuration <$> md_StableThreshold s) in
  update_opt flags "graceful-stop-delay" (VDuration <$> GracefulStopDelay s).

Definition empty_mps : MpsDaemonSpec := mkMpsDaemonSpec "" None None None None.
Definition mps_of (d : mpsd.daemon) : MpsDaemonSpec := default empty_mps (mpsd.spec d).

Lemma mps_args_parse d audit sm (flags := mpsd_cmd.declared (toggles_env audit sm)) : mps_typed (mps_of d) →
  Parse flags (mpsd.buildArgs d) = Ok (mps_flags (mps_of d) flags).
Proof.
  unfold mps_of. intros Ht. unfold mpsd.buildArgs, mps_flags.
  destruct (mpsd.spec d) as [s|]; [|reflexivity]. destruct Ht as (H1 & H2 & H3 & H4). cbn [default from_option id] in *.
  rewrite (string_arg_written _ "log-level" "info") by declared_flag.
  rewrite (duration_arg_written _ "backoff" Supervisor.DefaultBackoff) by declared_flag.
  rewrite (int_arg_written _ "max-retries" Supervisor.DefaultMaxRetries) by declared_flag.
  rewrite (duration_arg_written _ "stable-threshold" Supervisor.DefaultStableThreshold) by declared_flag.
  rewrite <- (app_nil_r (fractiond.duration_arg _ _)).
  rewrite (duration_arg_written _ "graceful-stop-delay" mpsd_cmd.DefaultGracefulStopDelay) by declared_flag.
  reflexivity.
Qed.

Lemma mps_flags_settings d s :
  mpsd_cmd.of_flags (mps_flags s (mpsd_cmd.declared (toggles_env (mpsd.auditLog d) (mpsd.supportSMSharing d)))) = mps_settings d s.
Proof.
  unfold mpsd_cmd.of_flags, mps_settings, mps_flags, get_string, get_bool, get_int, get_duration. cbv zeta.
  f_equal; [f_equal| |]; find_flag; first [reflexivity | by apply get_string_setting | cbn].
  - by destruct (mpsd.auditLog d).
  - by destruct (mpsd.supportSMSharing d).
  - by destruct (md_Backoff s).
  - by destruct (md_MaxRetries s).
  - by destruct (md_StableThreshold s).
  - by destruct (GracefulStopDelay s).
Qed.

Lemma mpsd_parses d opts image field : Forall (λ k, image k = "") mpsd_env → mps_typed (mps_of d) →
  mpsd_cmd.parseFlags (process_env image field (mpsd.container_env d opts)) (mpsd.buildArgs d) = Ok (mps_settings d (mps_of d)).
Proof.
  intros Hi Ht. unfold mpsd_cmd.parseFlags. rewrite mpsd_declared_default, mps_args_parse by done. cbn [rbind].
  by rewrite mps_flags_settings.
Qed.

(** *** The termination grace *)

Lemma mps_settings_grace d : mpsd_cmd.gracefulStopDelay (mps_settings d (mps_of d)) = mpsd.grace d.
Proof. cbn. unfold mpsd.grace, mps_of. by destruct (mpsd.spec d). Qed.

Lemma terminationGrace_covers d : 0 ≤ mpsd.grace d ≤ int64_max - mpsd.terminationGraceBuffer →
  mpsd.grace d + 14 * GoTime.Second ≤ mpsd.terminationGraceSeconds d * GoTime.Second.
Proof.
  intros Hg. unfold mpsd.terminationGraceSeconds. rewrite wrap64_small.
  2:{ unfold in_int64, int64_min, mpsd.terminationGraceBuffer, GoTime.Second in *. unfold int64_max in *. lia. }
  pose proof (Seconds_between (mpsd.grace d + mpsd.terminationGraceBuffer)) as H.
  specialize (H ltac:(unfold mpsd.terminationGraceBuffer, GoTime.Second in *; lia)).
  pose proof (Z.div_mod (mpsd.grace d + mpsd.terminationGraceBuffer) GoTime.Second ltac:(unfold GoTime.Second; lia)) as Hd.
  pose proof (Z.mod_pos_bound (mpsd.grace d + mpsd.terminationGraceBuffer) GoTime.Second ltac:(unfold GoTime.Second; lia)) as Hm.
  set (x := f_to_int64 _) in *. clearbody x. unfold mpsd.terminationGraceBuffer in *.
  set (q := (mpsd.grace d + 15 * GoTime.Second) / GoTime.Second) in *. clearbody q. unfold GoTime.Second in *. lia.
Qed.

(** C20: mpsd runs with the configuration's settings and has the time to stop.  Its flag
    parser accepts the command line and the environment the operator builds: each configured
    field is the setting, an unset one takes mpsd's default, and the audit and sm-sharing
    toggles arrive through the environment.  The pipe and log directories are mounted
    from the node and the probes test the control socket in the pipe directory.  Whenever
    the delay is not negative and leaves room for the buffer, the pod's termination grace,
    computed in floating point, exceeds the time mpsd waits for MPS to quit by at
    least fourteen seconds. *)
Theorem mpsd_runs_as_configured d opts image field : Forall (λ k, image k = "") mpsd_env → mps_typed (mps_of d) →
  let pod := pod_spec (mpsd.BuildDaemonSet d opts) in
  let f := mps_settings d (mps_of d) in
  ∃ c grace, Containers pod = [c] ∧ TerminationGracePeriodSeconds pod = Some grace ∧
    mpsd_cmd.parseFlags (process_env image field (Env c)) (Args c) = Ok f ∧
    host_mounted pod c (pipeDir (mpsd_cmd.supervised f)) false ∧ host_mounted pod c (logDir (mpsd_cmd.supervised f)) false ∧
    (let socket := Exec ["test"; "-S"; pipeDir (mpsd_cmd.supervised f) +:+ "/" +:+ Supervisor.mpsControlSocket] in
     probe_handler (ReadinessProbe c) = socket ∧ probe_handler (LivenessProbe c) = socket) ∧
    (0 ≤ mpsd_cmd.gracefulStopDelay f ≤ int64_max - 15 * GoTime.Second →
     mpsd_cmd.gracefulStopDelay f + 14 * GoTime.Second ≤ grace * GoTime.Second).
Proof.
  intros Hi Ht pod f. exists (mpsd.buildContainer d (image_of opts mpsd.daemonName) (mpsd.container_env d opts)).1, (mpsd.terminationGraceSeconds d).
  split; [reflexivity|]. split; [reflexivity|]. split.
  { by apply mpsd_parses. }
  cbv zeta. split_and!.
  - eapply (host_mounted_intro _ _ (mkVolumeMount mpsd.volumeMPSPipe _ false)); [left|reflexivity|reflexivity].
  - eapply (host_mounted_intro _ _ (mkVolumeMount mpsd.volumeMPSLog _ false)); [right; left|reflexivity|reflexivity].
  - reflexivity.
  - reflexivity.
  - unfold f. rewrite mps_settings_grace. apply terminationGrace_covers.
Qed.

Lemma mpsd_runs_as_configured_witness :
  let d := mpsd.mkDaemon (Some (mkMpsDaemonSpec "debug" None (Some 7) None (Some (90500 * GoTime.Millisecond)))) false true in
  let opts := mkBuildOptions "gpu" ∅ [] "sa" None ∅ true true in
  let pod := pod_spec (mpsd.BuildDaemonSet d opts) in
  ∃ c f, Containers pod = [c] ∧ mpsd_cmd.parseFlags (process_env (λ _, "") (λ _, "n1") (Env c)) (Args c) = Ok f ∧
    memacctAuditLog (mpsd_cmd.supervised f) = false ∧ supportSMSharing (mpsd_cmd.supervised f) = true ∧
    maxRetries (mpsd_cmd.supervised f) = 7 ∧ TerminationGracePeriodSeconds pod = Some 105 ∧
    mpsd_cmd.gracefulStopDelay f + 14 * GoTime.Second ≤ 105 * GoTime.Second.
Proof.
  intros d opts pod. destruct (mpsd_runs_as_configured d opts (λ _, "") (λ _, "n1")) as (c & g & H1 & Hg & H2 & _ & _ & _ & H3).
  { by repeat constructor. }
  { unfold mps_typed, d. cbn. split_and!; first [exact I | split; vm_compute; congruence]. }
  assert (g = 105) as -> by (assert (Some g = Some 105) by (rewrite <- Hg; vm_compute; reflexivity); congruence).
  exists c, (mps_settings d (mps_of d)). split; [exact H1|]. split; [exact H2|]. split; [reflexivity|]. split; [reflexivity|].
  split; [reflexivity|]. split; [exact Hg|]. apply H3. split; vm_compute; congruence.
Defined.

(** ** Objects the API server accepts *)

(** The rules Kubernetes checks on selectors, names, ports, variables and mounts. *)
Record valid_container (pod : PodSpec) (c : Container) : Prop := {
  image_set : Image c ≠ "";
  mounts_declared : Forall (λ m, mount_name m ∈ volume_name <$> Volumes pod) (VolumeMounts c);
  mount_paths_distinct : NoDup (MountPath <$> VolumeMounts c);
  ports_in_range : Forall (λ p, 1 ≤ port_number p ≤ 65535) (Ports c);
  env_distinct : NoDup (env_name <$> Env c)
}.
Record valid_daemonset (ds : DaemonSet) : Prop := {
  selector_matches : ds_selector ds ≠ ∅ ∧ ds_selector ds ⊆ template_labels ds;
  containers_distinct : Containers (pod_spec ds) ≠ [] ∧ NoDup (container_name <$> Containers (pod_spec ds));
  volumes_distinct : NoDup (volume_name <$> Volumes (pod_spec ds));
  containers_valid : Forall (valid_container (pod_spec ds)) (Containers (pod_spec ds))
}.

(** Every component has an image. *)
Definition images_set (opts : BuildOptions) : Prop := Forall (λ name, FullImage (image_of opts name) ≠ "") ["fractiond"; "metricsd"; "mpsd"].

(** A configuration with metrics, enforcement and a volume of the user's own: the DaemonSet is accepted. *)
Definition valid_sample : fractiond.daemon :=
  fractiond.mkDaemon (Some (empty_agent true))
    (Some (mkMetricsAgentSpec true "" "" "" [mkVolume "nvml" (OtherSource "configMap")] [mkVolumeMount "nvml" "/etc/nvml" true] None)) true.

Example sample_daemonset_valid :
  let image := mkImageSpec "registry/image" "v1" "" in
  let opts := mkBuildOptions "gpu" ∅ [] "sa" None {["fractiond" := image; "metricsd" := image; "mpsd" := image]} true true in
  valid_daemonset (fractiond.BuildDaemonSet valid_sample opts).
Proof.
  intros image opts. split.
  - split; [apply insert_non_empty|done].
  - split; [done|]. eapply bool_decide_unpack. vm_compute. exact I.
  - eapply bool_decide_unpack. vm_compute. exact I.
  - repeat constructor; try (eapply bool_decide_unpack; vm_compute; exact I); vm_compute; congruence.
Qed.

(** An NRI socket and a CRI socket in one directory: the directory is mounted twice at
    the same path, which Kubernetes rejects, so the DaemonSet is never created. *)
Theorem shared_socket_dir_rejected d opts : fractiond.retroactiveEnforcementEnabled d = true →
  fractiond.nriSocketDir d = PathDir (fractiond.criSocketPath d) → ¬ valid_daemonset (fractiond.BuildDaemonSet d opts).
Proof.
  intros Hr Heq [_ _ _ Hc]. apply list.Forall_cons in Hc as [Hc _]. apply mount_paths_distinct in Hc.
  revert Hc. cbn [fractiond.BuildDaemonSet]. cbn. rewrite Hr, Heq. cbn. rewrite list.NoDup_cons. intros [Hn _]. apply Hn. right. left.
Qed.

(** Both sockets under the runtime's own directory, as a configuration may set them. *)
Example one_runtime_dir : let s := mkFractioningAgentSpec "" None "/run/crio/nri.sock" true "/run/crio/crio.sock" "" None None None None in
  fractiond.nriSocketDir (fractiond.mkDaemon (Some s) None true) = PathDir (fractiond.criSocketPath (fractiond.mkDaemon (Some s) None true)).
Proof. reflexivity. Qed.
