(* ===== verification/NodeStatus.v ===== *)
(** * operator: the Ready condition and the driver label of nodes

    [common/daemonmgr/conditions.go], the node side of
    [controller/gpufractioningconfig_controller.go] ([patchNodeConditions],
    [evaluateDriverUpgrade], [reconcileDelete]), the driver checker of
    [controller/dependency_checker.go] and mpsd's [driverlabel/labeler.go].

    The API server is not part of the program: [ClusterAPI] lists the calls the
    code makes on a world of type [W], and [ClusterLaws] what the code relies on
    of them, stated on the nodes and the finalizers the server stores ([nodes],
    [finalizers]).  Calls may fail at any time, and a write that fails may or may
    not have taken effect.  A paged list is the sequence of responses the server
    gives; a patch is the value it is marshalled from. *)

From Stdlib Require Import ZArith Lia String Ascii.
From stdpp Require Import base gmap list strings.
From S2P Require Import Prelude GoStrings Json Nvml Status.

#[local] Open Scope string_scope.
#[local] Open Scope list_scope.
#[local] Open Scope Z_scope.

(** ** Data *)

Record NodeCondition := mkNodeCondition {
  NType : string;
  NStatus : string;
  LastHeartbeatTime : Z;
  NLastTransitionTime : Z;
  NReason : string;
  NMessage : string
}.
Record Node := mkNode { node_labels : labels_map; node_conditions : list NodeCondition }.

(** Conditions of a pod are kept as their type and status, container states as the reason
    they wait for. *)
Record Pod := mkPod {
  NodeName : string;
  pod_labels : labels_map;
  pod_conditions : list (string * string);
  Phase : string;
  InitContainerStatuses : list (option string);
  ContainerStatuses : list (option string)
}.

Inductive ApiError := NotFound | ApiFailure (msg : string).
#[global] Instance ApiError_eq_dec : EqDecision ApiError.
Proof. solve_decision. Defined.

Inductive StatusPatch :=
| UpsertCondition (c : NodeCondition)       (** a strategic merge patch of one condition *)
| DeleteCondition (t : string).             (** the [$patch: delete] directive *)
Inductive LabelPatch :=
| SetLabel (k v : string)                   (** a merge patch of [metadata.labels] *)
| DeleteLabel (k : string).

(** The responses of a paged list, up to the page without a continue token or the first error. *)
Inductive Pages (A : Type) :=
| ListError (e : ApiError)
| LastPage (items : list A)
| Page (items : list A) (rest : Pages A).
Arguments ListError {A} e.
Arguments LastPage {A} items.
Arguments Page {A} items rest.

Fixpoint items {A} (p : Pages A) : list A :=
  match p with ListError _ => [] | LastPage l => l | Page l rest => l ++ items rest end.
Fixpoint list_error {A} (p : Pages A) : option ApiError :=
  match p with ListError e => Some e | LastPage _ => None | Page _ rest => list_error rest end.

(** ** The API *)

Class ClusterAPI (W : Type) := {
  Now : W → Z;                                           (** [time.Now] *)
  ctx_err : W → bool;                                    (** [ctx.Err() != nil] *)
  Get_node : W → string → W * result ApiError Node;
  Patch_status : W → string → StatusPatch → W * option ApiError;
  Patch_node : W → string → LabelPatch → W * option ApiError;
  List_nodes : W → labels_map → W * Pages (string * Node);
  (** a list without a page limit, with label requirements besides the selector *)
  List_matching : W → labels_map → list NodeSelectorRequirement → W * result ApiError (list (string * Node));
  Update_finalizers : W → list string → W * option ApiError;
  (** [controllerutil] *)
  ContainsFinalizer : list string → string → bool;
  RemoveFinalizer : list string → string → list string
}.

Definition find_node_condition (t : string) (n : Node) : option NodeCondition :=
  List.find (λ c, String.eqb (NType c) t) (node_conditions n).

Definition apply_status_patch (p : StatusPatch) (n n' : Node) : Prop :=
  node_labels n' = node_labels n ∧
  match p with
  | UpsertCondition c => ∀ t, find_node_condition t n' = if String.eqb (NType c) t then Some c else find_node_condition t n
  | DeleteCondition t' => ∀ t, find_node_condition t n' = if String.eqb t' t then None else find_node_condition t n
  end.

Definition apply_label_patch (p : LabelPatch) (n n' : Node) : Prop :=
  node_conditions n' = node_conditions n ∧
  node_labels n' = match p with SetLabel k v => <[k := v]> (node_labels n) | DeleteLabel k => delete k (node_labels n) end.

(** A write to one node: the node changes as asked if the call succeeds, and no other node. *)
Definition writes_node {W} (nodes : W → gmap string Node) (change : Node → Node → Prop)
    (w w' : W) (name : string) (e : option ApiError) : Prop :=
  (∀ m, m ≠ name → nodes w' !! m = nodes w !! m) ∧
  match e with
  | None => ∃ n n', nodes w !! name = Some n ∧ nodes w' !! name = Some n' ∧ change n n'
  | Some NotFound => nodes w !! name = None ∧ nodes w' !! name = None
  | Some (ApiFailure _) => nodes w' !! name = nodes w !! name ∨
                           ∃ n n', nodes w !! name = Some n ∧ nodes w' !! name = Some n' ∧ change n n'
  end.

Class ClusterLaws (W : Type) `{ClusterAPI W} `{NodeSelection} := {
  nodes : W → gmap string Node;
  finalizers : W → list string;
  Get_node_reads w name : let '(w', r) := Get_node w name in
    nodes w' = nodes w ∧ finalizers w' = finalizers w ∧ ∀ n, r = Ok n → nodes w !! name = Some n;
  Patch_status_writes w name p : let '(w', e) := Patch_status w name p in
    finalizers w' = finalizers w ∧ writes_node nodes (apply_status_patch p) w w' name e;
  Patch_node_writes w name p : let '(w', e) := Patch_node w name p in
    finalizers w' = finalizers w ∧ writes_node nodes (apply_label_patch p) w w' name e;
  (** the pages of one list show the nodes as they were when it began *)
  List_nodes_reads w sel : let '(w', pages) := List_nodes w sel in
    nodes w' = nodes w ∧ finalizers w' = finalizers w ∧
    (list_error pages = None → ∀ name n,
       (name, n) ∈ items pages ↔ nodes w !! name = Some n ∧ selects sel (node_labels n) = true);
  List_matching_reads w sel reqs : let '(w', r) := List_matching w sel reqs in
    nodes w' = nodes w ∧ finalizers w' = finalizers w ∧
    (∀ l, r = Ok l → ∀ name n,
       (name, n) ∈ l ↔ nodes w !! name = Some n ∧
                       selects sel (node_labels n) && forallb (λ q, matches q (node_labels n)) reqs = true);
  Update_finalizers_writes w fs : let '(w', e) := Update_finalizers w fs in
    nodes w' = nodes w ∧
    match e with None => finalizers w' = fs | Some _ => finalizers w' = fs ∨ finalizers w' = finalizers w end;
  ContainsFinalizer_spec fs f : ContainsFinalizer fs f = true ↔ f ∈ fs;
  RemoveFinalizer_spec fs f g : g ∈ RemoveFinalizer fs f ↔ g ∈ fs ∧ g ≠ f
}.

(** ** conditions.go *)

Inductive NodeError :=
| UnexpectedConditionType (t : string)
| PatchingNode (node : string) (e : ApiError)
| RemovingCondition (node : string) (e : ApiError)
| RemovingLabel (node : string) (e : ApiError)
| ListingPods (e : ApiError)
| ListingNodes (e : ApiError)
| CheckingDriver (node : string) (e : ApiError)
| UpdatingFinalizers (e : ApiError).

Definition FindNodeCondition (n : Node) : option NodeCondition := find_node_condition NodeConditionType n.

Definition set_times (c : NodeCondition) (heartbeat transition : Z) : NodeCondition :=
  mkNodeCondition (NType c) (NStatus c) heartbeat transition (NReason c) (NMessage c).

Section Operations.
Context {W : Type} `{ClusterAPI W}.

(** The transition time to write, or none when there is nothing to update. *)
Definition transition_time (read : result ApiError Node) (condition : NodeCondition) (now : Z) : option Z :=
  match read with
  | Err _ => Some now
  | Ok node =>
      match FindNodeCondition node with
      | Some existing =>
          if String.eqb (NStatus existing) (NStatus condition) then
            if String.eqb (NReason existing) (NReason condition) && String.eqb (NMessage existing) (NMessage condition)
            then None
            else Some (NLastTransitionTime existing)
          else Some now
      | None => Some now
      end
  end.

Definition PatchNodeCondition (w : W) (nodeName : string) (condition : NodeCondition) : W * option NodeError :=
  let now := Now w in
  if negb (String.eqb (NType condition) NodeConditionType) then (w, Some (UnexpectedConditionType (NType condition)))
  else
    let '(w, read) := Get_node w nodeName in
    match transition_time read condition now with
    | None => (w, None)
    | Some transitionTime =>
        let '(w, err) := Patch_status w nodeName (UpsertCondition (set_times condition now transitionTime)) in
        (w, PatchingNode nodeName <$> err)
    end.

Definition RemoveNodeCondition (w : W) (nodeName : string) : W * option NodeError :=
  let '(w, err) := Patch_status w nodeName (DeleteCondition NodeConditionType) in
  match err with
  | None | Some NotFound => (w, None)
  | Some e => (w, Some (RemovingCondition nodeName e))
  end.

(** The per-node body shared by the two sweeps that remove the condition. *)
Definition remove_condition_step (acc : W * list NodeError) (entry : string * Node) : W * list NodeError :=
  let '(w, errs) := acc in
  match FindNodeCondition entry.2 with
  | None => (w, errs)
  | Some _ => let '(w, err) := RemoveNodeCondition w entry.1 in (w, errs ++ option_list err)
  end.

(** Process the pages as they arrive; a failed list call ends the sweep. *)
Fixpoint sweep {A} (step : W * list NodeError → A → W * list NodeError) (acc : W * list NodeError)
    (pages : Pages A) : W * result ApiError (list NodeError) :=
  match pages with
  | ListError e => (acc.1, Err e)
  | LastPage l => let '(w, errs) := fold_left step l acc in (w, Ok errs)
  | Page l rest => sweep step (fold_left step l acc) rest
  end.

Definition RemoveNodeConditions (w : W) (nodeSelector : labels_map) : W * list NodeError :=
  let '(w, pages) := List_nodes w nodeSelector in
  let '(w, r) := sweep remove_condition_step (w, []) pages in
  (w, match r with Err e => [ListingNodes e] | Ok errs => errs end).

(** ** gpufractioningconfig_controller.go *)

Definition NodeConditionCleanupFinalizer : string := "gpu-fractioning.nvidia.com/cleanup-node-conditions".

(** Whether any targeted node is upgrading, and the errors of the sweep. *)
Definition evaluateDriverUpgrade (w : W) (nodeSelector : labels_map) : W * bool * list NodeError :=
  let '(w, r) := List_matching w nodeSelector upgrading_requirements in
  match r with
  | Err e => (w, false, [ListingNodes e])
  | Ok nodeList =>
      let '(w, errs) := fold_left remove_condition_step nodeList (w, []) in
      (w, negb (bool_decide (nodeList = [])), errs)
  end.

Definition remove_label_step (acc : W * list NodeError) (entry : string * Node) : W * list NodeError :=
  let '(w, errs) := acc in
  if String.eqb (default "" (node_labels entry.2 !! NVIDIADriverMajorLabel)) "" then (w, errs)
  else
    let '(w, err) := Patch_node w entry.1 (DeleteLabel NVIDIADriverMajorLabel) in
    (w, errs ++ option_list (RemovingLabel entry.1 <$> err)).

Definition removeDriverMajorLabels (w : W) (nodeSelector : labels_map) : W * list NodeError :=
  let '(w, pages) := List_nodes w nodeSelector in
  let '(w, r) := sweep remove_label_step (w, []) pages in
  (w, match r with Err e => [ListingNodes e] | Ok errs => errs end).

Definition reconcileDelete (w : W) (fs : list string) (nodeSelector : labels_map) : W * list NodeError :=
  if negb (ContainsFinalizer fs NodeConditionCleanupFinalizer) then (w, [])
  else
    let '(w, errs) := RemoveNodeConditions w nodeSelector in
    match errs with
    | _ :: _ => (w, errs)
    | [] =>
        let '(w, errs) := removeDriverMajorLabels w nodeSelector in
        match errs with
        | _ :: _ => (w, errs)
        | [] =>
            let '(w, err) := Update_finalizers w (RemoveFinalizer fs NodeConditionCleanupFinalizer) in
            (w, option_list (UpdatingFinalizers <$> err))
        end
    end.

Definition LabelComponent : string := "app.kubernetes.io/component".
Definition ReasonAllDaemonsReady : string := "AllDaemonsReady".
Definition MessageAllDaemonsReady : string := "all gpu-fractioning daemons are running".
Definition PodReady : string := "Ready".

Definition isPodReady (pod : Pod) : bool :=
  existsb (λ c, String.eqb c.1 PodReady && String.eqb c.2 ConditionTrue) (pod_conditions pod).

Definition podFailureReason (pod : Pod) : string :=
  match List.find (λ r, negb (String.eqb (default "" r) "")) (InitContainerStatuses pod ++ ContainerStatuses pod) with
  | Some r => default "" r
  | None =>
      if String.eqb (Phase pod) "Pending" then "Pending"
      else if String.eqb (Phase pod) "Failed" then "Failed"
      else "NotReady"
  end.

Definition nodeConditionForPod (ready : bool) (pod : Pod) : NodeCondition :=
  if ready then mkNodeCondition NodeConditionType ConditionTrue 0 0 ReasonAllDaemonsReady MessageAllDaemonsReady
  else
    let reason := podFailureReason pod in
    let daemonName := default "" (pod_labels pod !! LabelComponent) in
    mkNodeCondition NodeConditionType ConditionFalse 0 0 reason (daemonName +:+ " pod is not ready: " +:+ reason).

(** *** dependency_checker.go: the driver *)

Definition minGPUDriverMajor : Z := 615.
Definition ReasonGPUDriverVersionMissing : string := "GPUDriverVersionMissing".
Definition ReasonGPUDriverVersionInvalid : string := "GPUDriverVersionInvalid".
Definition ReasonGPUDriverVersionUnsupported : string := "GPUDriverVersionUnsupported".

(** [%q] of a label key or value, which hold no character that needs an escape. *)
Definition quoted (s : string) : string := String (ascii_of_nat 34) EmptyString +:+ s +:+ String (ascii_of_nat 34) EmptyString.

Definition gpuDriverFailureReason (node : Node) : option (string * string) :=
  let rawMajor := TrimSpace (default "" (node_labels node !! NVIDIADriverMajorLabel)) in
  let minimum := "; minimum supported major version is " +:+ FormatInt minGPUDriverMajor in
  if String.eqb rawMajor "" then
    Some (ReasonGPUDriverVersionMissing,
      "NVIDIA driver major version label " +:+ quoted NVIDIADriverMajorLabel +:+ " is missing" +:+ minimum)
  else match ParseDriverMajorLabel rawMajor with
  | Err _ =>
      Some (ReasonGPUDriverVersionInvalid,
        "NVIDIA driver major version " +:+ quoted rawMajor +:+ " from label " +:+ quoted NVIDIADriverMajorLabel
        +:+ " is invalid" +:+ minimum)
  | Ok major =>
      if major <? minGPUDriverMajor then
        Some (ReasonGPUDriverVersionUnsupported,
          "NVIDIA driver major version " +:+ FormatInt major +:+ " is below minimum supported major version "
          +:+ FormatInt minGPUDriverMajor)
      else None
  end.

(** [GpuDriverDependencyChecker.Check] *)
Definition driver_Check (w : W) (nodeName : string) (condition : NodeCondition) : W * NodeCondition * option NodeError :=
  if negb (String.eqb (NStatus condition) ConditionFalse) then (w, condition, None)
  else
    let '(w, r) := Get_node w nodeName in
    match r with
    | Err e => if ctx_err w then (w, condition, Some (CheckingDriver nodeName e)) else (w, condition, None)
    | Ok node =>
        match gpuDriverFailureReason node with
        | Some (driverReason, driverMessage) =>
            (w, mkNodeCondition (NType condition) (NStatus condition) (LastHeartbeatTime condition)
                  (NLastTransitionTime condition) driverReason driverMessage, None)
        | None => (w, condition, None)
        end
    end.

(** *** [patchNodeConditions] *)

Record pass := mkPass {
  world : W;
  unhealthyNodes : gset string;
  seenNodes : gset string;
  pass_errs : list NodeError
}.

Definition pod_step (st : pass) (pod : Pod) : pass :=
  if String.eqb (NodeName pod) "" then st
  else
    let seen := {[NodeName pod]} ∪ seenNodes st in
    let ready := isPodReady pod in
    let unhealthy := if ready then unhealthyNodes st else {[NodeName pod]} ∪ unhealthyNodes st in
    if ready && bool_decide (NodeName pod ∈ unhealthyNodes st) then mkPass (world st) unhealthy seen (pass_errs st)
    else
      let '(w, condition, checkErr) := driver_Check (world st) (NodeName pod) (nodeConditionForPod ready pod) in
      let '(w, patchErr) := PatchNodeCondition w (NodeName pod) condition in
      mkPass w unhealthy seen (pass_errs st ++ option_list checkErr ++ option_list patchErr).

(** The pass, and whether every page was read. *)
Fixpoint pod_pages (st : pass) (pages : Pages Pod) : pass * bool :=
  match pages with
  | ListError e => (mkPass (world st) (unhealthyNodes st) (seenNodes st) (pass_errs st ++ [ListingPods e]), false)
  | LastPage l => (fold_left pod_step l st, true)
  | Page l rest => pod_pages (fold_left pod_step l st) rest
  end.

(** The world, whether a node is unhealthy, the errors, and the ready and degraded gauges when
    they are set. *)
Definition patchNodeConditions (w : W) (pages : Pages Pod) : W * bool * list NodeError * option (Z * Z) :=
  let '(st, complete) := pod_pages (mkPass w ∅ ∅ []) pages in
  (world st, negb (bool_decide (unhealthyNodes st = ∅)), pass_errs st,
   if complete : bool
   then Some (Z.of_nat (size (seenNodes st)) - Z.of_nat (size (unhealthyNodes st)), Z.of_nat (size (unhealthyNodes st)))
   else None).

(** *** mpsd: labeler.go *)

Inductive LabelError :=
| NodeNameRequired | InitNVML (r : Return) | ReadDriverVersion (r : Return) | EmptyDriverVersion
| ParseDriverVersion (version : string) (e : DriverError) | InClusterConfig (msg : string)
| MajorNotPositive | PatchLabel (node : string) (e : ApiError).

Definition driverVersionFromNVML (init : Return) (driver_version : string * Return) : result LabelError string :=
  if negb (bool_decide (init = SUCCESS) || bool_decide (init = ERROR_ALREADY_INITIALIZED)) then Err (InitNVML init)
  else
    let '(version, ret) := driver_version in
    if negb (bool_decide (ret = SUCCESS)) then Err (ReadDriverVersion ret)
    else
      let version := TrimSpace version in
      if String.eqb version "" then Err EmptyDriverVersion else Ok version.

Definition driverMajorLabelPatch (major : Z) : result LabelError LabelPatch :=
  if major <=? 0 then Err MajorNotPositive else Ok (SetLabel NVIDIADriverMajorLabel (FormatInt major)).

Definition patchNodeDriverMajor (w : W) (in_cluster : option string) (nodeName : string) (major : Z) : W * option LabelError :=
  match in_cluster with
  | Some msg => (w, Some (InClusterConfig msg))
  | None =>
      match driverMajorLabelPatch major with
      | Err e => (w, Some e)
      | Ok body => let '(w, err) := Patch_node w nodeName body in (w, PatchLabel nodeName <$> err)
      end
  end.

(** [in_cluster] is the error, if any, of building the in-cluster client. *)
Definition LabelCurrentNode (w : W) (nodeName : string) (init : Return) (driver_version : string * Return)
    (in_cluster : option string) : W * option LabelError :=
  if String.eqb nodeName "" then (w, Some NodeNameRequired)
  else match driverVersionFromNVML init driver_version with
  | Err e => (w, Some e)
  | Ok version =>
      match ParseDriverVersionMajor version with
      | Err e => (w, Some (ParseDriverVersion version e))
      | Ok major => patchNodeDriverMajor w in_cluster nodeName major
      end
  end.
End Operations.

(** ** Lemmas: single nodes *)

Definition node_status (m : gmap string Node) (name : string) : option string :=
  NStatus <$> (m !! name ≫= FindNodeCondition).

Section Laws.
Context {W : Type} {api : ClusterAPI W} {selection : NodeSelection} {laws : ClusterLaws W}.

Lemma find_upsert c n n' : NType c = NodeConditionType → apply_status_patch (UpsertCondition c) n n' →
  FindNodeCondition n' = Some c.
Proof. intros Ht [_ Hf]. unfold FindNodeCondition. by rewrite Hf, Ht, String.eqb_refl. Qed.

Lemma transition_time_None r c now : transition_time r c now = None →
  ∃ n c', r = Ok n ∧ FindNodeCondition n = Some c' ∧ NStatus c' = NStatus c ∧ NReason c' = NReason c ∧ NMessage c' = NMessage c.
Proof.
  unfold transition_time. destruct r as [n|]; [|done]. destruct (FindNodeCondition n) as [c'|] eqn:Hf; [|done].
  destruct (String.eqb_spec (NStatus c') (NStatus c)); [|done].
  destruct (String.eqb_spec (NReason c') (NReason c)); [|done].
  destruct (String.eqb_spec (NMessage c') (NMessage c)); [|done]. intros _. eauto 10.
Qed.

Lemma PatchNodeCondition_spec w name c : NType c = NodeConditionType →
  let '(w', err) := PatchNodeCondition w name c in
  finalizers w' = finalizers w ∧
  (∀ m, m ≠ name → nodes w' !! m = nodes w !! m) ∧
  match err with
  | None => ∃ n c', nodes w' !! name = Some n ∧ FindNodeCondition n = Some c' ∧
              NStatus c' = NStatus c ∧ NReason c' = NReason c ∧ NMessage c' = NMessage c
  | Some e => ∃ a, e = PatchingNode name a
  end.
Proof.
  intros Ht. unfold PatchNodeCondition. rewrite Ht, String.eqb_refl. cbn [negb].
  pose proof (Get_node_reads w name) as Hget. destruct (Get_node w name) as [w1 r]. destruct Hget as (Hn & Hf & Hok).
  destruct (transition_time r c (Now w)) as [t|] eqn:Et.
  - pose proof (Patch_status_writes w1 name (UpsertCondition (set_times c (Now w) t))) as Hp.
    destruct (Patch_status _ _ _) as [w2 e]. destruct Hp as (Hf2 & Hoth & He).
    split_and!; [congruence|intros m Hm; by rewrite Hoth, Hn|].
    destruct e as [a|]; cbn; [eauto|]. destruct He as (n & n' & _ & Hn' & Hch). exists n', (set_times c (Now w) t).
    split_and!; [done| |done..]. by apply (find_upsert _ n).
  - split_and!; [done|intros m _; by rewrite Hn|].
    apply transition_time_None in Et as (n & c' & -> & Hc & Hs & Hr & Hm). exists n, c'. rewrite Hn.
    split_and!; [by apply Hok|done..].
Qed.

Lemma driver_Check_spec w name c :
  let '(w', c', err) := driver_Check w name c in
  nodes w' = nodes w ∧ finalizers w' = finalizers w ∧ NType c' = NType c ∧ NStatus c' = NStatus c ∧
  ∀ e, err = Some e → ∃ a, e = CheckingDriver name a.
Proof.
  unfold driver_Check. destruct (negb _); [done|].
  pose proof (Get_node_reads w name) as Hget. destruct (Get_node w name) as [w1 r]. destruct Hget as (Hn & Hf & _).
  destruct r as [n|a]; [destruct (gpuDriverFailureReason n) as [[??]|]|destruct (ctx_err w1)];
    split_and!; try done; intros e [= <-]; eauto.
Qed.

(** ** Lemmas: the pod pass *)

Record pass_ok (w0 : W) (ps : list Pod) (st : pass) : Prop := {
  seen_spec n : n ∈ seenNodes st ↔ n ≠ "" ∧ ∃ p, p ∈ ps ∧ NodeName p = n;
  unhealthy_spec n : n ∈ unhealthyNodes st ↔ n ≠ "" ∧ ∃ p, p ∈ ps ∧ NodeName p = n ∧ isPodReady p = false;
  unseen_kept n : n ∉ seenNodes st → nodes (world st) !! n = nodes w0 !! n;
  seen_status n : n ∈ seenNodes st → (∀ e, PatchingNode n e ∉ pass_errs st) →
    node_status (nodes (world st)) n =
      Some (if decide (n ∈ unhealthyNodes st) then ConditionFalse else ConditionTrue);
  pass_finalizers : finalizers (world st) = finalizers w0
}.

Lemma nodeConditionForPod_spec ready pod : NType (nodeConditionForPod ready pod) = NodeConditionType ∧
  NStatus (nodeConditionForPod ready pod) = if ready then ConditionTrue else ConditionFalse.
Proof. by destruct ready. Qed.

(** One pod that is not skipped: check, then patch. *)
Lemma check_and_patch w name ready pod :
  let '(w1, c, checkErr) := driver_Check w name (nodeConditionForPod ready pod) in
  let '(w', patchErr) := PatchNodeCondition w1 name c in
  finalizers w' = finalizers w ∧
  (∀ m, m ≠ name → nodes w' !! m = nodes w !! m) ∧
  ((∀ e, PatchingNode name e ∉ option_list patchErr) →
   node_status (nodes w') name = Some (if ready then ConditionTrue else ConditionFalse)).
Proof.
  pose proof (driver_Check_spec w name (nodeConditionForPod ready pod)) as Hc.
  destruct (driver_Check _ _ _) as [[w1 c] checkErr]. destruct Hc as (Hn & Hf & Ht & Hs & _).
  destruct (nodeConditionForPod_spec ready pod) as [Ht' Hs'].
  pose proof (PatchNodeCondition_spec w1 name c ltac:(congruence)) as Hp.
  destruct (PatchNodeCondition _ _ _) as [w' patchErr]. destruct Hp as (Hf' & Hoth & Hres).
  split_and!; [congruence|intros m Hm; by rewrite Hoth, Hn|]. intros Hno. destruct patchErr as [e|].
  - destruct Hres as [a ->]. destruct (Hno a). cbn. by apply list_elem_of_singleton.
  - destruct Hres as (n & c' & Hn' & Hf'' & Hst & _). unfold node_status. rewrite Hn'. cbn. rewrite Hf''. cbn. congruence.
Qed.

Lemma exists_snoc (P : Pod → Prop) ps p : (∃ q, q ∈ ps ++ [p] ∧ P q) ↔ (∃ q, q ∈ ps ∧ P q) ∨ P p.
Proof. set_solver. Qed.

Lemma pod_step_ok w0 ps st p : pass_ok w0 ps st → pass_ok w0 (ps ++ [p]) (pod_step st p).
Proof.
  intros [Hseen Hunh Hkept Hstat Hfin]. unfold pod_step.
  destruct (String.eqb_spec (NodeName p) "") as [He|Hne].
  { split; [| |done..]; intros n; rewrite exists_snoc; [rewrite Hseen|rewrite Hunh]; naive_solver. }
  assert (Hseen' : ∀ n, n ∈ {[NodeName p]} ∪ seenNodes st ↔ n ≠ "" ∧ ∃ q, q ∈ ps ++ [p] ∧ NodeName q = n).
  { intros n. rewrite exists_snoc, elem_of_union, elem_of_singleton, Hseen. naive_solver. }
  assert (Hunh' : ∀ n, n ∈ (if isPodReady p then unhealthyNodes st else {[NodeName p]} ∪ unhealthyNodes st) ↔
    n ≠ "" ∧ ∃ q, q ∈ ps ++ [p] ∧ NodeName q = n ∧ isPodReady q = false).
  { intros n. rewrite exists_snoc. destruct (isPodReady p) eqn:Er; rewrite ?elem_of_union, ?elem_of_singleton, Hunh; naive_solver. }
  destruct (isPodReady p && bool_decide (NodeName p ∈ unhealthyNodes st)) eqn:Eskip.
  { apply andb_prop in Eskip as [Er Hp%bool_decide_eq_true]. rewrite Er in Hunh' |- *.
    split; cbn; [done|done| | |done].
    - intros n Hn. apply Hkept. set_solver.
    - intros n Hn. apply Hstat. apply elem_of_union in Hn as [->%elem_of_singleton|Hn]; [|done].
      apply Hseen. apply Hunh in Hp. naive_solver. }
  pose proof (check_and_patch (world st) (NodeName p) (isPodReady p) p) as Hcp.
  destruct (driver_Check _ _ _) as [[w1 c] ce]. destruct (PatchNodeCondition w1 _ _) as [w' pe].
  destruct Hcp as (Hf & Hoth & Hst). split; cbn; [done|done| | |congruence].
  - intros n Hn. rewrite Hoth by set_solver. apply Hkept. set_solver.
  - intros n Hn Hno. destruct (decide (n = NodeName p)) as [->|Hnp].
    + rewrite Hst by (intros e; specialize (Hno e); set_solver). f_equal. destruct (isPodReady p) eqn:Er.
      * rewrite decide_False; [done|]. cbn in Eskip. by apply bool_decide_eq_false in Eskip.
      * rewrite decide_True; [done|set_solver].
    + transitivity (node_status (nodes (world st)) n); [unfold node_status; by rewrite Hoth|].
      rewrite Hstat by (set_solver || (intros e; specialize (Hno e); set_solver)). f_equal. destruct (isPodReady p); [done|]. apply decide_ext. set_solver.
Qed.

Lemma pod_steps_ok w0 l : ∀ ps st, pass_ok w0 ps st → pass_ok w0 (ps ++ l) (fold_left pod_step l st).
Proof.
  induction l as [|p l IH]; intros ps st Hok; cbn [fold_left]; [by rewrite app_nil_r|].
  rewrite (app_assoc ps [p] l : ps ++ p :: l = _). by apply IH, pod_step_ok.
Qed.

Lemma pod_pages_ok w0 pages : ∀ ps st, pass_ok w0 ps st →
  let '(st', complete) := pod_pages st pages in
  pass_ok w0 (ps ++ items pages) st' ∧ complete = bool_decide (list_error pages = None).
Proof.
  induction pages as [e|l|l rest IH]; intros ps st Hok; cbn.
  - rewrite app_nil_r. split; [|done]. destruct Hok as [? ? ? Hs ?]. split; cbn; try done.
    intros n Hn Hno. apply Hs; [done|]. intros a Ha. apply (Hno a). set_solver.
  - split; [|done]. by apply pod_steps_ok.
  - rewrite app_assoc. apply IH. by apply pod_steps_ok.
Qed.

(** A node is healthy when all the pods on it are. *)
Definition all_ready (pods : list Pod) (name : string) : bool :=
  forallb (λ p, negb (String.eqb (NodeName p) name) || isPodReady p) pods.

Lemma all_ready_false pods name : all_ready pods name = false ↔
  ∃ p, p ∈ pods ∧ NodeName p = name ∧ isPodReady p = false.
Proof.
  unfold all_ready. split.
  - intros (p & Hp & [Hn%negb_false_iff%String.eqb_eq Hr]%orb_false_iff)%not_forallb. eauto.
  - intros (p & Hp & Hn & Hr). apply not_true_iff_false. rewrite forallb_forall. intros Hall.
    specialize (Hall p ltac:(by apply list_elem_of_In)). by rewrite Hn, String.eqb_refl, Hr in Hall.
Qed.

(** C15: what a pass over the daemon pods leaves on the nodes, whatever the paging, the order of
    the pods and the failures of individual calls.  A node that runs a listed pod and whose
    condition could be written carries Ready=True if every listed pod on it is ready and False
    otherwise; other nodes are untouched; the pass reports an unhealthy node exactly when a
    scheduled pod is not ready; and when all pages were read the gauges count the nodes whose
    pods are all ready and the others. *)
Theorem nodes_reflect_pods w pages :
  let '(w', unhealthy, errs, gauges) := patchNodeConditions w pages in
  let on name := name ≠ "" ∧ ∃ p, p ∈ items pages ∧ NodeName p = name in
  (∀ name, on name → (∀ e, PatchingNode name e ∉ errs) →
     node_status (nodes w') name = Some (if all_ready (items pages) name then ConditionTrue else ConditionFalse)) ∧
  (∀ name, ¬ on name → nodes w' !! name = nodes w !! name) ∧
  finalizers w' = finalizers w ∧
  (unhealthy = true ↔ ∃ p, p ∈ items pages ∧ NodeName p ≠ "" ∧ isPodReady p = false) ∧
  (list_error pages = None → ∃ good bad : gset string,
     (∀ name, name ∈ good ↔ on name ∧ all_ready (items pages) name = true) ∧
     (∀ name, name ∈ bad ↔ on name ∧ all_ready (items pages) name = false) ∧
     gauges = Some (Z.of_nat (size good), Z.of_nat (size bad))).
Proof.
  unfold patchNodeConditions.
  assert (Hinit : pass_ok w [] (mkPass w ∅ ∅ [])) by (split; cbn; try done; set_solver).
  pose proof (pod_pages_ok w pages [] _ Hinit) as Hok. destruct (pod_pages _ _) as [st complete].
  destruct Hok as [[Hseen Hunh Hkept Hstat Hfin] ->]. cbn [app] in *. cbv zeta.
  assert (Hbad : ∀ n, n ∈ unhealthyNodes st ↔ n ∈ seenNodes st ∧ all_ready (items pages) n = false).
  { intros n. rewrite Hunh, Hseen, all_ready_false. naive_solver. }
  split_and!; [| |done| |].
  - intros name Hon Hno. apply Hseen in Hon. rewrite Hstat by done. f_equal.
    case_decide as Hd; rewrite Hbad in Hd; destruct (all_ready _ _); naive_solver.
  - intros name Hon. apply Hkept. by rewrite Hseen.
  - rewrite negb_true_iff, bool_decide_eq_false. split.
    + intros (n & Hn)%set_choose_L. apply Hunh in Hn. naive_solver.
    + intros (p & Hp & Hne & Hr) Hemp. apply (not_elem_of_empty (C := gset string) (NodeName p)). rewrite <- Hemp. apply Hunh. eauto.
  - intros Hl. exists (seenNodes st ∖ unhealthyNodes st), (unhealthyNodes st). split_and!.
    + intros n. rewrite elem_of_difference, Hbad, <- Hseen. destruct (all_ready _ _); naive_solver.
    + intros n. rewrite Hbad, <- Hseen. done.
    + rewrite bool_decide_eq_true_2 by done. assert (Hsub : unhealthyNodes st ⊆ seenNodes st) by (intros n; rewrite Hbad; tauto).
      rewrite size_difference by done. pose proof (subseteq_size _ _ Hsub). do 2 f_equal. lia.
Qed.

(** ** Lemmas: sweeps *)

(** A node from which at most our condition was removed. *)
Definition less_condition (n n' : Node) : Prop :=
  node_labels n' = node_labels n ∧
  (∀ t, t ≠ NodeConditionType → find_node_condition t n' = find_node_condition t n) ∧
  (FindNodeCondition n' = FindNodeCondition n ∨ FindNodeCondition n' = None).

(** A node from which at most the driver label was removed. *)
Definition less_label (n n' : Node) : Prop :=
  node_conditions n' = node_conditions n ∧
  delete NVIDIADriverMajorLabel (node_labels n') = delete NVIDIADriverMajorLabel (node_labels n) ∧
  (node_labels n' !! NVIDIADriverMajorLabel = node_labels n !! NVIDIADriverMajorLabel ∨
   node_labels n' !! NVIDIADriverMajorLabel = None).

#[local] Instance less_condition_preorder : PreOrder less_condition.
Proof.
  split; [by intros n; split_and!; [| |left]|].
  intros a b c (H1 & H2 & H3) (H1' & H2' & H3'). split_and!.
  - congruence.
  - intros t Ht. by rewrite H2', H2.
  - destruct H3' as [->|]; [done|by right].
Qed.

#[local] Instance less_label_preorder : PreOrder less_label.
Proof.
  split; [by intros n; split_and!; [| |left]|].
  intros a b c (H1 & H2 & H3) (H1' & H2' & H3'). split_and!; [congruence..|].
  destruct H3' as [->|]; [done|by right].
Qed.

(** The relation on worlds: node by node, finalizers kept. *)
Definition on_nodes (R : Node → Node → Prop) (w w' : W) : Prop :=
  finalizers w' = finalizers w ∧ ∀ m, option_Forall2 R (nodes w !! m) (nodes w' !! m).

#[local] Instance on_nodes_preorder R : PreOrder R → PreOrder (on_nodes R).
Proof.
  intros HR. split.
  - intros w. split; [done|]. intros m. reflexivity.
  - intros a b c [Hf Hn] [Hf' Hn']. split; [congruence|]. intros m. etrans; [apply Hn|apply Hn'].
Qed.

(** A write that succeeds, or may have failed half-way, relates the worlds. *)
Lemma writes_on_nodes R `{!Reflexive R} (change : Node → Node → Prop) w w' name e :
  (∀ n n', change n n' → R n n') → finalizers w' = finalizers w → writes_node nodes change w w' name e →
  on_nodes R w w'.
Proof.
  intros Hch Hf [Hoth He]. split; [done|]. intros m.
  destruct (decide (m = name)) as [->|Hm]; [|rewrite (Hoth m Hm); reflexivity].
  assert (Hw : (∃ n n', nodes w !! name = Some n ∧ nodes w' !! name = Some n' ∧ change n n') →
    option_Forall2 R (nodes w !! name) (nodes w' !! name)).
  { intros (n & n' & -> & -> & H3). constructor. by apply Hch. }
  destruct e as [[|msg]|].
  - destruct He as [-> ->]. constructor.
  - destruct He as [->|He]; [reflexivity|by apply Hw].
  - by apply Hw.
Qed.

Section Sweep.
Context (R : Node → Node → Prop) `{!PreOrder R}.
Context (dirty : Node → bool) (act : W → string → W * option NodeError).
Context (step : W * list NodeError → string * Node → W * list NodeError).
Hypothesis step_eq : ∀ w errs name n, step (w, errs) (name, n) =
  if dirty n then let '(w', e) := act w name in (w', errs ++ option_list e) else (w, errs).
Hypothesis act_spec : ∀ w name, let '(w', e) := act w name in
  on_nodes R w w' ∧ (∀ m, m ≠ name → nodes w' !! m = nodes w !! m) ∧
  (e = None → ∀ n, nodes w' !! name = Some n → dirty n = false).
Hypothesis dirty_mono : ∀ n n', R n n' → dirty n = false → dirty n' = false.

(** The node, if there, is clean. *)
Definition clean (w : W) (name : string) : Prop := ∀ n, nodes w !! name = Some n → dirty n = false.

Lemma clean_mono w w' name : on_nodes R w w' → clean w name → clean w' name.
Proof.
  intros [_ Hn] Hc n' Hn'. specialize (Hn name). rewrite Hn' in Hn. inversion Hn as [n ? HR Hw|]; subst.
  eapply dirty_mono; [exact HR|]. by apply Hc.
Qed.

Lemma fold_clean l : ∀ w errs, let '(w', errs') := fold_left step l (w, errs) in
  on_nodes R w w' ∧ (∀ m, m ∉ l.*1 → nodes w' !! m = nodes w !! m) ∧
  ∃ new, errs' = errs ++ new ∧
    (new = [] → ∀ name n, (name, n) ∈ l → (dirty n = false → clean w name) → clean w' name).
Proof.
  induction l as [|[name n] l IH]; intros w errs; cbn [fold_left].
  { split_and!; [reflexivity|done|]. exists []. rewrite app_nil_r. split; [done|]. by intros _ ?? ?%elem_of_nil. }
  rewrite step_eq. destruct (dirty n) eqn:Hd.
  - pose proof (act_spec w name) as Ha. destruct (act w name) as [w1 e]. destruct Ha as (HR1 & Hoth1 & Hok1).
    specialize (IH w1 (errs ++ option_list e)). destruct (fold_left _ _ _) as [w' errs'].
    destruct IH as (HR & Hoth & new & -> & Hnew). split_and!; [by etrans| |].
    + intros m Hm. cbn in Hm. rewrite Hoth, Hoth1 by set_solver. done.
    + exists (option_list e ++ new). rewrite app_assoc. split; [done|].
      intros [He ->]%app_eq_nil. destruct e; [done|]. intros name' n' [[= -> ->]|Hin]%elem_of_cons Hacc.
      * apply (clean_mono w1 w'); [done|]. by intros ? ?%Hok1.
      * eapply Hnew; [done|exact Hin|]. intros Hn'. eapply clean_mono; [exact HR1|by apply Hacc].
  - specialize (IH w errs). destruct (fold_left _ _ _) as [w' errs']. destruct IH as (HR & Hoth & new & -> & Hnew).
    split_and!; [done| |].
    + intros m Hm. cbn in Hm. apply Hoth. set_solver.
    + exists new. split; [done|]. intros -> name' n' [[= -> ->]|Hin]%elem_of_cons Hacc; [|by eapply Hnew].
      eapply clean_mono; [exact HR|by apply Hacc].
Qed.

Lemma sweep_clean pages : ∀ w errs, let '(w', r) := sweep step (w, errs) pages in
  on_nodes R w w' ∧
  (r = Ok [] → errs = [] ∧ list_error pages = None ∧
    ∀ name n, (name, n) ∈ items pages → (dirty n = false → clean w name) → clean w' name).
Proof.
  induction pages as [e|l|l rest IH]; intros w errs; cbn [sweep items list_error fst].
  - split; [reflexivity|done].
  - pose proof (fold_clean l w errs) as Hf. destruct (fold_left _ _ _) as [w' errs'].
    destruct Hf as (HR & _ & new & -> & Hnew). split; [done|]. intros [= [-> ->]%app_eq_nil]. by split_and!; [| |apply Hnew].
  - pose proof (fold_clean l w errs) as Hf. destruct (fold_left _ _ _) as [w1 errs1].
    destruct Hf as (HR1 & _ & new & -> & Hnew). specialize (IH w1 (errs ++ new)).
    destruct (sweep _ _ _) as [w' r]. destruct IH as [HR Hr]. split; [by etrans|].
    intros ([-> ->]%app_eq_nil & Hl & Hit)%Hr. split_and!; [done|done|].
    intros name n [Hin|Hin]%elem_of_app Hacc.
    + eapply clean_mono; [exact HR|]. by eapply Hnew.
    + eapply Hit; [exact Hin|]. intros Hd. eapply clean_mono; [exact HR1|by apply Hacc].
Qed.
End Sweep.

(** ** Lemmas: the two clean-ups *)

Definition has_condition (n : Node) : bool := bool_decide (is_Some (FindNodeCondition n)).
Definition has_label (n : Node) : bool := negb (String.eqb (default "" (node_labels n !! NVIDIADriverMajorLabel)) "").

Lemma has_condition_mono n n' : less_condition n n' → has_condition n = false → has_condition n' = false.
Proof.
  unfold has_condition. rewrite !bool_decide_eq_false. intros (_ & _ & [->| ->]); [done|]. by intros _ [? ?].
Qed.

Lemma has_label_mono n n' : less_label n n' → has_label n = false → has_label n' = false.
Proof. unfold has_label. by intros (_ & _ & [->| ->]). Qed.

Lemma RemoveNodeCondition_spec w name : let '(w', e) := RemoveNodeCondition w name in
  on_nodes less_condition w w' ∧ (∀ m, m ≠ name → nodes w' !! m = nodes w !! m) ∧
  (e = None → ∀ n, nodes w' !! name = Some n → has_condition n = false).
Proof.
  unfold RemoveNodeCondition. pose proof (Patch_status_writes w name (DeleteCondition NodeConditionType)) as Hp.
  destruct (Patch_status _ _ _) as [w' e]. destruct Hp as [Hf Hw].
  assert (Hch : ∀ n n', apply_status_patch (DeleteCondition NodeConditionType) n n' → FindNodeCondition n' = None).
  { intros n n' [_ Hc]. unfold FindNodeCondition. by rewrite Hc, String.eqb_refl. }
  assert (Hon : on_nodes less_condition w w').
  { eapply writes_on_nodes; [apply _| |exact Hf|exact Hw]. intros n n' Hp. pose proof (Hch _ _ Hp) as Hnone.
    destruct Hp as [Hl Hc]. split_and!; [done| |by right].
    intros t Ht. rewrite Hc. by rewrite (proj2 (String.eqb_neq _ _)). }
  destruct Hw as [Hoth He]. destruct e as [[|msg]|]; (split_and!; [done|done|]); [|done|].
  - intros _ n Hn. destruct He. congruence.
  - intros _ n Hn. destruct He as (n0 & n' & _ & Hn' & Hc). rewrite Hn' in Hn. injection Hn as <-.
    unfold has_condition. rewrite (Hch _ _ Hc). apply bool_decide_eq_false. by intros [??].
Qed.

Definition remove_label (w : W) (name : string) : W * option NodeError :=
  let '(w', e) := Patch_node w name (DeleteLabel NVIDIADriverMajorLabel) in (w', RemovingLabel name <$> e).

Lemma remove_label_spec w name : let '(w', e) := remove_label w name in
  on_nodes less_label w w' ∧ (∀ m, m ≠ name → nodes w' !! m = nodes w !! m) ∧
  (e = None → ∀ n, nodes w' !! name = Some n → has_label n = false).
Proof.
  unfold remove_label. pose proof (Patch_node_writes w name (DeleteLabel NVIDIADriverMajorLabel)) as Hp.
  destruct (Patch_node _ _ _) as [w' e]. destruct Hp as [Hf Hw].
  assert (Hon : on_nodes less_label w w').
  { eapply writes_on_nodes; [apply _| |exact Hf|exact Hw]. intros n n' [Hc Hl]. unfold less_label.
    rewrite Hl, delete_delete_eq, lookup_delete_eq. auto. }
  destruct Hw as [Hoth He]. split_and!; [done|done|]. destruct e; [done|]. intros _ n Hn.
  destruct He as (n0 & n' & _ & Hn' & _ & Hl). rewrite Hn' in Hn. injection Hn as <-.
  unfold has_label. by rewrite Hl, lookup_delete_eq.
Qed.

Lemma remove_condition_step_eq w errs name n : remove_condition_step (w, errs) (name, n) =
  if has_condition n then let '(w', e) := RemoveNodeCondition w name in (w', errs ++ option_list e) else (w, errs).
Proof. unfold remove_condition_step, has_condition. cbn [fst snd]. by destruct (FindNodeCondition n). Qed.

Lemma remove_label_step_eq w errs name n : remove_label_step (w, errs) (name, n) =
  if has_label n then let '(w', e) := remove_label w name in (w', errs ++ option_list e) else (w, errs).
Proof.
  unfold remove_label_step, has_label, remove_label. cbn [fst snd]. destruct (String.eqb _ ""); cbn [negb]; [done|].
  by destruct (Patch_node _ _ _).
Qed.

Lemma RemoveNodeConditions_spec w sel : let '(w', errs) := RemoveNodeConditions w sel in
  on_nodes less_condition w w' ∧
  (errs = [] → ∀ name n, nodes w !! name = Some n → selects sel (node_labels n) = true → clean has_condition w' name).
Proof.
  unfold RemoveNodeConditions. pose proof (List_nodes_reads w sel) as Hl. destruct (List_nodes w sel) as [w1 pages].
  destruct Hl as (Hn & Hf & Hl).
  pose proof (sweep_clean less_condition has_condition RemoveNodeCondition remove_condition_step
    remove_condition_step_eq RemoveNodeCondition_spec has_condition_mono pages w1 []) as Hs.
  destruct (sweep _ _ _) as [w' r]. destruct Hs as [[Hf' HR] Hs]. split.
  { split; [congruence|]. by rewrite Hn in HR. }
  intros Hnil name n Hin Hsel. destruct r as [errs|]; [|done]. subst errs. destruct (Hs eq_refl) as (_ & Hle & Hit).
  apply (Hit name n); [by apply Hl|]. intros Hd n'. rewrite Hn, Hin. by intros [= <-].
Qed.

Lemma removeDriverMajorLabels_spec w sel : let '(w', errs) := removeDriverMajorLabels w sel in
  on_nodes less_label w w' ∧
  (errs = [] → ∀ name n, nodes w !! name = Some n → selects sel (node_labels n) = true → clean has_label w' name).
Proof.
  unfold removeDriverMajorLabels. pose proof (List_nodes_reads w sel) as Hl. destruct (List_nodes w sel) as [w1 pages].
  destruct Hl as (Hn & Hf & Hl).
  pose proof (sweep_clean less_label has_label remove_label remove_label_step
    remove_label_step_eq remove_label_spec has_label_mono pages w1 []) as Hs.
  destruct (sweep _ _ _) as [w' r]. destruct Hs as [[Hf' HR] Hs]. split.
  { split; [congruence|]. by rewrite Hn in HR. }
  intros Hnil name n Hin Hsel. destruct r as [errs|]; [|done]. subst errs. destruct (Hs eq_refl) as (_ & Hle & Hit).
  apply (Hit name n); [by apply Hl|]. intros Hd n'. rewrite Hn, Hin. by intros [= <-].
Qed.

(** The node no longer carries what the operator and mpsd wrote on it. *)
Definition cleaned (n : Node) : Prop := has_condition n = false ∧ has_label n = false.

(** What the two clean-ups together may change on a node. *)
Definition less_owned (n n' : Node) : Prop := ∃ n0, less_condition n n0 ∧ less_label n0 n'.

Lemma less_label_condition n n' : less_label n n' → has_condition n = false → has_condition n' = false.
Proof. intros (Hc & _). unfold has_condition, FindNodeCondition, find_node_condition. by rewrite Hc. Qed.

(** Both sweeps succeeded: the targeted nodes are clean. *)
Lemma both_sweeps_clean w w1 w2 sel :
  on_nodes less_condition w w1 → on_nodes less_label w1 w2 →
  (∀ name n, nodes w !! name = Some n → selects sel (node_labels n) = true → clean has_condition w1 name) →
  (∀ name n, nodes w1 !! name = Some n → selects sel (node_labels n) = true → clean has_label w2 name) →
  ∀ name n, nodes w !! name = Some n → selects sel (node_labels n) = true →
  ∃ n', nodes w2 !! name = Some n' ∧ cleaned n'.
Proof.
  intros [_ HR1] [_ HR2] Hc1 Hc2 name n Hn Hsel. specialize (HR1 name). specialize (HR2 name). specialize (Hc1 name n Hn Hsel).
  rewrite Hn in HR1. inversion HR1 as [? n1 Hl1 Hx Hn1|]; subst. symmetry in Hn1. rewrite Hn1 in HR2.
  inversion HR2 as [? n2 Hl2 Hx Hn2|]; subst. symmetry in Hn2. exists n2. split; [done|]. split.
  - eapply less_label_condition; [done|]. by apply Hc1.
  - eapply Hc2; [exact Hn1| |exact Hn2]. by rewrite (proj1 Hl1).
Qed.

(** C17: deletion waits for the nodes.  When reconcileDelete runs on a config that carries the
    finalizer, then whatever calls fail on the way, the stored finalizers change, or the
    reconcile succeeds, only if every node the config targets carries neither the Ready
    condition nor a driver label; success removes our finalizer and no other; and no node is
    touched beyond that condition and that label. *)
Theorem deletion_waits_for_cleanup w sel :
  NodeConditionCleanupFinalizer ∈ finalizers w →
  let '(w', errs) := reconcileDelete w (finalizers w) sel in
  (finalizers w' ≠ finalizers w ∨ errs = [] → ∀ name n,
     nodes w !! name = Some n → selects sel (node_labels n) = true →
     ∃ n', nodes w' !! name = Some n' ∧ cleaned n') ∧
  (errs = [] → ∀ f, f ∈ finalizers w' ↔ f ∈ finalizers w ∧ f ≠ NodeConditionCleanupFinalizer) ∧
  (∀ name, option_Forall2 less_owned (nodes w !! name) (nodes w' !! name)).
Proof.
  intros Hfin. unfold reconcileDelete. rewrite (proj2 (ContainsFinalizer_spec _ _) Hfin). cbn [negb].
  pose proof (RemoveNodeConditions_spec w sel) as H1. destruct (RemoveNodeConditions w sel) as [w1 e1].
  destruct H1 as [HR1 Hc1].
  assert (Hown : ∀ w2, on_nodes less_label w1 w2 → ∀ name, option_Forall2 less_owned (nodes w !! name) (nodes w2 !! name)).
  { intros w2 [_ HR2] name. specialize (HR2 name). destruct (proj2 HR1 name) as [n n' Hn|]; inversion HR2; constructor.
    by exists n'. }
  destruct e1 as [|e1 es1].
  2:{ split_and!; [intros [Hne|?]; [by destruct Hne; destruct HR1|done]|done|apply Hown; reflexivity]. }
  pose proof (removeDriverMajorLabels_spec w1 sel) as H2. destruct (removeDriverMajorLabels w1 sel) as [w2 e2].
  destruct H2 as [HR2 Hc2]. destruct e2 as [|e2 es2].
  2:{ split_and!; [intros [Hne|?]; [destruct Hne, HR1, HR2; congruence|done]|done|by apply Hown]. }
  pose proof (Update_finalizers_writes w2 (RemoveFinalizer (finalizers w) NodeConditionCleanupFinalizer)) as Hu.
  destruct (Update_finalizers _ _) as [w' e]. destruct Hu as [Hn Hu]. rewrite Hn. split_and!.
  - intros _. eapply both_sweeps_clean; eauto.
  - intros He f. destruct e; [done|]. rewrite Hu. apply RemoveFinalizer_spec.
  - by apply Hown.
Qed.

(** The driver-upgrade evaluation.  Unless the list call itself fails, an upgrade is reported
    exactly when a targeted node is counted as upgrading; if no call fails, no such node keeps
    the Ready condition; and nothing else happens: a node that is not counted, in particular
    any node the daemons may be placed on, is untouched, and so are the labels and the other
    conditions of the counted ones. *)
Theorem upgrade_clears_ready `{!NodeSelectionLaws selection} w sel :
  let '(w', upgrading, errs) := evaluateDriverUpgrade w sel in
  ((∀ e, ListingNodes e ∉ errs) →
   (upgrading = true ↔ ∃ name n, nodes w !! name = Some n ∧ counted_upgrading sel (node_labels n) = true)) ∧
  (errs = [] → ∀ name n, nodes w' !! name = Some n → counted_upgrading sel (node_labels n) = true → has_condition n = false) ∧
  (∀ name n, nodes w !! name = Some n → daemon_placed sel (node_labels n) = true → nodes w' !! name = Some n) ∧
  on_nodes less_condition w w'.
Proof.
  unfold evaluateDriverUpgrade. pose proof (List_matching_reads w sel upgrading_requirements) as Hl.
  destruct (List_matching _ _ _) as [w1 r]. destruct Hl as (Hn & Hf & Hl).
  destruct r as [l|e].
  2:{ split_and!; [intros Hno; by destruct (Hno e); apply list_elem_of_singleton|done|by rewrite Hn|].
      split; [done|]. rewrite Hn. by intros m; reflexivity. }
  specialize (Hl l eq_refl).
  pose proof (fold_clean less_condition has_condition RemoveNodeCondition remove_condition_step
    remove_condition_step_eq RemoveNodeCondition_spec has_condition_mono l w1 []) as Hs.
  destruct (fold_left _ _ _) as [w' errs]. destruct Hs as ([Hf' HR] & Hoth & new & -> & Hnew). cbn [app].
  rewrite Hn in HR, Hoth. split_and!.
  - intros _. rewrite negb_true_iff, bool_decide_eq_false. split.
    + destruct l as [|[name n] l]; [done|]. intros _. exists name, n. apply Hl. by left.
    + intros (name & n & Hx) ->. apply Hl in Hx. by apply elem_of_nil in Hx.
  - intros -> name n' Hn' Hcount. specialize (HR name). rewrite Hn' in HR. inversion HR as [n ? Hless Hw|]; subst.
    symmetry in Hw. rewrite (proj1 Hless) in Hcount. eapply (Hnew eq_refl name n); [by apply Hl| |done].
    intros Hd n0. rewrite Hn, Hw. by intros [= <-].
  - intros name n Hname Hplaced. rewrite Hoth; [done|]. intros ([name' n''] & -> & Hin)%list_elem_of_fmap.
    apply Hl in Hin as [Hin Hc]. cbn in Hname. rewrite Hname in Hin. injection Hin as <-.
    apply andb_prop in Hc as [_ Hc]. unfold daemon_placed in Hplaced.
    by rewrite affinity_spec, Hc, andb_false_r in Hplaced.
  - split; [congruence|done].
Qed.

(** ** The driver label, from mpsd to the operator *)

Lemma FormatInt_pos_plain m : 0 < m → plain (FormatInt m).
Proof.
  intros Hm. destruct m as [|p|p]; [done| |done]. unfold plain, FormatInt. cbn [Z.to_int DecimalString.NilZero.string_of_int].
  destruct (pos_uint_head p) as (a & r & -> & Ha & _ & Hr).
  assert (Hd : ∀ b, is_digit b = true → is_plain b = true).
  { intros [[] [] [] [] [] [] [] []]; vm_compute; done. }
  apply list.Forall_cons. split; [by apply Hd|]. eapply list.Forall_impl; [exact Hr|]. apply Hd.
Qed.

Lemma ParseInt_range s z : ParseInt s = Some z → in_int64 z.
Proof. unfold ParseInt. destruct (decimal_value s) as [z'|]; [|done]. case_bool_decide; [|done]. by intros [= <-]. Qed.

Lemma parsePositiveInt_inv value m : parsePositiveInt value = Ok m → ParseInt value = Some m ∧ 0 < m.
Proof.
  unfold parsePositiveInt. destruct (String.eqb value ""); [done|]. destruct (ParseInt value) as [z|]; [|done].
  destruct (z <=? 0) eqn:E; [done|]. intros [= ->]. split; [done|lia].
Qed.

(** The label value mpsd writes is read back as the same major version. *)
Lemma driver_label_roundtrip version m : ParseDriverVersionMajor version = Ok m →
  0 < m ∧ TrimSpace (FormatInt m) = FormatInt m ∧ ParseDriverMajorLabel (FormatInt m) = Ok m.
Proof.
  unfold ParseDriverVersionMajor. destruct (String.eqb _ ""); [done|].
  intros [Hp Hm]%parsePositiveInt_inv. pose proof (TrimSpace_plain _ (FormatInt_pos_plain m Hm)) as Ht.
  split_and!; [done|done|]. unfold ParseDriverMajorLabel. rewrite Ht. unfold parsePositiveInt.
  rewrite (proj2 (String.eqb_neq _ _) (FormatInt_nonempty m)).
  rewrite ParseInt_FormatInt by (by eapply ParseInt_range). by rewrite (proj2 (Z.leb_gt m 0) Hm).
Qed.

(** C34: the driver version travels from NVML to the operator.  When mpsd has labelled its node,
    NVML reported a version with a positive major number, and what the operator says of the
    node's driver is exactly the comparison of that number with the supported minimum: no
    complaint from 615 on, an unsupported driver below, and never a missing or invalid label;
    nothing else on any node changed.  When mpsd fails, no other node changed. *)
Theorem driver_label_reaches_checker w nodeName init version ret in_cluster :
  let '(w', err) := LabelCurrentNode w nodeName init (version, ret) in_cluster in
  (∀ m, m ≠ nodeName → nodes w' !! m = nodes w !! m) ∧
  (err = None → ∃ major n n',
     ParseDriverVersionMajor (TrimSpace version) = Ok major ∧
     nodes w !! nodeName = Some n ∧ nodes w' !! nodeName = Some n' ∧
     node_conditions n' = node_conditions n ∧
     node_labels n' = <[NVIDIADriverMajorLabel := FormatInt major]> (node_labels n) ∧
     fst <$> gpuDriverFailureReason n' =
       if major <? minGPUDriverMajor then Some ReasonGPUDriverVersionUnsupported else None).
Proof.
  unfold LabelCurrentNode. destruct (String.eqb nodeName ""); [done|].
  unfold driverVersionFromNVML. destruct (negb _); [done|]. destruct (negb _); [done|].
  destruct (String.eqb (TrimSpace version) ""); [done|].
  destruct (ParseDriverVersionMajor (TrimSpace version)) as [major|] eqn:Ev; [|done].
  unfold patchNodeDriverMajor, driverMajorLabelPatch. destruct in_cluster; [done|].
  destruct (driver_label_roundtrip _ _ Ev) as (Hpos & Htrim & Hread).
  rewrite (proj2 (Z.leb_gt major 0) Hpos).
  pose proof (Patch_node_writes w nodeName (SetLabel NVIDIADriverMajorLabel (FormatInt major))) as Hp.
  destruct (Patch_node _ _ _) as [w' e]. destruct Hp as (_ & Hoth & He). split; [done|].
  destruct e; [done|]. intros _. destruct He as (n & n' & Hn & Hn' & Hc & Hl). exists major, n, n'. split_and!; try done.
  unfold gpuDriverFailureReason. rewrite Hl, lookup_insert_eq. cbn [default]. unfold id at 1 2. rewrite Htrim, Hread.
  rewrite (proj2 (String.eqb_neq _ _) (FormatInt_nonempty major)). by destruct (major <? minGPUDriverMajor).
Qed.
End Laws.

(** ** A cluster whose calls succeed

    An API server that holds the nodes and the finalizers in memory satisfies the laws. *)

Record cluster := mkCluster { stored_nodes : gmap string Node; stored_finalizers : list string }.

Definition drop_condition (t : string) (cs : list NodeCondition) : list NodeCondition :=
  List.filter (λ c, negb (String.eqb (NType c) t)) cs.
Definition patched_status (p : StatusPatch) (n : Node) : Node :=
  mkNode (node_labels n)
    match p with
    | UpsertCondition c => c :: drop_condition (NType c) (node_conditions n)
    | DeleteCondition t => drop_condition t (node_conditions n)
    end.
Definition patched_labels (p : LabelPatch) (n : Node) : Node :=
  mkNode match p with SetLabel k v => <[k := v]> (node_labels n) | DeleteLabel k => delete k (node_labels n) end
    (node_conditions n).
Definition on_stored (f : Node → Node) (w : cluster) (name : string) : cluster * option ApiError :=
  match stored_nodes w !! name with
  | Some n => (mkCluster (<[name := f n]> (stored_nodes w)) (stored_finalizers w), None)
  | None => (w, Some NotFound)
  end.

#[local] Existing Instance k8s_selection.
#[local] Existing Instance k8s_selection_laws.

#[local] Instance cluster_api : ClusterAPI cluster := {|
  Now _ := 7;
  ctx_err _ := false;
  Get_node w name := (w, match stored_nodes w !! name with Some n => Ok n | None => Err NotFound end);
  Patch_status w name p := on_stored (patched_status p) w name;
  Patch_node w name p := on_stored (patched_labels p) w name;
  List_nodes w sel := (w, LastPage (List.filter (λ e, selects sel (node_labels e.2)) (map_to_list (stored_nodes w))));
  List_matching w sel reqs :=
    (w, Ok (List.filter (λ e, selects sel (node_labels e.2) && forallb (λ q, matches q (node_labels e.2)) reqs)
              (map_to_list (stored_nodes w))));
  Update_finalizers w fs := (mkCluster (stored_nodes w) fs, None);
  ContainsFinalizer fs f := bool_decide (f ∈ fs);
  RemoveFinalizer fs f := List.filter (λ g, negb (String.eqb g f)) fs
|}.

Lemma find_drop_condition t t' cs :
  List.find (λ c, String.eqb (NType c) t) (drop_condition t' cs) =
  if String.eqb t' t then None else List.find (λ c, String.eqb (NType c) t) cs.
Proof.
  unfold drop_condition. induction cs as [|c cs IH]; cbn; [by destruct (String.eqb t' t)|].
  destruct (String.eqb_spec (NType c) t') as [He|He]; cbn.
  - rewrite IH, He. destruct (String.eqb_spec t' t); done.
  - destruct (String.eqb_spec (NType c) t) as [<-|]; [|done]. by rewrite (proj2 (String.eqb_neq _ _)) by congruence.
Qed.

Lemma patched_status_ok p n : apply_status_patch p n (patched_status p n).
Proof.
  split; [done|]. destruct p as [c|t']; intros t; unfold find_node_condition; cbn; rewrite find_drop_condition; [|done].
  by destruct (String.eqb (NType c) t).
Qed.

Lemma on_stored_writes change f w name : (∀ n, change n (f n)) → let '(w', e) := on_stored f w name in
  stored_finalizers w' = stored_finalizers w ∧ writes_node stored_nodes change w w' name e.
Proof.
  intros Hch. unfold on_stored. destruct (stored_nodes w !! name) as [n|] eqn:En; (split; [done|]); split; cbn.
  - intros m Hm. by rewrite lookup_insert_ne.
  - exists n, (f n). by rewrite lookup_insert_eq.
  - done.
  - done.
Qed.

Lemma elem_of_Filter {X} (f : X → bool) l x : x ∈ List.filter f l ↔ x ∈ l ∧ f x = true.
Proof. rewrite !list_elem_of_In. apply filter_In. Qed.

#[local] Instance cluster_laws : ClusterLaws cluster.
Proof.
  refine {| nodes := stored_nodes; finalizers := stored_finalizers;
            Get_node_reads := _; Patch_status_writes := _; Patch_node_writes := _; List_nodes_reads := _;
            List_matching_reads := _; Update_finalizers_writes := _; ContainsFinalizer_spec := _; RemoveFinalizer_spec := _ |}.
  - intros w name. cbn. split_and!; [done|done|]. intros n. destruct (stored_nodes w !! name); [|done]. by intros [= ->].
  - intros w name p. apply on_stored_writes. intros n. apply patched_status_ok.
  - intros w name p. by apply on_stored_writes.
  - intros w sel. cbn [List_nodes cluster_api]. split_and!; [done|done|]. intros _ name n.
    cbn [items]. by rewrite elem_of_Filter, elem_of_map_to_list.
  - intros w sel reqs. cbn [List_matching cluster_api]. split_and!; [done|done|]. intros l [= <-] name n.
    by rewrite elem_of_Filter, elem_of_map_to_list.
  - done.
  - intros fs f. apply bool_decide_eq_true.
  - intros fs f g. cbn. rewrite elem_of_Filter, negb_true_iff. by rewrite String.eqb_neq.
Defined.

(** Two GPU nodes, one of them upgrading, with a stale Ready condition each. *)
Definition stale : NodeCondition := mkNodeCondition NodeConditionType ConditionTrue 1 1 ReasonAllDaemonsReady MessageAllDaemonsReady.
Definition pressure : NodeCondition := mkNodeCondition "MemoryPressure" ConditionFalse 1 1 "KubeletHasSufficientMemory" "".
Definition sample_cluster : cluster := mkCluster
  {["n1" := mkNode {["gpu" := "a"; GPUDeployClientLabel := "true"; NVIDIADriverMajorLabel := "580"]} [pressure; stale];
    "n2" := mkNode {["gpu" := "a"; GPUDeployClientLabel := "true"; DriverUpgradeStateLabel := "cordon-required"]} [stale]]}
  [NodeConditionCleanupFinalizer].

Definition sample_pod (node : string) (ready : bool) : Pod :=
  mkPod node {[LabelComponent := "mpsd"]} [("Ready", if ready then "True" else "False")] "Running" [] [Some "CrashLoopBackOff"].

(** A crashing mpsd on n1, listed before the healthy fractiond of the next page. *)
Lemma nodes_reflect_pods_witness :
  let '(w', unhealthy, errs, gauges) :=
    patchNodeConditions sample_cluster (Page [sample_pod "n1" false; sample_pod "" false] (LastPage [sample_pod "n1" true; sample_pod "n2" true])) in
  node_status (stored_nodes w') "n1" = Some ConditionFalse ∧ node_status (stored_nodes w') "n2" = Some ConditionTrue ∧
  unhealthy = true ∧ errs = [] ∧ gauges = Some (1, 1).
Proof.
  set (pages := Page [sample_pod "n1" false; sample_pod "" false] (LastPage [sample_pod "n1" true; sample_pod "n2" true])).
  pose proof (nodes_reflect_pods sample_cluster pages) as H.
  assert (Hrun : (patchNodeConditions sample_cluster pages).1.2 = [] ∧ (patchNodeConditions sample_cluster pages).2 = Some (1, 1)) by done.
  destruct (patchNodeConditions sample_cluster pages) as [[[w' unhealthy] errs] gauges].
  destruct Hrun as [Herrs Hg]. cbn [fst snd] in Herrs, Hg. subst errs gauges. destruct H as (Hs & _ & _ & Hu & _).
  split_and!; [| | |done|done].
  - etransitivity; [apply (Hs "n1"); [|set_solver]|done]. split; [done|]. exists (sample_pod "n1" false). split; [by left|done].
  - etransitivity; [apply (Hs "n2"); [|set_solver]|done]. split; [done|]. exists (sample_pod "n2" true). split; [|done]. by do 3 right; left.
  - apply Hu. exists (sample_pod "n1" false). split; [by left|done].
Defined.

Lemma deletion_waits_for_cleanup_witness :
  let '(w', errs) := reconcileDelete sample_cluster [NodeConditionCleanupFinalizer] {["gpu" := "a"]} in
  errs = [] ∧ ∃ n', stored_nodes w' !! "n1" = Some n' ∧ cleaned n'.
Proof.
  pose proof (deletion_waits_for_cleanup sample_cluster {["gpu" := "a"]} (list_elem_of_here _ [])) as H.
  assert (Hrun : (reconcileDelete sample_cluster [NodeConditionCleanupFinalizer] {["gpu" := "a"]}).2 = []) by done.
  cbn [finalizers cluster_laws stored_finalizers sample_cluster] in H.
  destruct (reconcileDelete _ _ _) as [w' errs]. cbn [snd] in Hrun. subst errs. destruct H as (H & _ & _).
  split; [done|]. eapply (H (or_intror eq_refl) "n1"); [reflexivity|done].
Defined.

Lemma upgrade_clears_ready_witness :
  let '(w', upgrading, errs) := evaluateDriverUpgrade sample_cluster {["gpu" := "a"]} in
  upgrading = true ∧ errs = [] ∧ stored_nodes w' !! "n1" = stored_nodes sample_cluster !! "n1".
Proof.
  pose proof (upgrade_clears_ready sample_cluster {["gpu" := "a"]}) as H.
  assert (Hrun : (evaluateDriverUpgrade sample_cluster {["gpu" := "a"]}).2 = []) by done.
  destruct (evaluateDriverUpgrade _ _) as [[w' upgrading] errs]. cbn [snd] in Hrun. subst errs.
  destruct H as (Hup & _ & Hkept & _). split_and!; [|done|].
  - apply Hup; [set_solver|]. eexists "n2", _. split; [reflexivity|done].
  - eapply (Hkept "n1"); [reflexivity|done].
Defined.

Lemma driver_label_reaches_checker_witness :
  let '(w', err) := LabelCurrentNode sample_cluster "n2" SUCCESS ("615.43.02", SUCCESS) None in
  err = None ∧ ∃ n', stored_nodes w' !! "n2" = Some n' ∧ gpuDriverFailureReason n' = None.
Proof.
  pose proof (driver_label_reaches_checker sample_cluster "n2" SUCCESS "615.43.02" SUCCESS None) as H.
  assert (Hrun : (LabelCurrentNode sample_cluster "n2" SUCCESS ("615.43.02", SUCCESS) None).2 = None) by done.
  destruct (LabelCurrentNode _ _ _ _ _) as [w' err]. cbn [snd] in Hrun. subst err. split; [done|].
  destruct (proj2 H eq_refl) as (major & n & n' & Hv & _ & Hn' & _ & _ & Hr). exists n'. split; [done|].
  assert (Hm : ParseDriverVersionMajor (TrimSpace "615.43.02") = Ok 615) by done. rewrite Hm in Hv. injection Hv as <-.
  by destruct (gpuDriverFailureReason n') as [[? ?]|].
Defined.
