(* ===== verification/GpuStack.v ===== *)
(** * operator: the GPU stack checks

    [controller/clusterpolicy.go] and the GPU Operator part of
    [controller/dependency_checker.go]: what the ClusterPolicy says, the version
    gates and how they decide the Ready condition.

    The ClusterPolicy is an unstructured object read through the helpers of
    k8s.io/apimachinery, versions are compared by golang.org/x/mod/semver: both
    are classes ([Unstructured], [Semver]), with the documented behaviour the
    code relies on as laws.  [Quote] is [%q]. *)

From Stdlib Require Import ZArith Lia String Ascii.
From stdpp Require Import base gmap list strings.
From S2P Require Import Prelude GoStrings Json Status NodeStatus.

#[local] Open Scope string_scope.
#[local] Open Scope list_scope.
#[local] Open Scope Z_scope.

(** ** Libraries *)

(** [Obj] is Go's [any] as the JSON decoder fills it.  A failing accessor returns the zero
    value and not found, whichever the reason: the code never looks at the error. *)
Class Unstructured (Obj : Type) := {
  NestedString : Obj → list string → string * bool;
  NestedBool : Obj → list string → option bool;
  NestedSlice : Obj → list string → option (list Obj);
  as_map : Obj → option Obj;                       (** the assertion [.(map[string]any)] *)
  GetLabels : Obj → labels_map;
  GetName : Obj → string;
  Quote : string → string
}.

Class Semver := {
  IsValid : string → bool;
  Canonical : string → string;
  Compare : string → string → Z
}.

(** ** Strings *)

(** [strings.IndexAny(s, "-+")] splits the string there. *)
Fixpoint splitSemverSuffix (version : string) : string * string :=
  match version with
  | EmptyString => ("", "")
  | String c r =>
      if Ascii.eqb c "-" || Ascii.eqb c "+" then ("", version)
      else let '(main, suffix) := splitSemverSuffix r in (String c main, suffix)
  end.

(** [strings.Count(s, ".")] *)
Fixpoint count_dots (s : string) : Z :=
  match s with EmptyString => 0 | String c r => (if Ascii.eqb c "." then 1 else 0) + count_dots r end.

Definition to_lower (a : ascii) : ascii :=
  let n := N_of_ascii a in if ((65 <=? n) && (n <=? 90))%N then ascii_of_N (n + 32) else a.

(** [strings.EqualFold] with an ASCII word none of whose letters folds to a letter outside
    ASCII (neither k nor s). *)
Definition EqualFold (s word : string) : bool :=
  bool_decide (map to_lower (bytes_of s) = map to_lower (bytes_of word)).

(** [strings.ToUpper], as far as a search for ASCII letters can see: of the letters outside
    ASCII only the dotless i and the long s have an ASCII capital, and the bytes of the others
    are never ASCII. *)
Fixpoint upper_bytes (l : list ascii) : list ascii :=
  match l with
  | "196"%char :: ("177"%char :: r) => "I"%char :: upper_bytes r
  | "197"%char :: ("191"%char :: r) => "S"%char :: upper_bytes r
  | a :: r =>
      let n := N_of_ascii a in
      (if ((97 <=? n) && (n <=? 122))%N then ascii_of_N (n - 32) else a) :: upper_bytes r
  | [] => []
  end.
Definition ToUpper (s : string) : string := string_of_list_ascii (upper_bytes (bytes_of s)).

Section GpuStack.
Context {Obj : Type} `{Unstructured Obj, Semver}.

(** ** clusterpolicy.go *)

Definition nriManagementCDIDeviceNamespacesEnv : string := "NRI_MANAGEMENT_CDI_DEVICE_NAMESPACES".

(** What listing a resource returned: no such API (or not found), another error, or items. *)
Inductive Listing := Absent | ListFailed (msg : string) | Listed (items : list Obj).

Record ClusterPolicy := mkClusterPolicy { Policy : option Obj; PolicyErr : option string }.

Definition ReadClusterPolicy (list : Listing) : ClusterPolicy :=
  match list with
  | Absent => mkClusterPolicy None None
  | ListFailed msg => mkClusterPolicy None (Some msg)
  | Listed [] => mkClusterPolicy None None
  | Listed (policy :: _) => mkClusterPolicy (Some policy) None
  end.

Definition NRIPluginEnabled (p : ClusterPolicy) : bool :=
  match Policy p with
  | None => false
  | Some policy => default false (NestedBool policy ["spec"; "cdi"; "nriPluginEnabled"])
  end.

Definition env_namespaces (item : Obj) : list string :=
  match as_map item with
  | None => []
  | Some entry =>
      if negb (String.eqb (NestedString entry ["name"]).1 nriManagementCDIDeviceNamespacesEnv) then []
      else List.filter (λ ns, negb (String.eqb ns "")) (map TrimSpace (Split (NestedString entry ["value"]).1 ","))
  end.

Definition ManagementCDIDeviceNamespaces (p : ClusterPolicy) : list string :=
  match Policy p with
  | None => []
  | Some policy =>
      match NestedSlice policy ["spec"; "toolkit"; "env"] with
      | None => []
      | Some env => concat (map env_namespaces env)
      end
  end.

(** ** dependency_checker.go: versions *)

Definition clusterPolicyVersionLabel : string := "app.kubernetes.io/version".
Definition minimumGPUOperatorVersion : string := "v26.7.1".
Definition clusterPolicyReadyState : string := "ready".
Definition clusterPolicyReadyCondition : string := "Ready".
Definition clusterPolicyErrorCondition : string := "Error".
Definition clusterServiceVersionPrefix : string := "gpu-operator".
Definition gpuOperatorProviderSubstring : string := "NVIDIA".

Record gpuOperandRequirement := mkRequirement { operand_name : string; specPath : list string; minVersion : string }.
Definition gpuOperandRequirements : list gpuOperandRequirement :=
  [mkRequirement "container toolkit" ["spec"; "toolkit"; "version"] "v1.20.1";
   mkRequirement "device plugin" ["spec"; "devicePlugin"; "version"] "v0.20.1"].

Definition normalizeOperandVersion (version : string) : option string :=
  let core := (splitSemverSuffix (TrimSpace version)).1 in
  if String.eqb core "" then None
  else
    let core := if HasPrefix core "v" then core else "v" +:+ core in
    if IsValid core then Some (Canonical core) else None.

Definition normalizeGPUOperatorVersion (version : string) : option string :=
  let normalized := TrimSpace version in
  if String.eqb normalized "" then None
  else
    let normalized := if HasPrefix normalized "v" then normalized else "v" +:+ normalized in
    if IsValid normalized then Some (Canonical normalized)
    else
      let '(main, suffix) := splitSemverSuffix normalized in
      if count_dots main =? 1 then
        let withPatch := main +:+ ".0" +:+ suffix in
        if IsValid withPatch then Some (Canonical withPatch) else None
      else None.

Definition gpuOperatorVersionFailureMessage (rawVersion source : string) : string :=
  let rawVersion := TrimSpace rawVersion in
  if String.eqb rawVersion "" then
    "NVIDIA GPU Operator version from " +:+ source +:+ " is missing; minimum supported version is " +:+ minimumGPUOperatorVersion
  else match normalizeGPUOperatorVersion rawVersion with
  | None =>
      "NVIDIA GPU Operator version " +:+ Quote rawVersion +:+ " from " +:+ source
      +:+ " is invalid; minimum supported version is " +:+ minimumGPUOperatorVersion
  | Some version =>
      if Compare (splitSemverSuffix version).1 minimumGPUOperatorVersion <? 0 then
        "NVIDIA GPU Operator version " +:+ rawVersion +:+ " from " +:+ source
        +:+ " is below minimum supported version " +:+ minimumGPUOperatorVersion
      else ""
  end.

(** The loop over the operands: the failure message, and the operands without a version so far. *)
Fixpoint operand_failure (clusterPolicy : Obj) (operands : list gpuOperandRequirement) (defaulted : list string)
    : string * list string :=
  match operands with
  | [] => ("", defaulted)
  | operand :: rest =>
      let rawVersion := TrimSpace (NestedString clusterPolicy (specPath operand)).1 in
      if String.eqb rawVersion "" then operand_failure clusterPolicy rest (defaulted ++ [operand_name operand])
      else match normalizeOperandVersion rawVersion with
      | None => operand_failure clusterPolicy rest defaulted
      | Some version =>
          if Compare version (minVersion operand) <? 0 then
            ("NVIDIA " +:+ operand_name operand +:+ " version " +:+ rawVersion +:+ " from ClusterPolicy "
             +:+ Join (specPath operand) "." +:+ " is below minimum supported version " +:+ minVersion operand, defaulted)
          else operand_failure clusterPolicy rest defaulted
      end
  end.
Definition gpuOperandVersionFailureMessage (clusterPolicy : Obj) : string * list string :=
  operand_failure clusterPolicy gpuOperandRequirements [].

Definition gpuOperatorVersionFromClusterPolicy (clusterPolicy : Obj) : string :=
  TrimSpace (default "" (GetLabels clusterPolicy !! clusterPolicyVersionLabel)).

(** Another vendor's CSV: a declared provider that does not name NVIDIA. *)
Definition other_provider (csv : Obj) : bool :=
  let '(provider, found) := NestedString csv ["spec"; "provider"; "name"] in
  found && negb (String.eqb provider "") && negb (Contains (ToUpper provider) gpuOperatorProviderSubstring).

(** The version of the GPU Operator's ClusterServiceVersion, if there is one. *)
Definition clusterServiceVersionGPUOperatorVersion (list : Listing) : result string (option string) :=
  match list with
  | Absent => Ok None
  | ListFailed msg => Err ("failed to list ClusterServiceVersions: " +:+ msg)
  | Listed items =>
      match List.find (λ csv, HasPrefix (GetName csv) clusterServiceVersionPrefix && negb (other_provider csv)) items with
      | None => Ok None
      | Some csv => Ok (Some (TrimSpace (NestedString csv ["spec"; "version"]).1))
      end
  end.

(** The version, the source to name, and whether a version was found. *)
Definition gpuOperatorVersion (clusterPolicy : option Obj) (csvs : Listing) : result string (string * string * bool) :=
  let source := match clusterPolicy with
                | None => "ClusterServiceVersion"
                | Some _ => "ClusterPolicy label " +:+ Quote clusterPolicyVersionLabel
                end in
  let version := match clusterPolicy with Some p => gpuOperatorVersionFromClusterPolicy p | None => "" end in
  if negb (String.eqb version "") then Ok (version, source, true)
  else match clusterServiceVersionGPUOperatorVersion csvs with
  | Err e => Err e
  | Ok None => Ok ("", source, false)
  | Ok (Some csvVersion) => Ok (csvVersion, "ClusterServiceVersion", true)
  end.

Definition versionDiscoveryErrorMessage (err : string) : string :=
  "unable to discover NVIDIA GPU Operator version from ClusterPolicy or ClusterServiceVersion: " +:+ err.

Definition ReasonGPUOperatorNotReady : string := "GPUOperatorNotReady".
Definition ReasonGPUOperatorVersionUnsupported : string := "GPUOperatorVersionUnsupported".
Definition ReasonGPUOperandVersionUnsupported : string := "GPUOperandVersionUnsupported".
Definition ReasonManagementCDINamespaceNotAllowed : string := "ManagementCDINamespaceNotAllowed".

(** The checker: [csvs] is what listing the ClusterServiceVersions returns, if they are listed,
    [cancelled] whether the context is done when a read has failed. *)
Record checker := mkChecker { skipVersionChecks : bool; checker_namespace : string }.

(** Reason and message, empty when there is no failure; [Err] is a read cut short. *)
Definition versionFailure (c : checker) (csvs : Listing) (cancelled : bool) (clusterPolicy : option Obj)
    : result string (string * string) :=
  let discovery_failed err :=
    if cancelled then Err err else Ok (ReasonGPUOperatorNotReady, versionDiscoveryErrorMessage err) in
  if skipVersionChecks c then Ok ("", "")
  else match clusterPolicy with
  | Some policy =>
      let '(msg, defaulted) := gpuOperandVersionFailureMessage policy in
      if negb (String.eqb msg "") then Ok (ReasonGPUOperandVersionUnsupported, msg)
      else if bool_decide (defaulted = []) then Ok ("", "")
      else match gpuOperatorVersion clusterPolicy csvs with
      | Err err => discovery_failed err
      | Ok (version, source, _) =>
          let msg := gpuOperatorVersionFailureMessage version source in
          if negb (String.eqb msg "") then
            Ok (ReasonGPUOperatorVersionUnsupported,
                msg +:+ ", and it supplies the default " +:+ Join defaulted " and "
                +:+ " version that the ClusterPolicy leaves unset")
          else Ok ("", "")
      end
  | None =>
      match gpuOperatorVersion clusterPolicy csvs with
      | Err err => discovery_failed err
      | Ok (version, source, found) =>
          if negb found then Ok ("", "")
          else
            let msg := gpuOperatorVersionFailureMessage version source in
            if negb (String.eqb msg "") then Ok (ReasonGPUOperatorVersionUnsupported, msg) else Ok ("", "")
      end
  end.

Definition managementCDINamespaceFailureMessage (c : checker) (clusterPolicy : ClusterPolicy) : string :=
  if negb (NRIPluginEnabled clusterPolicy) then ""
  else if bool_decide (checker_namespace c ∈ ManagementCDIDeviceNamespaces clusterPolicy) then ""
  else
    "NVIDIA GPU Operator runs its NRI plugin, but namespace " +:+ Quote (checker_namespace c)
    +:+ " is not permitted to request management CDI devices, so the gpu-fractioning daemon pods cannot access a GPU."
    +:+ " Add it to the " +:+ nriManagementCDIDeviceNamespacesEnv
    +:+ " environment variable in the ClusterPolicy spec.toolkit.env.".

(** *** Readiness of the ClusterPolicy *)

(** The status and the message of the first condition of the type. *)
Definition clusterPolicyCondition (clusterPolicy : Obj) (condType : string) : option (string * string) :=
  match NestedSlice clusterPolicy ["status"; "conditions"] with
  | None => None
  | Some conditions =>
      match List.find (λ c, String.eqb (NestedString c ["type"]).1 condType) (omap as_map conditions) with
      | None => None
      | Some c => Some ((NestedString c ["status"]).1, (NestedString c ["message"]).1)
      end
  end.

Definition conditionStatusIsTrue (status : string) : bool := EqualFold (TrimSpace status) ConditionTrue.
Definition conditionStatusText (status : string) : string := if String.eqb (TrimSpace status) "" then "Unknown" else status.

Definition policy_state_message (clusterPolicy : Obj) : string :=
  let '(state, found) := NestedString clusterPolicy ["status"; "state"] in
  if found && negb (EqualFold (TrimSpace state) clusterPolicyReadyState) then
    "NVIDIA GPU Operator ClusterPolicy state is " +:+ Quote state +:+ ", expected " +:+ Quote clusterPolicyReadyState
  else if negb found && negb (bool_decide (is_Some (clusterPolicyCondition clusterPolicy clusterPolicyReadyCondition)))
  then "NVIDIA GPU Operator ClusterPolicy status does not report readiness"
  else "".

Definition policy_ready_message (clusterPolicy : Obj) : string :=
  match clusterPolicyCondition clusterPolicy clusterPolicyReadyCondition with
  | Some (status, message) =>
      if negb (conditionStatusIsTrue status) then
        if negb (String.eqb message "") then message
        else "NVIDIA GPU Operator ClusterPolicy Ready condition is " +:+ conditionStatusText status
      else policy_state_message clusterPolicy
  | None => policy_state_message clusterPolicy
  end.

Definition clusterPolicyReadinessFailureMessage (clusterPolicy : Obj) : string :=
  match clusterPolicyCondition clusterPolicy clusterPolicyErrorCondition with
  | Some (status, message) =>
      if conditionStatusIsTrue status then
        if negb (String.eqb message "") then message else "NVIDIA GPU Operator ClusterPolicy reports Error=True"
      else policy_ready_message clusterPolicy
  | None => policy_ready_message clusterPolicy
  end.

(** *** [GpuOperatorDependencyChecker.Check] *)

Definition gpuOperatorReadyCondition (generation : Z) (reason message : string) (now : Z) : Condition :=
  mkCondition ConditionReady ConditionFalse generation now reason message.

(** Does the check list the ClusterServiceVersions? *)
Definition consults_csvs (c : checker) (clusterPolicy : ClusterPolicy) : bool :=
  match PolicyErr clusterPolicy with
  | Some _ => false
  | None =>
      negb (skipVersionChecks c) &&
      match Policy clusterPolicy with
      | Some policy =>
          let '(msg, defaulted) := gpuOperandVersionFailureMessage policy in
          String.eqb msg "" && negb (bool_decide (defaulted = [])) && String.eqb (gpuOperatorVersionFromClusterPolicy policy) ""
      | None => true
      end
  end.

(** The Ready condition to write, and the error of a read cut short. *)
Definition Check (c : checker) (csvs : Listing) (cancelled : bool) (clusterPolicy : ClusterPolicy)
    (generation now : Z) (ready : Condition) : Condition * option string :=
  match PolicyErr clusterPolicy with
  | Some err =>
      if cancelled then (ready, Some err)
      else (gpuOperatorReadyCondition generation ReasonGPUOperatorNotReady
              ("unable to read NVIDIA GPU Operator ClusterPolicy: " +:+ err) now, None)
  | None =>
      match versionFailure c csvs cancelled (Policy clusterPolicy) with
      | Err err => (ready, Some err)
      | Ok (reason, message) =>
          if negb (String.eqb reason "") then (gpuOperatorReadyCondition generation reason message now, None)
          else match Policy clusterPolicy with
          | None => (ready, None)
          | Some policy =>
              let msg := managementCDINamespaceFailureMessage c clusterPolicy in
              if negb (String.eqb msg "") then
                (gpuOperatorReadyCondition generation ReasonManagementCDINamespaceNotAllowed msg now, None)
              else if String.eqb (CStatus ready) ConditionFalse then
                let msg := clusterPolicyReadinessFailureMessage policy in
                if negb (String.eqb msg "") then (gpuOperatorReadyCondition generation ReasonGPUOperatorNotReady msg now, None)
                else (ready, None)
              else (ready, None)
          end
      end
  end.
End GpuStack.
Arguments Listing : clear implicits.
Arguments ClusterPolicy : clear implicits.

(** ** Versions as numbers *)

Abbreviation version := (Z * Z * Z)%type.

Definition dotted (v : version) : string :=
  let '(a, b, c) := v in FormatInt a +:+ "." +:+ FormatInt b +:+ "." +:+ FormatInt c.
Definition nonneg_version (v : version) : Prop := let '(a, b, c) := v in 0 ≤ a ∧ 0 ≤ b ∧ 0 ≤ c.

Definition version_ltb (v w : version) : bool :=
  let '(a, b, c) := v in let '(a', b', c') := w in
  (a <? a') || (a =? a') && ((b <? b') || (b =? b') && (c <? c')).

(** Empty, or a pre-release or build suffix of visible characters. *)
Definition version_suffix (s : string) : Prop :=
  Forall (λ a, is_graph a = true) (bytes_of s) ∧
  match s with EmptyString => True | String c _ => (c = "-" ∨ c = "+")%char end.

(** What the code relies on of semver: release cores are valid and their own canonical form,
    they compare as numbers, and the canonical form of a valid version keeps its release core
    and at most a pre-release. *)
Class SemverLaws `(Semver) := {
  IsValid_core v : nonneg_version v → IsValid ("v" +:+ dotted v) = true;
  Canonical_core v : nonneg_version v → Canonical ("v" +:+ dotted v) = "v" +:+ dotted v;
  Compare_core v w : nonneg_version v → nonneg_version w →
    (Compare ("v" +:+ dotted v) ("v" +:+ dotted w) <? 0) = version_ltb v w;
  Canonical_keeps_core v s : nonneg_version v → version_suffix s → IsValid ("v" +:+ dotted v +:+ s) = true →
    ∃ pre, version_suffix pre ∧ Canonical ("v" +:+ dotted v +:+ s) = "v" +:+ dotted v +:+ pre
}.

(** The tag of a version, with or without the leading v, and a suffix. *)
Definition version_tag (raw : string) (v : version) : Prop :=
  nonneg_version v ∧ ∃ p s, (p = "" ∨ p = "v") ∧ version_suffix s ∧ raw = p +:+ dotted v +:+ s.

Lemma FormatInt_digits m : 0 ≤ m → Forall (λ a, is_digit a = true) (bytes_of (FormatInt m)).
Proof.
  intros Hm. destruct m as [|p|p]; [by repeat constructor| |done]. unfold FormatInt. cbn [Z.to_int DecimalString.NilZero.string_of_int].
  destruct (pos_uint_head p) as (a & r & -> & Ha & _ & Hr). by constructor.
Qed.

(** The characters of a release core. *)
Definition is_core (a : ascii) : bool := is_digit a || Ascii.eqb a "." || Ascii.eqb a "v".

Lemma is_digit_core a : is_digit a = true → is_core a = true.
Proof. unfold is_core. by intros ->. Qed.

Lemma is_core_graph a : is_core a = true → is_graph a = true.
Proof. destruct a as [[] [] [] [] [] [] [] []]; vm_compute; done. Qed.

Lemma dotted_core v : nonneg_version v → Forall (λ a, is_core a = true) (bytes_of (dotted v)).
Proof.
  destruct v as [[a b] c]. intros (Ha & Hb & Hc). unfold dotted. rewrite !bytes_of_app.
  assert (Hd : ∀ m, 0 ≤ m → Forall (λ a, is_core a = true) (bytes_of (FormatInt m))).
  { intros m Hm. eapply list.Forall_impl; [by apply FormatInt_digits|]. apply is_digit_core. }
  repeat (apply list.Forall_app; split); try (by apply Hd); by repeat constructor.
Qed.

Lemma dotted_nonempty v : dotted v ≠ "".
Proof.
  destruct v as [[a b] c]. unfold dotted. intros H. apply (f_equal String.length) in H. rewrite !str_length_app in H. cbn in H. lia.
Qed.

Lemma TrimSpace_visible s : Forall (λ a, is_graph a = true) (bytes_of s) → TrimSpace s = s.
Proof.
  intros H. destruct (bytes_of s) as [|a l] eqn:E.
  { destruct s; [done|]. by cbn in E. }
  destruct (exists_last (l := a :: l)) as (l' & z & Hz); [done|].
  apply (TrimSpace_graph s a l l' z); [done|congruence| |].
  - by inversion H.
  - rewrite Hz in H. apply list.Forall_app in H as [_ H]. by inversion H.
Qed.

Lemma split_core core s : Forall (λ a, is_core a = true) (bytes_of core) → version_suffix s →
  splitSemverSuffix (core +:+ s) = (core, s).
Proof.
  intros Hc [_ Hs]. induction core as [|a core IH].
  - rewrite str_app_nil_l. destruct s as [|c r]; [done|]. by destruct Hs as [-> | ->].
  - rewrite str_app_cons. cbn [splitSemverSuffix]. apply list.Forall_cons in Hc as [Ha Hc]. replace (Ascii.eqb a "-" || Ascii.eqb a "+") with false.
    + by rewrite IH.
    + destruct a as [[] [] [] [] [] [] [] []]; vm_compute in Ha |- *; done.
Qed.

Lemma version_tag_visible raw v : version_tag raw v → raw ≠ "" ∧ TrimSpace raw = raw.
Proof.
  intros (Hv & p & s & Hp & [Hs _] & ->). split.
  - intros H. apply (f_equal String.length) in H. rewrite !str_length_app in H. cbn in H.
    pose proof (dotted_nonempty v). destruct (dotted v); [done|]. cbn in H. lia.
  - apply TrimSpace_visible. rewrite !bytes_of_app. apply list.Forall_app. split; [by destruct Hp as [-> | ->]; repeat constructor|].
    apply list.Forall_app. split; [|done]. eapply list.Forall_impl; [by apply dotted_core|]. apply is_core_graph.
Qed.

Lemma HasPrefix_v_dotted v s : nonneg_version v → HasPrefix (dotted v +:+ s) "v" = false.
Proof.
  intros Hv. destruct v as [[a b] c]. destruct Hv as (Ha & _). unfold dotted. pose proof (FormatInt_digits a Ha) as Hd.
  pose proof (FormatInt_nonempty a). destruct (FormatInt a) as [|x r]; [done|]. cbn in Hd. apply list.Forall_cons in Hd as [Hx _].
  rewrite !str_app_assoc, str_app_cons, HasPrefix_cons. destruct (Ascii.eqb_spec x "v") as [->|]; [|done]. by vm_compute in Hx.
Qed.

Lemma HasPrefix_v s : HasPrefix ("v" +:+ s) "v" = true.
Proof. apply HasPrefix_spec. by exists s. Qed.

(** ** Lemmas: the gates *)

Section Gates.
Context {Obj : Type} {unstructured : Unstructured Obj} {semver : Semver} {laws : SemverLaws semver}.

Lemma normalize_tag raw v : version_tag raw v → normalizeOperandVersion raw = Some ("v" +:+ dotted v).
Proof.
  intros Htag. destruct (version_tag_visible _ _ Htag) as [_ Htrim]. destruct Htag as (Hv & p & s & Hp & Hs & ->).
  unfold normalizeOperandVersion. rewrite Htrim.
  assert (Hcore : splitSemverSuffix (p +:+ dotted v +:+ s) = (p +:+ dotted v, s)).
  { rewrite <- str_app_assoc. apply split_core; [|done]. rewrite bytes_of_app. apply list.Forall_app.
    split; [by destruct Hp as [-> | ->]; repeat constructor|by apply dotted_core]. }
  rewrite Hcore. cbn [fst].
  assert (Hnorm : (if HasPrefix (p +:+ dotted v) "v" then p +:+ dotted v else "v" +:+ p +:+ dotted v) = "v" +:+ dotted v).
  { destruct Hp as [-> | ->]; [|by rewrite HasPrefix_v]. rewrite str_app_nil_l. pose proof (HasPrefix_v_dotted v "" Hv) as Hpre.
    rewrite str_app_nil_r in Hpre. by rewrite Hpre. }
  rewrite Hnorm, IsValid_core, Canonical_core by done.
  destruct (String.eqb_spec (p +:+ dotted v) "") as [He|]; [|done].
  apply (f_equal String.length) in He. rewrite str_length_app in He. pose proof (dotted_nonempty v). destruct (dotted v); [done|]. cbn in He. lia.
Qed.

(** A tag the semver package accepts in full. *)
Definition valid_tag (raw : string) (v : version) : Prop :=
  nonneg_version v ∧ ∃ p s, (p = "" ∨ p = "v") ∧ version_suffix s ∧ raw = p +:+ dotted v +:+ s ∧
  IsValid ("v" +:+ dotted v +:+ s) = true.

Lemma valid_tag_tag raw v : valid_tag raw v → version_tag raw v.
Proof. intros (Hv & p & s & Hp & Hs & Hr & _). by split; [|exists p, s]. Qed.

Lemma operator_version_spec raw v source : valid_tag raw v →
  String.eqb (gpuOperatorVersionFailureMessage raw source) "" = negb (version_ltb v (26, 7, 1)).
Proof.
  intros Htag. destruct (version_tag_visible _ _ (valid_tag_tag _ _ Htag)) as [Hne Htrim].
  destruct Htag as (Hv & p & s & Hp & Hs & -> & Hvalid).
  unfold gpuOperatorVersionFailureMessage. rewrite Htrim, (proj2 (String.eqb_neq _ _) Hne).
  unfold normalizeGPUOperatorVersion. rewrite Htrim, (proj2 (String.eqb_neq _ _) Hne).
  assert (Hnorm : (if HasPrefix (p +:+ dotted v +:+ s) "v" then p +:+ dotted v +:+ s else "v" +:+ p +:+ dotted v +:+ s)
                  = "v" +:+ dotted v +:+ s).
  { destruct Hp as [-> | ->]; [|by rewrite HasPrefix_v]. rewrite str_app_nil_l. by rewrite (HasPrefix_v_dotted v s Hv). }
  rewrite Hnorm, Hvalid. destruct (Canonical_keeps_core v s Hv Hs Hvalid) as (pre & Hpre & ->).
  rewrite <- str_app_assoc, split_core; [|by cbn; constructor; [|apply dotted_core]|done]. cbn [fst].
  change minimumGPUOperatorVersion with ("v" +:+ dotted (26, 7, 1)). rewrite Compare_core by done.
  by destruct (version_ltb v (26, 7, 1)).
Qed.

(** What the ClusterPolicy says of an operand: nothing, or a version. *)
Definition reads_operand (policy : Obj) (operand : gpuOperandRequirement) (pin : option version) : Prop :=
  let raw := TrimSpace (NestedString policy (specPath operand)).1 in
  match pin with None => raw = "" | Some v => version_tag raw v end.

Lemma operand_step policy operand rest defaulted pin floor :
  reads_operand policy operand pin → minVersion operand = "v" +:+ dotted floor → nonneg_version floor → ∃ msg, msg ≠ "" ∧
  operand_failure policy (operand :: rest) defaulted =
    match pin with
    | None => operand_failure policy rest (defaulted ++ [operand_name operand])
    | Some v => if version_ltb v floor then (msg, defaulted) else operand_failure policy rest defaulted
    end.
Proof.
  intros Hr Hmin Hfl. unfold reads_operand in Hr. cbn [operand_failure].
  set (raw := TrimSpace (NestedString policy (specPath operand)).1) in *. eexists. split; [|destruct pin as [v|]].
  2:{ destruct (version_tag_visible _ _ Hr) as [Hne _]. rewrite (proj2 (String.eqb_neq _ _) Hne), (normalize_tag _ _ Hr), Hmin.
      rewrite Compare_core by (done || apply Hr). destruct (version_ltb v floor); reflexivity. }
  2:{ by rewrite Hr. }
  done.
Qed.

(** The two floors. *)
Definition toolkit_floor : version := (1, 20, 1).
Definition device_plugin_floor : version := (0, 20, 1).
Definition operator_floor : version := (26, 7, 1).

(** At least the floor, where a version is pinned. *)
Definition pin_ok (pin : option version) (floor : version) : bool :=
  match pin with Some v => negb (version_ltb v floor) | None => true end.

Lemma operands_spec policy toolkit plugin :
  reads_operand policy (mkRequirement "container toolkit" ["spec"; "toolkit"; "version"] "v1.20.1") toolkit →
  reads_operand policy (mkRequirement "device plugin" ["spec"; "devicePlugin"; "version"] "v0.20.1") plugin →
  let '(msg, defaulted) := gpuOperandVersionFailureMessage policy in
  String.eqb msg "" = pin_ok toolkit toolkit_floor && pin_ok plugin device_plugin_floor ∧
  (msg = "" → (defaulted = [] ↔ toolkit ≠ None ∧ plugin ≠ None)).
Proof.
  intros Ht Hp. unfold gpuOperandVersionFailureMessage, gpuOperandRequirements.
  edestruct (operand_step policy _ [mkRequirement "device plugin" ["spec"; "devicePlugin"; "version"] "v0.20.1"] [] _ toolkit_floor Ht)
    as (msg & Hmsg & ->); [done|done|].
  edestruct (operand_step policy _ [] [] _ device_plugin_floor Hp) as (msg1 & Hmsg1 & Hs1); [done|done|].
  edestruct (operand_step policy _ [] ["container toolkit"] _ device_plugin_floor Hp) as (msg2 & Hmsg2 & Hs2); [done|done|].
  apply String.eqb_neq in Hmsg, Hmsg1, Hmsg2. unfold pin_ok. destruct toolkit as [vt|].
  - destruct (version_ltb vt toolkit_floor); [by rewrite Hmsg; split; [|intros ->]|]. rewrite Hs1.
    destruct plugin as [vp|]; [destruct (version_ltb vp device_plugin_floor)|]; cbn; rewrite ?Hmsg1;
      (split; [done|intros H; try (by rewrite H in Hmsg1); naive_solver]).
  - cbn [app operand_name]. rewrite Hs2. destruct plugin as [vp|]; [destruct (version_ltb vp device_plugin_floor)|]; cbn; rewrite ?Hmsg2;
      (split; [done|intros H; try (by rewrite H in Hmsg2); naive_solver]).
Qed.

(** *** The whole check *)

Lemma CDI_message_spec c p : String.eqb (managementCDINamespaceFailureMessage c p) "" =
  negb (NRIPluginEnabled p) || bool_decide (checker_namespace c ∈ ManagementCDIDeviceNamespaces p).
Proof. unfold managementCDINamespaceFailureMessage. destruct (NRIPluginEnabled p); [|done]. by case_bool_decide. Qed.

Lemma Check_unread c csvs csvs' cancelled p generation now ready : consults_csvs c p = false →
  Check c csvs cancelled p generation now ready = Check c csvs' cancelled p generation now ready.
Proof.
  unfold consults_csvs, Check. destruct (PolicyErr p); [done|]. intros H.
  assert (versionFailure c csvs cancelled (Policy p) = versionFailure c csvs' cancelled (Policy p)) as ->; [|done].
  unfold versionFailure. destruct (skipVersionChecks c); [done|]. destruct (Policy p) as [policy|]; [|done].
  destruct (gpuOperandVersionFailureMessage policy) as [msg defaulted]. destruct (String.eqb msg ""); [|done]. cbn [negb andb] in *.
  destruct (bool_decide (defaulted = [])); [done|]. cbn [negb andb] in H. unfold gpuOperatorVersion. by rewrite H.
Qed.

Lemma versionFailure_Err c csvs cancelled policy err : versionFailure c csvs cancelled policy = Err err → cancelled = true.
Proof. unfold versionFailure. destruct cancelled; [done|]. repeat case_match; done. Qed.

(** The check never raises Ready: it returns the condition it was given, or a failure. *)
Lemma Check_lowers c csvs cancelled p generation now ready :
  let '(cond, err) := Check c csvs cancelled p generation now ready in
  (cond = ready ∨ err = None ∧ CType cond = ConditionReady ∧ CStatus cond = ConditionFalse ∧ ObservedGeneration cond = generation) ∧
  (err ≠ None → cond = ready ∧ cancelled = true).
Proof.
  unfold Check. destruct (PolicyErr p) as [e|]; [by destruct cancelled; (split; [auto|])|].
  destruct (versionFailure c csvs cancelled (Policy p)) as [[reason message]|err] eqn:Ev.
  2:{ apply versionFailure_Err in Ev as ->. by split; [left|]. }
  destruct (negb (String.eqb reason "")); [by split; [right|]|].
  destruct (Policy p) as [policy|]; [|by split; [left|]].
  repeat case_match; simplify_eq; (split; [first [by left|by right]|done]).
Qed.

(** The label that carries the GPU Operator's version. *)
Definition operator_label (policy : Obj) : string := TrimSpace (default "" (GetLabels policy !! clusterPolicyVersionLabel)).

Lemma versionFailure_spec c csvs cancelled policy toolkit plugin operator :
  reads_operand policy (mkRequirement "container toolkit" ["spec"; "toolkit"; "version"] "v1.20.1") toolkit →
  reads_operand policy (mkRequirement "device plugin" ["spec"; "devicePlugin"; "version"] "v0.20.1") plugin →
  valid_tag (operator_label policy) operator → ∃ reason message,
  versionFailure c csvs cancelled (Some policy) = Ok (reason, message) ∧
  String.eqb reason "" = skipVersionChecks c ||
    pin_ok toolkit toolkit_floor && pin_ok plugin device_plugin_floor &&
    (bool_decide (toolkit ≠ None ∧ plugin ≠ None) || negb (version_ltb operator operator_floor)).
Proof.
  intros Ht Hp Ho. unfold versionFailure. destruct (skipVersionChecks c); [by do 2 eexists|]. cbn [orb].
  pose proof (operands_spec policy toolkit plugin Ht Hp) as Hops.
  destruct (gpuOperandVersionFailureMessage policy) as [msg defaulted]. destruct Hops as [Hmsg Hdef].
  destruct (String.eqb_spec msg "") as [->|Hne]; cbn [negb]; rewrite <- Hmsg; [|by do 2 eexists]. cbn [andb].
  specialize (Hdef eq_refl). rewrite (bool_decide_ext _ _ Hdef).
  case_bool_decide as Hd; cbn [orb]; [by do 2 eexists|].
  unfold gpuOperatorVersion, gpuOperatorVersionFromClusterPolicy. fold (operator_label policy).
  destruct (version_tag_visible _ _ (valid_tag_tag _ _ Ho)) as [Hlab _]. rewrite (proj2 (String.eqb_neq _ _) Hlab). cbn [negb].
  rewrite (operator_version_spec _ _ _ Ho). change (26, 7, 1) with operator_floor.
  destruct (version_ltb operator operator_floor); cbn [negb]; by do 2 eexists.
Qed.

(** C19: the GPU stack gates decide Ready.  For a ClusterPolicy that could be read, whose operand
    versions are unset or tags of a release (with or without a v, with any suffix, such as
    v1.20.1-ubuntu20.04) and whose version label names a release, a Ready condition that is True
    stays so exactly when the version gates are bypassed or both pinned operands are at least
    at their floors, compared as numbers, and, if one of them is unset, the GPU Operator is at
    least v26.7.1; and when, under the NRI plugin, the daemons' namespace is in the
    allow-list.  Otherwise Ready is set to False, for the generation that was observed. *)
Theorem ready_survives_gates c csvs cancelled policy generation now ready toolkit plugin operator :
  CStatus ready = ConditionTrue →
  reads_operand policy (mkRequirement "container toolkit" ["spec"; "toolkit"; "version"] "v1.20.1") toolkit →
  reads_operand policy (mkRequirement "device plugin" ["spec"; "devicePlugin"; "version"] "v0.20.1") plugin →
  valid_tag (operator_label policy) operator →
  let p := mkClusterPolicy (Some policy) None in
  let '(cond, err) := Check c csvs cancelled p generation now ready in
  let versions := skipVersionChecks c ||
    pin_ok toolkit toolkit_floor && pin_ok plugin device_plugin_floor &&
    (bool_decide (toolkit ≠ None ∧ plugin ≠ None) || negb (version_ltb operator operator_floor)) in
  let devices := negb (NRIPluginEnabled p) || bool_decide (checker_namespace c ∈ ManagementCDIDeviceNamespaces p) in
  err = None ∧
  if versions && devices then cond = ready
  else CType cond = ConditionReady ∧ CStatus cond = ConditionFalse ∧ ObservedGeneration cond = generation.
Proof.
  intros Hready Ht Hp Ho p. unfold Check. cbn [PolicyErr Policy p].
  destruct (versionFailure_spec c csvs cancelled policy toolkit plugin operator Ht Hp Ho) as (reason & message & -> & Hv).
  cbv zeta. rewrite <- Hv. destruct (String.eqb reason ""); cbn [negb andb]; [|done].
  rewrite CDI_message_spec. set (devices := negb (NRIPluginEnabled p) || _). destruct devices; cbn [negb]; [|done].
  rewrite Hready. change (String.eqb ConditionTrue ConditionFalse) with false. cbv iota. by split.
Qed.
End Gates.

(** ** Concrete libraries *)

(** Versions read digit by digit. *)
Definition parse_version (s : string) : option version :=
  match (splitSemverSuffix s).1 with
  | String "v" r =>
      match Split r "." with
      | [x; y; z] =>
          match decimal_value x, decimal_value y, decimal_value z with
          | Some a, Some b, Some c => Some (a, b, c)
          | _, _, _ => None
          end
      | _ => None
      end
  | _ => None
  end.
Definition compare_versions (s t : string) : Z :=
  match parse_version s, parse_version t with
  | Some v, Some w => if version_ltb v w then -1 else if version_ltb w v then 1 else 0
  | Some _, None => 1
  | None, Some _ => -1
  | None, None => 0
  end.

#[local] Instance release_semver : Semver := {|
  IsValid s := bool_decide (is_Some (parse_version s));
  Canonical s := match parse_version s with Some v => "v" +:+ dotted v | None => "" end;
  Compare := compare_versions
|}.

Lemma parse_version_tag v s : nonneg_version v → version_suffix s → parse_version ("v" +:+ dotted v +:+ s) = Some v.
Proof.
  intros Hv Hs. unfold parse_version. rewrite <- str_app_assoc, split_core; [|by cbn; constructor; [|apply dotted_core]|done].
  cbn [fst]. change ("v" +:+ dotted v) with (String "v" (dotted v)). cbv iota beta.
  destruct v as [[a b] c]. destruct Hv as (Ha & Hb & Hc). unfold dotted.
  assert (Hd : ∀ m, 0 ≤ m → Forall (λ x, x ≠ "."%char) (bytes_of (FormatInt m))).
  { intros m Hm. eapply list.Forall_impl; [by apply FormatInt_digits|]. by intros x Hx ->. }
  assert (Hlast : Split (FormatInt c) "." = [FormatInt c]).
  { unfold Split. rewrite split_list_last by (by apply Hd). cbn. by rewrite string_of_list_ascii_of_string. }
  change ("." +:+ FormatInt b +:+ "." +:+ FormatInt c) with (String "." (FormatInt b +:+ String "." (FormatInt c))).
  rewrite !Split_line by (by apply Hd). rewrite Hlast, !decimal_value_FormatInt. done.
Qed.

#[local] Instance release_semver_laws : SemverLaws release_semver.
Proof.
  assert (Hp : ∀ v, nonneg_version v → parse_version ("v" +:+ dotted v) = Some v).
  { intros v Hv. rewrite <- (str_app_nil_r (dotted v)). apply parse_version_tag; [done|]. by split; [constructor|]. }
  split; cbn [IsValid Canonical Compare release_semver].
  - intros v Hv. rewrite (Hp v Hv). by apply bool_decide_eq_true_2.
  - intros v Hv. by rewrite (Hp v Hv).
  - intros v w Hv Hw. unfold compare_versions. rewrite (Hp v Hv), (Hp w Hw). by destruct (version_ltb v w), (version_ltb w v).
  - intros v s Hv Hs _. rewrite parse_version_tag by done. exists "". split; [by split; [constructor|]|]. by rewrite str_app_nil_r.
Qed.

(** JSON values, as the decoder leaves them in an [any]. *)
Inductive any := AString (s : string) | ABool (b : bool) | ASlice (l : list any) | AMap (m : list (string * any)).

Fixpoint nested (v : any) (path : list string) : option any :=
  match path with
  | [] => Some v
  | k :: rest =>
      match v with
      | AMap m => match List.find (λ e, String.eqb e.1 k) m with Some (_, v') => nested v' rest | None => None end
      | _ => None
      end
  end.
Definition nested_string (v : any) (path : list string) : string * bool :=
  match nested v path with Some (AString s) => (s, true) | _ => ("", false) end.
Definition string_entries (m : list (string * any)) : list (string * string) :=
  omap (λ e, match e.2 with AString s => Some (e.1, s) | _ => None end) m.

#[local] Instance json_object : Unstructured any := {|
  NestedString := nested_string;
  NestedBool v path := match nested v path with Some (ABool b) => Some b | _ => None end;
  NestedSlice v path := match nested v path with Some (ASlice l) => Some l | _ => None end;
  as_map v := match v with AMap _ => Some v | _ => None end;
  GetLabels v := match nested v ["metadata"; "labels"] with Some (AMap m) => list_to_map (string_entries m) | _ => ∅ end;
  GetName v := (nested_string v ["metadata"; "name"]).1;
  Quote := quoted
|}.

(** A toolkit with a distro suffix at its floor, a device plugin left to the operator's default,
    and the NRI plugin on for an allowed namespace. *)
Definition sample_policy (toolkit : string) : any := AMap
  [("metadata", AMap [("labels", AMap [(clusterPolicyVersionLabel, AString "v26.7.1")])]);
   ("spec", AMap
     [("toolkit", AMap
        [("version", AString toolkit);
         ("env", ASlice [AMap [("name", AString nriManagementCDIDeviceNamespacesEnv); ("value", AString "other, gpu-fractioning,")]])]);
      ("cdi", AMap [("nriPluginEnabled", ABool true)])])].

Lemma ready_survives_gates_witness :
  let ready := mkCondition ConditionReady ConditionTrue 3 9 ReasonAllComponentsReady MessageAllComponentsReady in
  let check toolkit := Check (mkChecker false "gpu-fractioning") Absent false
                         (mkClusterPolicy (Some (sample_policy toolkit)) None) 3 10 ready in
  (check "v1.20.1-ubuntu20.04").1 = ready ∧ CStatus (check "v1.9.0-ubuntu20.04").1 = ConditionFalse.
Proof.
  cbv zeta. set (ready := mkCondition _ _ _ _ _ _).
  assert (Htag : valid_tag (operator_label (sample_policy "v1.20.1-ubuntu20.04")) (26, 7, 1)).
  { split; [done|]. exists "v", "". split_and!; [by right|by split; [constructor|]|done|done]. }
  assert (Hs : version_suffix "-ubuntu20.04") by (split; [by repeat constructor|by left]).
  pose proof (ready_survives_gates (mkChecker false "gpu-fractioning") Absent false (sample_policy "v1.20.1-ubuntu20.04") 3 10 ready
    (Some (1, 20, 1)) None (26, 7, 1) eq_refl) as H1.
  pose proof (ready_survives_gates (mkChecker false "gpu-fractioning") Absent false (sample_policy "v1.9.0-ubuntu20.04") 3 10 ready
    (Some (1, 9, 0)) None (26, 7, 1) eq_refl) as H2.
  cbv zeta in H1, H2. split.
  - destruct (Check _ _ _ _ _ _ _) as [cond err]. destruct H1 as [_ H1]; [|done|done|exact H1].
    split; [done|]. exists "v", "-ubuntu20.04". split_and!; [by right|done|done].
  - clear H1. destruct (Check _ _ _ _ _ _ _) as [cond err]. destruct H2 as (_ & _ & H2 & _); [|done|done|exact H2].
    split; [done|]. exists "v", "-ubuntu20.04". split_and!; [by right|done|done].
Defined.
