(* ===== verification/Reconcile.v ===== *)
(** * operator: the reconciler

    [Reconcile] of [controller/gpufractioningconfig_controller.go] and
    [ReconcileDaemon] of [common/daemonmgr/reconciler.go], composed of the parts
    modelled in the other operator files: the DaemonSet builders (DaemonSets), the
    conditions of the configuration (Status), the node pass, the upgrade sweep and
    the deletion (NodeStatus) and the GPU stack gates (GpuStack).

    [ConfigAPI] lists the further calls on the API server, and [ConfigLaws] what is
    relied on of them, on the DaemonSets, the pods and the status the server holds.
    As in NodeStatus any call may fail, a failed write may have taken effect, and
    nobody else writes during one run.  Events and gauges are outputs of the run;
    logging is left out. *)

From Stdlib Require Import ZArith Lia String Ascii.
From stdpp Require Import base gmap list strings.
From S2P Require Import Prelude GoStrings GoTime GoFlag Status DaemonSets Deploy NodeStatus GpuStack.

#[local] Open Scope string_scope.
#[local] Open Scope list_scope.
#[local] Open Scope Z_scope.

(** ** The configuration and the API *)

Record Config := mkConfig {
  config_name : string;
  Generation : Z;
  deleting : bool;                                  (** a deletion timestamp is set *)
  Finalizers : list string;
  Spec : GpuFractioningConfigSpec;
  Conditions : list Condition
}.

(** Namespace and name. *)
Abbreviation key := (string * string)%type.
Definition key_of (ds : DaemonSet) : key := (ds_namespace ds, ds_name ds).

Class ConfigAPI (W Obj : Type) := {
  Get_config : W → W * result ApiError Config;
  (** [controllerutil.CreateOrUpdate] of a DaemonSet, with its labels and spec set to the
      desired ones and its controller set to the owner *)
  CreateOrUpdate : W → DaemonSet → string → W * option ApiError;
  (** the counters of a DaemonSet's status *)
  Get_daemonset : W → key → W * result ApiError DaemonHealth;
  List_pods : W → string → labels_map → W * Pages Pod;
  List_policies : W → W * Listing Obj;
  List_csvs : W → W * Listing Obj;
  Update_status : W → list Condition → Z → W * option ApiError;
  AddFinalizer : list string → string → list string
}.

(** ** reconciler.go *)

(** The [ManagedDaemon] interface. *)
Record ManagedDaemon := mkManagedDaemon { Name : string; Build : BuildOptions → DaemonSet }.

Inductive DaemonError := CreateOrUpdateDaemonSet (k : key) (e : ApiError) | FetchingDaemonSet (k : key) (e : ApiError).

Inductive ReconcileError :=
| FetchingConfig (e : ApiError) | CleaningUp (errs : list NodeError) | AddingFinalizer (e : ApiError) | UpdatingStatus (e : ApiError).

(** The installation's settings, in [GpuFractioningConfigReconciler]. *)
Record reconciler := mkReconciler {
  r_Namespace : string;
  r_DefaultImages : gmap string ImageSpec;
  DaemonServiceAccountName : string;
  MpsdAuditLog : bool;
  SupportSMSharing : bool;
  r_FIPSOnly : bool;
  SkipGpuStackVersionChecks : bool
}.

Definition requeueInterval : Z := 30 * Second.

(** What a run returns and emits. *)
Inductive event := EventReconcileError (daemon : string) (e : DaemonError) | EventDependencyCheckError (msg : string).
Record outcome := mkOutcome {
  RequeueAfter : Z;
  run_error : option ReconcileError;
  events : list event;
  daemon_gauges : list (string * Z * Z);            (** daemon, ready and desired nodes *)
  node_gauges : option (Z * Z)
}.
Definition done_outcome : outcome := mkOutcome 0 None [] [] None.
Definition failed (e : ReconcileError) : outcome := mkOutcome 0 (Some e) [] [] None.

Definition buildDaemons (spec : GpuFractioningConfigSpec) (mpsdAuditLog supportSMSharing : bool) : list ManagedDaemon :=
  [mkManagedDaemon fractiond.daemonName
     (fractiond.BuildDaemonSet (fractiond.mkDaemon (FractioningAgent spec) (MetricsAgent spec) supportSMSharing));
   mkManagedDaemon mpsd.daemonName (mpsd.BuildDaemonSet (mpsd.mkDaemon (MpsDaemon spec) mpsdAuditLog supportSMSharing))].

(** The image a Helm value sets, from the environment of the operator. *)
Definition ReadImageFromEnv (Getenv : string → string) (prefix : string) : ImageSpec :=
  mkImageSpec (env.Str Getenv (prefix +:+ "_REPOSITORY") "") (env.Str Getenv (prefix +:+ "_TAG") "")
    (env.Str Getenv (prefix +:+ "_PULL_POLICY") "").

(** With the client, the scheme and the recorder left to the interfaces below; the dependency
    checkers are built from the same arguments. *)
Definition NewGpuFractioningConfigReconciler (namespace : string) (defaultImages : gmap string ImageSpec) (daemonServiceAccountName : string)
    (mpsdAuditLog supportSMSharing fipsOnly skipGpuStackVersionChecks : bool) : reconciler :=
  mkReconciler namespace defaultImages daemonServiceAccountName mpsdAuditLog supportSMSharing fipsOnly skipGpuStackVersionChecks.

(** The reconciler that [operator/cmd/main.go] builds from its environment, or [None] where it
    exits because a component has no image. *)
Definition main_reconciler (Getenv : string → string) : option reconciler :=
  let podNamespace := if String.eqb (Getenv "POD_NAMESPACE") "" then "default" else Getenv "POD_NAMESPACE" in
  let images : list (string * ImageSpec) :=
    [("fractiond", ReadImageFromEnv Getenv "FRACTIOND_IMAGE");
     ("metricsd", ReadImageFromEnv Getenv "METRICSD_IMAGE");
     ("mpsd", ReadImageFromEnv Getenv "MPSD_IMAGE")] in
  if existsb (λ e, String.eqb (FullImage e.2) "") images then None
  else Some (NewGpuFractioningConfigReconciler podNamespace (list_to_map images) (env.Str Getenv "DAEMON_SERVICE_ACCOUNT_NAME" "")
               (env.Bool Getenv "MPSD_AUDIT_LOG" true) (env.Bool Getenv "SUPPORT_SM_SHARING" true)
               (String.eqb (env.Str Getenv "FIPS_MODE" "off") "only") (env.Bool Getenv "SKIP_GPU_STACK_VERSION_CHECKS" false)).

Section Operations.
Context {W Obj : Type} {cluster : ClusterAPI W} {config_api : ConfigAPI W Obj}.
Context {unstructured : Unstructured Obj} {semver : Semver}.
(** How an error prints, in a condition's message. *)
Context (error_text : DaemonError → string).

Definition ReconcileDaemon (w : W) (owner : string) (d : ManagedDaemon) (opts : BuildOptions) : W * result DaemonError DaemonHealth :=
  let desired := Build d opts in
  let '(w, err) := CreateOrUpdate w desired owner in
  match err with
  | Some e => (w, Err (CreateOrUpdateDaemonSet (key_of desired) e))
  | None =>
      let '(w, r) := Get_daemonset w (key_of desired) in
      (w, match r with Ok h => Ok h | Err e => Err (FetchingDaemonSet (key_of desired) e) end)
  end.

Definition buildOptions (r : reconciler) (config : Config) (clusterPolicy : ClusterPolicy Obj) : BuildOptions :=
  let nri := NRIPluginEnabled clusterPolicy in
  mkBuildOptions (r_Namespace r) (spec_NodeSelector (Spec config)) (spec_Tolerations (Spec config)) (DaemonServiceAccountName r)
    (if nri then None else ResolveRuntimeClassName (spec_RuntimeClassName (Spec config)))
    (r_DefaultImages r) (r_FIPSOnly r) nri.

(** The calls of the daemon loop: the observation of each daemon, as the conditions are computed
    from it, with the events and the gauges. *)
Fixpoint reconcile_daemons (w : W) (owner : string) (daemons : list ManagedDaemon) (opts : BuildOptions)
    : W * list (observation * list event) :=
  match daemons with
  | [] => (w, [])
  | d :: rest =>
      let '(w, r) := ReconcileDaemon w owner d opts in
      let o := match r with
               | Ok h => (mkObservation (Name d) h None (Now w), [])
               | Err e => (mkObservation (Name d) (mkHealth 0 0) (Some (error_text e)) (Now w), [EventReconcileError (Name d) e])
               end in
      let '(w, os) := reconcile_daemons w owner rest opts in (w, o :: os)
  end.

Definition managedByLabels : labels_map := {[LabelManagedBy := ManagedByValue]}.

(** The pods, when something was or is unhealthy: the node pass, the requeue flag and the gauges. *)
Definition node_phase (r : reconciler) (w : W) (needsRequeue wasUnhealthy : bool) : W * bool * option (Z * Z) :=
  if needsRequeue || wasUnhealthy then
    let '(w, pages) := List_pods w (r_Namespace r) managedByLabels in
    let '(w, nodesUnhealthy, errs, gauges) := patchNodeConditions w pages in
    (w, match errs with _ :: _ => true | [] => needsRequeue || nodesUnhealthy end, gauges)
  else (w, needsRequeue, None).

(** The read of the ClusterServiceVersions inside the check. *)
Definition list_csvs (c : checker) (clusterPolicy : ClusterPolicy Obj) (w : W) : W * Listing Obj :=
  if consults_csvs c clusterPolicy then List_csvs w else (w, Absent).

(** [Reconcile] once the finalizer is in place. *)
Definition reconcile_active (r : reconciler) (w : W) (config : Config) : W * outcome :=
  let wasUnhealthy := negb (isConditionTrue (Conditions config) ConditionReady) in
  let '(w, policies) := List_policies w in
  let clusterPolicy := ReadClusterPolicy policies in
  let daemons := buildDaemons (Spec config) (MpsdAuditLog r) (SupportSMSharing r) in
  let '(w, observed) := reconcile_daemons w (config_name config) daemons (buildOptions r config clusterPolicy) in
  let os := map fst observed in
  let '(conditions, needsRequeue, readyCond) := daemon_pass (Generation config) (Now w) (Conditions config) os in
  let checker := mkChecker (SkipGpuStackVersionChecks r) (r_Namespace r) in
  let '(w, csvs) := list_csvs checker clusterPolicy w in
  let '(readyCond, checkErr) := Check checker csvs (ctx_err w)
                                  clusterPolicy (Generation config) (Now w) readyCond in
  let needsRequeue := match checkErr with Some _ => true | None => needsRequeue end in
  let conditions := SetCondition conditions readyCond in
  let '(w, upgrading, upErrs) := evaluateDriverUpgrade w (spec_NodeSelector (Spec config)) in
  let '(conditions, needsRequeue) :=
    match upErrs with
    | _ :: _ => (conditions, true)
    | [] => (SetCondition conditions (DriverUpgradeCondition upgrading (Generation config) (Now w)), needsRequeue)
    end in
  let '(w, needsRequeue, gauges) := node_phase r w needsRequeue wasUnhealthy in
  let '(w, err) := Update_status w conditions (Generation config) in
  (w, mkOutcome (match err with Some _ => 0 | None => if needsRequeue then requeueInterval else 0 end)
        (UpdatingStatus <$> err)
        (concat (map snd observed) ++ match checkErr with Some msg => [EventDependencyCheckError msg] | None => [] end)
        (map (λ o, (daemon o, ReadyNodes (health o), DesiredNodes (health o))) os) gauges).

Definition Reconcile (r : reconciler) (w : W) : W * outcome :=
  let '(w, got) := Get_config w in
  match got with
  | Err NotFound => (w, done_outcome)
  | Err e => (w, failed (FetchingConfig e))
  | Ok config =>
      if deleting config then
        let '(w, errs) := reconcileDelete w (Finalizers config) (spec_NodeSelector (Spec config)) in
        (w, match errs with [] => done_outcome | _ => failed (CleaningUp errs) end)
      else if ContainsFinalizer (Finalizers config) NodeConditionCleanupFinalizer then reconcile_active r w config
      else
        let '(w, err) := Update_finalizers w (AddFinalizer (Finalizers config) NodeConditionCleanupFinalizer) in
        match err with
        | Some e => (w, failed (AddingFinalizer e))
        | None => reconcile_active r w config
        end
  end.
End Operations.

(** ** What is relied on of the API *)

Class ConfigLaws (W Obj : Type) {cluster : ClusterAPI W} {selection : NodeSelection} {laws : ClusterLaws W}
    {config_api : ConfigAPI W Obj} := {
  daemonsets : W → gmap key DaemonSet;
  daemonset_health : W → gmap key DaemonHealth;
  pods : W → string → labels_map → list Pod;
  policies : W → Listing Obj;
  stored_status : W → list Condition * Z;
  side (w : W) := (daemonsets w, daemonset_health w, pods w, policies w, stored_status w);
  Get_config_reads w : let '(w', r) := Get_config w in
    side w' = side w ∧ nodes w' = nodes w ∧ finalizers w' = finalizers w ∧ ∀ c, r = Ok c → Finalizers c = finalizers w;
  Get_node_side w name : side (Get_node w name).1 = side w;
  Patch_status_side w name p : side (Patch_status w name p).1 = side w;
  List_matching_side w sel reqs : side (List_matching w sel reqs).1 = side w;
  Update_finalizers_side w fs : side (Update_finalizers w fs).1 = side w;
  CreateOrUpdate_writes w ds owner : let '(w', e) := CreateOrUpdate w ds owner in
    nodes w' = nodes w ∧ finalizers w' = finalizers w ∧ pods w' = pods w ∧ policies w' = policies w ∧
    (∀ k, k ≠ key_of ds → daemonsets w' !! k = daemonsets w !! k ∧ daemonset_health w' !! k = daemonset_health w !! k) ∧
    (e = None → daemonsets w' !! key_of ds = Some ds);
  Get_daemonset_reads w k : let '(w', r) := Get_daemonset w k in
    side w' = side w ∧ nodes w' = nodes w ∧ finalizers w' = finalizers w ∧ ∀ h, r = Ok h → daemonset_health w !! k = Some h;
  List_pods_reads w ns sel : let '(w', pages) := List_pods w ns sel in
    side w' = side w ∧ nodes w' = nodes w ∧ finalizers w' = finalizers w ∧
    (list_error pages = None → ∀ p, p ∈ items pages ↔ p ∈ pods w ns sel);
  List_policies_reads w : let '(w', l) := List_policies w in
    side w' = side w ∧ nodes w' = nodes w ∧ finalizers w' = finalizers w ∧ (l = policies w ∨ ∃ msg, l = ListFailed msg);
  List_csvs_reads w : let '(w', _) := List_csvs w in side w' = side w ∧ nodes w' = nodes w ∧ finalizers w' = finalizers w;
  Update_status_writes w cs g : let '(w', e) := Update_status w cs g in
    nodes w' = nodes w ∧ finalizers w' = finalizers w ∧ daemonsets w' = daemonsets w ∧
    daemonset_health w' = daemonset_health w ∧ pods w' = pods w ∧ policies w' = policies w ∧
    (e = None → stored_status w' = (cs, g));
  AddFinalizer_spec fs f g : g ∈ AddFinalizer fs f ↔ g ∈ fs ∨ g = f
}.

(** ** Lemmas: what the node calls keep *)

Section Keeps.
Context {W X : Type} {cluster : ClusterAPI W} (proj : W → X).
Hypothesis Get_node_keeps : ∀ w name, proj (Get_node w name).1 = proj w.
Hypothesis Patch_status_keeps : ∀ w name p, proj (Patch_status w name p).1 = proj w.
Hypothesis List_matching_keeps : ∀ w sel reqs, proj (List_matching w sel reqs).1 = proj w.

Lemma fold_left_inv {A B} (P : A → Prop) (f : A → B → A) l : (∀ a b, P a → P (f a b)) → ∀ a, P a → P (fold_left f l a).
Proof. intros Hf. induction l as [|b l IH]; cbn; auto. Qed.

Lemma remove_condition_step_keeps x acc entry : proj acc.1 = x → proj (remove_condition_step acc entry).1 = x.
Proof.
  destruct acc as [w errs]. cbn. intros Hw. unfold remove_condition_step. destruct (FindNodeCondition _); [|done].
  unfold RemoveNodeCondition. pose proof (Patch_status_keeps w entry.1 (DeleteCondition NodeConditionType)) as H.
  destruct (Patch_status _ _ _) as [w' [[]|]]; cbn in *; congruence.
Qed.

Lemma evaluateDriverUpgrade_keeps w sel : proj (evaluateDriverUpgrade w sel).1.1 = proj w.
Proof.
  unfold evaluateDriverUpgrade. pose proof (List_matching_keeps w sel upgrading_requirements) as H.
  destruct (List_matching _ _ _) as [w1 [l|e]]; cbn in H; [|done].
  pose proof (fold_left_inv (λ acc : W * list NodeError, proj acc.1 = proj w) remove_condition_step l
    (λ acc e, remove_condition_step_keeps (proj w) acc e) (w1, []) H) as Hf.
  by destruct (fold_left _ _ _).
Qed.

Lemma driver_Check_keeps w name c : proj (driver_Check w name c).1.1 = proj w.
Proof.
  unfold driver_Check. destruct (negb _); [done|]. pose proof (Get_node_keeps w name) as H.
  destruct (Get_node w name) as [w1 r]. cbn in H. by repeat case_match.
Qed.

Lemma PatchNodeCondition_keeps w name c : proj (PatchNodeCondition w name c).1 = proj w.
Proof.
  unfold PatchNodeCondition. destruct (negb _); [done|]. pose proof (Get_node_keeps w name) as H.
  destruct (Get_node w name) as [w1 r]. cbn in H. destruct (transition_time _ _ _) as [t|]; [|done].
  pose proof (Patch_status_keeps w1 name (UpsertCondition (set_times c (Now w) t))) as H'.
  destruct (Patch_status _ _ _) as [w2 e]. cbn in *. congruence.
Qed.

Lemma pod_step_keeps x st p : proj (world st) = x → proj (world (pod_step st p)) = x.
Proof.
  intros Hx. unfold pod_step. destruct (String.eqb _ _); [done|]. cbv zeta. destruct (_ && bool_decide _); [done|].
  pose proof (driver_Check_keeps (world st) (NodeName p) (nodeConditionForPod (isPodReady p) p)) as H.
  destruct (driver_Check _ _ _) as [[w1 c] e1]. cbn in H.
  pose proof (PatchNodeCondition_keeps w1 (NodeName p) c) as H'. destruct (PatchNodeCondition _ _ _) as [w2 e2].
  cbn in *. congruence.
Qed.

Lemma pod_pages_keeps x pages : ∀ st, proj (world st) = x → proj (world (pod_pages st pages).1) = x.
Proof.
  induction pages as [e|l|l rest IH]; intros st Hx; cbn; [done| |apply IH];
    by apply (fold_left_inv (λ st, proj (world st) = x)); [intros ? ?; apply pod_step_keeps|].
Qed.

Lemma patchNodeConditions_keeps w pages : proj (patchNodeConditions w pages).1.1.1 = proj w.
Proof.
  unfold patchNodeConditions. pose proof (pod_pages_keeps (proj w) pages (mkPass w ∅ ∅ []) eq_refl) as H.
  by destruct (pod_pages _ _).
Qed.
End Keeps.

(** ** Lemmas: one run *)

Section Laws.
Context {W Obj : Type} {cluster : ClusterAPI W} {selection : NodeSelection} {laws : ClusterLaws W}.
Context {config_api : ConfigAPI W Obj} {config_laws : ConfigLaws W Obj}.
Context {unstructured : Unstructured Obj} {semver : Semver}.
Context (error_text : DaemonError → string).

(** The worlds agree on all but the DaemonSets. *)
Definition same_but_daemonsets (w w' : W) : Prop :=
  nodes w' = nodes w ∧ finalizers w' = finalizers w ∧ pods w' = pods w ∧ policies w' = policies w.

#[local] Instance same_but_daemonsets_preorder : PreOrder same_but_daemonsets.
Proof. split; [done|]. intros a b c (? & ? & ? & ?) (? & ? & ? & ?). split_and!; congruence. Qed.

Lemma side_daemonsets w w' : side w' = side w → daemonsets w' = daemonsets w ∧ daemonset_health w' = daemonset_health w.
Proof. unfold side. by intros [= ]. Qed.

Lemma side_same w w' : side w' = side w → nodes w' = nodes w → finalizers w' = finalizers w → same_but_daemonsets w w'.
Proof. unfold side. by intros [= ]. Qed.

Lemma ReconcileDaemon_spec w owner d opts (k := key_of (Build d opts)) :
  let '(w', r) := ReconcileDaemon w owner d opts in
  same_but_daemonsets w w' ∧
  (∀ k', k' ≠ k → daemonsets w' !! k' = daemonsets w !! k' ∧ daemonset_health w' !! k' = daemonset_health w !! k') ∧
  (∀ h, r = Ok h → daemonsets w' !! k = Some (Build d opts) ∧ daemonset_health w' !! k = Some h).
Proof.
  unfold ReconcileDaemon. pose proof (CreateOrUpdate_writes w (Build d opts) owner) as H.
  destruct (CreateOrUpdate _ _ _) as [w1 [e|]]; destruct H as (Hn & Hf & Hp & Hl & Hoth & Hok).
  { split_and!; [done|done|done]. }
  pose proof (Get_daemonset_reads w1 (key_of (Build d opts))) as H. destruct (Get_daemonset _ _) as [w2 r].
  destruct H as (Hside & Hn' & Hf' & Hr). destruct (side_daemonsets _ _ Hside) as [Hd Hh].
  split_and!; [|by rewrite Hd, Hh|].
  - etrans; [|by apply side_same]. done.
  - intros h Hh'. rewrite Hd, Hh. split; [by apply Hok|]. apply Hr. destruct r; congruence.
Qed.

(** What an observation says of the world it was made in. *)
Definition observes (w : W) (opts : BuildOptions) (d : ManagedDaemon) (o : observation) : Prop :=
  daemon o = Name d ∧
  (reconcile_err o = None → daemonsets w !! key_of (Build d opts) = Some (Build d opts) ∧
                            daemonset_health w !! key_of (Build d opts) = Some (health o)).

Lemma reconcile_daemons_spec opts owner ds : ∀ w, NoDup (map (λ d, key_of (Build d opts)) ds) →
  let '(w', os) := reconcile_daemons error_text w owner ds opts in
  same_but_daemonsets w w' ∧
  (∀ k, k ∉ map (λ d, key_of (Build d opts)) ds →
     daemonsets w' !! k = daemonsets w !! k ∧ daemonset_health w' !! k = daemonset_health w !! k) ∧
  Forall2 (λ d o, observes w' opts d o.1) ds os.
Proof.
  induction ds as [|d ds IH]; intros w Hnd; cbn [reconcile_daemons]; [by split_and!|].
  apply list.NoDup_cons in Hnd as [Hd Hnd].
  pose proof (ReconcileDaemon_spec w owner d opts) as H. destruct (ReconcileDaemon _ _ _ _) as [w1 r].
  destruct H as (Hs1 & Hoth1 & Hok1). specialize (IH w1 Hnd). destruct (reconcile_daemons _ _ _ _ _) as [w' os].
  destruct IH as (Hs & Hoth & Hos). split_and!; [by etrans| |].
  - intros k [Hk Hks]%not_elem_of_cons. destruct (Hoth k Hks) as [-> ->]. by apply Hoth1.
  - constructor; [|done]. destruct (Hoth _ Hd) as [H1 H2]. unfold observes. rewrite H1, H2.
    destruct r as [h|e]; cbn; [|done]. split; [done|]. intros _. by apply Hok1.
Qed.

(** *** The node pass *)

Lemma pod_pages_error (st : pass (W := W)) pages : list_error pages ≠ None → pass_errs (pod_pages st pages).1 ≠ [].
Proof.
  revert st. induction pages as [e|l|l rest IH]; intros st; cbn [list_error pod_pages fst pass_errs]; [|done|auto].
  intros _. by destruct (pass_errs st).
Qed.

Lemma clean_pass w pages : let '(w', unhealthy, errs, _) := patchNodeConditions w pages in
  finalizers w' = finalizers w ∧
  (errs = [] → unhealthy = false → list_error pages = None ∧
   ∀ p, p ∈ items pages → NodeName p ≠ "" → isPodReady p = true ∧ node_status (nodes w') (NodeName p) = Some ConditionTrue).
Proof.
  unfold patchNodeConditions.
  assert (Hinit : pass_ok w [] (mkPass w ∅ ∅ [])) by (split; cbn; try done; set_solver).
  pose proof (pod_pages_ok w pages [] _ Hinit) as Hok. pose proof (pod_pages_error (mkPass w ∅ ∅ []) pages) as Herr.
  destruct (pod_pages _ _) as [st complete]. destruct Hok as [[Hseen Hunh _ Hstat Hfin] _]. cbn [app fst] in *.
  split; [done|]. intros He Hu. apply negb_false_iff, bool_decide_eq_true in Hu.
  split; [by destruct (list_error pages); [destruct Herr|]|].
  intros p Hp Hne. assert (Hnot : NodeName p ∉ unhealthyNodes st) by (rewrite Hu; set_solver). split.
  - destruct (isPodReady p) eqn:Er; [done|]. destruct Hnot. apply Hunh. eauto.
  - rewrite Hstat by (rewrite ?Hseen, ?He; set_solver). by rewrite decide_False.
Qed.

(** *** The DaemonSets of a configuration *)

Lemma daemon_keys spec audit sm opts :
  NoDup (map (λ d, key_of (Build d opts)) (buildDaemons spec audit sm)).
Proof.
  cbn. apply list.NoDup_cons. split; [|apply list.NoDup_singleton]. rewrite list_elem_of_singleton. unfold key_of. cbn. done.
Qed.

Definition daemon_condition (d : ManagedDaemon) : string := Capitalize (Name d) +:+ "Ready".

Lemma observed_types w opts spec audit sm (os : list (observation * list event)) :
  Forall2 (λ d o, observes w opts d o.1) (buildDaemons spec audit sm) os →
  map condition_type (map fst os) = ["FractiondReady"; "MpsdReady"].
Proof.
  intros H. inversion H as [|d1 o1 ? os1 [H1 _] H']; subst. inversion H' as [|d2 o2 ? os2 [H2 _] H'']; subst.
  inversion H''; subst. cbn [map]. unfold condition_type. by rewrite H1, H2.
Qed.

Lemma daemon_fold_requeue generation os : ∀ cs rq, (fold_left (daemon_step generation) os (cs, rq)).2 = rq || existsb wants_requeue os.
Proof.
  induction os as [|o os IH]; intros cs rq; cbn [fold_left existsb]; [by rewrite orb_false_r|].
  destruct (daemon_step_eq generation cs rq o) as (c & -> & _). by rewrite IH, orb_assoc.
Qed.

(** With no daemon asking for another run, each DaemonSet is in place with all its pods ready. *)
Lemma settled_daemons w opts ds (os : list (observation * list event)) :
  Forall2 (λ d o, observes w opts d o.1) ds os → existsb wants_requeue (map fst os) = false →
  (∀ k h, daemonset_health w !! k = Some h → ReadyNodes h ≤ DesiredNodes h) →
  (∀ d, d ∈ ds → daemonsets w !! key_of (Build d opts) = Some (Build d opts) ∧
    ∃ h, daemonset_health w !! key_of (Build d opts) = Some h ∧ ReadyNodes h = DesiredNodes h) ∧
  forallb healthy (map fst os) = true.
Proof.
  intros Hf Hrq Hb. induction Hf as [|d o ds os [_ Ho] Hf IH]; cbn [map existsb forallb] in *; [by split; [intros ? ?%elem_of_nil|]|].
  apply orb_false_iff in Hrq as [Hw Hrq]. specialize (IH Hrq) as [IH1 IH2].
  unfold wants_requeue in Hw. destruct (reconcile_err o.1) eqn:He; [done|].
  destruct (Ho eq_refl) as [H1 H2]. specialize (Hb _ _ H2). apply Z.ltb_ge in Hw.
  split; [|apply andb_true_intro; split; [unfold healthy; rewrite He; lia|done]]. intros d' [->|Hd]%elem_of_cons; [|by apply IH1]. split; [done|]. exists (health o.1). split; [done|lia].
Qed.
(** *** The run on an active configuration *)

(** What a run that neither fails nor asks to run again leaves behind. *)
Definition settled (r : reconciler) (w' : W) (config : Config) (listing : Listing Obj) (conditions : list Condition) : Prop :=
  let daemons := buildDaemons (Spec config) (MpsdAuditLog r) (SupportSMSharing r) in
  let opts := buildOptions r config (ReadClusterPolicy listing) in
  (∀ d, d ∈ daemons → daemonsets w' !! key_of (Build d opts) = Some (Build d opts) ∧
     ∃ h, daemonset_health w' !! key_of (Build d opts) = Some h ∧ ReadyNodes h = DesiredNodes h) ∧
  (∀ d, d ∈ daemons → isConditionTrue conditions (daemon_condition d) = true) ∧
  (∃ agg csvs cancelled now, CStatus agg = ConditionTrue ∧
     CStatus <$> find_condition ConditionReady conditions =
       Some (CStatus (Check (mkChecker (SkipGpuStackVersionChecks r) (r_Namespace r)) csvs cancelled
                        (ReadClusterPolicy listing) (Generation config) now agg).1)).

Lemma daemon_pass_settled r w config listing (os : list (observation * list event)) now :
  NoDup (map CType (Conditions config)) →
  (∀ c, c ∈ Conditions config → is_component c = true → CType c ∈ ["FractiondReady"; "MpsdReady"]) →
  Forall2 (λ d o, observes w (buildOptions r config (ReadClusterPolicy listing)) d o.1)
    (buildDaemons (Spec config) (MpsdAuditLog r) (SupportSMSharing r)) os →
  forallb healthy (map fst os) = true →
  let '(cs, _, agg) := daemon_pass (Generation config) now (Conditions config) (map fst os) in
  CStatus agg = ConditionTrue ∧ CType agg = ConditionReady ∧
  ∀ d, d ∈ buildDaemons (Spec config) (MpsdAuditLog r) (SupportSMSharing r) →
    CStatus <$> find_condition (daemon_condition d) cs = Some ConditionTrue.
Proof.
  intros Hnd Hcov Hos Hh. pose proof (observed_types _ _ _ _ _ _ Hos) as Ht.
  assert (Hne : ∀ o, o ∈ map fst os → daemon o ≠ "").
  { intros o (x & -> & Hx)%list_elem_of_fmap. apply (list_elem_of_lookup_1) in Hx as [i Hi].
    destruct (Forall2_lookup_r _ _ _ _ _ Hos Hi) as (d & Hd & Hobs). rewrite (proj1 Hobs).
    by destruct i as [|[|]]; cbn in Hd; simplify_eq. }
  pose proof (daemon_pass_spec (Generation config) now (Conditions config) (map fst os) Hnd) as H.
  pose proof (daemon_pass_type (Generation config) now (Conditions config) (map fst os)) as Hty.
  rewrite Ht in H. destruct (daemon_pass _ _ _ _) as [[cs rq] agg]. cbn [snd] in Hty.
  destruct H as (Hs & _ & _ & Hc); [eapply bool_decide_unpack; vm_compute; exact I| |done|done|].
  { by intros Hnil; rewrite Hnil in Ht. }
  split; [by rewrite Hs, Hh|]. split; [done|]. intros d [i Hi]%list_elem_of_lookup_1.
  destruct (Forall2_lookup_l _ _ _ _ _ Hos Hi) as (o & Ho & Hobs & _).
  assert (Hin : o.1 ∈ map fst os) by (apply list_elem_of_fmap; exists o; split; [done|by eapply list_elem_of_lookup_2]).
  destruct (Hc o.1 Hin) as (c & Hf & Hst). unfold daemon_condition. unfold condition_type in Hf. rewrite Hobs in Hf.
  rewrite Hf. cbn. rewrite Hst. rewrite forallb_forall in Hh. by rewrite Hh by (by apply list_elem_of_In).
Qed.
(** The two conditions written after the daemons' own leave these as they are. *)
Lemma find_after_writes d cs ready up spec audit sm : d ∈ buildDaemons spec audit sm → CType ready = ConditionReady →
  CType up = ConditionDriverUpgradeInProgress →
  find_condition (daemon_condition d) (SetCondition (SetCondition cs ready) up) = find_condition (daemon_condition d) cs ∧
  CStatus <$> find_condition ConditionReady (SetCondition (SetCondition cs ready) up) = Some (CStatus ready).
Proof.
  intros Hd Hr Hu. rewrite !find_SetCondition, Hr, Hu. unfold buildDaemons in Hd.
  change (String.eqb ConditionDriverUpgradeInProgress ConditionReady) with false. rewrite String.eqb_refl. cbn [fmap option_fmap option_map].
  split; [|by rewrite (proj2 (stored_fields _ _))].
  rewrite !elem_of_cons in Hd. by destruct Hd as [->|[->|Hd%elem_of_nil]].
Qed.

Lemma find_true cs t : CStatus <$> find_condition t cs = Some ConditionTrue → isConditionTrue cs t = true.
Proof. unfold isConditionTrue, find_condition. destruct (List.find _ cs); [|done]. cbn. by intros [= ->]. Qed.
(** The node calls keep everything but the nodes. *)
Definition off_nodes (w : W) := (finalizers w, side w).

Lemma evaluateDriverUpgrade_off_nodes w sel : off_nodes (evaluateDriverUpgrade w sel).1.1 = off_nodes w.
Proof.
  apply (evaluateDriverUpgrade_keeps off_nodes); unfold off_nodes.
  - intros w1 name p. rewrite Patch_status_side. pose proof (Patch_status_writes w1 name p) as H.
    destruct (Patch_status _ _ _). cbn [fst]. by rewrite (proj1 H).
  - intros w1 s reqs. rewrite List_matching_side. pose proof (List_matching_reads w1 s reqs) as H.
    destruct (List_matching _ _ _). cbn [fst]. by rewrite (proj1 (proj2 H)).
Qed.

Lemma patchNodeConditions_off_nodes w pages : off_nodes (patchNodeConditions w pages).1.1.1 = off_nodes w.
Proof.
  apply (patchNodeConditions_keeps off_nodes); unfold off_nodes.
  - intros w1 name. rewrite Get_node_side. pose proof (Get_node_reads w1 name) as H.
    destruct (Get_node _ _). cbn [fst]. by rewrite (proj1 (proj2 H)).
  - intros w1 name p. rewrite Patch_status_side. pose proof (Patch_status_writes w1 name p) as H.
    destruct (Patch_status _ _ _). cbn [fst]. by rewrite (proj1 H).
Qed.

Lemma node_phase_spec r w rq was : let '(w', rq', _) := node_phase r w rq was in
  off_nodes w' = off_nodes w ∧
  (rq' = false → rq = false ∧
   (was = true → ∀ p, p ∈ pods w' (r_Namespace r) managedByLabels → NodeName p ≠ "" →
      isPodReady p = true ∧ node_status (nodes w') (NodeName p) = Some ConditionTrue)).
Proof.
  unfold node_phase. destruct (rq || was) eqn:E; [|by apply orb_false_iff in E as [-> ->]].
  pose proof (List_pods_reads w (r_Namespace r) managedByLabels) as H. destruct (List_pods _ _ _) as [w1 pages].
  destruct H as (Hs & _ & Hf & Hp). pose proof (patchNodeConditions_off_nodes w1 pages) as Hk.
  pose proof (clean_pass w1 pages) as Hc. destruct (patchNodeConditions _ _) as [[[w2 unh] errs] g]. cbn [fst] in Hk.
  split; [unfold off_nodes in *; congruence|]. destruct errs; [|done]. intros [-> ->]%orb_false_iff. split; [done|].
  intros _ p Hin Hne. destruct (proj2 Hc eq_refl eq_refl) as [Hl Hready]. apply Hready; [|done]. apply Hp; [done|].
  unfold off_nodes, side in Hk. injection Hk as _ _ _ Hpods _ _. unfold side in Hs. injection Hs as _ _ Hpods' _ _. by rewrite <- Hpods', <- Hpods.
Qed.
Lemma list_csvs_reads c (p : ClusterPolicy Obj) w : let '(w', _) := list_csvs c p w in side w' = side w ∧ nodes w' = nodes w ∧ finalizers w' = finalizers w.
Proof. unfold list_csvs. destruct (consults_csvs c p); [apply List_csvs_reads|done]. Qed.

Lemma reconcile_active_spec r w config : let '(w', out) := reconcile_active error_text r w config in
  finalizers w' = finalizers w ∧
  (NoDup (map CType (Conditions config)) →
   (∀ c, c ∈ Conditions config → is_component c = true → CType c ∈ ["FractiondReady"; "MpsdReady"]) →
   (∀ k h, daemonset_health w' !! k = Some h → ReadyNodes h ≤ DesiredNodes h) →
   run_error out = None → RequeueAfter out = 0 →
   ∃ listing conditions, (listing = policies w' ∨ ∃ msg, listing = ListFailed msg) ∧
     stored_status w' = (conditions, Generation config) ∧ settled r w' config listing conditions ∧
     (isConditionTrue (Conditions config) ConditionReady = false →
      ∀ p, p ∈ pods w' (r_Namespace r) managedByLabels → NodeName p ≠ "" →
        isPodReady p = true ∧ node_status (nodes w') (NodeName p) = Some ConditionTrue)).
Proof.
  unfold reconcile_active. cbv zeta.
  pose proof (List_policies_reads w) as H1. destruct (List_policies w) as [w1 l]. destruct H1 as (S1 & _ & F1 & L1).
  pose proof (reconcile_daemons_spec (buildOptions r config (ReadClusterPolicy l)) (config_name config)
    (buildDaemons (Spec config) (MpsdAuditLog r) (SupportSMSharing r)) w1 (daemon_keys _ _ _ _)) as H2.
  destruct (reconcile_daemons _ _ _ _ _) as [w2 os]. destruct H2 as ((_ & F2 & _ & P2) & _ & Hos).
  pose proof (daemon_pass_settled r w2 config l os (Now w2)) as Hset.
  pose proof (daemon_fold_requeue (Generation config) (map fst os) (Conditions config) false) as Hrq.
  unfold daemon_pass in *. destruct (fold_left _ _ _) as [cs rq]. cbn [snd orb] in Hrq.
  set (agg := AggregateReadyCondition cs (Generation config) (Now w2)) in *.
  pose proof (list_csvs_reads (mkChecker (SkipGpuStackVersionChecks r) (r_Namespace r)) (ReadClusterPolicy l) w2) as H3.
  destruct (list_csvs _ _ w2) as [w3 csvs]. destruct H3 as (S3 & _ & F3).
  pose proof (Check_lowers (mkChecker (SkipGpuStackVersionChecks r) (r_Namespace r)) csvs (ctx_err w3) (ReadClusterPolicy l)
    (Generation config) (Now w3) agg) as Hlow.
  destruct (Check _ csvs _ _ _ _ agg) as [ready checkErr] eqn:Echeck. destruct Hlow as [Hlow _].
  pose proof (evaluateDriverUpgrade_off_nodes w3 (spec_NodeSelector (Spec config))) as K4.
  destruct (evaluateDriverUpgrade _ _) as [[w4 up] errs]. cbn [fst] in K4.
  destruct (match errs with [] => _ | _ :: _ => _ end) as [conds rq1] eqn:Em.
  pose proof (node_phase_spec r w4 rq1 (negb (isConditionTrue (Conditions config) ConditionReady))) as H5.
  destruct (node_phase _ _ _ _) as [[w5 rq2] g]. destruct H5 as [K5 Hquiet].
  pose proof (Update_status_writes w5 conds (Generation config)) as H6. destruct (Update_status _ _ _) as [w6 e].
  destruct H6 as (N6 & F6 & D6 & Hh6 & Po6 & Pl6 & St6). unfold off_nodes, side in K4, K5. unfold side in S1, S3. simplify_eq.
  split; [congruence|]. intros Hnd Hcov Hb Hok Hre. destruct e; [done|]. cbn [RequeueAfter] in Hre. destruct rq2; [done|].
  destruct (Hquiet eq_refl) as [-> Hpods]. destruct errs; [|done]. destruct checkErr; [done|]. injection Em as <- Hrq0.
  assert (HD : daemonsets w6 = daemonsets w2) by congruence. assert (HH : daemonset_health w6 = daemonset_health w2) by congruence.
  rewrite HH in Hb. destruct (settled_daemons w2 _ _ os Hos Hrq0 Hb) as [Hds Hall].
  destruct (Hset Hnd Hcov Hos Hall) as (Hagg & Hty & Hconds).
  assert (Hrt : CType ready = ConditionReady) by (destruct Hlow as [->|(_ & ? & _)]; done).
  exists l, (SetCondition (SetCondition cs ready) (DriverUpgradeCondition up (Generation config) (Now w4))). split_and!.
  - destruct L1 as [->|L1]; [left; congruence|by right].
  - by apply St6.
  - unfold settled. rewrite HD, HH. split_and!; [exact Hds| |].
    + intros d Hd. apply find_true. destruct (find_after_writes d cs ready (DriverUpgradeCondition up (Generation config) (Now w4)) _ _ _ Hd Hrt)
        as [-> _]; [by destruct up|]. by apply Hconds.
    + exists agg, csvs, (ctx_err w3), (Now w3). split; [done|]. rewrite Echeck. cbn [fst].
      by eapply (find_after_writes _ _ _ _ (Spec config) true true); [left|done|destruct up].
  - intros Hun p Hp. rewrite N6. apply Hpods; [by rewrite Hun|]. by rewrite <- Po6.
Qed.
(** C10: a run of the reconciler on a configuration that is not being deleted.  Whatever
    calls fail, the cleanup finalizer is stored by the end of the run, or the run stopped
    at it and changed neither nodes nor DaemonSets nor status.  And the reconciler only stops
    retrying on a converged cluster: if the run returns no error and asks for no requeue, and
    the configuration's conditions have distinct types and none is of another component,
    and no DaemonSet counts more ready nodes than desired ones, then each daemon's DaemonSet is stored as built from the configuration and from the
    cluster policy it read, with all its pods ready; the stored status
    has observed the configuration's generation, says True for each daemon, and its Ready
    condition is what the GPU stack check makes of an aggregate that is True; and if Ready
    was not True before (a run that finds it True does not visit the nodes), every managed pod is ready and every node running one carries the
    Ready=True condition. *)
Theorem reconcile_settles r w config : (Get_config w).2 = Ok config → deleting config = false →
  let '(w', out) := Reconcile error_text r w in
  (NodeConditionCleanupFinalizer ∈ finalizers w' ∨
   nodes w' = nodes w ∧ side w' = side w ∧ ∃ e, run_error out = Some (AddingFinalizer e)) ∧
  (NoDup (map CType (Conditions config)) →
   (∀ c, c ∈ Conditions config → is_component c = true → CType c ∈ ["FractiondReady"; "MpsdReady"]) →
   (∀ k h, daemonset_health w' !! k = Some h → ReadyNodes h ≤ DesiredNodes h) →
   run_error out = None → RequeueAfter out = 0 →
   ∃ listing conditions, (listing = policies w' ∨ ∃ msg, listing = ListFailed msg) ∧
     stored_status w' = (conditions, Generation config) ∧ settled r w' config listing conditions ∧
     (isConditionTrue (Conditions config) ConditionReady = false →
      ∀ p, p ∈ pods w' (r_Namespace r) managedByLabels → NodeName p ≠ "" →
        isPodReady p = true ∧ node_status (nodes w') (NodeName p) = Some ConditionTrue)).
Proof.
  intros Hget Hdel. unfold Reconcile. pose proof (Get_config_reads w) as H. destruct (Get_config w) as [w1 got].
  cbn [snd] in Hget. subst got. destruct H as (S1 & N1 & F1 & Hfs). specialize (Hfs config eq_refl). rewrite Hdel.
  destruct (ContainsFinalizer _ _) eqn:Ec.
  - apply ContainsFinalizer_spec in Ec. pose proof (reconcile_active_spec r w1 config) as H.
    destruct (reconcile_active _ _ _ _) as [w' out]. destruct H as [Hf H]. split; [left; congruence|exact H].
  - pose proof (Update_finalizers_side w1 (AddFinalizer (Finalizers config) NodeConditionCleanupFinalizer)) as S2.
    pose proof (Update_finalizers_writes w1 (AddFinalizer (Finalizers config) NodeConditionCleanupFinalizer)) as H.
    destruct (Update_finalizers _ _) as [w2 [e|]]; destruct H as [N2 F2]; cbn [fst] in S2.
    { split; [right; split_and!; [congruence|congruence|eauto]|done]. }
    pose proof (reconcile_active_spec r w2 config) as H. destruct (reconcile_active _ _ _ _) as [w' out]. destruct H as [Hf H].
    split; [left|exact H]. rewrite Hf, F2. apply AddFinalizer_spec. by right.
Qed.

(** ** How the GPU reaches the daemons *)

(** A container that asks the NVIDIA runtime for the devices. *)
Definition uses_gpu (c : Container) : bool := existsb (λ v, String.eqb (env_name v) "NVIDIA_VISIBLE_DEVICES") (Env c).

Lemma FIPSOnlyEnv_gpu fips : existsb (λ v, String.eqb (env_name v) "NVIDIA_VISIBLE_DEVICES") (FIPSOnlyEnv fips) = false.
Proof. by destruct fips. Qed.

Lemma resolved_runtime_class o :
  ResolveRuntimeClassName o = match o with Some "" => None | Some name => Some name | None => Some "nvidia" end.
Proof. destruct o as [s|]; [|done]. cbn. by destruct s. Qed.

Lemma sidecar_annotations_cdi d opts :
  fractiond.sidecar_annotations d opts !! "nvidia.cdi.k8s.io/container.fractiond" = None ∧
  fractiond.sidecar_annotations d opts !! "nvidia.cdi.k8s.io/container.metricsd" =
    if opt_NRIPluginEnabled opts then Some "management.nvidia.com/gpu=all" else None.
Proof.
  unfold fractiond.sidecar_annotations, SetManagementCDIDevice. destruct (opt_NRIPluginEnabled opts); cbn [negb].
  - split; [|apply lookup_insert_eq]. by rewrite !lookup_insert_ne.
  - split; by rewrite !lookup_insert_ne.
Qed.

Lemma fractiond_pod d opts (ds := fractiond.BuildDaemonSet d opts) (on := fractiond.metricsEnabled d) :
  RuntimeClassName (pod_spec ds) = (if on then opt_RuntimeClassName opts else None) ∧
  template_annotations ds = (if on then fractiond.sidecar_annotations d opts else ∅) ∧
  ∃ c, Containers (pod_spec ds) = c :: (if on then [fractiond.buildMetricsdContainer d opts] else []) ∧
    container_name c = "fractiond" ∧ uses_gpu c = false ∧ Args c = fractiond.buildArgs d opts.
Proof. split_and!; [done|done|]. eexists. split_and!; [done|done|apply FIPSOnlyEnv_gpu|done]. Qed.

Lemma mpsd_pod d opts (ds := mpsd.BuildDaemonSet d opts) :
  RuntimeClassName (pod_spec ds) = opt_RuntimeClassName opts ∧
  template_annotations ds !! "nvidia.cdi.k8s.io/container.mpsd" =
    (if opt_NRIPluginEnabled opts then Some "management.nvidia.com/gpu=all" else None) ∧
  ∃ c, Containers (pod_spec ds) = [c] ∧ container_name c = "mpsd" ∧ uses_gpu c = true.
Proof.
  split_and!; [done| |by eexists]. cbn [template_annotations ds mpsd.BuildDaemonSet]. unfold ds. cbn. unfold SetManagementCDIDevice.
  destruct (opt_NRIPluginEnabled opts); [apply lookup_insert_eq|apply lookup_empty].
Qed.

(** C30: GPUs reach the daemons one way at a time.  When the GPU Operator runs its NRI plugin,
    no managed pod asks for a RuntimeClass and exactly the containers that use the GPU are
    annotated for the management CDI device; when it does not, no container is annotated and
    exactly the pods with such a container run under the configured RuntimeClass, "nvidia"
    when unset and none when empty.  fractiond is told the same mode. *)
Theorem gpu_delivered_one_way r config (policy : ClusterPolicy Obj) :
  let nri := NRIPluginEnabled policy in
  let opts := buildOptions r config policy in
  Forall (λ d, let ds := Build d opts in
    RuntimeClassName (pod_spec ds) =
      (if negb nri && existsb uses_gpu (Containers (pod_spec ds))
       then match spec_RuntimeClassName (Spec config) with Some "" => None | Some name => Some name | None => Some "nvidia" end
       else None) ∧
    Forall (λ c, template_annotations ds !! ("nvidia.cdi.k8s.io/container." +:+ container_name c) =
                   if nri && uses_gpu c then Some "management.nvidia.com/gpu=all" else None) (Containers (pod_spec ds)) ∧
    (Name d = "fractiond" → Forall (λ c, container_name c = "fractiond" → "--inject-cdi-device=" +:+ FormatBool nri ∈ Args c)
                              (Containers (pod_spec ds))))
    (buildDaemons (Spec config) (MpsdAuditLog r) (SupportSMSharing r)).
Proof.
  cbv zeta. set (opts := buildOptions r config policy). set (nri := NRIPluginEnabled policy).
  assert (Hn : opt_NRIPluginEnabled opts = nri) by done.
  assert (Hc : opt_RuntimeClassName opts = if nri then None else ResolveRuntimeClassName (spec_RuntimeClassName (Spec config))) by done.
  rewrite <- resolved_runtime_class. clearbody opts nri. unfold buildDaemons. repeat (apply list.Forall_cons; split); [| |constructor].
  - set (d := fractiond.mkDaemon _ _ _). cbn [Build Name]. destruct (sidecar_annotations_cdi d opts) as [A1 A2].
    destruct (fractiond_pod d opts) as (-> & -> & c & -> & Hname & Hgpu & Hargs).
    assert (Hm : uses_gpu (fractiond.buildMetricsdContainer d opts) = true) by done.
    assert (Hflag : "--inject-cdi-device=" +:+ FormatBool nri ∈ Args c).
    { rewrite Hargs. unfold fractiond.buildArgs. rewrite Hn. right. left. }
    destruct (fractiond.metricsEnabled d); cbn [existsb]; rewrite Hgpu, ?Hm; cbn [orb]; rewrite ?andb_true_r, ?andb_false_r.
    + split; [rewrite Hc; by destruct nri|]. split; [|intros _; by repeat constructor].
      repeat constructor; [by rewrite Hname, Hgpu, andb_false_r|]. rewrite Hm, andb_true_r, <- Hn. exact A2.
    + split; [done|]. split; [|intros _; by repeat constructor]. repeat constructor. rewrite Hgpu, andb_false_r. apply lookup_empty.
  - set (d := mpsd.mkDaemon _ _ _). cbn [Build Name]. destruct (mpsd_pod d opts) as (-> & A & c & -> & Hname & Hgpu).
    cbn [existsb]. rewrite Hgpu, andb_true_r. split; [rewrite Hc; by destruct nri|]. split; [|done].
    repeat constructor. by rewrite Hname, Hgpu, andb_true_r, <- Hn.
Qed.
End Laws.

(** ** The images of a started operator *)

(** An operator that started passes an image for every component to the builders. *)
Lemma main_reconciler_images {Obj} `{Unstructured Obj} Getenv r config (policy : ClusterPolicy Obj) :
  main_reconciler Getenv = Some r → images_set (buildOptions r config policy).
Proof.
  unfold main_reconciler. destruct (existsb _ _) eqn:E; [done|]. intros [= <-].
  cbn [existsb fst snd] in E. apply orb_false_iff in E as [E1 [E2 [E3 _]%orb_false_iff]%orb_false_iff].
  repeat (apply list.Forall_cons; split); [| | |constructor]; unfold image_of, buildOptions; cbn [DefaultImages r_DefaultImages];
    by apply String.eqb_neq.
Qed.

(** ** When the cluster policy cannot be read

    A failed read counts as NRI off: daemons running in NRI mode are rolled onto the
    RuntimeClass, which the GPU Operator deleted in that mode. *)
Theorem unreadable_policy_leaves_nri {Obj} `{Unstructured Obj} r config msg d :
  d ∈ buildDaemons (Spec config) (MpsdAuditLog r) (SupportSMSharing r) → Name d = "mpsd" → spec_RuntimeClassName (Spec config) = None →
  let pod policies := pod_spec (Build d (buildOptions r config (ReadClusterPolicy (Obj := Obj) policies))) in
  (∀ policy, NRIPluginEnabled (mkClusterPolicy (Some policy) None) = true → RuntimeClassName (pod (Listed [policy])) = None) ∧
  RuntimeClassName (pod (ListFailed msg)) = Some "nvidia".
Proof.
  intros Hd Hname Hc pod. unfold buildDaemons in Hd. rewrite !elem_of_cons in Hd. destruct Hd as [->|[->|Hd%elem_of_nil]]; [done| |done].
  split.
  - intros policy Hn. unfold pod, buildOptions. cbn [ReadClusterPolicy]. by rewrite Hn.
  - unfold pod, buildOptions. cbn. by rewrite Hc.
Qed.

(** ** A site whose calls succeed

    The configuration is active; its finalizers and status are those stored. *)

Record site := mkSite {
  s_cluster : cluster;
  s_config : Config;
  s_daemonsets : gmap key DaemonSet;
  s_health : gmap key DaemonHealth;
  s_pods : list Pod;
  s_policies : Listing any;
  s_status : list Condition * Z
}.
Definition with_cluster (w : site) (c : cluster) : site :=
  mkSite c (s_config w) (s_daemonsets w) (s_health w) (s_pods w) (s_policies w) (s_status w).

#[local] Existing Instance k8s_selection.
#[local] Existing Instance cluster_api.
#[local] Existing Instance cluster_laws.
#[local] Existing Instance json_object.
#[local] Existing Instance release_semver.

Definition lift {A} (w : site) (res : cluster * A) : site * A := (with_cluster w res.1, res.2).

#[local] Instance site_cluster_api : ClusterAPI site := {|
  Now w := 7 + Z.of_nat (List.length (s_status w).1);
  ctx_err _ := false;
  Get_node w name := lift w (Get_node (s_cluster w) name);
  Patch_status w name p := lift w (Patch_status (s_cluster w) name p);
  Patch_node w name p := lift w (Patch_node (s_cluster w) name p);
  List_nodes w sel := lift w (List_nodes (s_cluster w) sel);
  List_matching w sel reqs := lift w (List_matching (s_cluster w) sel reqs);
  Update_finalizers w fs := lift w (Update_finalizers (s_cluster w) fs);
  ContainsFinalizer := ContainsFinalizer (W := cluster);
  RemoveFinalizer := RemoveFinalizer (W := cluster)
|}.

#[local] Instance site_cluster_laws : ClusterLaws site.
Proof.
  refine {| nodes w := stored_nodes (s_cluster w); finalizers w := stored_finalizers (s_cluster w);
            Get_node_reads := _; Patch_status_writes := _; Patch_node_writes := _; List_nodes_reads := _;
            List_matching_reads := _; Update_finalizers_writes := _; ContainsFinalizer_spec := _; RemoveFinalizer_spec := _ |}.
  - intros w name. pose proof (Get_node_reads (s_cluster w) name) as H. cbn [Get_node site_cluster_api]. unfold lift.
    by destruct (Get_node (s_cluster w) name).
  - intros w name p. pose proof (Patch_status_writes (s_cluster w) name p) as H. cbn [Patch_status site_cluster_api]. unfold lift.
    by destruct (Patch_status (s_cluster w) name p).
  - intros w name p. pose proof (Patch_node_writes (s_cluster w) name p) as H. cbn [Patch_node site_cluster_api]. unfold lift.
    by destruct (Patch_node (s_cluster w) name p).
  - intros w sel. pose proof (List_nodes_reads (s_cluster w) sel) as H. cbn [List_nodes site_cluster_api]. unfold lift.
    by destruct (List_nodes (s_cluster w) sel).
  - intros w sel reqs. pose proof (List_matching_reads (s_cluster w) sel reqs) as H. cbn [List_matching site_cluster_api]. unfold lift.
    by destruct (List_matching (s_cluster w) sel reqs).
  - intros w fs. done.
  - apply (ContainsFinalizer_spec (W := cluster)).
  - apply (RemoveFinalizer_spec (W := cluster)).
Defined.

#[local] Instance site_api : ConfigAPI site any := {|
  Get_config w := (w, Ok (mkConfig (config_name (s_config w)) (Generation (s_config w)) false
                            (stored_finalizers (s_cluster w)) (Spec (s_config w)) (s_status w).1));
  CreateOrUpdate w ds _ := (mkSite (s_cluster w) (s_config w) (<[key_of ds := ds]> (s_daemonsets w)) (s_health w) (s_pods w)
                              (s_policies w) (s_status w), None);
  Get_daemonset w k := (w, match s_health w !! k with Some h => Ok h | None => Err NotFound end);
  List_pods w _ _ := (w, LastPage (s_pods w));
  List_policies w := (w, s_policies w);
  List_csvs w := (w, Absent);
  Update_status w cs g := (mkSite (s_cluster w) (s_config w) (s_daemonsets w) (s_health w) (s_pods w) (s_policies w) (cs, g), None);
  AddFinalizer fs f := fs ++ [f]
|}.

#[local] Instance site_laws : ConfigLaws site any.
Proof.
  refine {| daemonsets := s_daemonsets; daemonset_health := s_health; pods w _ _ := s_pods w; policies := s_policies;
            stored_status := s_status |}; try done.
  - intros w. cbn. split_and!; try done. by intros c [= <-].
  - intros w ds owner. cbn. split_and!; try done.
    + intros k Hk. by rewrite lookup_insert_ne.
    + intros _. apply lookup_insert_eq.
  - intros w k. cbn. split_and!; try done. intros h. destruct (s_health w !! k); [by intros [= ->]|done].
  - intros w. cbn. split_and!; try done. by left.
  - intros fs f g. cbn. rewrite elem_of_app, list_elem_of_singleton. done.
Defined.

Definition sample_site : site :=
  mkSite (mkCluster (stored_nodes sample_cluster) [])
    (mkConfig "default" 4 false [] (mkConfigSpec {["gpu" := "a"]} [] None (Some (mkFractioningAgentSpec "" None "" true "" "" None None None None))
       (Some (mkMetricsAgentSpec true "" "" "" [] [] None)) None) [])
    ∅ {[("gpu-fractioning", "gpu-fractioning-fractiond") := mkHealth 1 1; ("gpu-fractioning", "gpu-fractioning-mpsd") := mkHealth 1 1]}
    [sample_pod "n1" true] (Listed [sample_policy "v1.20.1-ubuntu20.04"]) ([], 3).
Definition sample_reconciler : reconciler := mkReconciler "gpu-fractioning" ∅ "daemons" true true false false.

(** A first run on a healthy cluster. *)
Lemma reconcile_settles_witness :
  let '(w', out) := Reconcile (λ _, "error") sample_reconciler sample_site in
  RequeueAfter out = 0 ∧ run_error out = None ∧ NodeConditionCleanupFinalizer ∈ stored_finalizers (s_cluster w') ∧
  node_status (stored_nodes (s_cluster w')) "n1" = Some ConditionTrue ∧
  (∃ ds, s_daemonsets w' !! ("gpu-fractioning", "gpu-fractioning-mpsd") = Some ds ∧ container_name <$> Containers (pod_spec ds) = ["mpsd"]) ∧
  isConditionTrue (s_status w').1 "MpsdReady" = true.
Proof.
  destruct (Get_config sample_site).2 as [config|] eqn:Eg; [|discriminate].
  pose proof (reconcile_settles (λ _, "error") sample_reconciler sample_site config Eg) as H.
  cbn in Eg. injection Eg as <-. specialize (H eq_refl).
  assert (Hrun : RequeueAfter (Reconcile (λ _, "error") sample_reconciler sample_site).2 = 0 ∧
    run_error (Reconcile (λ _, "error") sample_reconciler sample_site).2 = None ∧
    s_health (Reconcile (λ _, "error") sample_reconciler sample_site).1 = s_health sample_site ∧
    s_pods (Reconcile (λ _, "error") sample_reconciler sample_site).1 = s_pods sample_site ∧
    s_policies (Reconcile (λ _, "error") sample_reconciler sample_site).1 = s_policies sample_site).
  { split; [vm_compute; reflexivity|]. split; [vm_compute; reflexivity|]. split; [vm_cast_no_check (eq_refl (s_health sample_site))|].
    split; [vm_cast_no_check (eq_refl (s_pods sample_site))|vm_cast_no_check (eq_refl (s_policies sample_site))]. }
  destruct (Reconcile _ _ _) as [w' out]. cbn [fst snd] in Hrun. destruct Hrun as (H1 & H2 & H3 & H4 & H5).
  destruct H as [Hf Hs]. destruct Hs as (listing & conds & Hl & Hst & (Hds & Hconds & _) & Hnodes); [constructor|by intros c ?%elem_of_nil| |done|done|].
  { intros k h. change (daemonset_health w') with (s_health w'). rewrite H3. cbn [s_health sample_site].
    rewrite lookup_insert_Some, lookup_singleton_Some. by intros [[_ <-]|[_ [_ <-]]]. }
  split; [exact H1|]. split; [exact H2|]. split; [destruct Hf as [Hf|(_ & _ & e & He)]; [exact Hf|congruence]|].
  split; [apply (Hnodes eq_refl (sample_pod "n1" true)); [|done]; change (sample_pod "n1" true ∈ s_pods w'); rewrite H4; left|].
  split.
  - destruct (Hds (mkManagedDaemon mpsd.daemonName (mpsd.BuildDaemonSet (mpsd.mkDaemon None true true)))) as [Hd _]; [right; left|].
    eexists. split; [exact Hd|reflexivity].
  - change (stored_status w') with (s_status w') in Hst. rewrite Hst.
    apply (Hconds (mkManagedDaemon mpsd.daemonName (mpsd.BuildDaemonSet (mpsd.mkDaemon None true true)))). right. left.
Defined.
