(* ===== verification/GoSort.v ===== *)
(** * Go's sort package

    [sort.Strings], and [sort.Slice] by one or two string keys.  [sort.Slice] is not
    stable; when the keys are distinct the sorted list is the only one
    ([SortBy_unique]), whichever algorithm finds it and from whatever order. *)

From Stdlib Require Import ZArith Lia String Ascii.
From stdpp Require Import base list sorting strings.
From S2P Require Import Prelude GoStrings.

#[local] Open Scope string_scope.
#[local] Open Scope list_scope.

(** Go compares strings byte by byte. *)
Definition string_le (a b : string) : Prop := String.leb a b = true.
#[global] Instance string_le_dec : RelDecision string_le.
Proof. intros a b. unfold string_le. apply _. Defined.
Definition SortStrings (names : list string) : list string := merge_sort string_le names.

#[global] Instance string_le_total : Total string_le.
Proof. intros a b. unfold string_le. apply String.leb_total. Qed.
#[global] Instance string_le_trans : Transitive string_le.
Proof.
  intros a b c H1 H2. apply Is_true_eq_true. change (String.le a c).
  transitivity b; unfold String.le; by apply Is_true_eq_left.
Qed.
#[global] Instance string_le_antisymm : AntiSymm eq string_le.
Proof. intros a b H1 H2. by apply String.leb_antisym. Qed.

(** Keys compared in turn. *)
Definition pair_le (a b : string * string) : Prop := a.1 ≠ b.1 ∧ string_le a.1 b.1 ∨ a.1 = b.1 ∧ string_le a.2 b.2.
#[global] Instance pair_le_dec : RelDecision pair_le.
Proof. intros a b. unfold pair_le. apply _. Defined.
#[global] Instance pair_le_total : Total pair_le.
Proof.
  intros [a1 a2] [b1 b2]. unfold pair_le. cbn. destruct (decide (a1 = b1)) as [->|Hne].
  - destruct (total string_le a2 b2); auto.
  - destruct (total string_le a1 b1); auto.
Qed.
#[global] Instance pair_le_trans : Transitive pair_le.
Proof.
  intros [a1 a2] [b1 b2] [c1 c2]. unfold pair_le. cbn.
  intros [[Hn H1]|[-> H1]] [[Hn' H2]|[-> H2]]; [|by left|by left|right; split; [done|by transitivity b2]].
  left. split; [|by transitivity b1]. intros ->. apply Hn. by apply (anti_symm string_le).
Qed.
#[global] Instance pair_le_antisymm : AntiSymm eq pair_le.
Proof.
  intros [a1 a2] [b1 b2]. unfold pair_le. cbn. intros [[Hn H1]|[-> H1]] [[Hn' H2]|[He H2]]; try done.
  - destruct Hn. by apply (anti_symm string_le).
  - f_equal. by apply (anti_symm string_le).
Qed.

Lemma NoDup_map_inj {A B} (key : A → B) (l : list A) a b : NoDup (map key l) → a ∈ l → b ∈ l → key a = key b → a = b.
Proof.
  induction l as [|x l IH]; intros Hnd Ha Hb He; [by apply not_elem_of_nil in Ha|].
  cbn in Hnd. apply list.NoDup_cons in Hnd as [Hx Hnd].
  apply elem_of_cons in Ha as [->|Ha], Hb as [->|Hb]; auto; destruct Hx.
  - rewrite He. by apply (list_elem_of_fmap_2 key).
  - rewrite <- He. by apply (list_elem_of_fmap_2 key).
Qed.

Section sort_slice.
Context {A : Type} (key : A → string * string).

Definition key_le (a b : A) : Prop := pair_le (key a) (key b).
#[global] Instance key_le_dec : RelDecision key_le.
Proof. intros a b. unfold key_le. apply _. Defined.
#[local] Instance key_le_total : Total key_le.
Proof. intros a b. unfold key_le. apply total, _. Qed.
#[local] Instance key_le_trans : Transitive key_le.
Proof. intros a b c. unfold key_le. apply pair_le_trans. Qed.

Definition SortBy (l : list A) : list A := merge_sort key_le l.

Lemma SortBy_Permutation l : SortBy l ≡ₚ l.
Proof. apply merge_sort_Permutation. Qed.

Lemma SortBy_sorted l : StronglySorted key_le (SortBy l).
Proof. apply StronglySorted_merge_sort; apply _. Qed.

Lemma elem_of_SortBy x l : x ∈ SortBy l ↔ x ∈ l.
Proof. by rewrite SortBy_Permutation. Qed.

(** The only sorted arrangement of elements with distinct keys. *)
Lemma SortBy_unique l l' : NoDup (map key l) → l' ≡ₚ l → StronglySorted key_le l' → l' = SortBy l.
Proof.
  intros Hnd Hp Hs. apply (StronglySorted_unique_strong key_le); [|done|apply SortBy_sorted|].
  - intros a b Ha Hb H1 H2. rewrite Hp in Ha. rewrite elem_of_SortBy in Hb.
    apply (NoDup_map_inj key l); [done..|]. by apply (anti_symm pair_le).
  - by rewrite SortBy_Permutation.
Qed.

Lemma SortBy_perm l l' : NoDup (map key l) → l' ≡ₚ l → SortBy l' = SortBy l.
Proof. intros Hnd Hp. apply SortBy_unique; [done|by rewrite SortBy_Permutation|apply SortBy_sorted]. Qed.

End sort_slice.
