(* ===== verification/CrdUpgrade.v ===== *)
(** * operator: the CRD upgrade hook

    [charts/crds/embed.go] and [internal/crdupgrade/crdupgrade.go]: the CRDs embedded
    in the operator image are applied in the order of their file names, each one
    until the API server serves it.  YAML parsing belongs to sigs.k8s.io/yaml and is
    a parameter; so is the API server, with the calls of [CrdAPI].  Logging and the
    construction of the client are left out. *)

From Stdlib Require Import ZArith Lia String Ascii.
From stdpp Require Import base gmap list sorting strings.
From S2P Require Import Prelude GoStrings GoSort Status NodeStatus GpuStack.

#[local] Open Scope string_scope.
#[local] Open Scope list_scope.
#[local] Open Scope Z_scope.

(** ** embed.go *)

Definition crdKind : string := "CustomResourceDefinition".

Inductive CrdError :=
| ReadingDirectory (msg : string) | ReadingFile (name msg : string) | ParsingFile (name msg : string)
| WrongKind (name kind : string) | NoName (name : string) | NoManifests
| Applying (name : string) (e : ApiError) | Waiting (name : string) (why : WaitError)
with WaitError := GetFailed (e : ApiError) | NamesRejected (message : string) | TimedOut.

(** The calls on the API server, and the clock of a wait: its start, whether its two minutes
    have passed, and the tick of its timer. *)
Class CrdAPI (W Obj : Type) := {
  Apply_crd : W → Obj → W * option ApiError;
  Get_crd : W → string → W * result ApiError Obj;
  start_wait : W → W;
  expired : W → bool;
  next_tick : W → W
}.

Section CrdUpgrade.
Context {Obj : Type} {unstructured : Unstructured Obj}.
(** [yaml.Unmarshal] into an object, and [GetKind]. *)
Context (Unmarshal : string → result string Obj) (GetKind : Obj → string).

Definition load_manifest (ReadFile : string → result string string) (name : string) : result CrdError Obj :=
  match ReadFile name with
  | Err msg => Err (ReadingFile name msg)
  | Ok data =>
      match Unmarshal data with
      | Err msg => Err (ParsingFile name msg)
      | Ok obj =>
          if negb (String.eqb (GetKind obj) crdKind) then Err (WrongKind name (GetKind obj))
          else if String.eqb (GetName obj) "" then Err (NoName name)
          else Ok obj
      end
  end.

Fixpoint load_manifests (ReadFile : string → result string string) (names : list string) : result CrdError (list Obj) :=
  match names with
  | [] => Ok []
  | name :: rest => obj <-? load_manifest ReadFile name;; objs <-? load_manifests ReadFile rest;; Ok (obj :: objs)
  end.

(** The entries of the embedded directory: name, and whether it is a directory. *)
Definition Load (entries : result string (list (string * bool))) (ReadFile : string → result string string) : result CrdError (list Obj) :=
  match entries with
  | Err msg => Err (ReadingDirectory msg)
  | Ok entries =>
      let names := SortStrings (map fst (List.filter (λ e, negb e.2) entries)) in
      objs <-? load_manifests ReadFile names;; match objs with [] => Err NoManifests | _ => Ok objs end
  end.

(** ** crdupgrade.go *)

Definition condition (obj : Obj) (want : string) : option Obj :=
  match NestedSlice obj ["status"; "conditions"] with
  | None => None
  | Some conds => List.find (λ c, match as_map c with
                                  | Some cond => bool_decide (NestedString cond ["type"] = (want, true))
                                  | None => false
                                  end) conds
  end.
Definition condition_status (obj : Obj) (want status : string) : bool :=
  match condition obj want with Some cond => bool_decide (NestedString cond ["status"] = (status, true)) | None => false end.
Definition isEstablished (obj : Obj) : bool := condition_status obj "Established" "True".
Definition names_rejected (obj : Obj) : bool := condition_status obj "NamesAccepted" "False".
Definition rejection_message (obj : Obj) : string :=
  match condition obj "NamesAccepted" with Some cond => (NestedString cond ["message"]).1 | None => "" end.

Context {W : Type} {api : CrdAPI W Obj}.

(** The ticks of two minutes, and the poll at the start. *)
Definition max_polls : nat := 121.

Fixpoint poll (fuel : nat) (w : W) (name : string) : W * option WaitError :=
  match fuel with
  | O => (w, Some TimedOut)
  | S fuel =>
      let '(w, r) := Get_crd w name in
      match r with
      | Err e => (w, Some (GetFailed e))
      | Ok obj =>
          if names_rejected obj then (w, Some (NamesRejected (rejection_message obj)))
          else if isEstablished obj then (w, None)
          else if expired w then (w, Some TimedOut)
          else poll fuel (next_tick w) name
      end
  end.

Definition waitEstablished (w : W) (name : string) : W * option CrdError :=
  let '(w, err) := poll max_polls (start_wait w) name in (w, Waiting name <$> err).

Fixpoint applyObjects (w : W) (objs : list Obj) : W * option CrdError :=
  match objs with
  | [] => (w, None)
  | obj :: rest =>
      let name := GetName obj in
      let '(w, err) := Apply_crd w obj in
      match err with
      | Some e => (w, Some (Applying name e))
      | None =>
          let '(w, err) := waitEstablished w name in
          match err with Some e => (w, Some e) | None => applyObjects w rest end
      end
  end.

Definition Apply (w : W) (loaded : result CrdError (list Obj)) : W * option CrdError :=
  match loaded with Err e => (w, Some e) | Ok objs => applyObjects w objs end.

(** ** What is relied on of the API *)

Definition served (o : Obj) : bool := isEstablished o && negb (names_rejected o).

Class CrdLaws := {
  crds : W → gmap string Obj;
  applied : W → list Obj;                     (** the objects sent, in order *)
  seconds : W → nat;                          (** since the wait began *)
  Apply_crd_writes w obj : let '(w', e) := Apply_crd w obj in
    applied w' = applied w ++ [obj] ∧ ∀ n, n ≠ GetName obj → crds w' !! n = crds w !! n;
  Get_crd_reads w name : let '(w', r) := Get_crd w name in
    crds w' = crds w ∧ applied w' = applied w ∧ seconds w' = seconds w ∧ ∀ o, r = Ok o → crds w !! name = Some o;
  start_wait_spec w : crds (start_wait w) = crds w ∧ applied (start_wait w) = applied w ∧ seconds (start_wait w) = 0%nat;
  (** ticks are a second apart at least, and the context expires after two minutes *)
  next_tick_spec w : applied (next_tick w) = applied w ∧ (S (seconds w) ≤ seconds (next_tick w))%nat;
  expired_spec w : expired w = true ↔ (120 ≤ seconds w)%nat;
  (** while we wait the API server updates the objects, but does not stop serving one *)
  next_tick_serves w name o : crds w !! name = Some o → served o = true →
    ∃ o', crds (next_tick w) !! name = Some o' ∧ served o' = true
}.

Context {laws : CrdLaws}.

Definition is_served (w : W) (name : string) : Prop := ∃ o, crds w !! name = Some o ∧ served o = true.

(** The polls run out before the fuel does. *)
Lemma poll_enough name extra fuel : ∀ w, (121 ≤ seconds w + fuel)%nat → fuel ≠ O →
  poll (fuel + extra) w name = poll fuel w name.
Proof.
  induction fuel as [|fuel IH]; intros w Hf Hne; [done|]. cbn [poll Nat.add].
  pose proof (Get_crd_reads w name) as H. destruct (Get_crd w name) as [w1 [o|e]]; [|done].
  destruct H as (_ & _ & Hs & _). destruct (names_rejected o); [done|]. destruct (isEstablished o); [done|].
  destruct (expired w1) eqn:Ee; [done|]. pose proof (next_tick_spec w1) as [_ Ht].
  assert (¬ (120 ≤ seconds w1)%nat) by (rewrite <- expired_spec, Ee; done). apply IH; lia.
Qed.

Lemma poll_spec name fuel : ∀ w, let '(w', err) := poll fuel w name in
  applied w' = applied w ∧ (∀ n, is_served w n → is_served w' n) ∧ (err = None → is_served w' name).
Proof.
  induction fuel as [|fuel IH]; intros w; cbn [poll]; [done|].
  pose proof (Get_crd_reads w name) as H. destruct (Get_crd w name) as [w1 r]. destruct H as (Hc & Ha & _ & Hr).
  assert (Hkeep : ∀ n, is_served w n → is_served w1 n) by (intros n (o & Ho & Hs); exists o; by rewrite Hc).
  destruct r as [o|e]; [|by split_and!]. destruct (names_rejected o) eqn:En; [by split_and!|]. destruct (isEstablished o) eqn:Eo.
  { split_and!; [done|done|]. intros _. exists o. rewrite Hc. split; [by apply Hr|]. unfold served. by rewrite Eo, En. }
  destruct (expired w1); [by split_and!|]. specialize (IH (next_tick w1)). destruct (poll _ _ _) as [w' err].
  destruct IH as (Ha' & Hk & Hok). pose proof (next_tick_spec w1) as [Ht _]. split_and!; [congruence| |done].
  intros n Hn. apply Hk. destruct (Hkeep n Hn) as (o' & Ho' & Hs). destruct (next_tick_serves w1 n o' Ho' Hs) as (o'' & H1 & H2).
  by exists o''.
Qed.

Lemma waitEstablished_spec w name : let '(w', err) := waitEstablished w name in
  applied w' = applied w ∧ (∀ n, is_served w n → is_served w' n) ∧ (err = None → is_served w' name).
Proof.
  unfold waitEstablished. pose proof (poll_spec name max_polls (start_wait w)) as H.
  destruct (start_wait_spec w) as (Hc & Ha & _). destruct (poll _ _ _) as [w' err]. destruct H as (Ha' & Hk & Hok).
  split_and!; [congruence| |destruct err; [done|intros _; by apply Hok]]. intros n (o & Ho & Hs). apply Hk. exists o. by rewrite Hc.
Qed.

(** What was sent is a prefix, all of it but the last served when the last was sent. *)
Lemma applyObjects_spec objs : ∀ w, NoDup (map GetName objs) →
  let '(w', err) := applyObjects w objs in
  (∃ sent rest, objs = sent ++ rest ∧ applied w' = applied w ++ sent ∧ (err = None → rest = []) ∧
     ∀ o, o ∈ removelast sent → is_served w' (GetName o)) ∧
  (∀ n, n ∉ map GetName objs → is_served w n → is_served w' n) ∧
  (err = None → ∀ o, o ∈ objs → is_served w' (GetName o)).
Proof.
  induction objs as [|obj objs IH]; intros w Hnd; cbn [applyObjects].
  { split_and!; [|done|by intros _ o ?%elem_of_nil]. exists [], []. split_and!; [done|by rewrite app_nil_r|done|by intros o ?%elem_of_nil]. }
  apply list.NoDup_cons in Hnd as [Hobj Hnd]. pose proof (Apply_crd_writes w obj) as H1. destruct (Apply_crd w obj) as [w1 e].
  destruct H1 as [Ha1 Hc1].
  assert (Hk1 : ∀ n, n ≠ GetName obj → is_served w n → is_served w1 n).
  { intros n Hn (o & Ho & Hs). exists o. by rewrite Hc1. }
  destruct e as [e|].
  { split_and!; [|intros n [Hn _]%not_elem_of_cons; by apply Hk1|done]. exists [obj], objs. split_and!; try done. by intros o ?%elem_of_nil. }
  pose proof (waitEstablished_spec w1 (GetName obj)) as H2. destruct (waitEstablished _ _) as [w2 e2]. destruct H2 as (Ha2 & Hk2 & Hok2).
  destruct e2 as [e2|].
  { split_and!; [|intros n [Hn _]%not_elem_of_cons ?; by apply Hk2, Hk1|done]. exists [obj], objs. split_and!; try done; [congruence|].
    by intros o ?%elem_of_nil. }
  specialize (IH w2 Hnd). destruct (applyObjects w2 objs) as [w' err]. destruct IH as ((sent & rest & -> & Ha & Hrest & Hsent) & Hk & Hall).
  assert (Hfirst : is_served w' (GetName obj)) by (by apply Hk; [|apply Hok2]).
  split_and!.
  - exists (obj :: sent), rest. split_and!; [done|by rewrite Ha, Ha2, Ha1, <- app_assoc|done|].
    intros o Ho. destruct sent as [|o' sent]; [by apply elem_of_nil in Ho|]. cbn [removelast] in Ho, Hsent.
    apply elem_of_cons in Ho as [->|Ho]; [done|by apply Hsent].
  - intros n [Hn Hns]%not_elem_of_cons Hs. by apply Hk, Hk2, Hk1.
  - intros He o [->|Ho]%elem_of_cons; [done|by apply Hall].
Qed.

Lemma load_manifests_spec ReadFile names : ∀ objs, load_manifests ReadFile names = Ok objs →
  Forall2 (λ name obj, load_manifest ReadFile name = Ok obj) names objs.
Proof.
  induction names as [|name names IH]; intros objs; cbn [load_manifests]; [by intros [= <-]|].
  destruct (load_manifest ReadFile name) as [o|] eqn:E; cbn [rbind]; [|done].
  destruct (load_manifests ReadFile names) as [os|] eqn:Es; cbn [rbind]; [|done]. intros [= <-]. constructor; [done|by apply IH].
Qed.

(** C36: the CRD hook applies the embedded manifests in the order of their file names, one at a
    time.  It sends nothing unless every manifest loads as a named CRD and there is one.
    Whatever call fails, what was sent is a prefix of the manifests, each but the last being
    served by then; when the hook succeeds all of them were sent and all are
    served.  Each wait ends: the polls that fit in its two minutes decide it, and allowing
    more would not change it. *)
Theorem crds_applied_in_order w entries ReadFile :
  let files := SortStrings (map fst (List.filter (λ e : string * bool, negb e.2) entries)) in
  let '(w', err) := Apply w (Load (Ok entries) ReadFile) in
  Sorted string_le files ∧ files ≡ₚ map fst (List.filter (λ e : string * bool, negb e.2) entries) ∧
  (∀ name extra, poll (max_polls + extra) (start_wait w) name = poll max_polls (start_wait w) name) ∧
  match Load (Ok entries) ReadFile with
  | Err e => w' = w ∧ err = Some e
  | Ok objs =>
      objs ≠ [] ∧ Forall2 (λ name obj, load_manifest ReadFile name = Ok obj) files objs ∧
      (NoDup (map GetName objs) →
       (∃ sent rest, objs = sent ++ rest ∧ applied w' = applied w ++ sent ∧ (err = None → rest = []) ∧
          ∀ o, o ∈ removelast sent → is_served w' (GetName o)) ∧
       (err = None → ∀ o, o ∈ objs → is_served w' (GetName o)))
  end.
Proof.
  intros files. assert (Hs : Sorted string_le files) by (apply Sorted_merge_sort; apply _).
  assert (Hp : files ≡ₚ map fst (List.filter (λ e : string * bool, negb e.2) entries)) by apply merge_sort_Permutation.
  assert (Hpoll : ∀ name extra, poll (max_polls + extra) (start_wait w) name = poll max_polls (start_wait w) name).
  { intros name extra. apply poll_enough; [unfold max_polls; lia|done]. }
  assert (Hload : ∀ objs, Load (Ok entries) ReadFile = Ok objs → objs ≠ [] ∧
    Forall2 (λ name obj, load_manifest ReadFile name = Ok obj) files objs).
  { intros objs. cbn [Load]. fold files. destruct (load_manifests ReadFile files) as [os|] eqn:E; cbn [rbind]; [|done].
    apply load_manifests_spec in E. destruct os; [done|]. by intros [= <-]. }
  destruct (Load (Ok entries) ReadFile) as [objs|e]; cbn [Apply]; [|done].
  pose proof (applyObjects_spec objs w) as H. destruct (applyObjects w objs) as [w' err].
  destruct (Hload objs eq_refl) as [Hne Hf]. split_and!; [done..|]. intros Hnd. destruct (H Hnd) as (H1 & _ & H2). done.
Qed.
End CrdUpgrade.

(** ** An API server that serves what it is sent *)

#[local] Existing Instance json_object.

Record crd_server := mkServer { held : gmap string any; sent_log : list any; elapsed : nat }.

#[local] Instance server_api : CrdAPI crd_server any := {|
  Apply_crd w obj := (mkServer (<[GetName obj := obj]> (held w)) (sent_log w ++ [obj]) (elapsed w), None);
  Get_crd w name := (w, match held w !! name with Some o => Ok o | None => Err NotFound end);
  start_wait w := mkServer (held w) (sent_log w) 0;
  expired w := (120 <=? elapsed w)%nat;
  next_tick w := mkServer (held w) (sent_log w) (S (elapsed w))
|}.

#[local] Instance server_laws : CrdLaws (W := crd_server).
Proof.
  refine {| crds := held; applied := sent_log; seconds := elapsed |}; try done.
  - intros w obj. cbn. split; [done|]. intros n Hn. by rewrite lookup_insert_ne.
  - intros w name. cbn. split_and!; try done. intros o. destruct (held w !! name); [by intros [= ->]|done].
  - intros w. apply Nat.leb_le.
  - intros w name o Ho Hs. by exists o.
Defined.

Definition sample_crd (name : string) : any := AMap
  [("kind", AString crdKind); ("metadata", AMap [("name", AString name)]);
   ("status", AMap [("conditions", ASlice [AMap [("type", AString "Established"); ("status", AString "True")]])])].
Definition sample_kind (v : any) : string := (NestedString v ["kind"]).1.

Lemma crds_applied_in_order_witness :
  let load := Load (λ data, Ok (sample_crd data)) sample_kind (Ok [("b.yaml", false); ("sub", true); ("a.yaml", false)]) (λ f, Ok f) in
  let '(w', err) := Apply (mkServer ∅ [] 0) load in
  load = Ok [sample_crd "a.yaml"; sample_crd "b.yaml"] ∧ err = None ∧ sent_log w' = [sample_crd "a.yaml"; sample_crd "b.yaml"] ∧
  is_served w' "b.yaml".
Proof.
  intros load. assert (Hload : load = Ok [sample_crd "a.yaml"; sample_crd "b.yaml"]) by (vm_compute; reflexivity).
  pose proof (crds_applied_in_order (λ data, Ok (sample_crd data)) sample_kind (mkServer ∅ [] 0)
    [("b.yaml", false); ("sub", true); ("a.yaml", false)] (λ f, Ok f)) as H. cbv zeta in H. fold load in H.
  assert (Herr : (Apply (mkServer ∅ [] 0) load).2 = None) by (vm_compute; reflexivity).
  destruct (Apply _ load) as [w' err]. cbn [snd] in Herr. subst err. rewrite Hload in H. destruct H as (_ & _ & _ & _ & _ & H).
  destruct H as [(sent & rest & Hs & Ha & Hr & _) Hall]; [eapply bool_decide_unpack; vm_compute; exact I|].
  rewrite (Hr eq_refl), app_nil_r in Hs. subst sent.
  split; [exact Hload|]. split; [reflexivity|]. split; [exact Ha|]. apply (Hall eq_refl (sample_crd "b.yaml")). right. left.
Defined.
