(* ===== verification/GoRegexp.v ===== *)
(** * Go's regexp, for anchored patterns

    The patterns of the sources are anchored at both ends and have only ASCII
    classes, so matching is a question about the whole byte string.  [matches]
    decides it with derivatives; [lang] is the language of a pattern, and the two
    agree. *)

From Stdlib Require Import ZArith Lia String Ascii.
From stdpp Require Import base list strings.
From S2P Require Import Prelude GoStrings.

#[local] Open Scope string_scope.
#[local] Open Scope list_scope.

Inductive re :=
| Empty
| Eps
| Class (p : ascii → bool)
| Seq (r s : re)
| Alt (r s : re)
| Star (r : re).

Definition Plus (r : re) : re := Seq r (Star r).
Definition Opt (r : re) : re := Alt r Eps.
Definition Lit (c : ascii) : re := Class (Ascii.eqb c).
Fixpoint Word (s : string) : re :=
  match s with EmptyString => Eps | String c s => Seq (Lit c) (Word s) end.
(** [r{n}] *)
Fixpoint Times (n : nat) (r : re) : re :=
  match n with O => Eps | S n => Seq r (Times n r) end.

Definition between (lo hi c : ascii) : bool := (nat_of_ascii lo <=? nat_of_ascii c)%nat && (nat_of_ascii c <=? nat_of_ascii hi)%nat.
Definition digit (c : ascii) : bool := between "0" "9" c.
Definition lowercase (c : ascii) : bool := between "a" "z" c.
Definition uppercase (c : ascii) : bool := between "A" "Z" c.

Fixpoint nullable (r : re) : bool :=
  match r with
  | Empty | Class _ => false
  | Eps | Star _ => true
  | Seq r s => nullable r && nullable s
  | Alt r s => nullable r || nullable s
  end.

Fixpoint deriv (c : ascii) (r : re) : re :=
  match r with
  | Empty | Eps => Empty
  | Class p => if p c then Eps else Empty
  | Seq r s => if nullable r then Alt (Seq (deriv c r) s) (deriv c s) else Seq (deriv c r) s
  | Alt r s => Alt (deriv c r) (deriv c s)
  | Star r => Seq (deriv c r) (Star r)
  end.

Fixpoint match_list (r : re) (l : list ascii) : bool :=
  match l with
  | [] => nullable r
  | c :: l => match_list (deriv c r) l
  end.

(** [MatchString] of the anchored pattern. *)
Definition matches (r : re) (s : string) : bool := match_list r (bytes_of s).

(** ** The language of a pattern *)

Inductive lang : re → list ascii → Prop :=
| lang_eps : lang Eps []
| lang_class p c : p c = true → lang (Class p) [c]
| lang_seq r s l1 l2 : lang r l1 → lang s l2 → lang (Seq r s) (l1 ++ l2)
| lang_alt_l r s l : lang r l → lang (Alt r s) l
| lang_alt_r r s l : lang s l → lang (Alt r s) l
| lang_star_nil r : lang (Star r) []
| lang_star_app r l1 l2 : lang r l1 → lang (Star r) l2 → lang (Star r) (l1 ++ l2).
#[local] Hint Constructors lang : core.

Lemma lang_star_cons r c l : lang (Star r) (c :: l) →
  ∃ l1 l2, l = l1 ++ l2 ∧ lang r (c :: l1) ∧ lang (Star r) l2.
Proof.
  remember (Star r) as s eqn:Es. remember (c :: l) as cl eqn:Ecl. intros H. revert c l Ecl Es.
  induction H as [| | | | | |r' l1 l2 H1 _ H2 IH]; intros c0 l0 Ecl Es; try done. injection Es as ->.
  destruct l1 as [|c1 l1]; cbn in Ecl; [by apply IH|]. injection Ecl as -> <-. by exists l1, l2.
Qed.

Lemma nullable_spec r : nullable r = true ↔ lang r [].
Proof.
  induction r as [| |p|r IHr s IHs|r IHr s IHs|r _]; cbn.
  - split; [done|]. inversion 1.
  - split; auto.
  - split; [done|]. inversion 1.
  - rewrite andb_true_iff, IHr, IHs. split.
    + intros [H1 H2]. exact (lang_seq r s [] [] H1 H2).
    + inversion 1 as [| |? ? l1 l2 H1 H2 E E'| | | |]; subst. by apply app_eq_nil in E' as [-> ->].
  - rewrite orb_true_iff, IHr, IHs. split; [intros []; auto|]. inversion 1; auto.
  - split; auto.
Qed.

Lemma deriv_spec c r : ∀ l, lang (deriv c r) l ↔ lang r (c :: l).
Proof.
  induction r as [| |p|r IHr s IHs|r IHr s IHs|r IHr]; intros l; cbn [deriv].
  - split; inversion 1.
  - split; inversion 1.
  - destruct (p c) eqn:Ep; (split; [inversion 1; subst|inversion 1; subst; try congruence]); auto.
  - assert (lang (Seq (deriv c r) s) l → lang (Seq r s) (c :: l)) as Hl.
    { inversion 1; subst. apply (lang_seq r s (c :: _)); [by apply IHr|done]. }
    assert (lang (Seq r s) (c :: l) → lang (Seq (deriv c r) s) l ∨ lang r [] ∧ lang (deriv c s) l) as Hr.
    { inversion 1 as [| |? ? l1 l2 H1 H2 E E'| | | |]; subst. destruct l1 as [|c1 l1]; cbn in E'.
      - subst l2. right. by rewrite IHs.
      - injection E' as -> <-. left. constructor; [by apply IHr|done]. }
    destruct (nullable r) eqn:En.
    + apply nullable_spec in En. split; [inversion 1 as [| | |? ? ? H1|? ? ? H1| |]; subst|].
      * by apply Hl.
      * apply (lang_seq r s [] (c :: l)); [done|by apply IHs].
      * intros [?|[_ ?]]%Hr; auto.
    + split; [done|]. intros [?|[En' _]]%Hr; [done|]. apply nullable_spec in En'. congruence.
  - split; inversion 1; subst; first [by apply lang_alt_l, IHr | by apply lang_alt_r, IHs].
  - split.
    + inversion 1; subst. apply (lang_star_app r (c :: _)); [by apply IHr|done].
    + intros (l1 & l2 & -> & H1 & H2)%lang_star_cons. constructor; [by apply IHr|done].
Qed.

Lemma matches_spec r s : matches r s = true ↔ lang r (bytes_of s).
Proof.
  unfold matches. generalize (bytes_of s). intros l. revert r. induction l as [|c l IH]; intros r; cbn.
  - apply nullable_spec.
  - by rewrite IH, deriv_spec.
Qed.

(** ** Inversion *)

Lemma lang_class_inv p l : lang (Class p) l → ∃ c, l = [c] ∧ p c = true.
Proof. inversion 1; eauto. Qed.

Lemma lang_seq_inv r s l : lang (Seq r s) l → ∃ l1 l2, l = l1 ++ l2 ∧ lang r l1 ∧ lang s l2.
Proof. inversion 1; eauto. Qed.

Lemma lang_alt_inv r s l : lang (Alt r s) l → lang r l ∨ lang s l.
Proof. inversion 1; auto. Qed.

(** Every byte of a match is one the pattern mentions. *)
Fixpoint mentions (r : re) (c : ascii) : Prop :=
  match r with
  | Empty | Eps => False
  | Class p => p c = true
  | Seq r s | Alt r s => mentions r c ∨ mentions s c
  | Star r => mentions r c
  end.

Lemma lang_mentions r l : lang r l → ∀ c, c ∈ l → mentions r c.
Proof.
  induction 1; intros x Hx; cbn; try (by apply not_elem_of_nil in Hx).
  - by apply list_elem_of_singleton in Hx as ->.
  - apply elem_of_app in Hx as [Hx|Hx]; auto.
  - auto.
  - auto.
  - apply elem_of_app in Hx as [Hx|Hx]; [auto|]. by apply IHlang2.
Qed.
