(* ===== verification/ImageCatalog.v ===== *)
(** * hack/imagelock/catalog.go: the release catalog

    The catalog declares images, profiles and platforms and the combinations of
    them that are not released.  [validateCatalog] checks it, [buildReleasePlan]
    expands it.  The parsing of repositories and tags belongs to
    go-containerregistry and the parsing of YAML to sigs.k8s.io/yaml: they are
    arguments, which return the error they report.  The iteration order of the
    [planned] map is an argument too. *)

From Stdlib Require Import ZArith Lia String Ascii.
From stdpp Require Import base gmap list sorting strings.
From S2P Require Import Prelude GoStrings GoSort GoRegexp.

#[local] Open Scope string_scope.
#[local] Open Scope list_scope.
#[local] Open Scope Z_scope.

(** ** Strings *)

Definition NUL : string := String (ascii_of_nat 0) "".

(** [strings.Count] for a non-empty [sub]. *)
Fixpoint count_from (sub : string) (skip : nat) (s : string) : Z :=
  match s with
  | EmptyString => 0
  | String c r =>
      match skip with
      | S k => count_from sub k r
      | O => if HasPrefix s sub then 1 + count_from sub (String.length sub - 1) r else count_from sub O r
      end
  end.
Definition Count (s sub : string) : Z := count_from sub O s.

(** [strings.Replace(s, old, new, 1)] for a non-empty [old]. *)
Fixpoint ReplaceFirst (s old new : string) : string :=
  match s with
  | EmptyString => EmptyString
  | String c r => if HasPrefix s old then new +:+ str_drop (String.length old) s else String c (ReplaceFirst r old new)
  end.

(** ** Data *)

Definition catalogAPIVersion : string := "imagelock.kai-scheduler.io/v1alpha1".
Definition versionPlaceholder : string := "{{version}}".
Definition wildcardSelector : string := "*".

(** [^[a-z0-9]+(?:[-.][a-z0-9]+)*$] *)
Definition name_char (c : ascii) : bool := lowercase c || digit c.
Definition catalogName : re :=
  Seq (Plus (Class name_char)) (Star (Seq (Class (λ c, Ascii.eqb c "-" || Ascii.eqb c ".")) (Plus (Class name_char)))).

Record platform := mkPlatform { OS : string; Architecture : string }.
#[global] Instance platform_eq_dec : EqDecision platform.
Proof. solve_decision. Defined.
#[global] Instance platform_countable : Countable platform.
Proof. by apply (inj_countable' (λ p, (OS p, Architecture p)) (λ p, mkPlatform p.1 p.2)); intros []. Defined.
Definition platform_String (p : platform) : string := OS p +:+ "/" +:+ Architecture p.

Record catalogImage := mkCatalogImage { image_Name : string }.
Record catalogProfile := mkCatalogProfile { profile_Name : string; TagTemplate : string }.
#[global] Instance catalogProfile_eq_dec : EqDecision catalogProfile.
Proof. solve_decision. Defined.
Record catalogExclusion := mkCatalogExclusion { ex_Image : string; ex_Profile : string; ex_Platform : string; Reason : string }.

Record imageCatalog := mkImageCatalog {
  APIVersion : string;
  cat_Name : string;
  ArtifactName : string;
  Repository : string;
  Images : list catalogImage;
  Profiles : list catalogProfile;
  Platforms : list platform;
  Exclude : list catalogExclusion
}.

Record lockTarget := mkLockTarget { target_profile : string; target_platform : platform }.
#[global] Instance lockTarget_eq_dec : EqDecision lockTarget.
Proof. solve_decision. Defined.
#[global] Instance lockTarget_countable : Countable lockTarget.
Proof. by apply (inj_countable' (λ t, (target_profile t, target_platform t)) (λ t, mkLockTarget t.1 t.2)); intros []. Defined.

Record chartImage := mkChartImage { img_name : string; img_repo : string; img_tag : string }.
Definition reference (c : chartImage) : string := img_repo c +:+ ":" +:+ img_tag c.

Record plannedImage := mkPlannedImage { planned_profile : string; planned_image : chartImage; planned_platforms : list platform }.

Record releasePlan := mkReleasePlan { targets : list lockTarget; plan_images : list plannedImage; plan_combinationCount : Z }.

(** ** Errors *)

Inductive SelectorError := EmptySelector (kind : string) | UnknownSelector (kind selector : string).

Inductive CatalogError :=
| WrongAPIVersion (got : string)
| BadCatalogName (name : string)
| BadArtifactName (name : string)
| TrailingSlash (repository : string)
| InvalidRepository (repository cause : string)
| NoneOf (kind : string)
| BadName (kind name : string)
| Duplicate (kind name : string)
| NoPlatforms
| InvalidPlatform (p : platform)
| DuplicatePlatform (p : platform)
| BadTagTemplate (profile : string)
| NoReason (index : nat)
| BadSelector (index : nat) (cause : SelectorError)
| DuplicateExclusion (index : nat).

Inductive PlanError :=
| InvalidReference (profile image cause : string)
| OverlappingExclusions (image profile : string) (p : platform) (matching : list nat)
| UnmatchedExclusion (index : nat)
| ImageRemoved (image : string)
| EmptyTarget (profile : string) (p : platform).

Inductive InventoryError :=
| ExpectedTwice (image : string)
| InventoryMismatch (got want : list string)
| ReadValues (path cause : string)
| ParseValues (path cause : string)
| WrongInventory (path : string) (cause : InventoryError)
| WrongRepository (path image got want : string).

(** A loop over a slice that may return early. *)
Fixpoint rfold {E A B} (f : A → B → result E A) (l : list B) (a : A) : result E A :=
  match l with
  | [] => Ok a
  | b :: l => a <-? f a b;; rfold f l a
  end.

(** ** Validation *)

Definition imageNames (images : list catalogImage) : list string := map image_Name images.
Definition profileNames (profiles : list catalogProfile) : list string := map profile_Name profiles.

Definition uniqueCatalogNames (kind : string) (names : list string) : result CatalogError (gset string) :=
  match names with
  | [] => Err (NoneOf kind)
  | _ => rfold (λ unique value,
           if negb (matches catalogName value) then Err (BadName kind value)
           else if bool_decide (value ∈ unique) then Err (Duplicate kind value)
           else Ok ({[value]} ∪ unique)) names ∅
  end.

Definition uniquePlatforms (entries : list platform) : result CatalogError (gset string) :=
  match entries with
  | [] => Err NoPlatforms
  | _ => rfold (λ unique entry,
           if String.eqb (OS entry) "" || String.eqb (Architecture entry) "" || Contains (OS entry) "/" || Contains (Architecture entry) "/"
           then Err (InvalidPlatform entry)
           else if bool_decide (platform_String entry ∈ unique) then Err (DuplicatePlatform entry)
           else Ok ({[platform_String entry]} ∪ unique)) entries ∅
  end.

Definition validateSelector (kind selector : string) (known : gset string) : option SelectorError :=
  if String.eqb selector wildcardSelector then None
  else if String.eqb selector "" then Some (EmptySelector kind)
  else if bool_decide (selector ∈ known) then None
  else Some (UnknownSelector kind selector).

Definition exclusion_key (e : catalogExclusion) : string := ex_Image e +:+ NUL +:+ ex_Profile e +:+ NUL +:+ ex_Platform e.

(** The loop over [catalog.Exclude]; the state is the index and [seenExclusions]. *)
Definition validate_exclusion (images profiles platforms : gset string) (st : nat * gset string) (e : catalogExclusion)
    : result CatalogError (nat * gset string) :=
  let '(index, seen) := st in
  if String.eqb (TrimSpace (Reason e)) "" then Err (NoReason index)
  else match validateSelector "image" (ex_Image e) images with
  | Some err => Err (BadSelector index err)
  | None =>
      match validateSelector "profile" (ex_Profile e) profiles with
      | Some err => Err (BadSelector index err)
      | None =>
          match validateSelector "platform" (ex_Platform e) platforms with
          | Some err => Err (BadSelector index err)
          | None =>
              if bool_decide (exclusion_key e ∈ seen) then Err (DuplicateExclusion index)
              else Ok (S index, {[exclusion_key e]} ∪ seen)
          end
      end
  end.

Section catalog.
(** [name.NewRepository], [name.NewTag] *)
Context (NewRepository NewTag : string → option string).

Definition validateCatalog (catalog : imageCatalog) : result CatalogError unit :=
  if negb (String.eqb (APIVersion catalog) catalogAPIVersion) then Err (WrongAPIVersion (APIVersion catalog))
  else if negb (matches catalogName (cat_Name catalog)) then Err (BadCatalogName (cat_Name catalog))
  else if negb (matches catalogName (ArtifactName catalog)) then Err (BadArtifactName (ArtifactName catalog))
  else if HasSuffix (Repository catalog) "/" then Err (TrailingSlash (Repository catalog))
  else match NewRepository (Repository catalog) with
  | Some err => Err (InvalidRepository (Repository catalog) err)
  | None =>
      images <-? uniqueCatalogNames "image" (imageNames (Images catalog));;
      profiles <-? uniqueCatalogNames "profile" (profileNames (Profiles catalog));;
      platforms <-? uniquePlatforms (Platforms catalog);;
      _ <-? rfold (λ _ profile, if negb (Count (TagTemplate profile) versionPlaceholder =? 1)
                                then Err (BadTagTemplate (profile_Name profile)) else Ok tt) (Profiles catalog) tt;;
      _ <-? rfold (validate_exclusion images profiles platforms) (Exclude catalog) (O, ∅);;
      Ok tt
  end.

(** ** The release plan *)

Definition selectorMatches (selector value : string) : bool :=
  String.eqb selector wildcardSelector || String.eqb selector value.

Definition exclusion_matches (e : catalogExclusion) (image profile imagePlatform : string) : bool :=
  selectorMatches (ex_Image e) image && selectorMatches (ex_Profile e) profile && selectorMatches (ex_Platform e) imagePlatform.

Fixpoint matching_from (index : nat) (exclusions : list catalogExclusion) (image profile imagePlatform : string) : list nat :=
  match exclusions with
  | [] => []
  | e :: rest =>
      let matches := matching_from (S index) rest image profile imagePlatform in
      if exclusion_matches e image profile imagePlatform then index :: matches else matches
  end.
Definition matchingExclusions (exclusions : list catalogExclusion) (image profile imagePlatform : string) : list nat :=
  matching_from O exclusions image profile imagePlatform.

Record planState := mkPlanState {
  matchedExclusions : list Z;
  targetImageCounts : gmap lockTarget Z;
  imageCombinationCounts : gmap string Z;
  planned : gmap string plannedImage;
  combinationCount : Z
}.

Definition planned_key (profile image : string) : string := profile +:+ NUL +:+ image.

(** The body of the loop over platforms. *)
Definition plan_platform (catalog : imageCatalog) (profile : catalogProfile) (tag : string) (image : catalogImage)
    (repository : string) (st : planState) (imagePlatform : platform) : result PlanError planState :=
  match matchingExclusions (Exclude catalog) (image_Name image) (profile_Name profile) (platform_String imagePlatform) with
  | _ :: _ :: _ as matching => Err (OverlappingExclusions (image_Name image) (profile_Name profile) imagePlatform matching)
  | [i] => Ok (mkPlanState (alter (Z.add 1) i (matchedExclusions st)) (targetImageCounts st) (imageCombinationCounts st)
                 (planned st) (combinationCount st))
  | [] =>
      let target := mkLockTarget (profile_Name profile) imagePlatform in
      let key := planned_key (profile_Name profile) (image_Name image) in
      let entry := default (mkPlannedImage (profile_Name profile) (mkChartImage (image_Name image) repository tag) []) (planned st !! key) in
      Ok (mkPlanState (matchedExclusions st)
            (<[target := default 0 (targetImageCounts st !! target) + 1]> (targetImageCounts st))
            (<[image_Name image := default 0 (imageCombinationCounts st !! image_Name image) + 1]> (imageCombinationCounts st))
            (<[key := mkPlannedImage (planned_profile entry) (planned_image entry) (planned_platforms entry ++ [imagePlatform])]> (planned st))
            (combinationCount st + 1))
  end.

(** The body of the loop over images. *)
Definition plan_image (catalog : imageCatalog) (profile : catalogProfile) (tag : string) (st : planState) (image : catalogImage)
    : result PlanError planState :=
  let repository := Repository catalog +:+ "/" +:+ image_Name image in
  match NewTag (repository +:+ ":" +:+ tag) with
  | Some err => Err (InvalidReference (profile_Name profile) (image_Name image) err)
  | None => rfold (plan_platform catalog profile tag image repository) (Platforms catalog) st
  end.

Definition release_tag (version : string) (profile : catalogProfile) : string :=
  ReplaceFirst (TagTemplate profile) versionPlaceholder version.

Definition plan_profile (catalog : imageCatalog) (version : string) (st : planState) (profile : catalogProfile)
    : result PlanError planState :=
  rfold (plan_image catalog profile (release_tag version profile)) (Images catalog) st.

(** [plan.targets], before sorting. *)
Definition plan_targets (catalog : imageCatalog) (counts : gmap lockTarget Z) : result PlanError (list lockTarget) :=
  rfold (λ targets profile,
    rfold (λ targets imagePlatform,
      let target := mkLockTarget (profile_Name profile) imagePlatform in
      if default 0 (counts !! target) =? 0 then Err (EmptyTarget (profile_Name profile) imagePlatform)
      else Ok (targets ++ [target])) (Platforms catalog) targets) (Profiles catalog) [].

Definition target_key (t : lockTarget) : string * string := (target_profile t, platform_String (target_platform t)).
Definition image_key (i : plannedImage) : string * string := (planned_profile i, img_name (planned_image i)).

(** [order] is the order in which [planned] is iterated over. *)
Definition buildReleasePlan (order : gmap string plannedImage → list plannedImage) (catalog : imageCatalog) (version : string)
    : result PlanError releasePlan :=
  st <-? rfold (plan_profile catalog version) (Profiles catalog)
           (mkPlanState (replicate (length (Exclude catalog)) 0) ∅ ∅ ∅ 0);;
  _ <-? rfold (λ index n, if n =? 0 then Err (UnmatchedExclusion index) else Ok (S index)) (matchedExclusions st) O;;
  _ <-? rfold (λ _ image, if default 0 (imageCombinationCounts st !! image_Name image) =? 0
                          then Err (ImageRemoved (image_Name image)) else Ok tt) (Images catalog) tt;;
  targets <-? plan_targets catalog (targetImageCounts st);;
  Ok (mkReleasePlan (SortBy target_key targets) (SortBy image_key (order (planned st))) (combinationCount st)).

(** ** Inventories *)

Fixpoint adjacent_equal (l : list string) : option string :=
  match l with
  | a :: (b :: _) as rest => if String.eqb b a then Some b else adjacent_equal rest
  | _ => None
  end.

Definition validateExpectedImages (catalog : imageCatalog) (expected : list string) : option InventoryError :=
  match expected with
  | [] => None
  | _ =>
      let want := SortStrings expected in
      let got := SortStrings (imageNames (Images catalog)) in
      match adjacent_equal want with
      | Some image => Some (ExpectedTwice image)
      | None => if negb (String.eqb (Join got NUL) (Join want NUL)) then Some (InventoryMismatch got want) else None
      end
  end.

(** [values] is the [images] section of the file, [order] the order in which its keys are
    iterated over. *)
Definition validateChartValues (order : gmap string string → list string) (catalog : imageCatalog) (path : string)
    (contents : result string string) (Unmarshal : string → result string (gmap string string)) : option InventoryError :=
  match contents with
  | Err err => Some (ReadValues path err)
  | Ok contents =>
      match Unmarshal contents with
      | Err err => Some (ParseValues path err)
      | Ok values =>
          match validateExpectedImages catalog (order values) with
          | Some err => Some (WrongInventory path err)
          | None =>
              match rfold (λ _ image,
                let want := Repository catalog +:+ "/" +:+ image_Name image in
                let got := default "" (values !! image_Name image) in
                if negb (String.eqb got want) then Err (WrongRepository path (image_Name image) got want) else Ok tt)
                (Images catalog) tt with
              | Err err => Some err
              | Ok _ => None
              end
          end
      end
  end.

Inductive LoadError := ReadCatalog (path cause : string) | ParseCatalog (path cause : string) | ValidateCatalog (path : string) (cause : CatalogError).

Definition loadCatalog (path : string) (contents : result string string) (UnmarshalStrict : string → result string imageCatalog)
    : result LoadError imageCatalog :=
  contents <-? map_err (ReadCatalog path) contents;;
  catalog <-? map_err (ParseCatalog path) (UnmarshalStrict contents);;
  _ <-? map_err (ValidateCatalog path) (validateCatalog catalog);;
  Ok catalog.

End catalog.

(** ** Loops *)

(** A loop with early returns: the body fails exactly on the elements that are not [good]. *)
Lemma rfold_spec {E A B} (f : A → B → result E A) (good : B → Prop) (inv : list B → A → Prop) l a :
  (∀ before b after a, l = before ++ b :: after → inv before a →
     match f a b with Ok a' => good b ∧ inv (before ++ [b]) a' | Err _ => ¬ good b end) →
  inv [] a →
  match rfold f l a with Ok a' => Forall good l ∧ inv l a' | Err _ => ¬ Forall good l end.
Proof.
  intros Hf. assert (∀ rest before a, l = before ++ rest → Forall good before → inv before a →
    match rfold f rest a with Ok a' => Forall good l ∧ inv l a' | Err _ => ¬ Forall good l end) as Hgen.
  { induction rest as [|b rest IH]; intros before a' Hl Hb Ha; cbn [rfold].
    - rewrite app_nil_r in Hl. by subst.
    - specialize (Hf before b rest a' Hl Ha). destruct (f a' b) as [a''|e]; cbn [rbind].
      + destruct Hf as [Hg Hi]. apply (IH (before ++ [b])); [by rewrite <- app_assoc| |done].
        apply Forall_app. split; [done|by constructor].
      + rewrite Hl. rewrite Forall_app, list.Forall_cons. tauto. }
  intros Ha. apply (Hgen l []); [done|constructor|done].
Qed.

(** The same for a loop that only checks. *)
Lemma rfold_check {E B} (f : unit → B → result E unit) (good : B → Prop) l :
  (∀ b, b ∈ l → match f tt b with Ok _ => good b | Err _ => ¬ good b end) →
  match rfold f l tt with Ok _ => Forall good l | Err _ => ¬ Forall good l end.
Proof.
  intros Hf. pose proof (rfold_spec f good (λ _ _, True) l tt) as H.
  destruct (rfold f l tt); [apply H|apply H]; try done; intros before b after [] ->; specialize (Hf b);
    destruct (f tt b); auto; intros _; (split; [|done]) || idtac; apply Hf; apply elem_of_app; right; left.
Qed.

(** ** What validation gives *)

Definition NUL_free (s : string) : Prop := ascii_of_nat 0 ∉ bytes_of s.

Lemma catalogName_NUL_free s : matches catalogName s = true → NUL_free s.
Proof.
  intros H%matches_spec Hin. apply (lang_mentions _ _ H) in Hin. cbn in Hin.
  repeat destruct Hin as [Hin|Hin]; vm_compute in Hin; discriminate.
Qed.

Lemma rfold_inv {E A B} (f : A → B → result E A) (inv : list B → A → Prop) l a a' :
  (∀ before b a a', b ∈ l → inv before a → f a b = Ok a' → inv (before ++ [b]) a') →
  inv [] a → rfold f l a = Ok a' → inv l a'.
Proof.
  intros Hf. assert (∀ rest before a, (∀ b, b ∈ rest → b ∈ l) → inv before a → rfold f rest a = Ok a' → inv (before ++ rest) a') as Hgen;
    [|by apply Hgen].
  induction rest as [|b rest IH]; intros before a1 Hin Ha; cbn [rfold].
  - intros [= <-]. by rewrite app_nil_r.
  - destruct (f a1 b) as [a2|] eqn:E1; cbn [rbind]; [|done]. intros H.
    replace (before ++ b :: rest) with ((before ++ [b]) ++ rest) by by rewrite <- app_assoc.
    apply (IH _ a2); [intros c Hc; apply Hin; by right| |done]. apply (Hf before b a1); [apply Hin; left|done|done].
Qed.

(** The loops that reject a second entry with the same key. *)
Lemma unique_loop {E B} (bad : B → bool) (key : B → string) (e1 e2 : B → E) l known :
  rfold (λ (unique : gset string) b, if bad b then Err (e1 b)
    else if bool_decide (key b ∈ unique) then Err (e2 b) else Ok ({[key b]} ∪ unique)) l ∅ = Ok known →
  NoDup (map key l) ∧ Forall (λ b, bad b = false) l ∧ ∀ k, k ∈ known ↔ k ∈ map key l.
Proof.
  apply (rfold_inv _ (λ before (unique : gset string),
    NoDup (map key before) ∧ Forall (λ b, bad b = false) before ∧ ∀ k, k ∈ unique ↔ k ∈ map key before)).
  - intros before b unique unique' _ (Hnd & Hbad & Hk). destruct (bad b) eqn:Eb; [done|].
    case_bool_decide as Hin; [done|]. intros [= <-]. rewrite Hk in Hin. rewrite map_app. cbn [map].
    split_and!.
    + apply NoDup_app. split_and!; [done| |apply NoDup_singleton]. by intros x Hx ->%list_elem_of_singleton.
    + apply Forall_app. by split; [|constructor].
    + intros k. rewrite elem_of_union, elem_of_singleton, elem_of_app, list_elem_of_singleton, Hk. tauto.
  - split_and!; [constructor|constructor|]. intros k. cbn. split; [by intros ?%elem_of_empty|by intros ?%not_elem_of_nil].
Qed.

Lemma uniqueCatalogNames_Ok kind names known : uniqueCatalogNames kind names = Ok known →
  names ≠ [] ∧ NoDup names ∧ (∀ n, n ∈ names → matches catalogName n = true) ∧ ∀ k, k ∈ known ↔ k ∈ names.
Proof.
  unfold uniqueCatalogNames. destruct names as [|n names]; [done|]. set (l := n :: names).
  intros (H1 & H2 & H3)%(unique_loop (λ v, negb (matches catalogName v)) (λ v, v)). rewrite map_id in H1, H3.
  split_and!; [done|done| |done]. intros k Hk. rewrite Forall_forall in H2. by apply negb_false_iff, H2.
Qed.

(** What comes before a separator it does not contain is determined. *)
Lemma sep_inj x a b a' b' : x ∉ bytes_of a → x ∉ bytes_of a' →
  a +:+ String x "" +:+ b = a' +:+ String x "" +:+ b' → a = a' ∧ b = b'.
Proof.
  revert a'. induction a as [|c a IH]; intros [|d a'] Ha Ha' He; rewrite ?str_app_cons, ?str_app_nil_l in He;
    injection He; cbn [bytes_of list_ascii_of_string] in Ha, Ha'.
  - auto.
  - intros _ ->. destruct Ha'. left.
  - intros _ ->. destruct Ha. left.
  - intros H ->. apply not_elem_of_cons in Ha as [_ Ha], Ha' as [_ Ha']. by destruct (IH a' Ha Ha' H) as [-> ->].
Qed.

Lemma Contains_char s x : Contains s (String x "") = false → x ∉ bytes_of s.
Proof.
  induction s as [|c s IH]; [by intros _ ?%not_elem_of_nil|]. cbn [Contains]. rewrite HasPrefix_cons, HasPrefix_nil, andb_true_r.
  destruct (Ascii.eqb_spec c x); [done|]. intros H. apply not_elem_of_cons. auto.
Qed.

(** A platform without a slash in it is determined by its string. *)
Lemma platform_String_inj a b : Contains (OS a) "/" = false → Contains (OS b) "/" = false →
  platform_String a = platform_String b → a = b.
Proof.
  intros Ha%Contains_char Hb%Contains_char H. destruct a as [oa aa], b as [ob ab].
  by destruct (sep_inj "/" oa aa ob ab Ha Hb H) as [-> ->].
Qed.

(** Keys made of catalog names with a NUL between them. *)
Lemma planned_key_inj p i p' i' : NUL_free p → NUL_free p' → planned_key p i = planned_key p' i' → p = p' ∧ i = i'.
Proof. apply sep_inj. Qed.

Section facts.
Context (catalog : imageCatalog).

Record valid_catalog : Prop := {
  valid_images : NoDup (imageNames (Images catalog));
  valid_image_names : ∀ n, n ∈ imageNames (Images catalog) → NUL_free n;
  valid_profiles : NoDup (profileNames (Profiles catalog));
  valid_profile_names : ∀ n, n ∈ profileNames (Profiles catalog) → NUL_free n;
  valid_platforms : NoDup (map platform_String (Platforms catalog));
  valid_images_some : Images catalog ≠ []
}.

Lemma validateCatalog_Ok NewRepository : validateCatalog NewRepository catalog = Ok tt → valid_catalog.
Proof.
  unfold validateCatalog. do 4 (case_match; [done|]). case_match; [done|].
  destruct (uniqueCatalogNames "image" _) as [images|] eqn:Ei; cbn [rbind]; [|done].
  destruct (uniqueCatalogNames "profile" _) as [profiles|] eqn:Ep; cbn [rbind]; [|done].
  destruct (uniquePlatforms _) as [platforms|] eqn:Epl; cbn [rbind]; [|done]. intros _.
  apply uniqueCatalogNames_Ok in Ei as (Hi0 & Hi1 & Hi2 & _), Ep as (_ & Hp1 & Hp2 & _).
  assert (Images catalog ≠ []) as Hne by (by intros Hnil; rewrite Hnil in Hi0).
  assert (NoDup (map platform_String (Platforms catalog))) as Hpl.
  { unfold uniquePlatforms in Epl. destruct (Platforms catalog) as [|pl pls]; [done|].
    exact (proj1 (unique_loop (λ entry, String.eqb (OS entry) "" || String.eqb (Architecture entry) "" || Contains (OS entry) "/" || Contains (Architecture entry) "/") platform_String InvalidPlatform DuplicatePlatform _ _ Epl)). }
  split; eauto using catalogName_NUL_free.
Qed.

(** ** The loops of the plan *)

Context (version : string).
Abbreviation combo := (catalogProfile * catalogImage * platform)%type.

(** The matrix, in the order of the loops. *)
Definition combos : list combo :=
  Profiles catalog ≫= λ p, Images catalog ≫= λ i, map (λ pl, (p, i, pl)) (Platforms catalog).

Definition exclusions_of (x : combo) : list nat :=
  matchingExclusions (Exclude catalog) (image_Name x.1.2) (profile_Name x.1.1) (platform_String x.2).
Definition included (l : list combo) : list combo := filter (λ x, exclusions_of x = []) l.
Definition target_of (x : combo) : lockTarget := mkLockTarget (profile_Name x.1.1) x.2.
Definition key_of (x : combo) : string := planned_key (profile_Name x.1.1) (image_Name x.1.2).
Definition chart_of (p : catalogProfile) (i : catalogImage) : chartImage :=
  mkChartImage (image_Name i) (Repository catalog +:+ "/" +:+ image_Name i) (release_tag version p).
Definition entry_of (xs : list combo) : option plannedImage :=
  match xs with
  | [] => None
  | x :: _ => Some (mkPlannedImage (profile_Name x.1.1) (chart_of x.1.1 x.1.2) (map snd xs))
  end.

(** The state after the combinations [l]. *)
Record planned_so_far (l : list combo) (st : planState) : Prop := {
  so_far_matched : matchedExclusions st =
    map (λ idx, Z.of_nat (length (filter (λ x, exclusions_of x = [idx]) l))) (seq 0 (length (Exclude catalog)));
  so_far_targets t : default 0 (targetImageCounts st !! t) = Z.of_nat (length (filter (λ x, target_of x = t) (included l)));
  so_far_images i : default 0 (imageCombinationCounts st !! i) = Z.of_nat (length (filter (λ x, image_Name x.1.2 = i) (included l)));
  so_far_planned k : planned st !! k = entry_of (filter (λ x, key_of x = k) (included l));
  so_far_count : combinationCount st = Z.of_nat (length (included l))
}.

Lemma included_app l x : included (l ++ [x]) = if decide (exclusions_of x = []) then included l ++ [x] else included l.
Proof.
  unfold included. rewrite filter_app, filter_cons, filter_nil. case_decide; [done|]. by rewrite app_nil_r.
Qed.

(** Counting one more element. *)
Lemma count_snoc {A} (P : A → Prop) `{∀ x, Decision (P x)} l x :
  Z.of_nat (length (filter P (l ++ [x]))) = Z.of_nat (length (filter P l)) + if decide (P x) then 1 else 0.
Proof.
  rewrite filter_app, length_app, filter_cons, filter_nil. case_decide; cbn; lia.
Qed.

Lemma count_insert {K} `{Countable K} (m : gmap K Z) k k' :
  default 0 (<[k := default 0 (m !! k) + 1]> m !! k') = default 0 (m !! k') + if decide (k = k') then 1 else 0.
Proof.
  destruct (decide (k = k')) as [<-|Hne]; [by rewrite lookup_insert_eq|]. rewrite lookup_insert_ne by done. lia.
Qed.

Lemma matched_alter (f : nat → Z) n i :
  alter (Z.add 1) i (map f (seq 0 n)) = map (λ idx, f idx + if decide (i = idx) then 1 else 0) (seq 0 n).
Proof.
  apply list_eq. intros k. destruct (decide (i = k)) as [->|Hne].
  - rewrite list_lookup_alter_eq, !list_lookup_fmap. destruct (seq 0 n !! k) as [m|] eqn:E; cbn; [|done].
    apply lookup_seq in E as [-> _]. cbn. rewrite decide_True by done. f_equal. lia.
  - rewrite list_lookup_alter_ne, !list_lookup_fmap by done. destruct (seq 0 n !! k) as [m|] eqn:E; cbn; [|done].
    apply lookup_seq in E as [-> _]. cbn. rewrite decide_False by done. f_equal. lia.
Qed.

(** One combination. *)
Lemma plan_platform_step l st p i pl : planned_so_far l st →
  match plan_platform catalog p (release_tag version p) i (Repository catalog +:+ "/" +:+ image_Name i) st pl with
  | Ok st' => (length (exclusions_of (p, i, pl)) ≤ 1)%nat ∧ planned_so_far (l ++ [(p, i, pl)]) st'
  | Err _ => ¬ (length (exclusions_of (p, i, pl)) ≤ 1)%nat
  end.
Proof.
  intros [Hm Ht Hi Hp Hc]. unfold plan_platform. change (matchingExclusions _ _ _ _) with (exclusions_of (p, i, pl)).
  set (x := (p, i, pl)). destruct (exclusions_of x) as [|idx [|idx2 rest]] eqn:Ex; [| |cbn; lia]; (split; [cbn; lia|]).
  - split; cbn [matchedExclusions targetImageCounts imageCombinationCounts planned combinationCount].
    + rewrite Hm. apply map_ext. intros idx. rewrite count_snoc, Ex, decide_False by done. lia.
    + intros t. rewrite included_app, decide_True by done. rewrite count_insert, count_snoc, Ht. done.
    + intros n. rewrite included_app, decide_True by done. rewrite count_insert, count_snoc, Hi. done.
    + intros k. rewrite included_app, decide_True by done. rewrite filter_app, filter_cons, filter_nil.
      change (planned_key _ _) with (key_of x). destruct (decide (key_of x = k)) as [<-|Hne].
      * rewrite lookup_insert_eq, Hp. f_equal. destruct (filter _ (included l)) as [|y ys]; cbn; [done|]. by rewrite map_app.
      * by rewrite lookup_insert_ne, Hp, app_nil_r.
    + rewrite included_app, decide_True, length_app, Hc by done. cbn. lia.
  - split; cbn [matchedExclusions targetImageCounts imageCombinationCounts planned combinationCount].
    + rewrite Hm, matched_alter. apply map_ext. intros k. rewrite count_snoc, Ex. f_equal.
      destruct (decide (idx = k)), (decide ([idx] = [k])); congruence.
    + intros t. rewrite included_app, decide_False by congruence. done.
    + intros n. rewrite included_app, decide_False by congruence. done.
    + intros k. rewrite included_app, decide_False by congruence. done.
    + rewrite included_app, decide_False by congruence. done.
Qed.

(** A combination, an image and a profile that the loops accept. *)
Definition combo_ok (x : combo) : Prop := (length (exclusions_of x) ≤ 1)%nat.
Definition image_ok (NewTag : string → option string) (p : catalogProfile) (i : catalogImage) : Prop :=
  NewTag (reference (chart_of p i)) = None ∧ Forall (λ pl, combo_ok (p, i, pl)) (Platforms catalog).
Definition profile_ok (NewTag : string → option string) (p : catalogProfile) : Prop := Forall (image_ok NewTag p) (Images catalog).

Lemma plan_image_step NewTag l st p i : planned_so_far l st →
  match plan_image NewTag catalog p (release_tag version p) st i with
  | Ok st' => image_ok NewTag p i ∧ planned_so_far (l ++ map (λ pl, (p, i, pl)) (Platforms catalog)) st'
  | Err _ => ¬ image_ok NewTag p i
  end.
Proof.
  intros Hl. unfold plan_image, image_ok. change (_ +:+ ":" +:+ _) with (reference (chart_of p i)) at 1.
  destruct (NewTag _) as [err|]; [naive_solver|].
  pose proof (rfold_spec (plan_platform catalog p (release_tag version p) i (Repository catalog +:+ "/" +:+ image_Name i))
    (λ pl, combo_ok (p, i, pl)) (λ pls, planned_so_far (l ++ map (λ pl, (p, i, pl)) pls)) (Platforms catalog) st) as H.
  destruct (rfold _ _ st); [split; [split; [done|]|]|intros [_ ?]; revert H0].
  all: apply H; [|by rewrite app_nil_r].
  all: intros before pl after st' _ Hst'; rewrite map_app, app_assoc; by apply plan_platform_step.
Qed.

Lemma plan_profile_step NewTag l st p : planned_so_far l st →
  match plan_profile NewTag catalog version st p with
  | Ok st' => profile_ok NewTag p ∧ planned_so_far (l ++ (Images catalog ≫= λ i, map (λ pl, (p, i, pl)) (Platforms catalog))) st'
  | Err _ => ¬ profile_ok NewTag p
  end.
Proof.
  intros Hl. apply (rfold_spec _ (image_ok NewTag p) (λ imgs, planned_so_far (l ++ (imgs ≫= λ i, map (λ pl, (p, i, pl)) (Platforms catalog)))));
    [|by rewrite app_nil_r].
  intros before i after st' _ Hst'. rewrite bind_app, app_assoc. cbn [mbind list_bind]. rewrite app_nil_r. by apply plan_image_step.
Qed.

Definition initial_state : planState := mkPlanState (replicate (length (Exclude catalog)) 0) ∅ ∅ ∅ 0.

Lemma plan_loop NewTag :
  match rfold (plan_profile NewTag catalog version) (Profiles catalog) initial_state with
  | Ok st => Forall (profile_ok NewTag) (Profiles catalog) ∧ planned_so_far combos st
  | Err _ => ¬ Forall (profile_ok NewTag) (Profiles catalog)
  end.
Proof.
  apply (rfold_spec _ (profile_ok NewTag) (λ ps, planned_so_far (ps ≫= λ p, Images catalog ≫= λ i, map (λ pl, (p, i, pl)) (Platforms catalog)))).
  - intros before p after st' _ Hst'. rewrite bind_app. cbn [mbind list_bind]. rewrite app_nil_r. by apply plan_profile_step.
  - split; cbn; try done. generalize (length (Exclude catalog)). intros n. change (Z.of_nat 0) with 0. generalize 0%nat.
    induction n as [|n IH]; intros k; cbn; [done|]. f_equal. apply IH.
Qed.

Lemma elem_of_combos p i pl : (p, i, pl) ∈ combos ↔ p ∈ Profiles catalog ∧ i ∈ Images catalog ∧ pl ∈ Platforms catalog.
Proof.
  unfold combos. rewrite list_elem_of_bind. setoid_rewrite list_elem_of_bind. setoid_rewrite list_elem_of_fmap. naive_solver.
Qed.

Lemma count_pos {A} (P : A → Prop) `{∀ x, Decision (P x)} l : Z.of_nat (length (filter P l)) ≠ 0 ↔ ∃ x, P x ∧ x ∈ l.
Proof.
  split.
  - intros Hne. destruct (filter P l) as [|x xs] eqn:E; [done|]. exists x. rewrite <- list_elem_of_filter, E. left.
  - intros (x & Hx). apply (list_elem_of_filter P l x) in Hx. destruct (filter P l) as [|y ys]; [by apply not_elem_of_nil in Hx|]. cbn [length]. lia.
Qed.

(** *** The matrix as a specification *)

(** An exclusion covers a combination when each of its selectors is the wildcard or names it. *)
Definition excludes (e : catalogExclusion) (x : combo) : Prop :=
  (ex_Image e = "*" ∨ ex_Image e = image_Name x.1.2) ∧
  (ex_Profile e = "*" ∨ ex_Profile e = profile_Name x.1.1) ∧
  (ex_Platform e = "*" ∨ ex_Platform e = platform_String x.2).
#[local] Instance excludes_dec e x : Decision (excludes e x).
Proof. unfold excludes. apply _. Defined.
Definition released (x : combo) : Prop := Forall (λ e, ¬ excludes e x) (Exclude catalog).
#[local] Instance released_dec x : Decision (released x).
Proof. unfold released. apply _. Defined.

(** The platforms on which an image of a profile is released. *)
Definition released_platforms (p : catalogProfile) (i : catalogImage) : list platform :=
  filter (λ pl, released (p, i, pl)) (Platforms catalog).

Definition planned_of (p : catalogProfile) (i : catalogImage) : list plannedImage :=
  match released_platforms p i with
  | [] => []
  | pls => [mkPlannedImage (profile_Name p) (chart_of p i) pls]
  end.

Definition matrix_images : list plannedImage := Profiles catalog ≫= λ p, Images catalog ≫= planned_of p.
Definition matrix_targets : list lockTarget := Profiles catalog ≫= λ p, map (mkLockTarget (profile_Name p)) (Platforms catalog).

Definition matrix_plan : releasePlan :=
  mkReleasePlan (SortBy target_key matrix_targets) (SortBy image_key matrix_images)
    (Z.of_nat (length (filter released combos))).

Lemma exclusion_matches_spec e (x : combo) :
  exclusion_matches e (image_Name x.1.2) (profile_Name x.1.1) (platform_String x.2) = true ↔ excludes e x.
Proof.
  unfold exclusion_matches, selectorMatches, excludes, wildcardSelector.
  rewrite !andb_true_iff, !orb_true_iff, !String.eqb_eq. tauto.
Qed.

Lemma matching_from_spec idx n ex i p pl : idx ∈ matching_from n ex i p pl ↔
  ∃ e, (n ≤ idx)%nat ∧ ex !! (idx - n)%nat = Some e ∧ exclusion_matches e i p pl = true.
Proof.
  revert n. induction ex as [|e ex IH]; intros n; cbn [matching_from].
  - split; [by intros ?%not_elem_of_nil|]. by intros (e & _ & ? & _).
  - assert (idx ∈ matching_from (S n) ex i p pl ↔
      ∃ e', (n < idx)%nat ∧ (e :: ex) !! (idx - n)%nat = Some e' ∧ exclusion_matches e' i p pl = true) as IH'.
    { rewrite IH. apply exist_proper. intros e'. split; intros (Hn & Hl & ?); (split; [lia|]); (split; [|done]).
      - by replace (idx - n)%nat with (S (idx - S n)) by lia.
      - by replace (idx - n)%nat with (S (idx - S n)) in Hl by lia. }
    assert (idx = n ∨ idx ≠ n) as [->|Hne] by lia.
    + rewrite Nat.sub_diag. destruct (exclusion_matches e i p pl) eqn:E; [rewrite elem_of_cons|]; rewrite ?IH'; cbn.
      * split; [|by left]. intros _. by exists e.
      * split; [intros (? & ? & _); lia|]. intros (e' & _ & [= <-] & ?). congruence.
    + assert (idx ∈ (if exclusion_matches e i p pl then n :: matching_from (S n) ex i p pl else matching_from (S n) ex i p pl) ↔
        idx ∈ matching_from (S n) ex i p pl) as ->.
      { destruct (exclusion_matches e i p pl); [|done]. rewrite elem_of_cons. tauto. }
      rewrite IH'. apply exist_proper. intros e'. split; intros (? & ? & ?); repeat split; try done; lia.
Qed.

Lemma elem_of_exclusions_of idx x : idx ∈ exclusions_of x ↔ ∃ e, Exclude catalog !! idx = Some e ∧ excludes e x.
Proof.
  unfold exclusions_of, matchingExclusions. rewrite matching_from_spec. rewrite Nat.sub_0_r.
  setoid_rewrite exclusion_matches_spec. apply exist_proper. intros e. split; [tauto|]. intros ?. split; [lia|done].
Qed.

Lemma exclusions_of_nil x : exclusions_of x = [] ↔ released x.
Proof.
  unfold released. rewrite Forall_forall. split.
  - intros Hnil e [idx He]%list_elem_of_lookup Hex. apply (not_elem_of_nil idx). rewrite <- Hnil. apply elem_of_exclusions_of. eauto.
  - intros H. destruct (exclusions_of x) as [|idx rest] eqn:E; [done|]. exfalso.
    assert (idx ∈ exclusions_of x) as (e & He & Hex)%elem_of_exclusions_of by (rewrite E; left).
    by apply (H e); [eapply list_elem_of_lookup_2|].
Qed.

Lemma filter_bind {A B} (P : B → Prop) `{∀ x, Decision (P x)} (f : A → list B) l : filter P (l ≫= f) = l ≫= λ a, filter P (f a).
Proof. induction l as [|a l IH]; cbn; [done|]. by rewrite filter_app, IH. Qed.

Lemma filter_map {A B} (P : B → Prop) `{∀ x, Decision (P x)} (f : A → B) l : filter P (map f l) = map f (filter (λ a, P (f a)) l).
Proof.
  induction l as [|a l IH]; cbn [map]; [done|]. rewrite !filter_cons, IH. by case_decide.
Qed.

(** Only one element of a list contributes to a bind. *)
Lemma bind_single {A B} (f : A → list B) l a : NoDup l → a ∈ l → (∀ b, b ∈ l → b ≠ a → f b = []) → l ≫= f = f a.
Proof.
  induction l as [|x l IH]; intros Hnd Ha Hf; [by apply not_elem_of_nil in Ha|]. cbn [mbind list_bind].
  apply list.NoDup_cons in Hnd as [Hx Hnd]. apply elem_of_cons in Ha as [->|Ha].
  - rewrite (Forall_bind_ext _ (λ _, [])).
    + assert (l ≫= (λ _ : A, @nil B) = []) as -> by (clear; by induction l). by rewrite app_nil_r.
    + apply Forall_forall. intros b Hb. apply Hf; [by right|]. by intros ->.
  - rewrite Hf; [|left|by intros ->]. apply IH; [done..|]. intros b Hb. apply Hf. by right.
Qed.

Lemma matching_from_NoDup n ex i p pl : NoDup (matching_from n ex i p pl).
Proof.
  revert n. induction ex as [|e ex IH]; intros n; cbn [matching_from]; [constructor|].
  destruct (exclusion_matches _ _ _ _); [|done]. apply list.NoDup_cons. split; [|done].
  intros (e' & Hn & _)%matching_from_spec. lia.
Qed.

(** No two exclusions cover a combination. *)
Lemma combo_ok_iff x : combo_ok x ↔
  ∀ a b ea eb, Exclude catalog !! a = Some ea → Exclude catalog !! b = Some eb → excludes ea x → excludes eb x → a = b.
Proof.
  unfold combo_ok. split.
  - intros Hlen a b ea eb Ha Hb Hxa Hxb.
    assert (a ∈ exclusions_of x) as Hia by (apply elem_of_exclusions_of; eauto).
    assert (b ∈ exclusions_of x) as Hib by (apply elem_of_exclusions_of; eauto).
    destruct (exclusions_of x) as [|c [|d rest]]; [by apply not_elem_of_nil in Hia| |cbn in Hlen; lia].
    apply list_elem_of_singleton in Hia, Hib. congruence.
  - intros H. pose proof (matching_from_NoDup 0 (Exclude catalog) (image_Name x.1.2) (profile_Name x.1.1) (platform_String x.2)) as Hnd.
    change (matching_from _ _ _ _ _) with (exclusions_of x) in Hnd.
    destruct (exclusions_of x) as [|a [|b rest]] eqn:E; [cbn; lia|cbn; lia|]. exfalso.
    assert (a ∈ exclusions_of x) as (ea & Ha & Hxa)%elem_of_exclusions_of by (rewrite E; left).
    assert (b ∈ exclusions_of x) as (eb & Hb & Hxb)%elem_of_exclusions_of by (rewrite E; right; left).
    apply list.NoDup_cons in Hnd as [Hn _]. destruct Hn. rewrite (H a b ea eb) by done. left.
Qed.

Context (Hvalid : valid_catalog).

Lemma profile_inj p p' : p ∈ Profiles catalog → p' ∈ Profiles catalog → profile_Name p = profile_Name p' → p = p'.
Proof. apply NoDup_map_inj, Hvalid. Qed.
Lemma image_inj i i' : i ∈ Images catalog → i' ∈ Images catalog → image_Name i = image_Name i' → i = i'.
Proof. apply NoDup_map_inj, Hvalid. Qed.

Lemma key_of_inj x y : x ∈ combos → y ∈ combos → key_of x = key_of y → x.1 = y.1.
Proof.
  destruct x as [[p i] pl], y as [[p' i'] pl']. rewrite !elem_of_combos. intros (Hp & Hi & _) (Hp' & Hi' & _).
  intros [Hpe Hie]%planned_key_inj.
  - cbn in *. by rewrite (profile_inj p p'), (image_inj i i').
  - by apply (valid_profile_names Hvalid), (list_elem_of_fmap_2 profile_Name).
  - by apply (valid_profile_names Hvalid), (list_elem_of_fmap_2 profile_Name).
Qed.

Lemma included_combos : included combos =
  Profiles catalog ≫= λ p, Images catalog ≫= λ i, map (λ pl, (p, i, pl)) (released_platforms p i).
Proof.
  unfold included, combos. rewrite filter_bind. apply list_bind_ext; [|done]. intros p.
  rewrite filter_bind. apply list_bind_ext; [|done]. intros i. rewrite filter_map. f_equal.
  apply list_filter_iff. intros pl. apply exclusions_of_nil.
Qed.

(** The combinations of one profile and image, out of the whole matrix. *)
Lemma included_at p i : p ∈ Profiles catalog → i ∈ Images catalog →
  filter (λ x, key_of x = planned_key (profile_Name p) (image_Name i)) (included combos) =
  map (λ pl, (p, i, pl)) (released_platforms p i).
Proof.
  intros Hp Hi. rewrite included_combos, filter_bind.
  assert (∀ p' i', p' ∈ Profiles catalog → i' ∈ Images catalog → (p', i') ≠ (p, i) →
    filter (λ x, key_of x = planned_key (profile_Name p) (image_Name i)) (map (λ pl, (p', i', pl)) (released_platforms p' i')) = []) as Hnil.
  { intros p' i' Hp' Hi' Hne. rewrite filter_map. destruct (filter _ _) as [|pl pls] eqn:E; [done|]. exfalso. apply Hne.
    assert (pl ∈ released_platforms p' i' ∧ key_of (p', i', pl) = planned_key (profile_Name p) (image_Name i)) as [Hpl Hk].
    { assert (pl ∈ pl :: pls) as Hin by left. rewrite <- E in Hin. apply list_elem_of_filter in Hin. tauto. }
    apply list_elem_of_filter in Hpl as [_ Hpl].
    exact (key_of_inj (p', i', pl) (p, i, pl) ltac:(by apply elem_of_combos) ltac:(by apply elem_of_combos) Hk). }
  rewrite (bind_single _ _ p); [|by eapply NoDup_fmap_1, Hvalid|done|].
  - rewrite filter_bind, (bind_single _ _ i); [|by eapply NoDup_fmap_1, Hvalid|done|].
    + rewrite filter_map. f_equal. clear. induction (released_platforms p i) as [|pl pls IH]; [done|]. by rewrite filter_cons_True, IH.
    + intros i' Hi' Hne. apply Hnil; [done..|]. congruence.
  - intros p' Hp' Hne. rewrite filter_bind.
    rewrite (Forall_bind_ext _ (λ _, [])); [clear; by induction (Images catalog)|].
    apply Forall_forall. intros i' Hi'. apply Hnil; [done..|]. congruence.
Qed.

Lemma entry_of_released p i : entry_of (map (λ pl, (p, i, pl)) (released_platforms p i)) = head (planned_of p i).
Proof.
  unfold planned_of. destruct (released_platforms p i) as [|pl pls]; cbn; [done|]. do 3 f_equal.
  rewrite map_map. cbn. apply map_id.
Qed.

Lemma elem_of_planned_of pi p i : pi ∈ planned_of p i ↔ head (planned_of p i) = Some pi.
Proof.
  unfold planned_of. destruct (released_platforms p i); cbn.
  - split; [by intros ?%not_elem_of_nil|done].
  - rewrite list_elem_of_singleton. naive_solver.
Qed.

Lemma planned_of_key pi p i : pi ∈ planned_of p i → image_key pi = (profile_Name p, image_Name i).
Proof.
  unfold planned_of. destruct (released_platforms p i); [by intros ?%not_elem_of_nil|].
  by intros ->%list_elem_of_singleton.
Qed.

Lemma elem_of_matrix_images pi : pi ∈ matrix_images ↔ ∃ p i, p ∈ Profiles catalog ∧ i ∈ Images catalog ∧ pi ∈ planned_of p i.
Proof. unfold matrix_images. rewrite list_elem_of_bind. setoid_rewrite list_elem_of_bind. naive_solver. Qed.

Lemma matrix_images_NoDup : NoDup (map image_key matrix_images).
Proof.
  apply NoDup_fmap_2_strong.
  - intros a b (p & i & Hp & Hi & Ha)%elem_of_matrix_images (p' & i' & Hp' & Hi' & Hb)%elem_of_matrix_images.
    rewrite (planned_of_key _ _ _ Ha), (planned_of_key _ _ _ Hb). intros [= Hpe Hie].
    rewrite (profile_inj p p'), (image_inj i i') in Ha by done. apply elem_of_planned_of in Ha, Hb. congruence.
  - unfold matrix_images. apply NoDup_bind; [|intros p Hp; apply NoDup_bind|by eapply NoDup_fmap_1, Hvalid].
    + intros p p' pi Hp Hp' (i & Ha & Hi)%list_elem_of_bind (i' & Hb & Hi')%list_elem_of_bind.
      apply planned_of_key in Ha, Hb. rewrite Ha in Hb. injection Hb as Hb _. by apply profile_inj.
    + intros i i' pi Hi Hi' Ha Hb. apply planned_of_key in Ha, Hb. rewrite Ha in Hb. injection Hb as Hb. by apply image_inj.
    + intros i Hi. unfold planned_of. destruct (released_platforms p i); [constructor|apply NoDup_singleton].
    + by eapply NoDup_fmap_1, Hvalid.
Qed.

(** The [planned] map holds the images of the matrix, each under its own key. *)
Lemma planned_values st : planned_so_far combos st → (map_to_list (planned st)).*2 ≡ₚ matrix_images.
Proof.
  intros Hst.
  assert (∀ k pi, planned st !! k = Some pi → k = planned_key (image_key pi).1 (image_key pi).2 ∧ pi ∈ matrix_images) as Hin.
  { intros k pi. rewrite (so_far_planned _ _ Hst). intros He.
    assert (∃ x, x ∈ included combos ∧ key_of x = k) as ([[p i] pl] & Hx & <-).
    { destruct (filter _ (included combos)) as [|x xs] eqn:E; [done|]. exists x.
      assert (x ∈ x :: xs) as Hx by left. rewrite <- E in Hx. apply list_elem_of_filter in Hx. tauto. }
    apply list_elem_of_filter in Hx as [_ (Hp & Hi & _)%elem_of_combos].
    unfold key_of in He. cbn [fst snd] in He. rewrite included_at, entry_of_released in He by done.
    apply elem_of_planned_of in He. rewrite (planned_of_key _ _ _ He). split; [done|].
    apply elem_of_matrix_images. eauto. }
  apply NoDup_Permutation.
  - apply (NoDup_fmap_1 (λ pi, planned_key (image_key pi).1 (image_key pi).2)). rewrite <- list_fmap_compose.
    rewrite (list_fmap_ext _ fst); [apply NoDup_fst_map_to_list|].
    intros _ [k pi] Hk%list_elem_of_lookup_2. apply elem_of_map_to_list in Hk. symmetry. cbn. by apply Hin.
  - eapply NoDup_fmap_1, matrix_images_NoDup.
  - intros pi. rewrite list_elem_of_fmap. split.
    + intros ([k pi'] & -> & Hk%elem_of_map_to_list). by apply (Hin k).
    + intros (p & i & Hp & Hi & Hpi)%elem_of_matrix_images. exists (planned_key (profile_Name p) (image_Name i), pi).
      split; [done|]. apply elem_of_map_to_list. rewrite (so_far_planned _ _ Hst), included_at, entry_of_released by done.
      by apply elem_of_planned_of.
Qed.

Lemma plan_targets_spec counts :
  match plan_targets catalog counts with
  | Ok ts => Forall (λ t, default 0 (counts !! t) ≠ 0) matrix_targets ∧ ts = matrix_targets
  | Err _ => ¬ Forall (λ t, default 0 (counts !! t) ≠ 0) matrix_targets
  end.
Proof.
  unfold plan_targets, matrix_targets.
  pose proof (rfold_spec (λ ts profile, rfold (λ ts pl,
      let target := mkLockTarget (profile_Name profile) pl in
      if default 0 (counts !! target) =? 0 then Err (EmptyTarget (profile_Name profile) pl) else Ok (ts ++ [target])) (Platforms catalog) ts)
    (λ p, Forall (λ pl, default 0 (counts !! mkLockTarget (profile_Name p) pl) ≠ 0) (Platforms catalog))
    (λ ps ts, ts = ps ≫= λ p, map (mkLockTarget (profile_Name p)) (Platforms catalog)) (Profiles catalog) []) as H.
  assert (Forall (λ t, default 0 (counts !! t) ≠ 0) (Profiles catalog ≫= λ p, map (mkLockTarget (profile_Name p)) (Platforms catalog)) ↔
    Forall (λ p, Forall (λ pl, default 0 (counts !! mkLockTarget (profile_Name p) pl) ≠ 0) (Platforms catalog)) (Profiles catalog)) as Hiff.
  { rewrite Forall_bind. apply Forall_iff. intros p. apply (list.Forall_fmap (mkLockTarget (profile_Name p))). }
  destruct (rfold _ (Profiles catalog) []) as [ts|e]; rewrite Hiff; apply H; try done.
  all: intros before p after ts' _ ->; rewrite bind_app; cbn [mbind list_bind]; rewrite app_nil_r.
  all: apply (rfold_spec _ (λ pl, default 0 (counts !! mkLockTarget (profile_Name p) pl) ≠ 0)
    (λ pls ts, ts = (before ≫= λ p, map (mkLockTarget (profile_Name p)) (Platforms catalog)) ++ map (mkLockTarget (profile_Name p)) pls));
    [|by rewrite app_nil_r].
  all: intros bef pl aft ts'' _ ->; destruct (Z.eqb_spec (default 0 (counts !! mkLockTarget (profile_Name p) pl)) 0); [tauto|].
  all: split; [done|]; by rewrite map_app, app_assoc.
Qed.

(** *** When a catalog can be released *)

Definition tags_valid (NewTag : string → option string) : Prop := ∀ p i, p ∈ Profiles catalog → i ∈ Images catalog → NewTag (reference (chart_of p i)) = None.
Definition no_overlap : Prop := ∀ x a b ea eb, x ∈ combos →
  Exclude catalog !! a = Some ea → Exclude catalog !! b = Some eb → excludes ea x → excludes eb x → a = b.
Definition exclusions_used : Prop := ∀ e, e ∈ Exclude catalog → ∃ x, x ∈ combos ∧ excludes e x.
Definition images_released : Prop := ∀ i, i ∈ Images catalog → ∃ p pl, (p, i, pl) ∈ combos ∧ released (p, i, pl).
Definition targets_filled : Prop := ∀ p pl, p ∈ Profiles catalog → pl ∈ Platforms catalog → ∃ i, (p, i, pl) ∈ combos ∧ released (p, i, pl).
Definition releasable (NewTag : string → option string) : Prop := tags_valid NewTag ∧ no_overlap ∧ exclusions_used ∧ images_released ∧ targets_filled.

Lemma profiles_ok_iff NewTag : Forall (profile_ok NewTag) (Profiles catalog) ↔ tags_valid NewTag ∧ no_overlap.
Proof.
  unfold profile_ok, image_ok. rewrite Forall_forall. setoid_rewrite Forall_forall. setoid_rewrite Forall_forall. split.
  - intros H. split; [intros p i Hp Hi; by apply H|]. intros [[p i] pl] a b ea eb (Hp & Hi & Hpl)%elem_of_combos.
    apply combo_ok_iff. by apply H.
  - intros [H1 H2] p Hp i Hi. split; [by apply H1|]. intros pl Hpl. apply combo_ok_iff. intros a b ea eb. apply H2.
    by apply elem_of_combos.
Qed.

Section checks.
Context st (Hst : planned_so_far combos st).

Lemma matched_check : no_overlap → Forall (λ n, n ≠ 0) (matchedExclusions st) ↔ exclusions_used.
Proof.
  intros Hno. rewrite (so_far_matched _ _ Hst).
  assert (∀ idx e x, Exclude catalog !! idx = Some e → x ∈ combos → exclusions_of x = [idx] ↔ excludes e x) as Hone.
  { intros idx e x He Hx. split.
    - intros E. assert (idx ∈ exclusions_of x) as (e' & He' & Hex)%elem_of_exclusions_of by (rewrite E; left). congruence.
    - intros Hex. assert (combo_ok x) as Hok by (apply combo_ok_iff; intros ????; by apply Hno).
      assert (idx ∈ exclusions_of x) as Hin by (apply elem_of_exclusions_of; eauto). unfold combo_ok in Hok.
      destruct (exclusions_of x) as [|a [|b rest]]; [by apply not_elem_of_nil in Hin| |cbn in Hok; lia].
      by apply list_elem_of_singleton in Hin as ->. }
  etransitivity; [apply (list.Forall_fmap (λ idx, Z.of_nat (length (filter (λ x, exclusions_of x = [idx]) combos))) (λ n, n ≠ 0))|].
  rewrite Forall_seq. cbn. setoid_rewrite count_pos. split.
  - intros H e [idx He]%list_elem_of_lookup. destruct (H idx) as (x & Hx & Hin); [apply lookup_lt_Some in He; lia|].
    exists x. split; [done|]. by apply (Hone idx e x).
  - intros H idx [_ Hlt]. destruct (lookup_lt_is_Some_2 (Exclude catalog) idx) as [e He]; [lia|].
    destruct (H e) as (x & Hx & Hex); [by eapply list_elem_of_lookup_2|]. exists x. split; [by apply (Hone idx e)|done].
Qed.

Lemma elem_of_included x : x ∈ included combos ↔ x ∈ combos ∧ released x.
Proof. unfold included. rewrite list_elem_of_filter, exclusions_of_nil. tauto. Qed.

Lemma images_check : Forall (λ i, default 0 (imageCombinationCounts st !! image_Name i) ≠ 0) (Images catalog) ↔ images_released.
Proof.
  rewrite Forall_forall. unfold images_released. setoid_rewrite (so_far_images _ _ Hst). setoid_rewrite count_pos.
  setoid_rewrite elem_of_included. split; intros H i Hi; specialize (H i Hi).
  - destruct H as ([[p i'] pl] & He & Hc & Hr). cbn in He. pose proof Hc as (Hp & Hi' & Hpl)%elem_of_combos.
    apply image_inj in He as ->; [|done..]. eauto.
  - destruct H as (p & pl & Hc & Hr). by exists (p, i, pl).
Qed.

Lemma targets_check : Forall (λ t, default 0 (targetImageCounts st !! t) ≠ 0) matrix_targets ↔ targets_filled.
Proof.
  unfold matrix_targets, targets_filled. rewrite Forall_forall. setoid_rewrite (so_far_targets _ _ Hst). setoid_rewrite count_pos.
  setoid_rewrite elem_of_included. split.
  - intros H p pl Hp Hpl. destruct (H (mkLockTarget (profile_Name p) pl)) as ([[p' i] pl'] & He & Hc & Hr).
    { apply list_elem_of_bind. exists p. split; [|done]. by apply (list_elem_of_fmap_2 (mkLockTarget (profile_Name p))). }
    unfold target_of in He. cbn in He. injection He as Hn ->. pose proof Hc as (Hp' & _ & _)%elem_of_combos.
    apply profile_inj in Hn as ->; [|done..]. eauto.
  - intros H t (p & (pl & -> & Hpl)%list_elem_of_fmap & Hp)%list_elem_of_bind.
    destruct (H p pl Hp Hpl) as (i & Hc & Hr). by exists (p, i, pl).
Qed.

Lemma matrix_count : combinationCount st = Z.of_nat (length (filter released combos)).
Proof.
  rewrite (so_far_count _ _ Hst). unfold included. do 2 f_equal. apply list_filter_iff. intros x. apply exclusions_of_nil.
Qed.

End checks.

End facts.

(** ** Inventories *)

Lemma Join_NUL_inj l k : l ≠ [] → k ≠ [] → Forall NUL_free l → Forall NUL_free k → Join l NUL = Join k NUL → l = k.
Proof.
  intros Hl Hk HNl. revert k Hl Hk. induction HNl as [|a l Ha HNl IH]; [done|]. intros k _ Hk HNk He.
  destruct HNk as [|b k Hb HNk]; [done|].
  assert (∀ c (r : string), ¬ NUL_free (c +:+ NUL +:+ r)) as Hno.
  { intros c r Hf. apply Hf. rewrite !bytes_of_app. apply elem_of_app. right. left. }
  destruct l as [|a' l], k as [|b' k].
  - cbn in He. by subst.
  - change (a = b +:+ NUL +:+ Join (b' :: k) NUL) in He. subst. by apply Hno in Ha.
  - change (a +:+ NUL +:+ Join (a' :: l) NUL = b) in He. subst. by apply Hno in Hb.
  - change (a +:+ NUL +:+ Join (a' :: l) NUL = b +:+ NUL +:+ Join (b' :: k) NUL) in He.
    apply sep_inj in He as [-> He]; [|done|done]. f_equal. by apply IH.
Qed.

Lemma adjacent_equal_NoDup l : NoDup l → adjacent_equal l = None.
Proof.
  induction l as [|a [|b l] IH]; intros Hnd; [done|done|]. apply list.NoDup_cons in Hnd as [Ha Hnd].
  cbn [adjacent_equal]. destruct (String.eqb_spec b a) as [->|]; [destruct Ha; left|]. by apply IH.
Qed.

(** The expected images are accepted exactly when they are those of the catalog. *)
Lemma validateExpectedImages_spec catalog expected : valid_catalog catalog → expected ≠ [] → Forall NUL_free expected →
  validateExpectedImages catalog expected = None ↔ expected ≡ₚ imageNames (Images catalog).
Proof.
  intros Hvalid Hne HN. unfold validateExpectedImages. destruct expected as [|x xs]; [done|]. set (l := x :: xs) in *. clearbody l.
  set (names := imageNames (Images catalog)).
  assert (∀ k, SortStrings k ≡ₚ k) as Hp by (intros; apply merge_sort_Permutation). split.
  - destruct (adjacent_equal (SortStrings l)); [done|].
    destruct (String.eqb_spec (Join (SortStrings names) NUL) (Join (SortStrings l) NUL)) as [He|]; cbn [negb]; [|done]. intros _.
    rewrite <- (Hp l), <- (Hp names). apply Join_NUL_inj in He as ->; [done| | | |].
    + intros Hnil. assert (names ≡ₚ []) as Hn by (by rewrite <- Hnil, Hp). apply Permutation_nil_r in Hn.
      by apply map_eq_nil, (valid_images_some _ Hvalid) in Hn.
    + intros Hnil. assert (l ≡ₚ []) as Hn by (by rewrite <- Hnil, Hp). by apply Permutation_nil_r in Hn.
    + rewrite Hp. apply Forall_forall. apply (valid_image_names _ Hvalid).
    + by rewrite Hp.
  - intros He. rewrite adjacent_equal_NoDup by (rewrite Hp, He; apply Hvalid).
    assert (SortStrings names = SortStrings l) as ->; [|by rewrite String.eqb_refl].
    apply (StronglySorted_unique string_le); [apply StronglySorted_merge_sort; apply _..|]. by rewrite !Hp.
Qed.

Lemma plan_expands catalog NewTag version order : valid_catalog catalog →
  (∀ m : gmap string plannedImage, order m ≡ₚ (map_to_list m).*2) →
  match buildReleasePlan NewTag order catalog version with
  | Ok plan => releasable catalog version NewTag ∧ plan = matrix_plan catalog version
  | Err _ => ¬ releasable catalog version NewTag
  end.
Proof.
  intros Hvalid Horder. unfold buildReleasePlan, releasable.
  pose proof (plan_loop catalog version NewTag) as Hloop. unfold initial_state in Hloop.
  destruct (rfold (plan_profile _ _ _) _ _) as [st|e]; cbn [rbind]; rewrite profiles_ok_iff in Hloop by done; [|tauto].
  destruct Hloop as [[Htags Hno] Hst].
  pose proof (rfold_spec (λ index n, if n =? 0 then Err (UnmatchedExclusion index) else Ok (S index)) (λ n, n ≠ 0)
    (λ _ _, True) (matchedExclusions st) O) as Hm.
  destruct (rfold _ (matchedExclusions st) O) as [n|e]; cbn [rbind]; rewrite (matched_check catalog version st Hst Hno) in Hm.
  2:{ intros (_ & _ & Hu & _). apply Hm in Hu; [done| |done]. intros ? b ? ? _ _. destruct (Z.eqb_spec b 0); tauto. }
  destruct Hm as [Hused _]; [|done|]. { intros ? b ? ? _ _. destruct (Z.eqb_spec b 0); tauto. }
  pose proof (rfold_check (λ _ image, if default 0 (imageCombinationCounts st !! image_Name image) =? 0
    then Err (ImageRemoved (image_Name image)) else Ok tt)
    (λ i, default 0 (imageCombinationCounts st !! image_Name i) ≠ 0) (Images catalog)) as Hi.
  destruct (rfold _ (Images catalog) tt) as [[]|e]; cbn [rbind]; rewrite (images_check catalog version Hvalid st Hst) in Hi.
  2:{ intros (_ & _ & _ & Hr & _). revert Hr. apply Hi. intros b _. destruct (Z.eqb_spec (default 0 (imageCombinationCounts st !! image_Name b)) 0); tauto. }
  assert (images_released catalog) as Hrel.
  { apply Hi. intros b _. destruct (Z.eqb_spec (default 0 (imageCombinationCounts st !! image_Name b)) 0); tauto. }
  pose proof (plan_targets_spec catalog (targetImageCounts st)) as Ht.
  destruct (plan_targets catalog (targetImageCounts st)) as [ts|e]; cbn [rbind]; rewrite (targets_check catalog version Hvalid st Hst) in Ht; [|tauto].
  destruct Ht as [Hfill ->]. split; [tauto|]. unfold matrix_plan. f_equal.
  - apply SortBy_perm; [by apply matrix_images_NoDup|]. rewrite Horder. by apply planned_values.
  - by apply (matrix_count catalog version).
Qed.

(** C37: the release plan is the declared matrix.  For a catalog that passes validation,
    and whatever the order of Go's map iteration, the plan is built exactly when
    every tag is valid, no combination of image, profile and platform is covered
    by two exclusions, every exclusion covers one, every image is
    released somewhere and no profile and platform is left without an image.  The
    plan then holds, in order, one target for each profile and platform, and for each
    profile and image that is released at all its tagged reference with
    exactly the platforms that no exclusion covers. *)
Theorem plan_expands_catalog NewRepository NewTag catalog version order
  (Hvalid : validateCatalog NewRepository catalog = Ok tt)
  (Horder : ∀ m : gmap string plannedImage, order m ≡ₚ (map_to_list m).*2) :
  match buildReleasePlan NewTag order catalog version with
  | Ok plan => releasable catalog version NewTag ∧ plan = matrix_plan catalog version
  | Err _ => ¬ releasable catalog version NewTag
  end.
Proof. apply plan_expands; [by eapply validateCatalog_Ok|done]. Qed.

(** Two profiles, two platforms, and no mpsd in the fips profile. *)
Definition example_catalog : imageCatalog :=
  mkImageCatalog catalogAPIVersion "gpu-fractioning" "gpu-fractioning" "ghcr.io/kai-scheduler"
    [mkCatalogImage "operator"; mkCatalogImage "mpsd"]
    [mkCatalogProfile "standard" "{{version}}"; mkCatalogProfile "fips" "{{version}}-fips"]
    [mkPlatform "linux" "amd64"; mkPlatform "linux" "arm64"]
    [mkCatalogExclusion "mpsd" "fips" "*" "not built"].

Lemma plan_expands_catalog_witness :
  ∃ plan, buildReleasePlan (λ _, None) (λ m, (map_to_list m).*2) example_catalog "v1.2.3" = Ok plan ∧
    plan = matrix_plan example_catalog "v1.2.3" ∧ plan_combinationCount plan = 6 ∧
    map (λ i, (image_key i, length (planned_platforms i))) (plan_images plan) =
      [(("fips", "operator"), 2%nat); (("standard", "mpsd"), 2%nat); (("standard", "operator"), 2%nat)].
Proof.
  pose proof (plan_expands_catalog (λ _, None) (λ _, None) example_catalog "v1.2.3" (λ m, (map_to_list m).*2)
    ltac:(vm_compute; reflexivity) ltac:(intros m; reflexivity)) as H.
  destruct (buildReleasePlan (λ _, None) (λ m, (map_to_list m).*2) example_catalog "v1.2.3") as [plan|e] eqn:E.
  - destruct H as [_ ->]. exists (matrix_plan example_catalog "v1.2.3"). split_and!; [done|done|vm_compute; reflexivity..].
  - exfalso. vm_compute in E. discriminate.
Defined.
