(* ===== verification/ImageLock.v ===== *)
(** * hack/imagelock/main.go: digest-pinned image locks

    [run] expands the catalog (ImageCatalog), resolves every planned image in the
    registry and writes one lock file for each profile and platform.  The registry
    client belongs to go-containerregistry: the class [Registry] has its calls,
    which may fail and act on the state of the registry.  The locks are written
    into the output directory as a program over [FileSystem]; a path there is the
    name under which it is joined to the directory, and lock names have no
    separator in them.  Marshalling belongs to sigs.k8s.io/yaml and is an argument.
    Waiting between attempts and logging are left out. *)

From Stdlib Require Import ZArith Lia String Ascii.
From stdpp Require Import base gmap list sorting strings.
From S2P Require Import Prelude GoStrings GoSort GoRegexp GoTime GoFlag FileSystem ImageCatalog.

#[local] Open Scope string_scope.
#[local] Open Scope list_scope.
#[local] Open Scope Z_scope.

Definition lockAPIVersion : string := "artifacts.run.ai/v1alpha1".
Definition lockKind : string := "ImageLock".
Definition standardProfile : string := "standard".
Definition verifyVersion : string := "v0.0.0-imagelock-verify".
Definition registryAttempts : nat := 3.
Definition defaultStabilityReads : Z := 10.

(** [^sha256:[0-9a-f]{64}$] *)
Definition hex_char (c : ascii) : bool := digit c || between "a" "f" c.
Definition sha256Digest : re := Seq (Word "sha256:") (Times 64 (Class hex_char)).

(** A number without leading zeros, and the pattern of release versions. *)
Definition number : re := Alt (Lit "0") (Seq (Class (between "1" "9")) (Star (Class digit))).
Definition pre_char (c : ascii) : bool := digit c || uppercase c || lowercase c || Ascii.eqb c "-".
Definition releaseVersion : re :=
  Seq (Lit "v") (Seq number (Seq (Lit ".") (Seq number (Seq (Lit ".") (Seq number
    (Opt (Seq (Lit "-") (Seq (Plus (Class pre_char)) (Star (Seq (Lit ".") (Plus (Class pre_char)))))))))))).

Record resolvedImage := mkResolvedImage {
  resolved_profile : string;
  resolved_chart : chartImage;
  resolved_index : string;
  digestPerPlatform : gmap platform string
}.

(** ** Flags *)

Record options := mkOptions {
  opt_catalog : string;
  chartValues : string;
  opt_version : string;
  outDir : string;
  verifyOnly : bool;
  stabilityReads : Z;
  expectedImages : list string
}.

Inductive OptionsError :=
| BadFlags (e : FlagError)
| PositionalArguments (args : list string)
| TooFewReads
| VersionRequired
| BadVersion (version : string).

Definition declared : FlagSet :=
  [("catalog", VString "catalog.yaml");
   ("chart-values", VString "");
   ("version", VString "");
   ("out-dir", VString "../../dist");
   ("verify-only", VBool false);
   ("stability-reads", VInt defaultStabilityReads);
   ("expected-image", VList [])].

Definition parseFlags (args : list string) : result OptionsError options :=
  r <-? map_err BadFlags (ParseArgs declared args);;
  let '(flags, rest) := r in
  match rest with
  | _ :: _ => Err (PositionalArguments rest)
  | [] =>
      let opts := mkOptions (get_string flags "catalog") (get_string flags "chart-values") (get_string flags "version")
        (get_string flags "out-dir") (get_bool flags "verify-only") (get_int flags "stability-reads") (get_list flags "expected-image") in
      if stabilityReads opts <? 1 then Err TooFewReads
      else
        let version := if verifyOnly opts && String.eqb (opt_version opts) "" then verifyVersion else opt_version opts in
        if String.eqb version "" then Err VersionRequired
        else if negb (matches releaseVersion version) then Err (BadVersion version)
        else Ok (mkOptions (opt_catalog opts) (chartValues opts) version (outDir opts) (verifyOnly opts) (stabilityReads opts) (expectedImages opts))
  end.

(** ** The registry *)

(** An entry of an index manifest, and a [remote.Descriptor]: its digest, its media type, and
    what [ImageIndex] and [IndexManifest] give. *)
Record manifestEntry := mkManifestEntry { entry_Platform : option platform; entry_Digest : string }.
Record Descriptor := mkDescriptor { Digest : string; MediaType : string; IsIndex : bool; Manifests : result string (list manifestEntry) }.

(** [name.ParseReference] and [remote.Get] *)
Class Registry (W : Type) := {
  ParseReference : string → option string;
  Get : string → W → result string Descriptor * W
}.

Inductive ResolveError :=
| InvalidRef (cause : string)
| AttemptsFailed (last : string)
| DigestChanged (first again : string)
| NotAnIndex (mediaType : string)
| BadIndex (cause : string)
| NoManifest (p : platform)
| AmbiguousManifest (p : platform) (n : nat)
| BadIndexDigest (digest : string)
| MissingDigest (p : platform)
| BadDigest (p : platform) (digest : string).

Definition manifest_matches (p : platform) (entry : manifestEntry) : bool :=
  match entry_Platform entry with
  | Some q => String.eqb (OS q) (OS p) && String.eqb (Architecture q) (Architecture p)
  | None => false
  end.

Definition manifestDigestsPerPlatform (descriptor : Descriptor) (platforms : list platform)
    : result ResolveError (gmap platform string) :=
  match Manifests descriptor with
  | Err err => Err (BadIndex err)
  | Ok manifests =>
      rfold (λ digests p,
        match map entry_Digest (List.filter (manifest_matches p) manifests) with
        | [] => Err (NoManifest p)
        | [digest] => Ok (<[p := digest]> digests)
        | several => Err (AmbiguousManifest p (length several))
        end) platforms ∅
  end.

Section registry.
Context {W : Type} `{Registry W}.

(** The loop of [fetchDescriptor], with the attempts left. *)
Fixpoint fetch_attempts (n : nat) (ref lastErr : string) (w : W) : result ResolveError Descriptor * W :=
  match n with
  | O => (Err (AttemptsFailed lastErr), w)
  | S n =>
      let '(r, w) := Get ref w in
      match r with
      | Ok descriptor => (Ok descriptor, w)
      | Err err => fetch_attempts n ref err w
      end
  end.
Definition fetchDescriptor (ref : string) (w : W) : result ResolveError Descriptor * W :=
  fetch_attempts registryAttempts ref "" w.

Fixpoint stable_reads (n : nat) (ref : string) (first : Descriptor) (w : W) : result ResolveError Descriptor * W :=
  match n with
  | O => (Ok first, w)
  | S n =>
      let '(r, w) := fetchDescriptor ref w in
      match r with
      | Err err => (Err err, w)
      | Ok again =>
          if negb (String.eqb (Digest again) (Digest first)) then (Err (DigestChanged (Digest first) (Digest again)), w)
          else stable_reads n ref first w
      end
  end.

Definition resolveStableDescriptor (ref : string) (reads : Z) (w : W) : result ResolveError Descriptor * W :=
  let reads := if reads <? 1 then defaultStabilityReads else reads in
  let '(r, w) := fetchDescriptor ref w in
  match r with
  | Err err => (Err err, w)
  | Ok first => stable_reads (Z.to_nat (reads - 1)) ref first w
  end.

(** [remoteResolver.resolve] *)
Definition resolve (reads : Z) (ref : string) (platforms : list platform) (w : W)
    : result ResolveError (string * gmap platform string) * W :=
  match ParseReference ref with
  | Some err => (Err (InvalidRef err), w)
  | None =>
      let '(r, w) := resolveStableDescriptor ref reads w in
      match r with
      | Err err => (Err err, w)
      | Ok descriptor =>
          if negb (IsIndex descriptor) then (Err (NotAnIndex (MediaType descriptor)), w)
          else (digests <-? manifestDigestsPerPlatform descriptor platforms;; Ok (Digest descriptor, digests), w)
      end
  end.

Definition validateDigests (indexDigest : string) (digests : gmap platform string) (expected : list platform)
    : result ResolveError unit :=
  if negb (matches sha256Digest indexDigest) then Err (BadIndexDigest indexDigest)
  else rfold (λ _ p,
    match digests !! p with
    | None => Err (MissingDigest p)
    | Some digest => if negb (matches sha256Digest digest) then Err (BadDigest p digest) else Ok tt
    end) expected tt.

Inductive ImageError := ResolvingImage (profile ref : string) (cause : ResolveError).

(** [resolveImages] with the remote resolver. *)
Fixpoint resolveImages (reads : Z) (images : list plannedImage) (resolved : list resolvedImage) (w : W)
    : result ImageError (list resolvedImage) * W :=
  match images with
  | [] => (Ok resolved, w)
  | image :: images =>
      let ref := reference (planned_image image) in
      let '(r, w) := resolve reads ref (planned_platforms image) w in
      match r with
      | Err err => (Err (ResolvingImage (planned_profile image) ref err), w)
      | Ok (indexDigest, digests) =>
          match validateDigests indexDigest digests (planned_platforms image) with
          | Err err => (Err (ResolvingImage (planned_profile image) ref err), w)
          | Ok _ => resolveImages reads images
                      (resolved ++ [mkResolvedImage (planned_profile image) (planned_image image) indexDigest digests]) w
          end
      end
  end.

End registry.

(** ** Locks *)

Record lockedImage := mkLockedImage { li_Name : string; li_Image : string; li_Source : string; li_IndexDigest : string }.
Record imageLock := mkImageLock {
  lock_APIVersion : string;
  lock_Kind : string;
  lock_Name : string;
  lock_Version : string;
  lock_Profile : string;
  lock_Platform : platform;
  lock_Images : list lockedImage
}.

Inductive LockError := EmptyLock (t : lockTarget) | MarshalLock (t : lockTarget) (cause : string).

(** The entry of one resolved image in the lock of [target]. *)
Definition locked_entry (target : lockTarget) (image : resolvedImage) : option lockedImage :=
  if negb (String.eqb (resolved_profile image) (target_profile target)) then None
  else match digestPerPlatform image !! target_platform target with
  | None => None
  | Some digest => Some (mkLockedImage (img_name (resolved_chart image)) (img_repo (resolved_chart image) +:+ "@" +:+ digest)
                           (reference (resolved_chart image)) (resolved_index image))
  end.

Definition buildLock (catalogName version : string) (target : lockTarget) (resolved : list resolvedImage)
    : result LockError imageLock :=
  match omap (locked_entry target) resolved with
  | [] => Err (EmptyLock target)
  | images => Ok (mkImageLock lockAPIVersion lockKind catalogName version (target_profile target) (target_platform target)
                    (SortBy (λ i, (li_Name i, "")) images))
  end.

Definition lockFileName (artifactName : string) (lock : imageLock) : string :=
  let platform := OS (lock_Platform lock) +:+ "-" +:+ Architecture (lock_Platform lock) +:+ ".yaml" in
  if String.eqb (lock_Profile lock) standardProfile then
    "imagelock-" +:+ artifactName +:+ "-" +:+ lock_Version lock +:+ "-" +:+ platform
  else "imagelock-" +:+ artifactName +:+ "-" +:+ lock_Version lock +:+ "-" +:+ lock_Profile lock +:+ "-" +:+ platform.

Record lockOutput := mkLockOutput { out_path : string; out_yaml : string }.

Definition marshalLocks (Marshal : imageLock → result string string) (opts : options) (catalog : imageCatalog)
    (targets : list lockTarget) (resolved : list resolvedImage) : result LockError (list lockOutput) :=
  rfold (λ outputs target,
    lock <-? buildLock (cat_Name catalog) (opt_version opts) target resolved;;
    yaml <-? map_err (MarshalLock target) (Marshal lock);;
    Ok (outputs ++ [mkLockOutput (lockFileName (ArtifactName catalog) lock) yaml])) targets [].

(** ** Writing *)

Inductive WriteError :=
| LockFailed (e : LockError) | CreateDirectory (e : errno) | CreateStaged (e : errno)
| SetMode (name : string) (e : errno) | WriteStaged (name : string) (e : errno) | CloseStaged (name : string) (e : errno)
| Publish (path : string) (e : errno).

Section write.
(** The name under which a staged file is created, [.imagelock-*.tmp]. *)
Context (pick : string → gmap string node → string).

Definition remove_all (paths : list string) : M unit := for_each (λ path, _ ← Remove path; mret tt) paths.

(** One round of the staging loop, after the file was created. *)
Definition stage_lock (name yaml : string) : M (result WriteError unit) :=
  err ← Chmod;
  match err with
  | Err e => _ ← Close; mret (Err (SetMode name e))
  | Ok _ =>
      err ← WriteFile name yaml;
      match err with
      | Err e => _ ← Close; mret (Err (WriteStaged name e))
      | Ok _ =>
          err ← Close;
          match err with
          | Err e => mret (Err (CloseStaged name e))
          | Ok _ => mret (Ok tt)
          end
      end
  end.

(** The staging loop; [staged] are the files created so far. *)
Fixpoint stage_locks (outputs : list lockOutput) (staged : list string) : M (result WriteError (list string)) :=
  match outputs with
  | [] => mret (Ok staged)
  | output :: outputs =>
      tmp ← CreateTemp pick;
      match tmp with
      | Err e => _ ← remove_all staged; mret (Err (CreateStaged e))
      | Ok name =>
          r ← stage_lock name (out_yaml output);
          match r with
          | Err err => _ ← remove_all (staged ++ [name]); mret (Err err)
          | Ok _ => stage_locks outputs (staged ++ [name])
          end
      end
  end.

(** The publishing loop over the outputs and their staged files; [published] are the
    paths renamed so far. *)
Fixpoint publish_locks (work : list (string * lockOutput)) (published : list string) : M (result WriteError unit) :=
  match work with
  | [] => mret (Ok tt)
  | (staged, output) :: rest =>
      err ← Rename staged (out_path output);
      match err with
      | Err e => _ ← remove_all published; _ ← remove_all (staged :: map fst rest); mret (Err (Publish (out_path output) e))
      | Ok _ => publish_locks rest (published ++ [out_path output])
      end
  end.

Definition writeLocks (Marshal : imageLock → result string string) (opts : options) (catalog : imageCatalog)
    (targets : list lockTarget) (resolved : list resolvedImage) : M (result WriteError unit) :=
  match marshalLocks Marshal opts catalog targets resolved with
  | Err e => mret (Err (LockFailed e))
  | Ok outputs =>
      err ← MkdirAll;
      match err with
      | Err e => mret (Err (CreateDirectory e))
      | Ok _ =>
          r ← stage_locks outputs [];
          match r with
          | Err e => mret (Err e)
          | Ok staged => publish_locks (zip staged outputs) []
          end
      end
  end.

End write.

(** ** run *)

Inductive RunError :=
| FlagsFailed (e : OptionsError) | LoadFailed (e : LoadError) | InventoryFailed (e : InventoryError)
| PlanFailed (e : PlanError) | ResolveFailed (e : ImageError) | WriteFailed (e : WriteError).

(** What the tool uses of its libraries and of the files it only reads. *)
Record environment := mkEnvironment {
  NewRepository : string → option string;
  NewTag : string → option string;
  UnmarshalCatalog : string → result string imageCatalog;
  UnmarshalValues : string → result string (gmap string string);
  MarshalLock_yaml : imageLock → result string string;
  readFile : string → result string string;
  pickTemp : string → gmap string node → string;
  planned_order : gmap string plannedImage → list plannedImage;
  values_order : gmap string string → list string
}.

Definition run {W} `{Registry W} (env : environment) (args : list string) (w : W) (fs : world) : result RunError unit * W * world :=
  match parseFlags args with
  | Err e => (Err (FlagsFailed e), w, fs)
  | Ok opts =>
      match loadCatalog (NewRepository env) (opt_catalog opts) (readFile env (opt_catalog opts)) (UnmarshalCatalog env) with
      | Err e => (Err (LoadFailed e), w, fs)
      | Ok catalog =>
          match validateExpectedImages catalog (expectedImages opts) with
          | Some e => (Err (InventoryFailed e), w, fs)
          | None =>
              match (if String.eqb (chartValues opts) "" then None
                     else validateChartValues (values_order env) catalog (chartValues opts) (readFile env (chartValues opts)) (UnmarshalValues env)) with
              | Some e => (Err (InventoryFailed e), w, fs)
              | None =>
                  match buildReleasePlan (NewTag env) (planned_order env) catalog (opt_version opts) with
                  | Err e => (Err (PlanFailed e), w, fs)
                  | Ok plan =>
                      if verifyOnly opts then (Ok tt, w, fs)
                      else
                        let '(r, w) := resolveImages (stabilityReads opts) (plan_images plan) [] w in
                        match r with
                        | Err e => (Err (ResolveFailed e), w, fs)
                        | Ok resolved =>
                            let '(r, fs) := writeLocks (pickTemp env) (MarshalLock_yaml env) opts catalog (targets plan) resolved fs in
                            (map_err WriteFailed r, w, fs)
                        end
                  end
              end
          end
      end
  end.

(** ** Publication *)

Section publication.
Context (pick : string → gmap string node → string).
Context (Hpick : ∀ rnd m, m !! pick rnd m = None ∧ HasPrefix (pick rnd m) "." = true).
(** The directory before the run, and the locks to write. *)
Context (m0 : gmap string node) (outputs : list lockOutput).
Context (Hout : ∀ o, o ∈ outputs → HasPrefix (out_path o) "." = false ∧ ∀ b, m0 !! out_path o ≠ Some (NDir b)).

Definition stage_map (L : list (string * string)) (m : gmap string node) : gmap string node :=
  foldr (λ p m, <[p.1 := NFile p.2]> m) m L.
Lemma stage_map_cons p L m : stage_map (p :: L) m = <[p.1 := NFile p.2]> (stage_map L m).
Proof. done. Qed.
Definition delete_all (paths : list string) (m : gmap string node) : gmap string node :=
  fold_left (λ m p, delete p m) paths m.
Definition inserts (outs : list lockOutput) (m : gmap string node) : gmap string node :=
  fold_left (λ m o, <[out_path o := NFile (out_yaml o)]> m) outs m.

(** A directory whose visible files are those of [m0], or complete locks, or locks removed. *)
Definition consistent (m : gmap string node) : Prop := ∀ name, HasPrefix name "." = false →
  m !! name = m0 !! name ∨ ∃ o, o ∈ outputs ∧ out_path o = name ∧ (m !! name = None ∨ m !! name = Some (NFile (out_yaml o))).
Definition seen (d : directory) : Prop := ∃ m, d = Some m ∧ consistent m.

(** Staged files: hidden, distinct, and new. *)
Definition staged_ok (L : list (string * string)) (m : gmap string node) : Prop :=
  NoDup (map fst L) ∧ ∀ n, n ∈ map fst L → HasPrefix n "." = true ∧ m !! n = None.

Lemma consistent_hidden name (f : gmap string node → gmap string node) m : HasPrefix name "." = true →
  (∀ k, k ≠ name → f m !! k = m !! k) → consistent m → consistent (f m).
Proof. intros Hn Hf Hm k Hk. rewrite Hf by (intros ->; congruence). by apply Hm. Qed.

Lemma consistent_insert name n m : HasPrefix name "." = true → consistent m → consistent (<[name := n]> m).
Proof. intros Hn. apply (consistent_hidden name); [done|]. intros k Hk. by rewrite lookup_insert_ne. Qed.

Lemma consistent_delete name m : HasPrefix name "." = true ∨ name ∈ map out_path outputs → consistent m → consistent (delete name m).
Proof.
  intros [Hn|(o & -> & Ho)%list_elem_of_fmap] Hm.
  - apply (consistent_hidden name); [done| |done]. intros k Hk. by rewrite lookup_delete_ne.
  - intros k Hk. destruct (decide (out_path o = k)) as [<-|Hne].
    + right. exists o. rewrite lookup_delete_eq. auto.
    + rewrite lookup_delete_ne by done. by apply Hm.
Qed.

Lemma consistent_stage L m : (∀ n, n ∈ map fst L → HasPrefix n "." = true) → consistent m → consistent (stage_map L m).
Proof.
  intros HL Hm. induction L as [|p L IH]; [done|]. rewrite stage_map_cons.
  apply consistent_insert; [apply HL; left|]. apply IH. intros n Hn. apply HL. by right.
Qed.

Lemma lookup_stage_map L m n : n ∉ map fst L → stage_map L m !! n = m !! n.
Proof.
  induction L as [|p L IH]; [done|]. rewrite !stage_map_cons. intros [Hne Hn]%not_elem_of_cons. by rewrite lookup_insert_ne, IH.
Qed.

Lemma stage_map_app L L' m : stage_map (L ++ L') m = stage_map L (stage_map L' m).
Proof. apply foldr_app. Qed.

Lemma stage_map_insert L m n x : n ∉ map fst L → stage_map L (<[n := x]> m) = <[n := x]> (stage_map L m).
Proof.
  induction L as [|p L IH]; [done|]. rewrite !stage_map_cons. intros [Hne Hn]%not_elem_of_cons. rewrite IH by done. by apply insert_insert_ne.
Qed.

Lemma stage_map_delete L m n : n ∉ map fst L → stage_map L (delete n m) = delete n (stage_map L m).
Proof.
  induction L as [|p L IH]; [done|]. rewrite !stage_map_cons. intros [Hne Hn]%not_elem_of_cons. rewrite IH by done. symmetry. by apply delete_insert_ne.
Qed.

Lemma delete_all_staged L m : staged_ok L m → delete_all (map fst L) (stage_map L m) = m.
Proof.
  unfold delete_all. induction L as [|p L IH]; intros [Hnd Hn]; [done|]. rewrite stage_map_cons. cbn [map fold_left].
  cbn in Hnd. apply list.NoDup_cons in Hnd as [Hp Hnd]. rewrite delete_insert_id.
  - apply IH. split; [done|]. intros n Hin. apply Hn. by right.
  - rewrite lookup_stage_map by done. apply Hn. left.
Qed.

Lemma lookup_delete_all paths m k : delete_all paths m !! k = if decide (k ∈ paths) then None else m !! k.
Proof.
  unfold delete_all. revert m. induction paths as [|p paths IH]; intros m; cbn.
  - by rewrite decide_False by apply not_elem_of_nil.
  - rewrite IH. destruct (decide (k = p)) as [->|Hne].
    + rewrite lookup_delete_eq, (decide_True (P := p ∈ p :: paths)) by left. by destruct (decide _).
    + rewrite lookup_delete_ne by done. apply decide_ext. rewrite elem_of_cons. tauto.
Qed.

(** *** Taking files away, when removals may fail too *)

(** The names the tool gives to files of its own. *)
Definition own_name (n : string) : Prop := HasPrefix n "." = true ∧ m0 !! n = None ∨ n ∈ map out_path outputs.
Definition dirs_old (m : gmap string node) : Prop := ∀ n b, m !! n = Some (NDir b) → m0 !! n = Some (NDir b).

(** The directory is [m] but for the names [left], one for each call that failed; [k] bounds
    the calls that fail. *)
Definition near (k : nat) (m : gmap string node) (d : directory) (s : list outcome) : Prop :=
  ∃ left m', d = Some m' ∧ consistent m' ∧ dirs_old m' ∧ (length left + faults s ≤ k)%nat ∧ Forall own_name left ∧
    ∀ n, n ∉ left → m' !! n = m !! n.

Lemma near_exact k m s : consistent m → dirs_old m → (faults s ≤ k)%nat → near k m (Some m) s.
Proof. intros. exists [], m. split_and!; [done|done|done|cbn; lia|constructor|done]. Qed.

Lemma own_name_no_dir n b m : own_name n → dirs_old m → m !! n ≠ Some (NDir b).
Proof. intros [[_ Hn]|(o & -> & Ho)%list_elem_of_fmap] Hm E; apply Hm in E; [congruence|]. revert E. by apply Hout. Qed.

Lemma dirs_old_insert n c m : dirs_old m → dirs_old (<[n := NFile c]> m).
Proof. intros H k b. destruct (decide (n = k)) as [->|Hne]; [by rewrite lookup_insert_eq|]. rewrite lookup_insert_ne by done. apply H. Qed.

Lemma dirs_old_delete n m : dirs_old m → dirs_old (delete n m).
Proof. intros H k b [_ Hk]%lookup_delete_Some. by apply H. Qed.

Lemma triple_remove k p m : own_name p → triple (near k m) seen (Remove p) (λ _, near k (delete p m)).
Proof.
  intros Hp. apply triple_syscall. intros d s (left & m' & -> & Hc & Hd & Hk & Ho & Ha) o. rewrite faults_tail in Hk. fold o in Hk.
  destruct (fails o); cbn [fst snd].
  { split; [by eexists|]. exists (p :: left), m'. split_and!; [done|done|done|cbn; lia|by constructor|].
    intros n [Hne Hn]%not_elem_of_cons. rewrite lookup_delete_ne by done. by apply Ha. }
  assert (Hdel : ∀ n, n ∉ left → delete p m' !! n = delete p m !! n).
  { intros n Hn. destruct (decide (p = n)) as [->|Hne]; [by rewrite !lookup_delete_eq|]. rewrite !lookup_delete_ne by done. by apply Ha. }
  assert (Hc' : consistent (delete p m')) by (apply consistent_delete; [destruct Hp as [[? _]|?]; [by left|by right]|done]).
  destruct (m' !! p) as [[c|b]|] eqn:E; cbn [fst snd].
  - split; [by eexists|]. exists left, (delete p m'). split_and!; [done|done|by apply dirs_old_delete|lia|done|done].
  - by destruct (own_name_no_dir p b m' Hp Hd).
  - rewrite delete_id in Hc', Hdel by done. split; [by eexists|]. exists left, m'. split_and!; [done|done|done|lia|done|done].
Qed.

Lemma triple_remove_all k paths : ∀ m, Forall own_name paths → triple (near k m) seen (remove_all paths) (λ _, near k (delete_all paths m)).
Proof.
  induction paths as [|p paths IH]; intros m Hp; unfold remove_all; cbn [for_each]; [by apply triple_ret|].
  apply Forall_cons in Hp as [Hp Hps]. eapply (triple_bind _ _ _ _ (λ _, near k (delete p m))); [|intros []; by apply IH].
  eapply triple_bind; [by apply triple_remove|]. intros r. by apply triple_ret.
Qed.

Lemma staged_hidden L m : staged_ok L m → ∀ n, n ∈ map fst L → HasPrefix n "." = true.
Proof. intros [_ H] n Hn. by apply H. Qed.

Lemma staged_own L : staged_ok L m0 → Forall own_name (map fst L).
Proof. intros [_ H]. apply Forall_forall. intros n Hn. left. by apply H. Qed.

Lemma dirs_old_stage L m : dirs_old m → dirs_old (stage_map L m).
Proof. intros Hm. induction L as [|p L IH]; [done|]. rewrite stage_map_cons. by apply dirs_old_insert. Qed.

(** Removing the staged files gives the directory back. *)
Lemma triple_unstage k L m : staged_ok L m0 → staged_ok L m → triple (near k (stage_map L m)) seen (remove_all (map fst L)) (λ _, near k m).
Proof.
  intros H0 HL. pose proof (triple_remove_all k (map fst L) (stage_map L m) (staged_own L H0)) as H. by rewrite delete_all_staged in H.
Qed.

Lemma staged_near k L s : staged_ok L m0 → (faults s ≤ k)%nat → near k (stage_map L m0) (Some (stage_map L m0)) s.
Proof.
  intros HL Hs. apply near_exact; [|apply dirs_old_stage; by intros n b|done]. apply consistent_stage; [by eapply staged_hidden|]. intros n Hn. by left.
Qed.

(** A call on an open file; [k] bounds the calls of the script that fail. *)
Lemma triple_fd (k : nat) m : consistent m →
  triple (λ d s, d = Some m ∧ (faults s ≤ k)%nat) seen fd_call (λ r d s,
    d = Some m ∧ (faults s + (if is_ok r then 0 else 1) ≤ k)%nat).
Proof.
  intros Hc. apply triple_syscall. intros d s [-> Hs] o. rewrite faults_tail in Hs. fold o in Hs. cbn [fst snd].
  split; [by eexists|]. split; [done|]. destruct (fails o); cbn; lia.
Qed.

Lemma stage_map_last L m n c c' : n ∉ map fst L → <[n := NFile c']> (stage_map (L ++ [(n, c)]) m) = stage_map (L ++ [(n, c')]) m.
Proof.
  intros Hn. rewrite !stage_map_app. cbn. rewrite !stage_map_insert by done. apply insert_insert_eq.
Qed.

Lemma triple_stage_lock k L m n yaml : consistent m → staged_ok (L ++ [(n, "")]) m →
  triple (λ d s, d = Some (stage_map (L ++ [(n, "")]) m) ∧ (faults s ≤ k)%nat) seen (stage_lock n yaml) (λ r d s,
    match r with
    | Ok _ => d = Some (stage_map (L ++ [(n, yaml)]) m) ∧ (faults s ≤ k)%nat
    | Err _ => ∃ c, d = Some (stage_map (L ++ [(n, c)]) m) ∧ (faults s + 1 ≤ k)%nat
    end).
Proof.
  intros Hm HL. pose proof HL as [Hnd Hh]. rewrite map_app in Hnd. apply NoDup_app in Hnd as (_ & Hn & _).
  assert (n ∉ map fst L) as HnL by (intros Hin; apply (Hn n Hin); left).
  assert (∀ c, consistent (stage_map (L ++ [(n, c)]) m)) as Hc.
  { intros c. apply consistent_stage; [|done]. rewrite map_app in *. intros x Hx. by apply Hh. }
  assert (∀ (e : WriteError) c, triple (λ d s, d = Some (stage_map (L ++ [(n, c)]) m) ∧ (faults s + 1 ≤ k)%nat) seen (_ ← Close; mret (Err e))
    (λ r d s, match r with
    | Ok tt => d = Some (stage_map (L ++ [(n, yaml)]) m) ∧ (faults s ≤ k)%nat
    | Err _ => ∃ c, d = Some (stage_map (L ++ [(n, c)]) m) ∧ (faults s + 1 ≤ k)%nat end)) as Hclose.
  { intros e c. apply triple_at. intros d0 s0 [-> Hs0]. eapply triple_bind; [eapply triple_pre; [|apply (triple_fd (k - 1)), Hc]; intros d s [-> ->]; split; [done|lia]|].
    intros r. apply triple_ret. intros d s [-> Hs]. exists c. split; [done|]. destruct (is_ok r); lia. }
  unfold stage_lock. eapply triple_bind; [apply (triple_fd k), Hc|].
  intros [[]|e]; cbn [is_ok]; [|eapply triple_pre; [|apply (Hclose _ "")]; intros d s [-> ?]; split; [done|lia]].
  eapply (triple_bind _ _ _ _ (λ r d s, ∃ c, d = Some (stage_map (L ++ [(n, c)]) m) ∧
    (is_ok r = true → c = yaml) ∧ (faults s + (if is_ok r then 0 else 1) ≤ k)%nat)).
  { apply triple_syscall. intros d s [-> Hs] o. rewrite faults_tail in Hs. fold o in Hs.
    destruct (fails o); cbn [fst snd]; rewrite stage_map_last by done.
    - split; [eexists; split; [done|apply Hc]|]. exists (str_take (written o) yaml). cbn. split_and!; [done|done|lia].
    - split; [eexists; split; [done|apply Hc]|]. exists yaml. cbn. split_and!; [done|done|lia]. }
  intros [[]|e]; cbn [is_ok].
  - eapply (triple_bind _ _ _ _ (λ r d s, d = Some (stage_map (L ++ [(n, yaml)]) m) ∧ (faults s + (if is_ok r then 0 else 1) ≤ k)%nat)).
    + eapply triple_pre; [|apply (triple_fd k), Hc]. intros d s (c & -> & Hy & Hs). rewrite Hy by done. split; [done|lia].
    + intros [[]|e]; apply triple_ret; intros d s [-> Hs]; cbn in Hs; [split; [done|lia]|]. exists yaml. split; [done|lia].
  - apply triple_at. intros d0 s0 (c & -> & _ & Hs). eapply triple_pre; [|apply (Hclose _ c)]. intros d s [-> ->]. split; [done|lia].
Qed.

Lemma staged_ok_extend L m n c : staged_ok L m → HasPrefix n "." = true → stage_map L m !! n = None → staged_ok (L ++ [(n, c)]) m.
Proof.
  intros [Hnd Hh] Hn Hnew.
  assert (n ∉ map fst L) as HnL.
  { clear -Hnew. induction L as [|p L IH]; cbn [map]; [apply not_elem_of_nil|]. rewrite stage_map_cons in Hnew.
    apply lookup_insert_None in Hnew as [Hnew Hne]. apply not_elem_of_cons. auto. }
  rewrite lookup_stage_map in Hnew by done. split; rewrite map_app; cbn [map].
  - apply NoDup_app. split_and!; [done| |apply NoDup_singleton]. by intros k Hk ->%list_elem_of_singleton.
  - intros k [Hk|Hk%list_elem_of_singleton]%elem_of_app; [auto|by subst].
Qed.

(** Staging: all the files, or none but those whose removal failed. *)
Lemma triple_stage_locks k outs (m := m0) : ∀ L, staged_ok L m →
  triple (λ d s, d = Some (stage_map L m) ∧ (faults s ≤ k)%nat) seen (stage_locks pick outs (map fst L)) (λ r d s,
    match r with
    | Ok names => ∃ L', names = map fst L' ∧ map snd L' = map snd L ++ map out_yaml outs ∧ staged_ok L' m ∧
        d = Some (stage_map L' m) ∧ (faults s ≤ k)%nat
    | Err _ => ∃ k', k = S k' ∧ near k' m d s
    end).
Proof.
  assert (Hm : consistent m) by (intros n _; by left). induction outs as [|o outs IH]; intros L HL; cbn [stage_locks].
  - apply triple_ret. intros d s [-> Hs]. exists L. rewrite app_nil_r. auto.
  - assert (consistent (stage_map L m)) as HcL by (apply consistent_stage; [by eapply staged_hidden|done]).
    eapply (triple_bind _ _ _ _ (λ r d s, match r with
      | Ok n => staged_ok (L ++ [(n, "")]) m ∧ d = Some (stage_map (L ++ [(n, "")]) m) ∧ (faults s ≤ k)%nat
      | Err _ => d = Some (stage_map L m) ∧ (faults s + 1 ≤ k)%nat end)).
    { apply triple_syscall. intros d s [-> Hs] f. rewrite faults_tail in Hs. fold f in Hs.
      destruct (Hpick (random f) (stage_map L m)) as [Hnew Hhid].
      destruct (fails f); cbn [fst snd]; [split; [by eexists|split; [done|lia]]|]. rewrite Hnew. cbn [fst snd].
      split; [eexists; split; [done|by apply consistent_insert]|].
      pose proof (staged_ok_extend L m _ "" HL Hhid Hnew) as Hext. split; [done|]. split; [|lia]. f_equal.
      rewrite stage_map_app. cbn. symmetry. apply stage_map_insert. destruct Hext as [Hnd _]. rewrite map_app in Hnd.
      apply NoDup_app in Hnd as (_ & Hd & _). intros Hin. apply (Hd _ Hin). left. }
    intros [n|e].
    + apply triple_at. intros d0 s0 (Hext & -> & Hs0).
      eapply triple_bind; [eapply triple_pre; [|by apply (triple_stage_lock k L m n (out_yaml o))]; by intros d s [-> ->]|].
      assert (∀ c, staged_ok (L ++ [(n, c)]) m) as Hext' by (intros c; unfold staged_ok in *; rewrite !map_app in *; exact Hext).
      replace (map fst L ++ [n]) with (map fst (L ++ [(n, out_yaml o)])) by by rewrite map_app.
      intros [[]|e].
      * eapply triple_post; [|apply IH, Hext']. intros [names|e] d s; [|done]. intros (L' & -> & HL' & ?). exists L'.
        rewrite HL', map_app. cbn. rewrite <- app_assoc. auto.
      * apply triple_at. intros d1 s1 (c & -> & Hs).
        replace (map fst (L ++ [(n, out_yaml o)])) with (map fst (L ++ [(n, c)])) by by rewrite !map_app.
        eapply triple_bind; [eapply triple_pre; [|by apply (triple_unstage (k - 1) (L ++ [(n, c)]) m)]|].
        { intros d s [-> ->]. apply staged_near; [done|lia]. }
        intros u. apply triple_ret. intros d s Hn. exists (k - 1)%nat. split; [lia|done].
    + apply triple_at. intros d0 s0 [-> Hs]. eapply triple_bind; [eapply triple_pre; [|by apply (triple_unstage (k - 1) L m)]|].
      { intros d s [-> ->]. apply staged_near; [done|lia]. }
      intros u. apply triple_ret. intros d s Hn. exists (k - 1)%nat. split; [lia|done].
Qed.

Lemma inserts_snoc pub o m : inserts (pub ++ [o]) m = <[out_path o := NFile (out_yaml o)]> (inserts pub m).
Proof. unfold inserts. by rewrite fold_left_app. Qed.

Lemma lookup_inserts pub m k :
  inserts pub m !! k = m !! k ∧ k ∉ map out_path pub ∨
  ∃ o, o ∈ pub ∧ out_path o = k ∧ inserts pub m !! k = Some (NFile (out_yaml o)).
Proof.
  induction pub as [|o pub IH] using rev_ind; [left; split; [done|apply not_elem_of_nil]|]. rewrite inserts_snoc, map_app.
  destruct (decide (out_path o = k)) as [<-|Hne].
  - right. exists o. rewrite lookup_insert_eq, elem_of_app, list_elem_of_singleton. auto.
  - rewrite lookup_insert_ne by done. destruct IH as [[? ?]|(o' & ? & ? & ?)]; [left|right].
    + split; [done|]. cbn. rewrite elem_of_app, list_elem_of_singleton. intros [|He]; [done|by destruct Hne].
    + exists o'. rewrite elem_of_app. auto.
Qed.

Section published.
Context (pub rest : list lockOutput) (Hpub : outputs = pub ++ rest).

Lemma published_out o : o ∈ pub → o ∈ outputs.
Proof. rewrite Hpub, elem_of_app. auto. Qed.

Lemma published_hidden n : HasPrefix n "." = true → inserts pub m0 !! n = m0 !! n.
Proof.
  intros Hn. destruct (lookup_inserts pub m0 n) as [[? _]|(o & Ho & <- & _)]; [done|].
  apply published_out, Hout in Ho as [Ho _]. congruence.
Qed.

Lemma published_consistent : consistent (inserts pub m0).
Proof.
  intros k Hk. destruct (lookup_inserts pub m0 k) as [[? _]|(o & Ho & He & Hl)]; [by left|].
  right. exists o. split; [by apply published_out|]. auto.
Qed.

Lemma published_dirs : dirs_old (inserts pub m0).
Proof. intros k b. by destruct (lookup_inserts pub m0 k) as [[-> _]|(o & _ & _ & ->)]. Qed.

Lemma published_no_dir o b : o ∈ outputs → inserts pub m0 !! out_path o ≠ Some (NDir b).
Proof.
  intros Ho. destruct (lookup_inserts pub m0 (out_path o)) as [[-> _]|(o' & _ & _ & ->)]; [|done].
  by apply Hout.
Qed.

Lemma published_deleted : delete_all (map out_path pub) (inserts pub m0) = delete_all (map out_path pub) m0.
Proof.
  apply map_eq. intros k. rewrite !lookup_delete_all. destruct (decide _) as [|Hk]; [done|].
  destruct (lookup_inserts pub m0 k) as [[? _]|(o & Ho & <- & _)]; [done|]. destruct Hk. by apply (list_elem_of_fmap_2 out_path).
Qed.

Lemma published_staged L : staged_ok L m0 → staged_ok L (inserts pub m0).
Proof.
  intros [Hnd Hh]. split; [done|]. intros n Hn. destruct (Hh n Hn) as [H1 H2]. split; [done|]. by rewrite published_hidden.
Qed.

Lemma visible_not_staged L o : staged_ok L m0 → o ∈ outputs → out_path o ∉ map fst L.
Proof. intros [_ Hh] Ho Hin. apply Hout in Ho as [Ho _]. destruct (Hh _ Hin) as [H1 _]. congruence. Qed.

(** A failed rename takes everything back. *)
Lemma triple_take_back k L : staged_ok L m0 →
  triple (λ d s, d = Some (stage_map L (inserts pub m0)) ∧ (faults s ≤ k)%nat) seen
    (_ ← remove_all (map out_path pub); remove_all (map fst L))
    (λ _, near k (delete_all (map out_path pub) m0)).
Proof.
  intros HL. assert (∀ p, p ∈ map out_path pub → p ∈ map out_path outputs ∧ p ∉ map fst L) as Hp.
  { intros p (o & -> & Ho)%list_elem_of_fmap. apply published_out in Ho. split; [by apply (list_elem_of_fmap_2 out_path)|by apply visible_not_staged]. }
  assert (delete_all (map out_path pub) (stage_map L (inserts pub m0)) = stage_map L (delete_all (map out_path pub) m0)) as Hcomm.
  { rewrite <- published_deleted. clear -Hp. generalize (inserts pub m0). intros m. revert Hp m. unfold delete_all.
    generalize (map out_path pub). intros paths Hp. induction paths as [|p paths IH]; intros m; cbn [fold_left]; [done|].
    rewrite <- IH; [|intros q Hq; apply Hp; by right]. by rewrite stage_map_delete by (apply Hp; left). }
  eapply triple_bind; [eapply triple_pre; [|apply (triple_remove_all k)]|].
  - intros d s [-> Hs]. apply near_exact; [|apply dirs_old_stage, published_dirs|done].
    apply consistent_stage; [by eapply staged_hidden|]. apply published_consistent.
  - apply Forall_forall. intros p Hin. right. by apply Hp.
  - intros []. rewrite Hcomm. apply triple_unstage; [done|]. destruct HL as [Hnd Hh]. split; [done|]. intros n Hn. destruct (Hh n Hn) as [H1 H2]. split; [done|].
    rewrite lookup_delete_all. by destruct (decide _).
Qed.

End published.

(** One rename: the next lock is published, or nothing changes. *)
Lemma triple_rename_lock k pub o rest n L : outputs = pub ++ o :: rest → staged_ok ((n, out_yaml o) :: L) m0 →
  triple (λ d s, d = Some (stage_map ((n, out_yaml o) :: L) (inserts pub m0)) ∧ (faults s ≤ k)%nat) seen (Rename n (out_path o)) (λ r d s,
    match r with
    | Ok _ => d = Some (stage_map L (inserts (pub ++ [o]) m0)) ∧ (faults s ≤ k)%nat
    | Err _ => d = Some (stage_map ((n, out_yaml o) :: L) (inserts pub m0)) ∧ (faults s + 1 ≤ k)%nat
    end).
Proof.
  intros Hpub HL. assert (o ∈ outputs) as Ho by (rewrite Hpub; apply elem_of_app; right; left).
  pose proof (published_staged pub (o :: rest) Hpub _ HL) as HL1.
  pose proof HL as [Hnd Hh]. cbn [map] in Hnd. apply list.NoDup_cons in Hnd as [HnL Hnd].
  assert (staged_ok L m0) as HL2 by (split; [done|]; intros x Hx; apply Hh; by right).
  apply triple_syscall. intros d s [-> Hs] f. rewrite faults_tail in Hs. fold f in Hs. destruct (fails f); cbn [fst snd].
  { split; [|split; [done|lia]]. eexists. split; [done|]. apply consistent_stage; [by eapply staged_hidden|].
    by apply (published_consistent pub (o :: rest)). }
  rewrite stage_map_cons. cbn [fst snd]. rewrite lookup_insert_eq.
  assert (n ≠ out_path o) as Hne by (intros ->; apply (visible_not_staged _ o HL Ho); left).
  rewrite lookup_insert_ne, lookup_stage_map by (done || by apply visible_not_staged).
  assert (<[out_path o := NFile (out_yaml o)]> (delete n (<[n:=NFile (out_yaml o)]> (stage_map L (inserts pub m0)))) =
    stage_map L (inserts (pub ++ [o]) m0)) as Hmap.
  { rewrite delete_insert_id, inserts_snoc; [symmetry; apply stage_map_insert; by apply visible_not_staged|].
    rewrite lookup_stage_map by done. rewrite (published_hidden pub (o :: rest)) by (done || apply Hh; left). apply Hh. left. }
  assert (consistent (stage_map L (inserts (pub ++ [o]) m0))) as Hcons.
  { apply consistent_stage; [by eapply staged_hidden|]. apply (published_consistent (pub ++ [o]) rest). by rewrite <- app_assoc. }
  destruct (inserts pub m0 !! out_path o) as [[c'|b]|] eqn:E; [| |]; cbn.
  - rewrite Hmap. split; [by eexists|]. split; [done|lia].
  - exfalso. revert E. by apply published_no_dir.
  - rewrite Hmap. split; [by eexists|]. split; [done|lia].
Qed.

(** Publishing: all the locks, or none of them and no staged file, but those whose removal failed. *)
Lemma triple_publish_locks k rest : ∀ pub L, outputs = pub ++ rest → staged_ok L m0 → map snd L = map out_yaml rest →
  triple (λ d s, d = Some (stage_map L (inserts pub m0)) ∧ (faults s ≤ k)%nat) seen
    (publish_locks (zip (map fst L) rest) (map out_path pub)) (λ r d s,
    match r with
    | Ok _ => d = Some (inserts outputs m0)
    | Err _ => ∃ k' i, k = S k' ∧ near k' (delete_all (map out_path (take i outputs)) m0) d s
    end).
Proof.
  induction rest as [|o rest IH]; intros pub L Hpub HL Hc.
  - destruct L; [|done]. rewrite app_nil_r in Hpub. subst pub. apply triple_ret. by intros d s [-> _].
  - destruct L as [|[n c] L]; [done|]. injection Hc as -> Hc. cbn [map zip zip_with publish_locks fst].
    eapply triple_bind; [by apply (triple_rename_lock k pub o rest n L)|]. intros [[]|e].
    + replace (map out_path pub ++ [out_path o]) with (map out_path (pub ++ [o])) by by rewrite map_app.
      destruct HL as [Hnd Hh]. apply IH; [by rewrite <- app_assoc| |done]. cbn in Hnd. apply list.NoDup_cons in Hnd as [_ Hnd].
      split; [done|]. intros x Hx. apply Hh. by right.
    + assert (map fst (zip (map fst L) rest) = map fst L) as Hzip.
      { apply fst_zip. rewrite length_map. rewrite <- (length_map snd L), Hc, length_map. done. }
      rewrite Hzip. pose proof (triple_take_back pub (o :: rest) Hpub (k - 1) ((n, out_yaml o) :: L) HL) as Hback.
      intros w [Hw Hk]. destruct (Hback w) as (hs & H1 & H2 & H3); [split; [done|lia]|]. exists hs. cbn [map fst] in *.
      unfold mbind, M_bind in *. destruct (remove_all (map out_path pub) w) as [u1 w1].
      destruct (remove_all (n :: map fst L) w1) as [u2 w2]. cbn in *. split_and!; [done|done|].
      exists (k - 1)%nat, (length pub). rewrite Hpub, take_app_length. split; [lia|done].
Qed.

End publication.

(** ** Resolution *)

(** Any registry, with the reads made of it and what they returned. *)
Abbreviation read := (string * result string Descriptor)%type.
#[global] Instance RecordingRegistry {W} `{Registry W} : Registry (W * list read) | 10 := {|
  ParseReference := ParseReference (W := W);
  Get ref st := let '(r, w) := Get ref st.1 in (r, (w, st.2 ++ [(ref, r)]))
|}.

Definition descriptor_of (c : read) : option Descriptor := match c.2 with Ok d => Some d | Err _ => None end.

(** The reads [calls] of [ref] that succeed return [ds]. *)
Definition reads_of (ref : string) (calls : list read) (ds : list Descriptor) : Prop :=
  Forall (λ c, c.1 = ref) calls ∧ omap descriptor_of calls = ds.

Lemma reads_of_app ref c1 c2 d1 d2 : reads_of ref c1 d1 → reads_of ref c2 d2 → reads_of ref (c1 ++ c2) (d1 ++ d2).
Proof. intros [H1 <-] [H2 <-]. split; [by apply Forall_app|]. apply omap_app. Qed.

(** What is recorded of an image: an index that every one of [reads] reads of [ref] returned, and
    the digest of its only manifest for the platform. *)
Definition pinned (reads : Z) (log : list read) (ref : string) (pl : platform) (index digest : string) : Prop :=
  ∃ l1 calls l2 d ds ms, log = l1 ++ calls ++ l2 ∧ reads_of ref calls (d :: ds) ∧ Z.of_nat (length (d :: ds)) = reads ∧
    Forall (λ d', Digest d' = index) (d :: ds) ∧ IsIndex d = true ∧ Manifests d = Ok ms ∧
    map entry_Digest (List.filter (manifest_matches pl) ms) = [digest] ∧
    matches sha256Digest index = true ∧ matches sha256Digest digest = true.

Lemma pinned_mono reads log log' ref pl index digest : pinned reads log ref pl index digest → pinned reads (log ++ log') ref pl index digest.
Proof.
  intros (l1 & calls & l2 & d & ds & ms & -> & H). exists l1, calls, (l2 ++ log'), d, ds, ms. split; [|done]. by rewrite <- !app_assoc.
Qed.

Section resolution.
Context {W : Type} `{Registry W}.
Implicit Types (w : W) (log : list read).

Lemma fetch_attempts_spec n ref : ∀ lastErr w log, ∃ w' calls,
  let '(r, st) := fetch_attempts n ref lastErr (w, log) in
  st = (w', log ++ calls) ∧ reads_of ref calls (match r with Ok d => [d] | Err _ => [] end).
Proof.
  induction n as [|n IH]; intros lastErr w log; cbn.
  - exists w, []. rewrite app_nil_r. split; [done|]. by split.
  - destruct (@Get _ H ref w) as [[d|err] w1]; cbn.
    + exists w1, [(ref, Ok d)]. split; [done|]. split; [by constructor|done].
    + destruct (IH err w1 (log ++ [(ref, Err err)])) as (w' & calls & IH').
      destruct (fetch_attempts n ref err _) as [r st]. destruct IH' as [-> [H1 H2]].
      exists w', ((ref, Err err) :: calls). rewrite <- app_assoc. split; [done|]. split; [by constructor|done].
Qed.

Lemma fetchDescriptor_spec ref w log : ∃ w' calls,
  let '(r, st) := fetchDescriptor ref (w, log) in
  st = (w', log ++ calls) ∧ reads_of ref calls (match r with Ok d => [d] | Err _ => [] end).
Proof. apply fetch_attempts_spec. Qed.

Lemma stable_reads_spec n ref first : ∀ w log, ∃ w' calls ds,
  let '(r, st) := stable_reads n ref first (w, log) in
  st = (w', log ++ calls) ∧ reads_of ref calls ds ∧
  (∀ d, r = Ok d → d = first ∧ length ds = n ∧ Forall (λ d', Digest d' = Digest first) ds).
Proof.
  induction n as [|n IH]; intros w log; cbn [stable_reads].
  - exists w, [], []. rewrite app_nil_r. split; [done|]. split; [by split|]. by intros d [= <-].
  - destruct (fetchDescriptor_spec ref w log) as (w1 & c1 & Hf). destruct (fetchDescriptor ref _) as [[again|err] st].
    + destruct Hf as [-> Hr]. destruct (String.eqb_spec (Digest again) (Digest first)) as [He|]; cbn [negb].
      * destruct (IH w1 (log ++ c1)) as (w' & c2 & ds & Hs). destruct (stable_reads n ref first _) as [r st].
        destruct Hs as (-> & Hr2 & Hok). exists w', (c1 ++ c2), (again :: ds). rewrite <- app_assoc. split; [done|].
        split; [by apply (reads_of_app ref c1 c2 [again] ds)|]. intros d Hd. destruct (Hok d Hd) as (-> & <- & Hds).
        split_and!; [done|done|by constructor].
      * exists w1, c1, [again]. split; [done|]. by split.
    + destruct Hf as [-> Hr]. exists w1, c1, []. split; [done|]. by split.
Qed.

Lemma resolveStableDescriptor_spec ref reads w log : 1 ≤ reads → ∃ w' calls ds,
  let '(r, st) := resolveStableDescriptor ref reads (w, log) in
  st = (w', log ++ calls) ∧
  (∀ d, r = Ok d → reads_of ref calls (d :: ds) ∧ Z.of_nat (length (d :: ds)) = reads ∧ Forall (λ d', Digest d' = Digest d) (d :: ds)).
Proof.
  intros Hreads. unfold resolveStableDescriptor. destruct (Z.ltb_spec reads 1); [lia|].
  destruct (fetchDescriptor_spec ref w log) as (w1 & c1 & Hf). destruct (fetchDescriptor ref _) as [[first|err] st].
  - destruct Hf as [-> Hr]. destruct (stable_reads_spec (Z.to_nat (reads - 1)) ref first w1 (log ++ c1)) as (w' & c2 & ds & Hs).
    destruct (stable_reads _ ref first _) as [r st]. destruct Hs as (-> & Hr2 & Hok). exists w', (c1 ++ c2), ds.
    rewrite <- app_assoc. split; [done|]. intros d Hd. destruct (Hok d Hd) as (-> & Hlen & Hds). split_and!.
    + by apply (reads_of_app ref c1 c2 [first] ds).
    + cbn [length]. lia.
    + by constructor.
  - destruct Hf as [-> _]. by exists w1, c1, [].
Qed.

Lemma manifestDigests_spec d pls digests : manifestDigestsPerPlatform d pls = Ok digests → ∃ ms, Manifests d = Ok ms ∧
  (∀ pl, pl ∈ pls ↔ is_Some (digests !! pl)) ∧
  ∀ pl digest, digests !! pl = Some digest → map entry_Digest (List.filter (manifest_matches pl) ms) = [digest].
Proof.
  unfold manifestDigestsPerPlatform. destruct (Manifests d) as [ms|]; [|done]. intros Hf. exists ms. split; [done|]. revert Hf.
  apply (rfold_inv _ (λ pls (digests : gmap platform string), (∀ pl, pl ∈ pls ↔ is_Some (digests !! pl)) ∧
    ∀ pl digest, digests !! pl = Some digest → map entry_Digest (List.filter (manifest_matches pl) ms) = [digest])).
  - intros before p a a' _ [H1 H2]. destruct (map _ (List.filter (manifest_matches p) ms)) as [|dg [|]] eqn:E; [done| |done].
    intros [= <-]. split.
    + intros pl. rewrite elem_of_app, list_elem_of_singleton, H1, lookup_insert_is_Some'. naive_solver.
    + intros pl digest [[<- <-]|[_ ?]]%lookup_insert_Some; auto.
  - split; [|done]. intros pl. rewrite lookup_empty. split; [by intros ?%not_elem_of_nil|by intros []].
Qed.

Lemma validateDigests_Ok index digests pls : validateDigests index digests pls = Ok tt →
  matches sha256Digest index = true ∧
  ∀ pl digest, pl ∈ pls → digests !! pl = Some digest → matches sha256Digest digest = true.
Proof.
  unfold validateDigests. destruct (matches sha256Digest index); cbn [negb]; [|done]. intros Hf. split; [done|].
  pose proof (rfold_check (λ _ p, match digests !! p with
    | None => Err (MissingDigest p)
    | Some digest => if negb (matches sha256Digest digest) then Err (BadDigest p digest) else Ok tt end)
    (λ p, ∃ digest, digests !! p = Some digest ∧ matches sha256Digest digest = true) pls) as Hc.
  rewrite Hf in Hc. rewrite Forall_forall in Hc. intros pl digest Hpl Hd.
  destruct (Hc) with (x := pl) as (d' & Hd' & Hm); [|done|congruence].
  intros p _. destruct (digests !! p) as [dg|]; [|by intros (? & ? & _)].
  destruct (matches sha256Digest dg) eqn:E; cbn [negb]; [by exists dg|]. intros (d' & [= <-] & ?). congruence.
Qed.

(** The image a planned one is resolved to. *)
Definition resolved_ok (reads : Z) log (image : plannedImage) (r : resolvedImage) : Prop :=
  resolved_profile r = planned_profile image ∧ resolved_chart r = planned_image image ∧
  (∀ pl, pl ∈ planned_platforms image ↔ is_Some (digestPerPlatform r !! pl)) ∧
  ∀ pl digest, digestPerPlatform r !! pl = Some digest →
    pinned reads log (reference (planned_image image)) pl (resolved_index r) digest.

Lemma resolved_ok_mono reads log log' image r : resolved_ok reads log image r → resolved_ok reads (log ++ log') image r.
Proof. intros (? & ? & ? & Hp). split_and!; [done..|]. intros pl digest Hd. by apply pinned_mono, Hp. Qed.

Lemma resolve_spec reads ref pls w log : 1 ≤ reads → ∃ w' calls,
  let '(r, st) := resolve reads ref pls (w, log) in
  st = (w', log ++ calls) ∧ ∀ index digests, r = Ok (index, digests) → validateDigests index digests pls = Ok tt →
    (∀ pl, pl ∈ pls ↔ is_Some (digests !! pl)) ∧
    ∀ pl digest, digests !! pl = Some digest → pinned reads (log ++ calls) ref pl index digest.
Proof.
  intros Hreads. unfold resolve. destruct (ParseReference ref) as [err|].
  { exists w, []. rewrite app_nil_r. split; [done|]. by intros. }
  destruct (resolveStableDescriptor_spec ref reads w log Hreads) as (w1 & calls & ds & Hs).
  destruct (resolveStableDescriptor ref reads _) as [[d|err] st]; destruct Hs as [-> Hs]; exists w1, calls.
  2:{ by split; [|intros]. }
  destruct (IsIndex d) eqn:Ei; cbn [negb]; [|by split; [|intros]]. split; [done|]. intros index digests He Hv.
  destruct (manifestDigestsPerPlatform d pls) as [digests'|] eqn:Em; cbn in He; [|done]. injection He as <- ->.
  apply manifestDigests_spec in Em as (ms & Hms & Hdom & Hd). apply validateDigests_Ok in Hv as [Hx Hall].
  destruct (Hs d eq_refl) as (Hr & Hlen & Hdig). split; [done|]. intros pl digest Hpl.
  exists log, calls, [], d, ds, ms. rewrite app_nil_r. split_and!; auto. apply (Hall pl); [|done]. apply Hdom. by eexists.
Qed.

Lemma resolveImages_spec reads : 1 ≤ reads → ∀ images before acc w log, Forall2 (resolved_ok reads log) before acc → ∃ w' calls,
  let '(r, st) := resolveImages reads images acc (w, log) in
  st = (w', log ++ calls) ∧ ∀ resolved, r = Ok resolved → Forall2 (resolved_ok reads (log ++ calls)) (before ++ images) resolved.
Proof.
  intros Hreads. induction images as [|image images IH]; intros before acc w log Hacc; cbn [resolveImages].
  - exists w, []. rewrite !app_nil_r. split; [done|]. by intros resolved [= <-].
  - destruct (resolve_spec reads (reference (planned_image image)) (planned_platforms image) w log Hreads) as (w1 & c1 & Hr).
    destruct (resolve reads _ _ _) as [[[index digests]|err] st]; destruct Hr as [-> Hr]; [|by exists w1, c1; split; [|intros]].
    destruct (validateDigests index digests (planned_platforms image)) as [[]|err] eqn:Ev; [|by exists w1, c1; split; [|intros]].
    destruct (Hr index digests eq_refl Ev) as [Hdom Hp].
    destruct (IH (before ++ [image]) (acc ++ [mkResolvedImage (planned_profile image) (planned_image image) index digests]) w1 (log ++ c1))
      as (w' & c2 & IH').
    { apply Forall2_app; [|by constructor; [split_and!|constructor]]. eapply Forall2_impl; [done|]. intros ? ?. apply resolved_ok_mono. }
    destruct (resolveImages reads images _ _) as [r st]. destruct IH' as [-> IH']. exists w', (c1 ++ c2). rewrite <- app_assoc.
    split; [done|]. intros resolved Hres. specialize (IH' resolved Hres). by rewrite <- !app_assoc in IH'.
Qed.

End resolution.

(** ** The locks of a plan *)

Lemma omap_bind {A B C} (g : B → option C) (f : A → list B) l : omap g (l ≫= f) = l ≫= λ a, omap g (f a).
Proof. induction l as [|a l IH]; cbn [mbind list_bind]; [done|]. by rewrite omap_app, IH. Qed.

Lemma Forall2_right {A B} (P : A → B → Prop) l k b : Forall2 P l k → b ∈ k → ∃ a, a ∈ l ∧ P a b.
Proof.
  intros Hf [i Hi]%list_elem_of_lookup. destruct (Forall2_lookup_r P l k i b Hf Hi) as (a & Ha & Hp).
  exists a. split; [by eapply list_elem_of_lookup_2|done].
Qed.

Section locks.
Context (catalog : imageCatalog) (version : string) (Hvalid : valid_catalog catalog).
Context (reads : Z) (log : list read) (resolved : list resolvedImage).
Context (Hres : Forall2 (resolved_ok reads log) (SortBy image_key (matrix_images catalog version)) resolved).
Context (p : catalogProfile) (pl : platform) (Hp : p ∈ Profiles catalog) (Hpl : pl ∈ Platforms catalog).

#[local] Instance released_decision x : Decision (released catalog x) := released_dec catalog x.

Definition released_images : list catalogImage := filter (λ i, released catalog (p, i, pl)) (Images catalog).

(** The name of a planned image that belongs in the lock. *)
Definition planned_name (image : plannedImage) : option string :=
  if decide (planned_profile image = profile_Name p ∧ pl ∈ planned_platforms image) then Some (img_name (planned_image image)) else None.

Abbreviation target := (mkLockTarget (profile_Name p) pl).

Lemma locked_entry_name image r : resolved_ok reads log image r → li_Name <$> locked_entry target r = planned_name image.
Proof.
  intros (Hprof & Hchart & Hdom & _). unfold locked_entry, planned_name. rewrite Hprof, Hchart. cbn [target_profile target_platform].
  specialize (Hdom pl). destruct (String.eqb_spec (planned_profile image) (profile_Name p)) as [He|]; cbn [negb].
  - destruct (digestPerPlatform r !! pl) as [digest|]; cbn.
    + rewrite decide_True; [done|]. split; [done|]. apply Hdom. by eexists.
    + rewrite decide_False; [done|]. intros [_ [? ?]%Hdom]. done.
  - rewrite decide_False; [done|]. tauto.
Qed.

Lemma locked_names : map li_Name (omap (locked_entry target) resolved) = omap planned_name (SortBy image_key (matrix_images catalog version)).
Proof.
  induction Hres as [|image r images rs Hr Hrs IH]; [done|]. specialize (IH Hrs). pose proof (locked_entry_name image r Hr) as Hn.
  cbn [omap list_omap]. rewrite <- Hn. destruct (locked_entry target r); cbn [option_fmap option_map fmap map]; by rewrite IH.
Qed.

Lemma planned_of_name p' i : i ∈ Images catalog → p' ∈ Profiles catalog →
  omap planned_name (planned_of catalog version p' i) =
  if decide (p' = p ∧ released catalog (p, i, pl)) then [image_Name i] else [].
Proof.
  intros Hi Hp'. unfold planned_of. destruct (released_platforms catalog p' i) as [|q qs] eqn:Eq.
  - cbn. rewrite decide_False; [done|]. intros [-> Hr]. apply (not_elem_of_nil pl). rewrite <- Eq. by apply list_elem_of_filter.
  - cbn. unfold planned_name. cbn. rewrite <- Eq. unfold released_platforms. destruct (decide (p' = p ∧ _)) as [[-> Hr]|Hn].
    + rewrite decide_True; [done|]. split; [done|]. by apply list_elem_of_filter.
    + rewrite decide_False; [done|]. intros [He [Hr _]%list_elem_of_filter]. apply Hn.
      apply (profile_inj catalog Hvalid) in He as ->; done.
Qed.

Lemma matrix_names : omap planned_name (matrix_images catalog version) = map image_Name released_images.
Proof.
  unfold matrix_images, released_images. rewrite omap_bind, (bind_single _ _ p); [|by eapply NoDup_fmap_1, Hvalid|done|].
  - rewrite omap_bind. rewrite (Forall_bind_ext _ (λ i, if decide (released catalog (p, i, pl)) then [image_Name i] else [])).
    + clear. induction (Images catalog) as [|i l IH]; [done|]. cbn [mbind list_bind]. rewrite filter_cons, IH. by case_decide.
    + apply Forall_forall. intros i Hi. rewrite planned_of_name by done. apply decide_ext. tauto.
  - intros p' Hp' Hne. rewrite omap_bind, (Forall_bind_ext _ (λ _, [])); [clear; by induction (Images catalog)|].
    apply Forall_forall. intros i Hi. rewrite planned_of_name by done. apply decide_False. tauto.
Qed.

(** *** A lock of the release *)

Definition lock_of_release (lock : imageLock) : Prop :=
  lock = mkImageLock lockAPIVersion lockKind (cat_Name catalog) version (profile_Name p) pl (lock_Images lock) ∧
  map li_Name (lock_Images lock) = SortStrings (map image_Name released_images) ∧
  ∀ e, e ∈ lock_Images lock → ∃ i digest, i ∈ Images catalog ∧
    li_Name e = image_Name i ∧ li_Source e = reference (chart_of catalog version p i) ∧
    li_Image e = img_repo (chart_of catalog version p i) +:+ "@" +:+ digest ∧
    pinned reads log (li_Source e) pl (li_IndexDigest e) digest.

Lemma locked_entry_pinned e : e ∈ omap (locked_entry target) resolved → ∃ i digest, i ∈ Images catalog ∧
  li_Name e = image_Name i ∧ li_Source e = reference (chart_of catalog version p i) ∧
  li_Image e = img_repo (chart_of catalog version p i) +:+ "@" +:+ digest ∧
  pinned reads log (li_Source e) pl (li_IndexDigest e) digest.
Proof.
  intros (r & Hr & He)%list_elem_of_omap. destruct (Forall2_right _ _ _ r Hres Hr) as (image & Him & Hprof & Hchart & _ & Hpin).
  rewrite elem_of_SortBy in Him. apply elem_of_matrix_images in Him as (p' & i & Hp' & Hi & Hpi).
  unfold locked_entry in He. cbn [target_profile target_platform] in He. destruct (String.eqb_spec (resolved_profile r) (profile_Name p)) as [Hpp|]; cbn in He; [|done].
  destruct (digestPerPlatform r !! pl) as [digest|] eqn:Ed; [|done]. injection He as <-. cbn.
  assert (p' = p) as ->.
  { apply (profile_inj catalog Hvalid); [done..|]. apply planned_of_key in Hpi. injection Hpi as Hpi _. congruence. }
  assert (planned_image image = chart_of catalog version p i) as Hci.
  { unfold planned_of in Hpi. destruct (released_platforms _ _ _); [by apply not_elem_of_nil in Hpi|].
    by apply list_elem_of_singleton in Hpi as ->. }
  rewrite Hchart, Hci. exists i, digest. split_and!; [done..|]. rewrite <- Hci. by apply Hpin.
Qed.

Lemma SortBy_names (l : list lockedImage) : map li_Name (SortBy (λ i, (li_Name i, "")) l) = SortStrings (map li_Name l).
Proof.
  apply (StronglySorted_unique string_le).
  - induction (SortBy_sorted (λ i, (li_Name i, "")) l) as [|e l' _ IH Hall]; cbn; [constructor|]. constructor; [done|].
    apply list.Forall_fmap. eapply Forall_impl; [exact Hall|]. intros e' [[_ ?]|[He _]]; cbn in *; [done|].
    rewrite He. by destruct (total string_le (li_Name e') (li_Name e')).
  - apply StronglySorted_merge_sort; apply _.
  - unfold SortStrings. rewrite merge_sort_Permutation. apply (fmap_Permutation li_Name), SortBy_Permutation.
Qed.

Lemma buildLock_spec lock : buildLock (cat_Name catalog) version target resolved = Ok lock → lock_of_release lock.
Proof.
  unfold buildLock. intros Hb.
  assert (lock = mkImageLock lockAPIVersion lockKind (cat_Name catalog) version (profile_Name p) pl
    (SortBy (λ i, (li_Name i, "")) (omap (locked_entry target) resolved))) as ->.
  { destruct (omap _ resolved); [done|]. by injection Hb. }
  split; [done|]. cbn [lock_Images]. split.
  - rewrite SortBy_names, locked_names. apply (StronglySorted_unique string_le); [apply StronglySorted_merge_sort; apply _..|].
    unfold SortStrings. rewrite !merge_sort_Permutation, SortBy_Permutation. by rewrite matrix_names.
  - intros e He%elem_of_SortBy. by apply locked_entry_pinned.
Qed.

End locks.

(** ** File names *)

Lemma lockFileName_prefix artifact lock : HasPrefix (lockFileName artifact lock) "imagelock-" = true.
Proof. unfold lockFileName. destruct (String.eqb _ _); apply HasPrefix_spec; by eexists. Qed.

Lemma lock_name_visible name : HasPrefix name "imagelock-" = true → HasPrefix name "." = false.
Proof. intros [r ->]%HasPrefix_spec. done. Qed.

Definition hyphen_free (s : string) : Prop := "-"%char ∉ bytes_of s.

(** What comes after the last separator is determined. *)
Lemma sep_inj_last x a b a' b' : x ∉ bytes_of b → x ∉ bytes_of b' →
  a +:+ String x "" +:+ b = a' +:+ String x "" +:+ b' → a = a' ∧ b = b'.
Proof.
  intros Hb Hb' He. revert a' He. induction a as [|c a IH]; intros [|c' a'] He; rewrite ?str_app_cons, ?str_app_nil_l in He; injection He.
  - auto.
  - intros H1 ->. exfalso. apply Hb. rewrite H1, bytes_of_app. apply elem_of_app. right. left.
  - intros H1 ->. exfalso. apply Hb'. rewrite <- H1, bytes_of_app. apply elem_of_app. right. left.
  - intros H1 ->. by destruct (IH a' H1) as [-> ->].
Qed.

(** Locks of one run have distinct file names unless a platform name has a hyphen. *)
Lemma lockFileName_inj artifact a b : lock_Version a = lock_Version b →
  hyphen_free (OS (lock_Platform a)) → hyphen_free (Architecture (lock_Platform a)) →
  hyphen_free (OS (lock_Platform b)) → hyphen_free (Architecture (lock_Platform b)) →
  lockFileName artifact a = lockFileName artifact b →
  lock_Profile a = lock_Profile b ∧ lock_Platform a = lock_Platform b.
Proof.
  destruct a as [? ? ? va pa [osa ara] ?], b as [? ? ? vb pb [osb arb] ?]. cbn. intros -> Hoa Haa Hob Hab.
  unfold lockFileName. cbn.
  assert (∀ x y, "imagelock-" +:+ artifact +:+ "-" +:+ vb +:+ "-" +:+ x +:+ ".yaml" = "imagelock-" +:+ artifact +:+ "-" +:+ vb +:+ "-" +:+ y +:+ ".yaml" → x = y) as Hstrip.
  { intros x y He%str_app_inj_l%str_app_inj_l%str_app_inj_l%str_app_inj_l%str_app_inj_l. by apply str_app_inj_r in He. }
  assert (∀ s : string, osa +:+ "-" +:+ ara +:+ s = (osa +:+ "-" +:+ ara) +:+ s) as Ea by (intros; by rewrite !str_app_assoc).
  assert (∀ s : string, osb +:+ "-" +:+ arb +:+ s = (osb +:+ "-" +:+ arb) +:+ s) as Eb by (intros; by rewrite !str_app_assoc).
  assert (∀ q r o : string, q +:+ "-" +:+ (o +:+ "-" +:+ r) +:+ ".yaml" = (q +:+ "-" +:+ o +:+ "-" +:+ r) +:+ ".yaml") as Ep
    by (intros; by rewrite !str_app_assoc).
  assert (∀ q r o : string, q +:+ "-" +:+ o +:+ "-" +:+ r = (q +:+ "-" +:+ o) +:+ "-" +:+ r) as Eq by (intros; by rewrite !str_app_assoc).
  assert (∀ q o : string, ¬ hyphen_free (q +:+ "-" +:+ o)) as Hq.
  { intros q o Hf. apply Hf. rewrite !bytes_of_app. apply elem_of_app. right. left. }
  rewrite Ea, Eb. destruct (String.eqb_spec pa standardProfile) as [->|Hpa], (String.eqb_spec pb standardProfile) as [->|Hpb].
  - intros He%Hstrip. apply sep_inj_last in He as [-> ->]; done.
  - rewrite (Ep pb). intros He%Hstrip. rewrite (Eq pb) in He. apply sep_inj_last in He as [He _]; [|done..]. rewrite He in Hoa. by apply Hq in Hoa.
  - rewrite (Ep pa). intros He%Hstrip. rewrite (Eq pa) in He. apply sep_inj_last in He as [He _]; [|done..]. rewrite <- He in Hob. by apply Hq in Hob.
  - rewrite (Ep pa), (Ep pb). intros He%Hstrip. rewrite (Eq pa), (Eq pb) in He. apply sep_inj_last in He as [He ->]; [|done..].
    apply sep_inj_last in He as [-> ->]; done.
Qed.

(** ** Marshalling and writing *)

(** The output of a target: its lock under its file name. *)
Definition output_of (Marshal : imageLock → result string string) (catalog : imageCatalog) (version : string) (reads : Z) (log : list read)
    (t : lockTarget) (o : lockOutput) : Prop :=
  ∃ p lock, p ∈ Profiles catalog ∧ profile_Name p = target_profile t ∧
    lock_of_release catalog version reads log p (target_platform t) lock ∧
    out_path o = lockFileName (ArtifactName catalog) lock ∧ Marshal lock = Ok (out_yaml o).

Lemma marshalLocks_spec Marshal opts catalog reads log resolved ts outputs : valid_catalog catalog →
  Forall2 (resolved_ok reads log) (SortBy image_key (matrix_images catalog (opt_version opts))) resolved →
  (∀ t, t ∈ ts → t ∈ matrix_targets catalog) → marshalLocks Marshal opts catalog ts resolved = Ok outputs →
  Forall2 (output_of Marshal catalog (opt_version opts) reads log) ts outputs.
Proof.
  intros Hvalid Hres Hts. unfold marshalLocks.
  apply (rfold_inv _ (λ before outs, Forall2 (output_of Marshal catalog (opt_version opts) reads log) before outs)); [|constructor].
  intros before t outs outs' Ht Houts.
  apply Hts in Ht. unfold matrix_targets in Ht. apply list_elem_of_bind in Ht as (p & (pl & -> & Hpl)%list_elem_of_fmap & Hp).
  destruct (buildLock _ _ _ _) as [lock|] eqn:Eb; cbn [rbind]; [|done].
  destruct (Marshal lock) as [yaml|] eqn:Em; cbn [rbind map_err]; [|done]. intros [= <-].
  apply Forall2_app; [done|]. constructor; [|constructor]. exists p, lock. split_and!; [done|done| |done|done].
  by apply (buildLock_spec catalog (opt_version opts) Hvalid reads log resolved Hres).
Qed.

Lemma marshalLocks_paths Marshal opts catalog ts resolved outputs : marshalLocks Marshal opts catalog ts resolved = Ok outputs →
  Forall (λ o, HasPrefix (out_path o) "imagelock-" = true) outputs.
Proof.
  unfold marshalLocks. apply (rfold_inv _ (λ _ outs, Forall (λ o, HasPrefix (out_path o) "imagelock-" = true) outs)); [|constructor].
  intros before t outs outs' _ Houts. destruct (buildLock _ _ _ _) as [lock|]; cbn [rbind]; [|done].
  destruct (Marshal lock); cbn [rbind map_err]; [|done]. intros [= <-]. apply Forall_app. split; [done|].
  constructor; [|constructor]. apply lockFileName_prefix.
Qed.

(** Names the tool may create a staged file under, and an output directory without directories where
    the locks go. *)
Definition picks_new (pick : string → gmap string node → string) : Prop :=
  ∀ rnd m, m !! pick rnd m = None ∧ HasPrefix (pick rnd m) "." = true.
Definition no_lock_dirs (d : directory) : Prop :=
  ∀ name b, HasPrefix name "imagelock-" = true → default ∅ d !! name ≠ Some (NDir b).

(** What a failed run leaves: the directory of before, less the first [i] locks, but for names of the
    tool's own, fewer than the calls that failed. *)
Definition taken_back (m0 : gmap string node) (outputs : list lockOutput) (k i : nat) (d : directory) : Prop :=
  ∃ left m, d = Some m ∧ (length left < k)%nat ∧ Forall (own_name m0 outputs) left ∧
    ∀ n, n ∉ left → m !! n = delete_all (map out_path (take i outputs)) m0 !! n.

Lemma taken_back_intro k m0 outputs k' i d s : k' = S k → near m0 outputs k (delete_all (map out_path (take i outputs)) m0) d s →
  taken_back m0 outputs k' i d.
Proof. intros -> (left & m & -> & _ & _ & Hl & Ho & Ha). exists left, m. split_and!; [done|lia|done|done]. Qed.

Lemma taken_back_exact m0 outputs k i d : (k ≤ 1)%nat → taken_back m0 outputs k i d → d = Some (delete_all (map out_path (take i outputs)) m0).
Proof.
  intros Hk (left & m & -> & Hl & _ & Ha). destruct left; [|cbn in Hl; lia]. f_equal. apply map_eq. intros n. apply Ha, not_elem_of_nil.
Qed.

Lemma writeLocks_spec pick Marshal opts catalog ts resolved fs outputs (m0 := default ∅ (cur fs)) :
  picks_new pick → no_lock_dirs (cur fs) →
  marshalLocks Marshal opts catalog ts resolved = Ok outputs →
  ∃ hs, let '(r, fs') := writeLocks pick Marshal opts catalog ts resolved fs in
  history fs' = history fs ++ hs ∧ Forall (λ d, d = cur fs ∨ seen m0 outputs d) hs ∧
  match r with
  | Ok _ => cur fs' = Some (inserts outputs m0)
  | Err _ => cur fs' = cur fs ∨ ∃ i, taken_back m0 outputs (faults (script fs)) i (cur fs')
  end.
Proof.
  intros Hpick Hdirs Hm. pose proof (marshalLocks_paths _ _ _ _ _ _ Hm) as Hpaths. rewrite Forall_forall in Hpaths.
  unfold writeLocks. rewrite Hm.
  assert (∀ o, o ∈ outputs → HasPrefix (out_path o) "." = false ∧ ∀ b, m0 !! out_path o ≠ Some (NDir b)) as Hout.
  { intros o Ho. split; [by apply lock_name_visible, Hpaths|]. intros b. by apply Hdirs, Hpaths. }
  assert (consistent m0 outputs m0) as Hc by (intros k Hk; by left).
  set (ok := λ d, d = cur fs ∨ seen m0 outputs d). set (prog := _ ← MkdirAll; _).
  assert (triple (λ d s, d = cur fs ∧ (faults s ≤ faults (script fs))%nat) ok prog (λ r d s, match r with
    | Ok _ => d = Some (inserts outputs m0)
    | Err _ => d = cur fs ∨ ∃ i, taken_back m0 outputs (faults (script fs)) i d end)) as Hprog.
  2:{ destruct (Hprog fs) as (hs & H1 & H2 & H3); [done|]. exists hs. by destruct (prog fs). }
  subst prog. eapply (triple_bind _ _ _ _ (λ r d s, match r with Ok _ => d = Some m0 ∧ (faults s ≤ faults (script fs))%nat | Err _ => d = cur fs end)).
  { apply triple_syscall. intros d s [-> Hs] o. rewrite faults_tail in Hs. fold o in Hs. destruct (fails o); cbn [fst snd].
    - split; [by left|done].
    - split; [right; by exists m0|]. split; [done|lia]. }
  intros [[]|e]; [|apply triple_ret; by left].
  assert (staged_ok [] m0) as Hnil by (split; [constructor|]; by intros n ?%not_elem_of_nil).
  eapply triple_bind; [eapply triple_ok; [|apply (triple_stage_locks pick Hpick m0 outputs Hout _ outputs [] Hnil)]; by right|].
  intros [names|e]; [|apply triple_ret; intros d s (k & Hk & Hn); right; exists O; by apply (taken_back_intro k _ _ _ _ _ s)].
  apply triple_at. intros d0 s0 (L & -> & HL & Hst & -> & Hs0).
  eapply triple_ok; [|eapply triple_pre; [|eapply triple_post; [|apply (triple_publish_locks m0 outputs Hout (faults (script fs)) outputs [] L)]]]; [by right| | |done..].
  - by intros d s [-> ->].
  - intros [[]|e] d s; [done|]. intros (k & i & Hk & Hn). right. exists i. by apply (taken_back_intro k _ _ _ _ _ s).
Qed.

(** ** The whole run *)

Lemma parseFlags_reads args opts : parseFlags args = Ok opts → 1 ≤ stabilityReads opts.
Proof.
  unfold parseFlags. destruct (ParseArgs declared args) as [[flags [|]]|]; cbn [rbind map_err]; [|done|done].
  cbn [stabilityReads]. destruct (Z.ltb_spec (get_int flags "stability-reads") 1); [done|].
  destruct (String.eqb _ ""); [done|]. destruct (matches releaseVersion _); cbn [negb]; [|done]. by intros [= <-].
Qed.

Lemma loadCatalog_valid NewRepo path contents Unmarshal catalog : loadCatalog NewRepo path contents Unmarshal = Ok catalog →
  validateCatalog NewRepo catalog = Ok tt.
Proof.
  unfold loadCatalog. destruct contents as [c|]; cbn [rbind map_err]; [|done].
  destruct (Unmarshal c) as [cat|]; cbn [rbind map_err]; [|done].
  destruct (validateCatalog NewRepo cat) as [[]|] eqn:E; cbn [rbind map_err]; [|done]. by intros [= <-].
Qed.

(** Distinct targets have distinct file names when no platform has a hyphen in its name. *)
Lemma output_path_inj Marshal catalog version reads log t t' o o' :
  Forall (λ pl, hyphen_free (OS pl) ∧ hyphen_free (Architecture pl)) (Platforms catalog) →
  t ∈ matrix_targets catalog → t' ∈ matrix_targets catalog →
  output_of Marshal catalog version reads log t o → output_of Marshal catalog version reads log t' o' →
  out_path o = out_path o' → t = t'.
Proof.
  rewrite Forall_forall. intros Hh Ht Ht' (p & lock & _ & Hp & [Hl _] & Ho & _) (p' & lock' & _ & Hp' & [Hl' _] & Ho' & _) He.
  assert (∀ q pl l, l = mkImageLock lockAPIVersion lockKind (cat_Name catalog) version q pl (lock_Images l) →
    lock_Version l = version ∧ lock_Profile l = q ∧ lock_Platform l = pl) as Hfields by (by intros q pl l ->).
  apply Hfields in Hl as (Hv & Hq & Hpf), Hl' as (Hv' & Hq' & Hpf').
  assert (∀ u, u ∈ matrix_targets catalog → target_platform u ∈ Platforms catalog) as Hpl.
  { intros u (q & (pl & -> & Hpl)%list_elem_of_fmap & _)%list_elem_of_bind. done. }
  rewrite Ho, Ho' in He. apply lockFileName_inj in He as [He1 He2]; [|congruence|rewrite ?Hpf, ?Hpf'; apply Hh; auto..].
  destruct t, t'. cbn in *. congruence.
Qed.

Lemma outputs_distinct Marshal catalog version reads log outputs : valid_catalog catalog →
  Forall (λ pl, hyphen_free (OS pl) ∧ hyphen_free (Architecture pl)) (Platforms catalog) →
  Forall2 (output_of Marshal catalog version reads log) (SortBy target_key (matrix_targets catalog)) outputs → NoDup (map out_path outputs).
Proof.
  intros Hvalid Hh Hout.
  assert (NoDup (SortBy target_key (matrix_targets catalog))) as Hnd.
  { rewrite SortBy_Permutation. unfold matrix_targets. apply NoDup_bind; [|intros p Hp|by eapply NoDup_fmap_1, Hvalid].
    - intros p p' t Hp Hp' (pl & -> & _)%list_elem_of_fmap (pl' & [= He _] & _)%list_elem_of_fmap. by apply (profile_inj catalog Hvalid).
    - apply (NoDup_fmap_2_strong (mkLockTarget (profile_Name p))); [by intros ? ? _ _ [= ->]|].
      eapply NoDup_fmap_1, (valid_platforms _ Hvalid). }
  assert (∀ t, t ∈ SortBy target_key (matrix_targets catalog) → t ∈ matrix_targets catalog) as Hin by (intros t; by rewrite elem_of_SortBy).
  revert Hnd Hin. induction Hout as [|t o ts outs Ho Houts IH]; intros Hnd Hin; cbn [map]; [constructor|].
  apply list.NoDup_cons in Hnd as [Ht Hnd]. apply list.NoDup_cons. split.
  - intros (o' & He & Ho')%list_elem_of_fmap. destruct (Forall2_right _ _ _ o' Houts Ho') as (t' & Ht' & Hot').
    apply Ht. rewrite (output_path_inj Marshal catalog version reads log t t' o o'); [done|done|apply Hin; left|apply Hin; by right|done..].
  - apply IH; [done|]. intros u Hu. apply Hin. by right.
Qed.

Section whole_run.
Context {W : Type} `{Registry W} (env : environment).
Context (Horder : ∀ m : gmap string plannedImage, planned_order env m ≡ₚ (map_to_list m).*2).

(** A run up to the plan: it ends there, or goes on with the planned matrix. *)
Definition checked (args : list string) (opts : options) (catalog : imageCatalog) : Prop :=
  parseFlags args = Ok opts ∧
  loadCatalog (NewRepository env) (opt_catalog opts) (readFile env (opt_catalog opts)) (UnmarshalCatalog env) = Ok catalog ∧
  validateExpectedImages catalog (expectedImages opts) = None ∧
  (chartValues opts = "" ∨ validateChartValues (values_order env) catalog (chartValues opts) (readFile env (chartValues opts)) (UnmarshalValues env) = None) ∧
  releasable catalog (opt_version opts) (NewTag env).

Lemma run_checks args (w : W) fs :
  (∃ e, run env args w fs = (Err e, w, fs)) ∨
  ∃ opts catalog, checked args opts catalog ∧
    run env args w fs = if verifyOnly opts then (Ok tt, w, fs)
      else let '(r, w) := resolveImages (stabilityReads opts) (plan_images (matrix_plan catalog (opt_version opts))) [] w in
           match r with
           | Err e => (Err (ResolveFailed e), w, fs)
           | Ok resolved =>
               let '(r, fs) := writeLocks (pickTemp env) (MarshalLock_yaml env) opts catalog
                 (targets (matrix_plan catalog (opt_version opts))) resolved fs in
               (map_err WriteFailed r, w, fs)
           end.
Proof.
  unfold run. destruct (parseFlags args) as [opts|e] eqn:Ep; [|by left; eexists].
  destruct (loadCatalog _ _ _ _) as [catalog|e] eqn:El; [|by left; eexists].
  destruct (validateExpectedImages _ _) as [e|] eqn:Ee; [by left; eexists|].
  destruct (if String.eqb (chartValues opts) "" then None else _) as [e|] eqn:Ec; [by left; eexists|].
  pose proof (plan_expands catalog (NewTag env) (opt_version opts) (planned_order env)
    (validateCatalog_Ok _ _ (loadCatalog_valid _ _ _ _ _ El)) Horder) as Hplan.
  destruct (buildReleasePlan _ _ _ _) as [plan|e]; [|by left; eexists]. destruct Hplan as [Hrel ->].
  right. exists opts, catalog. split; [|done]. split_and!; try done.
  destruct (String.eqb_spec (chartValues opts) ""); [by left|by right].
Qed.

End whole_run.

(** C38: a lock pins the release.  When a run succeeds, the flags, the catalog and the
    inventories were accepted, an expected inventory names just the images of the
    catalog, and the catalog can be released.  A verifying run has
    read nothing and written nothing.  Otherwise the output directory holds its old files and,
    for every profile and platform, the marshalled lock under its
    name: the lock names in order exactly the images released there, and pins each
    to the digest of the only manifest for the platform in an index that every one of
    the configured number of successive reads of its tag returned.  The locks have
    distinct names when no platform has a hyphen in its own. *)
Theorem locks_pin_release {W} `{Registry W} (env : environment) args (w w' : W) log fs fs'
  (Horder : ∀ m : gmap string plannedImage, planned_order env m ≡ₚ (map_to_list m).*2)
  (Hpick : picks_new (pickTemp env)) (Hdirs : no_lock_dirs (cur fs))
  (Hrun : run env args (w, []) fs = (Ok tt, (w', log), fs')) :
  ∃ opts catalog, checked env args opts catalog ∧
    (expectedImages opts ≠ [] → Forall NUL_free (expectedImages opts) → expectedImages opts ≡ₚ imageNames (Images catalog)) ∧
    if verifyOnly opts then log = [] ∧ fs' = fs
    else ∃ outputs, cur fs' = Some (inserts outputs (default ∅ (cur fs))) ∧
      Forall2 (output_of (MarshalLock_yaml env) catalog (opt_version opts) (stabilityReads opts) log)
        (SortBy target_key (matrix_targets catalog)) outputs ∧
      (Forall (λ pl, hyphen_free (OS pl) ∧ hyphen_free (Architecture pl)) (Platforms catalog) → NoDup (map out_path outputs)).
Proof.
  destruct (run_checks env Horder args (w, @nil read) fs) as [[e He]|(opts & catalog & Hc & He)]; rewrite Hrun in He; [done|].
  exists opts, catalog. split; [done|]. destruct Hc as (Hp & Hl & Hx & _). apply loadCatalog_valid, validateCatalog_Ok in Hl.
  split; [intros Hne HN; by apply validateExpectedImages_spec|].
  destruct (verifyOnly opts); [by injection He as _ -> ->|].
  destruct (resolveImages_spec (stabilityReads opts) (parseFlags_reads _ _ Hp) (plan_images (matrix_plan catalog (opt_version opts)))
    [] [] w [] ltac:(constructor)) as (w1 & calls & Hr).
  destruct (resolveImages (stabilityReads opts) (plan_images (matrix_plan catalog (opt_version opts))) [] (w, @nil read)) as [[resolved|e] st];
    destruct Hr as [-> Hr]; [|done].
  specialize (Hr resolved eq_refl). cbn [app] in Hr, He.
  destruct (marshalLocks (MarshalLock_yaml env) opts catalog (targets (matrix_plan catalog (opt_version opts))) resolved) as [outputs|e] eqn:Em.
  2:{ unfold writeLocks in He. rewrite Em in He. done. }
  destruct (writeLocks_spec (pickTemp env) _ opts catalog _ resolved fs outputs Hpick Hdirs Em) as (hs & Hw).
  destruct (writeLocks _ _ _ _ _ _ fs) as [[[]|e] fs1]; destruct Hw as (_ & _ & Hcur); [|done]. injection He as _ -> ->.
  exists outputs. split; [done|].
  apply (marshalLocks_spec _ opts catalog (stabilityReads opts) calls) in Em; [|done|done|intros t; cbn; by rewrite elem_of_SortBy].
  split; [done|]. intros Hh. by eapply outputs_distinct.
Qed.

(** C39: a run leaves no half of a release behind, as far as its removals succeed.  Whichever
    system calls fail, and at every instant of the run, a visible file of the output
    directory is the old one, a complete lock, or a lock taken away again: never a
    partial one.  A run that fails leaves the directory as it was, less the old locks that its
    own had replaced before they were taken back, except for files of its own whose removal
    failed too: they are fewer than the failed calls, so there is none when only one call
    failed, and the directory is then exactly that. *)
Theorem failed_run_leaves_no_lock {W} `{Registry W} (env : environment) args (w : W) fs
  (Horder : ∀ m : gmap string plannedImage, planned_order env m ≡ₚ (map_to_list m).*2)
  (Hpick : picks_new (pickTemp env)) (Hdirs : no_lock_dirs (cur fs)) (m0 := default ∅ (cur fs)) :
  let '(r, _, fs') := run env args w fs in
  ∃ outputs hs, history fs' = history fs ++ hs ∧ Forall (λ d, d = cur fs ∨ seen m0 outputs d) hs ∧
    (∀ e, r = Err e → cur fs' = cur fs ∨ ∃ i, taken_back m0 outputs (faults (script fs)) i (cur fs') ∧
       ((faults (script fs) ≤ 1)%nat → cur fs' = Some (delete_all (map out_path (take i outputs)) m0))) ∧
    Forall (λ o, HasPrefix (out_path o) "imagelock-" = true) outputs.
Proof.
  set (left_by := λ (outputs : list lockOutput) fs', cur fs' = cur fs ∨ ∃ i, taken_back m0 outputs (faults (script fs)) i (cur fs') ∧
    ((faults (script fs) ≤ 1)%nat → cur fs' = Some (delete_all (map out_path (take i outputs)) m0))).
  assert (∀ r : result RunError unit, ∃ (outputs : list lockOutput) hs, history fs = history fs ++ hs ∧ Forall (λ d, d = cur fs ∨ seen m0 outputs d) hs ∧
    (∀ e, r = Err e → left_by outputs fs) ∧ Forall (λ o, HasPrefix (out_path o) "imagelock-" = true) outputs) as Hsame.
  { intros r. exists [], []. rewrite app_nil_r. split_and!; [done|constructor|by left|constructor]. }
  destruct (run_checks env Horder args w fs) as [[e ->]|(opts & catalog & Hc & ->)]; [apply Hsame|].
  destruct (verifyOnly opts); [apply Hsame|].
  destruct (resolveImages _ _ _ w) as [[resolved|e] w1]; [|apply Hsame].
  destruct (marshalLocks (MarshalLock_yaml env) opts catalog (targets (matrix_plan catalog (opt_version opts))) resolved) as [outputs|e] eqn:Em.
  2:{ unfold writeLocks. rewrite Em. apply Hsame. }
  destruct (writeLocks_spec (pickTemp env) _ opts catalog _ resolved fs outputs Hpick Hdirs Em) as (hs & Hw).
  destruct (writeLocks _ _ _ _ _ _ fs) as [[[]|e] fs1]; destruct Hw as (Hh & Hseen & Hcur); exists outputs, hs;
    (split_and!; [done|done| |by eapply marshalLocks_paths]); [done|]. intros e' _.
  destruct Hcur as [?|[i Hi]]; [by left|right]. exists i. split; [done|]. intros Hk. by apply (taken_back_exact _ _ _ _ _ Hk).
Qed.

(** *** An example registry and environment *)

Definition example_digest (c : string) : string := "sha256:" +:+ string_of_list_ascii (flat_map (λ _, bytes_of c) (seq 0 64)).

(** A registry that serves one index for every tag. *)
#[local] Instance ExampleRegistry : Registry unit := {|
  ParseReference _ := None;
  Get _ w := (Ok (mkDescriptor (example_digest "a") "application/vnd.oci.image.index.v1+json" true
    (Ok [mkManifestEntry (Some (mkPlatform "linux" "amd64")) (example_digest "b");
         mkManifestEntry (Some (mkPlatform "linux" "arm64")) (example_digest "c");
         mkManifestEntry None (example_digest "d")])), w)
|}.

(** A name longer than any in the directory. *)
Definition example_pick (_ : string) (m : gmap string node) : string :=
  ".imagelock-" +:+ foldr (λ e acc, e.1 +:+ acc) "" (map_to_list m) +:+ ".tmp".

Lemma example_pick_new : picks_new example_pick.
Proof.
  intros rnd m. split; [|done]. destruct (m !! example_pick rnd m) as [n|] eqn:E; [exfalso|done].
  apply elem_of_map_to_list in E.
  assert (∀ l (e : string * node), e ∈ l → (String.length e.1 ≤ String.length (foldr (λ e acc, e.1 +:+ acc) "" l))%nat) as Hlen.
  { induction l as [|x l IH]; intros e; [by intros ?%not_elem_of_nil|]. cbn [foldr]. rewrite str_length_app.
    intros [->|He]%elem_of_cons; [lia|]. specialize (IH e He). lia. }
  apply Hlen in E. cbn [fst] in E. unfold example_pick in E. rewrite !str_length_app in E. cbn in E. lia.
Qed.

Definition example_env : environment :=
  mkEnvironment (λ _, None) (λ _, None) (λ _, Ok example_catalog) (λ _, Ok ∅)
    (λ lock, Ok (Join (map li_Image (lock_Images lock)) " ")) (λ _, Ok "") example_pick (λ m, (map_to_list m).*2) (λ m, (map_to_list m).*1).

Definition example_args : list string := ["--version"; "v1.2.3"; "--stability-reads=2"; "--expected-image=mpsd"; "--expected-image=operator"].

#[local] Instance node_eq_dec : EqDecision node.
Proof. solve_decision. Defined.

Definition fips_lock : string := "imagelock-gpu-fractioning-v1.2.3-fips-linux-amd64.yaml".
Definition example_dir : directory := Some ({[ fips_lock := NFile "old"; "notes" := NFile "n" ]}).
Definition example_world (s : list outcome) : world := mkWorld example_dir s [].
Definition file_in (d : directory) (name : string) : option node := m ← d; m !! name.

Lemma example_dir_no_dirs : no_lock_dirs example_dir.
Proof.
  intros name b _. change (({[ fips_lock := NFile "old"; "notes" := NFile "n" ]} : gmap string node) !! name ≠ Some (NDir b)). destruct (decide (name = fips_lock)) as [->|Hne]; [by rewrite lookup_insert_eq|].
  rewrite lookup_insert_ne by done. destruct (decide (name = "notes")) as [->|Hne']; [by rewrite lookup_singleton_eq|].
  by rewrite lookup_singleton_ne.
Qed.

Lemma locks_pin_release_witness :
  ∃ w' log fs', run example_env example_args (tt, @nil read) (example_world []) = (Ok tt, (w', log), fs') ∧
    length log = 6%nat ∧
    file_in (cur fs') fips_lock = Some (NFile ("ghcr.io/kai-scheduler/operator@" +:+ example_digest "b")) ∧
    file_in (cur fs') "notes" = Some (NFile "n") ∧
    ∃ opts catalog, checked example_env example_args opts catalog.
Proof.
  destruct (run example_env example_args (tt, @nil read) (example_world [])) as [[r [w' log]] fs'] eqn:E.
  assert (r = Ok tt) as ->.
  { apply (f_equal (λ x, x.1.1)) in E. cbn [fst] in E. rewrite <- E. vm_compute. reflexivity. }
  exists w', log, fs'. split; [done|]. split; [|split; [|split]].
  - apply (f_equal (λ x, length x.1.2.2)) in E. cbn [fst snd] in E. rewrite <- E. vm_compute. reflexivity.
  - apply (f_equal (λ x, file_in (cur x.2) fips_lock)) in E. cbn [snd] in E. rewrite <- E. vm_compute. reflexivity.
  - apply (f_equal (λ x, file_in (cur x.2) "notes")) in E. cbn [snd] in E. rewrite <- E. vm_compute. reflexivity.
  - destruct (locks_pin_release example_env example_args tt w' log (example_world []) fs') as (opts & catalog & Hc & _).
    + intros m. reflexivity.
    + exact example_pick_new.
    + exact example_dir_no_dirs.
    + exact E.
    + exists opts, catalog. exact Hc.
Defined.

(** A write fails; and then the removal of what was staged fails too. *)
Definition failing_write : list outcome := replicate 7 success ++ [mkOutcome true 3 ""].
Definition failing_removal : list outcome := failing_write ++ [success; mkOutcome true 0 ""].

Lemma failed_run_leaves_no_lock_witness :
  (let '(r, _, fs') := run example_env example_args tt (example_world failing_write) in is_ok r = false ∧ cur fs' = example_dir) ∧
  (let '(r, _, fs') := run example_env example_args tt (example_world failing_removal) in
   is_ok r = false ∧ cur fs' ≠ example_dir ∧ ∃ (outputs : list lockOutput) i, taken_back (default ∅ example_dir) outputs 2 i (cur fs')).
Proof.
  split; [vm_compute; split; reflexivity|].
  pose proof (failed_run_leaves_no_lock example_env example_args tt (example_world failing_removal)
    ltac:(intros m; reflexivity) example_pick_new example_dir_no_dirs) as H.
  destruct (run example_env example_args tt (example_world failing_removal)) as [[r w'] fs'] eqn:E. destruct H as (outputs & _ & _ & _ & H & _).
  assert (Hr : is_ok r = false).
  { apply (f_equal (λ x, is_ok x.1.1)) in E. cbn [fst] in E. rewrite <- E. vm_compute. reflexivity. }
  assert (Hne : cur fs' ≠ example_dir).
  { apply (f_equal (λ x, bool_decide (cur x.2 = example_dir))) in E. cbn [snd] in E. apply (bool_decide_eq_false (cur fs' = example_dir)).
    rewrite <- E. vm_compute. reflexivity. }
  split; [exact Hr|]. split; [exact Hne|]. destruct r as [|e]; [discriminate Hr|]. specialize (H e eq_refl).
  destruct H as [Heq|(i & Hi & _)]; [exfalso; apply Hne; rewrite Heq; reflexivity|]. exists outputs, i. exact Hi.
Defined.

(** Publication is not atomic for a directory that already has locks: a failing rename
    takes away the locks published before it, and with them those they had replaced. *)
Theorem failed_publication_loses_lock :
  let '(r, _, fs') := run example_env example_args tt (example_world (replicate 18 success ++ [mkOutcome true 0 ""])) in
  is_ok r = false ∧ file_in example_dir fips_lock = Some (NFile "old") ∧ file_in (cur fs') fips_lock = None.
Proof. vm_compute. split_and!; reflexivity. Qed.

(** The catalog accepts platform names with hyphens, and then two targets can share a file. *)
Definition hyphen_catalog : imageCatalog :=
  mkImageCatalog catalogAPIVersion "gpu-fractioning" "gpu-fractioning" "ghcr.io/kai-scheduler" [mkCatalogImage "operator"]
    [mkCatalogProfile "standard" "{{version}}"; mkCatalogProfile "fips" "{{version}}-fips"]
    [mkPlatform "linux" "amd64"; mkPlatform "fips-linux" "amd64"] [].

Theorem lock_names_collide :
  validateCatalog (λ _, None) hyphen_catalog = Ok tt ∧
  ∀ name version images images',
    lockFileName (ArtifactName hyphen_catalog) (mkImageLock lockAPIVersion lockKind name version "fips" (mkPlatform "linux" "amd64") images) =
    lockFileName (ArtifactName hyphen_catalog) (mkImageLock lockAPIVersion lockKind name version "standard" (mkPlatform "fips-linux" "amd64") images').
Proof. split; [vm_compute; reflexivity|]. intros. reflexivity. Qed.
