(* ===== verification/MpsDaemon.v ===== *)
(** * mpsd's daemon as a process

    [runMPS] of [mpsd/internal/supervisor.go] with the context, the stdin pipe and
    the graceful stop of os/exec, [Supervisor.Run] in time over it, the main
    functions of mpsd and of [hack/fake-mps], and the file tree the sockets live in.

    The MPS control daemon is not part of the repository: a supervised process is
    described by when it ends, by itself or after "quit", and a theorem about the
    supervisor holds for every such process.  The stand-in fake-mps is modelled
    from its source.  Times are nanoseconds; the supervisor's own file operations
    take no time. *)

From Stdlib Require Import ZArith Lia String Ascii.
From stdpp Require Import base gmap list strings.
From S2P Require Import Prelude GoStrings Annotations Injection Retry MpsConfig GoTime Nvml DaemonFlags DaemonSets Deploy NodeStatus.

#[local] Open Scope string_scope.
#[local] Open Scope list_scope.
#[local] Open Scope Z_scope.

(** ** os/exec: a command with a context, [Cancel] and [WaitDelay] *)

Module exec.

Inductive status := Exited (code : Z) | Killed.

(** How a started process ends: by itself that long after its start, or that long after
    "quit" was written to its standard input, or not at all. *)
Record process := mkProcess {
  own_end : option (N * status);
  quit_end : option (N * status);
  stdin_open : bool                 (** it did not close its standard input *)
}.

Inductive command := PipeFails (e : string) | StartFails (e : string) | Starts (p : process).

Inductive error :=
| Pipe (e : string) | Start (e : string) | ContextCanceled | ExitError (s : status) | CancelingCmd.

(** What ended a process. *)
Inductive cause := ByItself (s : status) | ByQuit (s : status) | ByKill.
Definition status_of (c : cause) : status :=
  match c with ByItself s | ByQuit s => s | ByKill => Killed end.

Record finished := mkFinished {
  ended : Z;
  ended_by : option cause;          (** [None] when no process was started *)
  run_err : option error
}.

Abbreviation candidate := (option (Z * cause)).
(** The earlier one, the first on a tie. *)
Definition earlier (a b : candidate) : candidate :=
  match a, b with
  | Some (t, c), Some (t', c') => if t <=? t' then a else b
  | Some _, None => a
  | None, _ => b
  end.

Definition own_candidate (p : process) (start : Z) : candidate :=
  (λ e, (start + Z.of_N e.1, ByItself e.2)) <$> own_end p.

(** The watching goroutine once the context is done at [tc]: [Cancel] writes "quit"; with a
    [WaitDelay] the process is killed when it is still there that much later. *)
Definition cancelled_candidate (p : process) (tc waitDelay : Z) : candidate :=
  earlier (if stdin_open p then (λ e, (tc + Z.of_N e.1, ByQuit e.2)) <$> quit_end p else None)
    (if waitDelay =? 0 then None else Some (tc + Z.max 0 waitDelay, ByKill)).

(** The error of [Wait]: a failure status, or what the cancellation left. *)
Definition wait_error (s : status) (cancel_error : option error) : option error :=
  match s with
  | Exited 0 => cancel_error
  | s => Some (ExitError s)
  end.

(** [Cmd.Run]; the context is done at [cancel].  [None]: it never returns. *)
Definition Run (waitDelay start : Z) (cancel : option Z) (p : process) : option finished :=
  let own := own_candidate p start in
  match cancel with
  | None => (λ '(t, c), mkFinished t (Some c) (wait_error (status_of c) None)) <$> own
  | Some tc =>
      if tc <=? start then Some (mkFinished start None (Some ContextCanceled))
      else
        let after c := wait_error (status_of c) (Some (if stdin_open p then ContextCanceled else CancelingCmd)) in
        match own with
        | Some (t, c) =>
            if t <=? tc then Some (mkFinished t (Some c) (wait_error (status_of c) None))
            else (λ '(t, c), mkFinished t (Some c) (after c)) <$> earlier own (cancelled_candidate p tc waitDelay)
        | None => (λ '(t, c), mkFinished t (Some c) (after c)) <$> cancelled_candidate p tc waitDelay
        end
  end.

Definition error_text (e : error) : string :=
  match e with
  | Pipe e => "creating stdin pipe: " +:+ e
  | Start e => "MPS daemon process: " +:+ e
  | ContextCanceled => "MPS daemon process: context canceled"
  | ExitError (Exited code) => "MPS daemon process: exit status " +:+ FormatInt code
  | ExitError Killed => "MPS daemon process: signal: killed"
  | CancelingCmd => "MPS daemon process: exec: canceling Cmd: broken pipe"
  end.
End exec.

(** ** mpsd/internal/supervisor.go in time *)

Import exec (process, command, finished, ended, ended_by).

(** [runMPS]: the pipe, the start, the run. *)
Definition runMPS (gracefulStopDelay start : Z) (cancel : option Z) (cmd : command) : option finished :=
  match cmd with
  | exec.PipeFails e => Some (exec.mkFinished start None (Some (exec.Pipe e)))
  | exec.StartFails e =>
      Some (exec.mkFinished start None
        (Some (match cancel with
               | Some tc => if tc <=? start then exec.ContextCanceled else exec.Start e
               | None => exec.Start e
               end)))
  | exec.Starts p => exec.Run gracefulStopDelay start cancel p
  end.

(** A run of the daemon as the supervisor saw it. *)
Record life := mkLife { life_start : Z; life_end : Z; life_cause : option exec.cause; life_run : Supervisor.daemon_run }.

Inductive supervision :=
| Returned (t : Z) (r : result Supervisor.SupervisorError unit)
| Hung                                  (** [runMPS] never returns *)
| Supervising.                          (** the commands are used up *)

(** Is the context done at that time? *)
Definition done_by (cancel : option Z) (t : Z) : bool := match cancel with Some tc => tc <=? t | None => false end.

(** The loop of [Run] from [now] on. *)
Fixpoint timed_loop (cfg : Supervisor.SupervisorConfig) (gracefulStopDelay : Z) (cancel : option Z)
    (now attempt backoff : Z) (cmds : list command) : list life * supervision :=
  match cmds with
  | [] => ([], Supervising)
  | cmd :: cmds =>
      let attempt := attempt + 1 in
      match runMPS gracefulStopDelay now cancel cmd with
      | None => ([], Hung)
      | Some f =>
          let err := exec.error_text <$> exec.run_err f in
          let uptime := ended f - now in
          let stable := Supervisor.StableThreshold cfg <=? uptime in
          let waited := if stable then Supervisor.Backoff cfg else backoff in
          let run := mkLife now (ended f) (ended_by f)
            (Supervisor.mkRun err (mkIteration (done_by cancel (ended f)) uptime
               (done_by cancel (ended f + Z.max 0 waited)))) in
          if done_by cancel (ended f) then ([run], Returned (ended f) (Ok tt))
          else
            let attempt := if stable then 0 else attempt in
            if (0 <? Supervisor.MaxRetries cfg) && (Supervisor.MaxRetries cfg <=? attempt)
            then ([run], Returned (ended f) (Err (Supervisor.FailedAfter attempt err)))
            else if done_by cancel (ended f + Z.max 0 waited)
            then ([run], Returned (default (ended f) cancel) (Ok tt))
            else
              let '(lives, v) := timed_loop cfg gracefulStopDelay cancel (ended f + Z.max 0 waited) attempt
                                   (next_backoff waited) cmds in
              (run :: lives, v)
      end
  end.

(** [Run] from a point in time, with the file operations of the setup. *)
Definition timed_Run (cfg : Supervisor.SupervisorConfig) (gracefulStopDelay : Z) (f : Supervisor.setup_faults)
    (cancel : option Z) (now : Z) (cmds : list command) : list Supervisor.action * list life * supervision :=
  match Supervisor.setup cfg f with
  | (acts, Err e) => (acts, [], Returned now (Err e))
  | (acts, Ok _) =>
      let '(lives, v) := timed_loop cfg gracefulStopDelay cancel now 0 (Supervisor.Backoff cfg) cmds in
      (acts, lives, v)
  end.

(** ** Lemmas: one run *)

Lemma earlier_bound a t c : ∃ t' c', exec.earlier a (Some (t, c)) = Some (t', c') ∧ t' ≤ t ∧
  (∀ t1 c1, a = Some (t1, c1) → t' ≤ t1) ∧ (a = Some (t', c') ∨ (t', c') = (t, c)).
Proof.
  destruct a as [[t1 c1]|]; cbn.
  - destruct (Z.leb_spec t1 t) as [H|H].
    + exists t1, c1. split_and!; [done|lia| |by left]. intros ? ? [= <- <-]. lia.
    + exists t, c. split_and!; [done|lia| |by right]. intros ? ? [= <- <-]. lia.
  - exists t, c. split_and!; [done|lia|done|by right].
Qed.

(** With a positive delay a cancelled run returns within it; what ends it is the daemon's own
    doing unless the whole delay has passed. *)
Lemma runMPS_cancelled delay start tc cmd : 0 < delay → start ≤ tc → ∃ f,
  runMPS delay start (Some tc) cmd = Some f ∧ start ≤ ended f ≤ tc + delay ∧
  (ended_by f = Some exec.ByKill → ended f = tc + delay) ∧
  (is_Some (ended_by f) → start < tc).
Proof.
  intros Hd Hs. destruct cmd as [e|e|p]; cbn [runMPS].
  1,2: eexists; split_and!; [done|cbn; lia..|done|by intros [? ?]].
  unfold exec.Run. destruct (Z.leb_spec tc start) as [Hle|Hlt].
  { eexists. split_and!; [done|cbn; lia..|done|by intros [? ?]]. }
  set (q := if exec.stdin_open p then (λ e, (tc + Z.of_N e.1, exec.ByQuit e.2)) <$> exec.quit_end p else None).
  assert (Hq : ∀ t c, q = Some (t, c) → tc ≤ t ∧ c ≠ exec.ByKill).
  { unfold q. destruct (exec.stdin_open p); [|done]. destruct (exec.quit_end p) as [[n s]|]; [|done]. intros t c [= <- <-]. split; [lia|done]. }
  assert (Hc : ∃ t c, exec.cancelled_candidate p tc delay = Some (t, c) ∧ tc ≤ t ≤ tc + delay ∧ (c = exec.ByKill → t = tc + delay)).
  { unfold exec.cancelled_candidate. fold q. rewrite (proj2 (Z.eqb_neq delay 0)) by lia.
    destruct (earlier_bound q (tc + Z.max 0 delay) exec.ByKill) as (t & c & -> & Ht & _ & Hor). exists t, c.
    split; [done|]. destruct Hor as [Hor|Heq]; simplify_eq; [|lia]. destruct (Hq _ _ Hor). split; [lia|done]. }
  destruct Hc as (t & c & Hcand & Ht & Hkill). rewrite Hcand.
  unfold exec.own_candidate. destruct (exec.own_end p) as [[n s]|]; cbn [fmap option_fmap option_map fst snd].
  - destruct (Z.leb_spec (start + Z.of_N n) tc) as [Hn|Hn].
    + eexists. split_and!; [done|cbn; lia..|done|done].
    + destruct (earlier_bound (Some (start + Z.of_N n, exec.ByItself s)) t c) as (t' & c' & -> & Ht' & _ & Hor).
      eexists. split_and!; [done|cbn; destruct Hor; simplify_eq; lia|cbn; lia| |done].
      cbn. intros [= ->]. destruct Hor as [Hor|Heq]; simplify_eq; auto.
  - eexists. split_and!; [done|cbn; lia..| |done]. cbn. intros [= ->]. auto.
Qed.

(** ** Lemmas: the loop *)

(** Forgetting the times gives the loop of [Retry], run on what the supervisor saw. *)
Lemma timed_loop_erases cfg environ delay cancel cmds : ∀ now attempt backoff,
  let '(lives, v) := timed_loop cfg delay cancel now attempt backoff cmds in
  (Supervisor.loop cfg environ attempt backoff (map life_run lives)).2 =
    match v with Returned _ r => Some r | Hung | Supervising => None end.
Proof.
  induction cmds as [|cmd cmds IH]; intros now attempt backoff; cbn [timed_loop]; [done|].
  destruct (runMPS _ _ _ _) as [f|]; [|done]. cbv zeta.
  set (waited := if _ <=? ended f - now then _ else backoff). destruct (done_by cancel (ended f)) eqn:Ed.
  { cbn. done. }
  set (att := if _ <=? ended f - now then 0 else attempt + 1).
  assert (Hpair : (if Supervisor.StableThreshold cfg <=? ended f - now then (0, Supervisor.Backoff cfg) else (attempt + 1, backoff)) = (att, waited)).
  { unfold att, waited. by destruct (_ <=? _). }
  destruct ((0 <? Supervisor.MaxRetries cfg) && (Supervisor.MaxRetries cfg <=? att)) eqn:Eb.
  { cbn. by rewrite Hpair, Eb. }
  destruct (done_by cancel (ended f + Z.max 0 waited)) eqn:Ew.
  { cbn. by rewrite Hpair, Eb. }
  specialize (IH (ended f + Z.max 0 waited) att (next_backoff waited)).
  destruct (timed_loop _ _ _ _ _ _ _) as [lives v]. cbn. rewrite Hpair, Eb.
  by destruct (Supervisor.loop _ _ _ _ _).
Qed.

Definition waits_forward (backoff : Z) : Prop := 0 < backoff ∧ sane_backoff backoff.

Lemma next_waits_forward b : waits_forward b → waits_forward (next_backoff b).
Proof.
  intros [H1 H2]. split; [|by apply sane_next]. rewrite next_backoff_sane by done. unfold maxBackoff, Retry.Second. lia.
Qed.

(** How a cancelled supervision ends, at [t] with the lives it had. *)
Definition stopped_in_time (delay now tc t : Z) (r : result Supervisor.SupervisorError unit) (lives : list life) : Prop :=
  now ≤ t ≤ tc + delay ∧
  match r with Ok _ => tc ≤ t | Err e => t < tc ∧ ∃ n err, e = Supervisor.FailedAfter n err end ∧
  Forall (λ l, now ≤ life_start l ≤ tc ∧ life_start l ≤ life_end l ≤ t ∧
               (is_Some (life_cause l) → life_start l < tc) ∧
               (life_cause l = Some exec.ByKill → life_end l = tc + delay)) lives.

Lemma stopped_later delay now now' tc t r lives l :
  now ≤ now' → stopped_in_time delay now' tc t r lives →
  now ≤ life_start l ≤ tc ∧ life_start l ≤ life_end l ≤ t ∧ (is_Some (life_cause l) → life_start l < tc) ∧
  (life_cause l = Some exec.ByKill → life_end l = tc + delay) →
  stopped_in_time delay now tc t r (l :: lives).
Proof.
  intros Hn (Ht & Hr & Hl) H. split; [lia|]. split; [done|]. constructor; [done|].
  eapply Forall_impl; [exact Hl|]. cbn. intros x (? & ? & ? & ?). split_and!; auto; lia.
Qed.

Lemma timed_loop_stops cfg delay tc cmds : 0 < delay → waits_forward (Supervisor.Backoff cfg) →
  ∀ now attempt backoff, now ≤ tc → waits_forward backoff → (Z.to_nat (tc - now) < List.length cmds)%nat →
  ∃ lives t r, timed_loop cfg delay (Some tc) now attempt backoff cmds = (lives, Returned t r) ∧
    stopped_in_time delay now tc t r lives.
Proof.
  intros Hd Hb. induction cmds as [|cmd cmds IH]; intros now attempt backoff Hn Hw Hl; [cbn in Hl; lia|].
  cbn [timed_loop]. destruct (runMPS_cancelled delay now tc cmd Hd Hn) as (f & -> & Hf & Hkill & Hstart). cbv zeta.
  set (waited := if _ <=? ended f - now then _ else backoff).
  assert (Hwt : waits_forward waited) by (unfold waited; by destruct (_ <=? _)).
  cbn [done_by]. destruct (Z.leb_spec tc (ended f)) as [Hdone|Hearly].
  { eexists _, _, _. split; [done|]. split; [lia|]. split; [done|]. apply Forall_singleton. cbn. split_and!; auto; lia. }
  destruct (_ && _).
  { eexists _, _, _. split; [done|]. split; [lia|]. split; [eauto|]. apply Forall_singleton. cbn. split_and!; auto; lia. }
  destruct (Z.leb_spec tc (ended f + Z.max 0 waited)) as [Hin|Hout].
  { eexists _, _, _. split; [done|]. cbn [default]. split; [cbn; lia|]. split; [cbn; lia|]. apply Forall_singleton. cbn. split_and!; auto; lia. }
  destruct Hwt as [Hpos Hsane]. cbn [List.length] in Hl.
  destruct (IH (ended f + Z.max 0 waited) (if Supervisor.StableThreshold cfg <=? ended f - now then 0 else attempt + 1)
    (next_backoff waited)) as (lives & t & r & -> & Hs); [lia|by apply next_waits_forward|lia|].
  eexists _, t, r. split; [done|]. destruct Hs as (Ht & Hr & Hls).
  eapply (stopped_later _ _ (ended f + Z.max 0 waited)); [lia|done|]. cbn. split_and!; auto; lia.
Qed.

(** ** mpsd/cmd/main.go *)

(** How the process ends: refused flags, a node that could not be labelled, or what the
    supervisor made of it. *)
Inductive mpsd_end :=
| BadFlags (e : GoFlag.FlagError)
| LabelFailed (e : LabelError)
| Supervised (acts : list Supervisor.action) (lives : list life) (v : supervision).

Section main.
Context {W : Type} {cluster : ClusterAPI W}.

(** [cancel] is when SIGTERM or SIGINT arrives, [now] when the labelling of the node returned, however
    long it took.  It runs under the context of the signal: one that arrives meanwhile makes its
    calls to the cluster fail, or comes before [now]. *)
Definition mpsd_main (Getenv : string → string) (args : list string) (w : W) (init : Return) (version : string * Return)
    (in_cluster : option string) (f : Supervisor.setup_faults) (cancel : option Z) (now : Z) (cmds : list command) : W * mpsd_end :=
  match mpsd_cmd.parseFlags Getenv args with
  | Err e => (w, BadFlags e)
  | Ok flags =>
      match LabelCurrentNode w (Getenv "NODE_NAME") init version in_cluster with
      | (w, Some e) => (w, LabelFailed e)
      | (w, None) =>
          let '(acts, lives, v) := timed_Run (supervisorConfig (mpsd_cmd.supervised flags)) (mpsd_cmd.gracefulStopDelay flags)
                                     f cancel now cmds in
          (w, Supervised acts lives v)
      end
  end.
End main.

(** With a zero delay a daemon that ignores "quit" is never killed. *)
Lemma zero_delay_hangs cfg tc now attempt backoff cmds : now < tc →
  timed_loop cfg 0 (Some tc) now attempt backoff (exec.Starts (exec.mkProcess None None true) :: cmds) = ([], Hung).
Proof. intros H. cbn. unfold exec.Run. by rewrite (proj2 (Z.leb_gt tc now)). Qed.

Lemma timed_Run_stops cfg delay f tc now cmds : 0 < delay → waits_forward (Supervisor.Backoff cfg) → now ≤ tc →
  (Z.to_nat (tc - now) < List.length cmds)%nat → ∃ acts lives t r,
  timed_Run cfg delay f (Some tc) now cmds = (acts, lives, Returned t r) ∧ t ≤ tc + delay ∧
  (lives = [] ∧ t = now ∧ is_ok r = false ∨ stopped_in_time delay now tc t r lives).
Proof.
  intros Hd Hb Hn Hl. unfold timed_Run. destruct (Supervisor.setup cfg f) as [acts [u|e]].
  - destruct (timed_loop_stops cfg delay tc cmds Hd Hb now 0 (Supervisor.Backoff cfg) Hn Hb Hl) as (lives & t & r & -> & Hs).
    exists acts, lives, t, r. split; [done|]. split; [apply Hs|by right].
  - exists acts, [], now, (Err e). split; [done|]. split; [lia|by left].
Qed.

(** A signal that came before: nothing is started. *)
Lemma timed_Run_cancelled cfg delay f tc now cmds : tc < now → cmds ≠ [] → ∃ acts lives r,
  timed_Run cfg delay f (Some tc) now cmds = (acts, lives, Returned now r) ∧ Forall (λ l, life_cause l = None) lives.
Proof.
  intros Ht Hc. unfold timed_Run. destruct (Supervisor.setup cfg f) as [acts [u|e]]; [|by exists acts, [], (Err e)].
  destruct cmds as [|cmd cmds]; [done|]. assert (Hle : (tc <=? now) = true) by lia.
  assert (Hrun : ∃ err, runMPS delay now (Some tc) cmd = Some (exec.mkFinished now None (Some err))).
  { destruct cmd as [e|e|p]; cbn; [by eexists|by eexists|]. unfold exec.Run. rewrite Hle. by eexists. }
  destruct Hrun as [err Hrun]. cbn [timed_loop]. rewrite Hrun. cbn [ended done_by exec.ended]. rewrite Hle. by do 3 eexists; split; [reflexivity|constructor].
Qed.

(** C21: mpsd, deployed by the operator, labels the node of its pod before it starts anything and
    stops by itself in time.  Whatever the MPS daemon does, whichever attempts fail to start,
    and whenever SIGTERM arrives: the supervisor returns within the configured delay of it
    and at least fourteen seconds before the pod's termination grace ends; it returns nil
    unless it gave up or failed its setup before; no daemon was started after the signal,
    none outlives the supervisor, and one that was killed had the whole delay to quit.  When the signal
    came before the labelling was over, the supervisor returns at once and starts nothing.  For
    every positive delay that fits and a positive backoff, over as many commands as
    nanoseconds until the signal. *)
Theorem mpsd_stops_before_kill {W} {cluster : ClusterAPI W} d opts image field (w : W) init version in_cluster f tc now cmds :
  Forall (λ k, image k = "") mpsd_env → mps_typed (mps_of d) →
  0 < mpsd.grace d ≤ int64_max - 15 * GoTime.Second →
  waits_forward (default (5 * GoTime.Second) (md_Backoff (mps_of d))) →
  (Z.to_nat (tc - now) < List.length cmds)%nat →
  let pod := pod_spec (mpsd.BuildDaemonSet d opts) in
  ∃ c grace, Containers pod = [c] ∧ TerminationGracePeriodSeconds pod = Some grace ∧
  let '(w', e) := mpsd_main (process_env image field (Env c)) (Args c) w init version in_cluster f (Some tc) now cmds in
  let '(w1, err) := LabelCurrentNode w (field "spec.nodeName") init version in_cluster in
  w' = w1 ∧
  match err with
  | Some err => e = LabelFailed err
  | None => ∃ acts lives t r, e = Supervised acts lives (Returned t r) ∧
      (now ≤ tc → t ≤ tc + mpsd.grace d ∧ t + 14 * GoTime.Second ≤ tc + grace * GoTime.Second ∧
         (lives = [] ∧ t = now ∧ is_ok r = false ∨ stopped_in_time (mpsd.grace d) now tc t r lives)) ∧
      (tc < now → t = now ∧ Forall (λ l, life_cause l = None) lives)
  end.
Proof.
  intros Hi Ht Hg Hb Hl pod.
  exists (mpsd.buildContainer d (image_of opts mpsd.daemonName) (mpsd.container_env d opts)).1, (mpsd.terminationGraceSeconds d).
  split; [reflexivity|]. split; [reflexivity|]. cbn [fst mpsd.buildContainer Env Args]. unfold mpsd_main. rewrite mpsd_parses by done.
  assert (process_env image field (mpsd.container_env d opts) "NODE_NAME" = field "spec.nodeName") as ->.
  { unfold process_env, mpsd.container_env, FIPSOnlyEnv. by destruct (FIPSOnly opts). }
  destruct (LabelCurrentNode _ _ _ _ _) as [w1 [err|]]; [done|]. rewrite mps_settings_grace. destruct (Z.le_gt_cases now tc) as [Hn|Hn].
  2:{ destruct (timed_Run_cancelled (supervisorConfig (mpsd_cmd.supervised (mps_settings d (mps_of d)))) (mpsd.grace d) f tc now cmds)
        as (acts & lives & r & Hrun & Hs); [lia|by intros ->; cbn in Hl; lia|].
      rewrite Hrun. split; [done|]. exists acts, lives, now, r. split_and!; [done|lia|done]. }
  destruct (timed_Run_stops (supervisorConfig (mpsd_cmd.supervised (mps_settings d (mps_of d)))) (mpsd.grace d) f tc now cmds)
    as (acts & lives & t & r & Hrun & Hle & Hs); [lia|exact Hb|done|done|].
  rewrite Hrun. split; [done|]. exists acts, lives, t, r. split; [done|]. split; [intros _; split_and!; [done| |done]|lia].
  pose proof (terminationGrace_covers d) as Hcov. unfold mpsd.terminationGraceBuffer in Hcov. lia.
Qed.

(** The signal comes five nanoseconds in; the daemon ignores "quit" and is killed at the end of its
    minute, the pod has fifteen seconds left. *)
Lemma mpsd_stops_before_kill_witness :
  let d := mpsd.mkDaemon None true true in
  let opts := mkBuildOptions "gpu" ∅ [] "sa" None ∅ false false in
  let cmds := repeat (exec.Starts (exec.mkProcess None None true)) 6 in
  let run := timed_Run (supervisorConfig (mpsd_cmd.supervised (mps_settings d (mps_of d)))) (60 * GoTime.Second)
    (Supervisor.mkFaults (λ _, false) (λ _, false)) (Some 5) 0 cmds in
  run.2 = Returned (5 + 60 * GoTime.Second) (Ok tt) ∧
  ∃ c grace, Containers (pod_spec (mpsd.BuildDaemonSet d opts)) = [c] ∧
    TerminationGracePeriodSeconds (pod_spec (mpsd.BuildDaemonSet d opts)) = Some grace ∧
    (5 + 60 * GoTime.Second) + 14 * GoTime.Second ≤ 5 + grace * GoTime.Second.
Proof.
  intros d opts cmds run. split; [vm_compute; reflexivity|].
  destruct (mpsd_stops_before_kill (cluster := cluster_api) d opts (λ _, "") (λ _, "n2") sample_cluster SUCCESS ("615.43.02", SUCCESS) None
    (Supervisor.mkFaults (λ _, false) (λ _, false)) 5 0 cmds) as (c & grace & H1 & H2 & H).
  - by repeat constructor.
  - split_and!; exact I.
  - split; vm_compute; congruence.
  - split; [vm_compute; reflexivity|split; vm_compute; congruence].
  - cbn. lia.
  - exists c, grace. split; [exact H1|]. split; [exact H2|].
    assert (Hc : [(mpsd.buildContainer d (image_of opts mpsd.daemonName) (mpsd.container_env d opts)).1] = [c]) by exact H1.
    injection Hc as Hc.
    assert (Hmain : (mpsd_main (cluster := cluster_api) (process_env (λ _, "") (λ _, "n2") (Env c)) (Args c) sample_cluster SUCCESS
      ("615.43.02", SUCCESS) None (Supervisor.mkFaults (λ _, false) (λ _, false)) (Some 5) 0 cmds).2 =
      Supervised run.1.1 run.1.2 (Returned (5 + 60 * GoTime.Second) (Ok tt))) by (rewrite <- Hc; vm_compute; reflexivity).
    destruct (mpsd_main _ _ _ _ _ _ _ _ _ _) as [w' e]. cbn [snd] in Hmain. subst e.
    destruct (LabelCurrentNode (H := cluster_api) sample_cluster "n2" SUCCESS ("615.43.02", SUCCESS) None) as [w1 [err|]];
      destruct H as [_ H]; [discriminate|].
    destruct H as (acts & lives & t & r & He & H & _). destruct H as (_ & Hle & _); [lia|]. assert (t = 5 + 60 * GoTime.Second) as -> by congruence. exact Hle.
Defined.
