(* ===== verification/FakeMps.v ===== *)
(** * hack/fake-mps: the stand-in for the MPS control daemon

    The whole main function: the sockets it binds in the file tree, the scanner on
    its standard input, the deferred cleanups, and its behaviour as a process under
    mpsd's supervisor.  The file tree maps the components of a path to what is
    there; creating directories and binding a socket may fail.  The mutual
    behaviour with the accepted connections (they are closed at once) changes
    nothing in the tree. *)

From Stdlib Require Import ZArith Lia String Ascii.
From stdpp Require Import base gmap list strings.
From S2P Require Import Prelude GoStrings Annotations Injection Retry MpsConfig MpsDaemon.

#[local] Open Scope string_scope.
#[local] Open Scope list_scope.
#[local] Open Scope Z_scope.

(** ** The file tree *)

Inductive kind := Dir | Socket | Other.
#[global] Instance kind_eq_dec : EqDecision kind.
Proof. solve_decision. Defined.

(** The components of a path, as it is resolved from the root. *)
Abbreviation path := (list string).
Definition path_of (s : string) : path := filter (λ c, c ≠ "" ∧ c ≠ ".") (Split s slash).

Abbreviation tree := (gmap path kind).

(** The directories on the way to a path, and the path itself. *)
Definition steps_to (p : path) : list path := map (λ k, take (S k) p) (seq 0 (List.length p)).

Definition blocks (t : tree) (p : path) : bool := match t !! p with Some Dir | None => false | Some _ => true end.

Definition MkdirAll (fails : bool) (p : path) (t : tree) : result string tree :=
  if fails then Err "mkdir"
  else if existsb (blocks t) (steps_to p) then Err "not a directory"
  else Ok (fold_left (λ t q, <[q := Dir]> t) (steps_to p) t).

Definition below (p q : path) : bool := bool_decide (p `prefix_of` q) && negb (bool_decide (p = q)).

(** [os.Remove]: not a directory with something in it.  Its error is ignored. *)
Definition Remove (p : path) (t : tree) : tree :=
  match t !! p with
  | Some Dir => if existsb (below p) (map_to_list t).*1 then t else delete p t
  | _ => delete p t
  end.

(** [net.Listen] on a UNIX socket: the path must be free and its directory there. *)
Definition Listen (fails : bool) (p : path) (t : tree) : result string tree :=
  if fails then Err "listen"
  else match t !! p with
       | Some _ => Err "address already in use"
       | None => if bool_decide (t !! removelast p = Some Dir) then Ok (<[p := Socket]> t) else Err "no such file or directory"
       end.

(** ** main.go *)

(** Which calls fail, by the path given to them. *)
Record listen_faults := mkListenFaults { mkdir_fails : string → bool; bind_fails : string → bool }.

Definition listen (f : listen_faults) (sock : string) (t : tree) : tree * result string unit :=
  match MkdirAll (mkdir_fails f (PathDir sock)) (path_of (PathDir sock)) t with
  | Err e => (t, Err e)
  | Ok t =>
      let t := Remove (path_of sock) t in
      match Listen (bind_fails f sock) (path_of sock) t with
      | Err e => (t, Err e)
      | Ok t => (t, Ok tt)
      end
  end.

(** The loop over the sockets.  [log.Fatalf] ends the process without the deferred
    cleanups: what was bound before stays in the tree. *)
Fixpoint listen_all (f : listen_faults) (socks : list string) (t : tree) : tree * result string unit :=
  match socks with
  | [] => (t, Ok tt)
  | sock :: socks =>
      match listen f sock t with
      | (t, Err e) => (t, Err e)
      | (t, Ok _) => listen_all f socks t
      end
  end.

(** The cleanup [listen] returns: closing the listener unlinks the socket. *)
Definition cleanup (t : tree) (sock : string) : tree := Remove (path_of sock) (delete (path_of sock) t).

(** Deferred calls run last first. *)
Definition shutdown (socks : list string) (t : tree) : tree := fold_left cleanup (rev socks) t.

(** [os.Getenv] in a child: of several entries os/exec keeps the last. *)
Definition env_entry (key entry : string) : option string := CutPrefix entry (key +:+ "=").
Definition Getenv (environ : list string) (key : string) : string := default "" (last (omap (env_entry key) environ)).

(** The sockets of a run with these arguments. *)
Definition run_sockets (environ args : list string) (ReadFile : string → option string) : list string :=
  let path := configPath args in
  sockets (Getenv environ "CUDA_MPS_PIPE_DIRECTORY") (configuredServers path (ReadFile path)).

Definition startup (f : listen_faults) (environ args : list string) (ReadFile : string → option string) (t : tree)
    : tree * result string unit :=
  listen_all f (run_sockets environ args ReadFile) t.

(** [bufio.Scanner] on standard input: has the loop ended, on what was written so far and
    whether the pipe is closed?  A line of [maxTokenSize] bytes ends the scan. *)
Definition maxTokenSize : nat := Z.to_nat (64 * 1024).
Definition is_quit (line : string) : bool := String.eqb (TrimSpace line) "quit".
Definition scan_ends (input : string) (closed : bool) : bool :=
  let chunks := Split input newline in
  closed || existsb is_quit (removelast chunks) || existsb (λ c, Nat.leb maxTokenSize (String.length c)) chunks.

(** What [runMPS] writes to stop it: [fmt.Fprintln(stdinPipe, "quit")]. *)
Definition quit_message : string := "quit" +:+ String newline "".

(** The process the supervisor sees; [starting] and [stopping] are how long it takes to get
    there. *)
Definition as_process (starting stopping : N) (r : result string unit) : exec.process :=
  match r with
  | Err _ => exec.mkProcess (Some (starting, exec.Exited 1)) None true
  | Ok _ => exec.mkProcess None (if scan_ends quit_message false then Some (stopping, exec.Exited 0) else None) true
  end.

(** ** Lemmas: paths *)

(** An ordinary component of a path. *)
Definition component (c : string) : Prop :=
  c ≠ "" ∧ c ≠ "." ∧ c ≠ ".." ∧ Forall (λ a, a ≠ slash) (bytes_of c).

#[global] Instance component_decision c : Decision (component c).
Proof. unfold component. apply _. Defined.

Definition abs (cs : path) : string := "/" +:+ Join cs "/".

Lemma Split_one c : Forall (λ a, a ≠ slash) (bytes_of c) → Split c slash = [c].
Proof. intros H. unfold Split. rewrite split_list_last by done. cbn. by rewrite string_of_list_ascii_of_string. Qed.

Lemma Split_Join cs : cs ≠ [] → Forall component cs → Split (Join cs "/") slash = cs.
Proof.
  intros Hne H. induction H as [|c cs (_ & _ & _ & Hc) Hcs IH]; [done|]. destruct cs as [|c' cs]; [by apply Split_one|].
  change (Join (c :: c' :: cs) "/") with (c +:+ String slash (Join (c' :: cs) "/")). by rewrite Split_line, IH by done.
Qed.

Lemma Split_abs cs : cs ≠ [] → Forall component cs → Split (abs cs) slash = "" :: cs.
Proof. intros Hne H. change (abs cs) with ("" +:+ String slash (Join cs "/")). by rewrite Split_line, Split_Join by done. Qed.

Lemma clean_components cs : Forall component cs → ∀ rooted st, fold_left (clean_step rooted) cs st = rev cs ++ st.
Proof.
  induction 1 as [|c cs (H1 & H2 & H3 & _) _ IH]; intros rooted st; [done|]. cbn [fold_left rev]. rewrite IH.
  unfold clean_step. rewrite !(proj2 (String.eqb_neq c _)) by done. by rewrite <- app_assoc.
Qed.

Lemma rooted s : HasPrefix (String slash s) "/" = true.
Proof. change "/" with (String slash ""). by rewrite HasPrefix_cons, HasPrefix_nil. Qed.

Lemma Clean_abs cs : cs ≠ [] → Forall component cs → Clean (abs cs) = abs cs.
Proof.
  intros Hne H. unfold Clean. change (HasPrefix (abs cs) "/") with (HasPrefix (String slash (Join cs "/")) "/"). rewrite rooted. rewrite Split_abs by done.
  cbn [fold_left]. change (clean_step true [] "") with (@nil string). rewrite clean_components by done.
  by rewrite app_nil_r, rev_involutive.
Qed.

Lemma Join_app a b : a ≠ [] → b ≠ [] → Join (a ++ b) "/" = Join a "/" +:+ "/" +:+ Join b "/".
Proof.
  intros Ha. revert a Ha. induction b as [|x b IH]; intros a Ha; [done|]. intros _. destruct b as [|y b]; [by apply Join_snoc|].
  change (a ++ x :: y :: b) with (a ++ [x] ++ (y :: b)). rewrite app_assoc, IH by (done || by destruct a).
  rewrite Join_snoc by done. change (Join (x :: y :: b) "/") with (x +:+ "/" +:+ Join (y :: b) "/"). by rewrite !str_app_assoc.
Qed.

Lemma PathJoin_abs cs xs : cs ≠ [] → xs ≠ [] → Forall component cs → Forall component xs → PathJoin (abs cs :: xs) = abs (cs ++ xs).
Proof.
  intros H1 H2 Hc Hx. unfold PathJoin. rewrite filter_cons_True by done.
  assert (filter (λ e, e ≠ "") xs = xs) as ->.
  { clear H2. induction Hx as [|x xs (Hx & _) _ IH]; [done|]. by rewrite filter_cons_True, IH. }
  assert (Join (abs cs :: xs) "/" = abs (cs ++ xs)) as ->.
  { unfold abs. rewrite Join_app by done. destruct xs; [done|]. done. }
  apply Clean_abs; [by destruct cs|by apply Forall_app].
Qed.

Lemma LastIndex_last p c : Forall (λ a, a ≠ slash) (bytes_of c) → LastIndex (p +:+ String slash c) "/" = Some (String.length p).
Proof.
  intros Hc. induction p as [|x p IH].
  - change (LastIndex ("" +:+ String slash c) "/") with
      (match LastIndex c "/" with Some i => Some (S i) | None => if HasPrefix (String slash c) "/" then Some 0%nat else None end).
    by rewrite LastIndex_absent, rooted.
  - rewrite str_app_cons. cbn [LastIndex]. by rewrite IH.
Qed.

Lemma PathDir_abs cs c : cs ≠ [] → Forall component cs → component c → PathDir (abs (cs ++ [c])) = abs cs.
Proof.
  intros Hne H (H1 & _ & _ & Hc). unfold PathDir, abs at 1 2. rewrite Join_snoc by done.
  change ("/" +:+ Join cs "/" +:+ "/" +:+ c) with ("/" +:+ (Join cs "/" +:+ String slash c)). rewrite <- str_app_assoc.
  rewrite LastIndex_last by done. fold (abs cs).
  assert (str_take (S (String.length (abs cs))) (abs cs +:+ String slash c) = abs cs +:+ String slash "") as ->.
  { replace (abs cs +:+ String slash c) with ((abs cs +:+ String slash "") +:+ c) by by rewrite str_app_assoc.
    replace (S (String.length (abs cs))) with (String.length (abs cs +:+ String slash "")) by (rewrite str_length_app; cbn; lia).
    apply str_take_app. }
  unfold Clean. assert (HasPrefix (abs cs +:+ String slash "") "/" = true) as -> by apply rooted.
  rewrite Split_app, Split_abs by done. rewrite fold_left_app. cbn [fold_left].
  change (clean_step true [] "") with (@nil string). rewrite (clean_components cs) by done. rewrite app_nil_r. cbn.
  by rewrite rev_involutive.
Qed.

Lemma path_of_abs cs : cs ≠ [] → Forall component cs → path_of (abs cs) = cs.
Proof.
  intros Hne H. unfold path_of. rewrite Split_abs by done. rewrite filter_cons_False by tauto. clear Hne.
  induction H as [|c cs (H1 & H2 & _) _ IH]; [done|]. by rewrite filter_cons_True, IH by done.
Qed.

(** ** Lemmas: the tree *)

Lemma elem_of_steps_to q p : q ∈ steps_to p ↔ ∃ k, (1 ≤ k ≤ List.length p)%nat ∧ q = take k p.
Proof.
  unfold steps_to. rewrite list_elem_of_fmap. split.
  - intros (k & -> & Hk%elem_of_seq). exists (S k). split; [lia|done].
  - intros (k & Hk & ->). exists (pred k). split; [f_equal; lia|]. apply elem_of_seq. lia.
Qed.

Lemma mkdirs_lookup l : ∀ (t : tree) q, fold_left (λ t q, <[q := Dir]> t) l t !! q = if decide (q ∈ l) then Some Dir else t !! q.
Proof.
  induction l as [|p l IH]; intros t q; cbn [fold_left]; [by rewrite decide_False by apply not_elem_of_nil|].
  rewrite IH. destruct (decide (q = p)) as [->|Hne].
  - rewrite lookup_insert_eq, (decide_True (P := p ∈ p :: l)) by left. by case_decide.
  - rewrite lookup_insert_ne by done. assert (Hiff : q ∈ p :: l ↔ q ∈ l) by (rewrite elem_of_cons; tauto).
    by destruct (decide (q ∈ l)); [rewrite decide_True|rewrite decide_False]; rewrite ?Hiff.
Qed.

(** The directories that must be there for sockets at these paths. *)
Definition dirs (ps : list path) : list path := concat (map (λ p, steps_to (removelast p)) ps).

(** Nothing is in the way: stale sockets may be there, but no directory in their place and
    nothing else where a directory is needed. *)
Definition ready (ps : list path) (t : tree) : Prop :=
  (∀ p, p ∈ ps → t !! p ≠ Some Dir) ∧ (∀ q, q ∈ dirs ps → blocks t q = false).

Definition no_faults : listen_faults := mkListenFaults (λ _, false) (λ _, false).

(** What is at a path once the sockets are bound. *)
Definition served (ps : list path) (t : tree) (q : path) : option kind :=
  if decide (q ∈ ps) then Some Socket else if decide (q ∈ dirs ps) then Some Dir else t !! q.

(** A socket's name and path: at least one directory above it. *)
Definition placed (sock : string) (p : path) : Prop :=
  path_of sock = p ∧ path_of (PathDir sock) = removelast p ∧ removelast p ≠ [].

Lemma removelast_steps p : removelast p ≠ [] → removelast p ∈ steps_to (removelast p) ∧ p ∉ steps_to (removelast p).
Proof.
  intros H. split.
  - apply elem_of_steps_to. exists (List.length (removelast p)). rewrite firstn_all. split; [|done].
    destruct (removelast p); [done|cbn; lia].
  - intros (k & Hk & Heq)%elem_of_steps_to. assert (Hl : List.length p = k) by (rewrite Heq, length_firstn; lia).
    destruct p as [|x p]; [done|]. pose proof (@app_removelast_last _ (x :: p) "" ltac:(done)) as Hp.
    apply (f_equal (@List.length _)) in Hp. rewrite length_app in Hp. cbn [List.length] in *. lia.
Qed.

Lemma listen_result f sock p t : placed sock p → ready [p] t →
  let '(t', r) := listen f sock t in
  (∀ q, q ≠ p → t' !! q = t !! q ∨ q ∈ dirs [p] ∧ t' !! q = Some Dir) ∧
  (t' !! p = t !! p ∨ t' !! p = None ∨ t' !! p = Some Socket) ∧
  (f = no_faults → r = Ok tt ∧ ∀ q, t' !! q = served [p] t q).
Proof.
  intros (Hp & Hdir & Hne) [Hfree Hblock]. destruct (removelast_steps p Hne) as [Hin Hnot].
  unfold listen. rewrite Hp, Hdir. unfold MkdirAll. destruct (mkdir_fails f _) eqn:Ef.
  { split; [by left|]. split; [by left|]. by intros ->. }
  assert (existsb (blocks t) (steps_to (removelast p)) = false) as ->.
  { apply not_true_iff_false. intros (q & Hq & Hb)%existsb_exists. apply list_elem_of_In in Hq.
    rewrite Hblock in Hb; [done|]. unfold dirs. cbn. by rewrite app_nil_r. }
  set (t1 := fold_left _ _ t). assert (Ht1 : ∀ q, t1 !! q = if decide (q ∈ steps_to (removelast p)) then Some Dir else t !! q)
    by apply mkdirs_lookup.
  assert (Remove p t1 = delete p t1) as ->.
  { unfold Remove. rewrite Ht1, decide_False by done. destruct (t !! p) as [[]|] eqn:Et; [|done..].
    by destruct (Hfree p); [left|]. }
  unfold dirs. cbn [map concat]. rewrite app_nil_r. unfold Listen.
  assert (Hoth : ∀ q, q ≠ p → t1 !! q = t !! q ∨ q ∈ steps_to (removelast p) ∧ t1 !! q = Some Dir).
  { intros q Hq. rewrite Ht1. case_decide; auto. }
  destruct (bind_fails f sock) eqn:Eb.
  { split; [intros q Hq; rewrite lookup_delete_ne by done; auto|]. rewrite lookup_delete_eq. split; [auto|by intros ->]. }
  assert (Hrp : removelast p ≠ p) by (intros Heq; by rewrite Heq in Hin, Hnot).
  rewrite lookup_delete_eq, lookup_delete_ne by done. rewrite bool_decide_eq_true_2 by (rewrite Ht1; by rewrite decide_True).
  split; [intros q Hq; rewrite lookup_insert_ne, lookup_delete_ne by done; auto|]. rewrite lookup_insert_eq. split; [auto|].
  intros _. split; [done|]. intros q. unfold served, dirs. cbn [map concat]. rewrite app_nil_r.
  destruct (decide (q = p)) as [->|Hq]; [by rewrite lookup_insert_eq, decide_True by left|].
  rewrite lookup_insert_ne, lookup_delete_ne by done. rewrite decide_False by (rewrite list_elem_of_singleton; done). apply Ht1.
Qed.

(** No socket is on the way to another. *)
Definition apart (ps : list path) : Prop := ∀ p, p ∈ ps → p ∉ dirs ps.

Lemma dirs_cons p ps : dirs (p :: ps) = dirs [p] ++ dirs ps.
Proof. unfold dirs. cbn. by rewrite app_nil_r. Qed.

Lemma apart_cons p ps : apart (p :: ps) → p ∉ dirs ps ∧ p ∉ dirs [p] ∧ (∀ q, q ∈ ps → q ∉ dirs [p]) ∧ apart ps.
Proof.
  intros H. assert (∀ q, q ∈ (p :: ps) → q ∉ dirs [p] ∧ q ∉ dirs ps) as Hq.
  { intros q Hq. specialize (H q Hq). rewrite dirs_cons, not_elem_of_app in H. done. }
  split_and!; [apply Hq; left..| |]; intros q Hin; apply Hq; by right.
Qed.

Lemma ready_cons p ps t : ready (p :: ps) t ↔ ready [p] t ∧ ready ps t.
Proof.
  unfold ready. rewrite (dirs_cons p ps). split.
  - intros [H1 H2]. split_and!; intros q Hq; first [apply H1|apply H2]; set_solver.
  - intros [[H1 H2] [H3 H4]]. split; intros q.
    + intros [->|Hq]%elem_of_cons; [apply H1; left|by apply H3].
    + intros [Hq|Hq]%elem_of_app; [by apply H2|by apply H4].
Qed.

(** Whatever fails, a start leaves the rest of the tree alone and the way free for the next. *)
Lemma listen_keeps_ready f sock p ps t : placed sock p → apart (p :: ps) → ready (p :: ps) t →
  ready (p :: ps) (listen f sock t).1.
Proof.
  intros Hpl Hap Hr. pose proof (apart_cons _ _ Hap) as (Hp & Hpp & Hqs & _). apply ready_cons in Hr as [Hr1 [Hr2 Hr3]].
  pose proof (listen_result f sock p t Hpl Hr1) as H. destruct (listen f sock t) as [t' r]. cbn [fst].
  destruct H as (Hoth & Hat & _). destruct Hr1 as [Hr1 Hr1'].
  assert (Hblk : ∀ q, q ≠ p → blocks t q = false → blocks t' q = false).
  { intros q Hq Hb. unfold blocks in *. destruct (Hoth q Hq) as [->|[_ ->]]; done. }
  apply ready_cons. split; split.
  - intros q ->%list_elem_of_singleton. destruct Hat as [->|[->| ->]]; [apply Hr1; left|done|done].
  - intros q Hq. apply Hblk; [by intros ->|auto].
  - intros q Hq. destruct (decide (q = p)) as [->|Hne]; [destruct Hat as [->|[->| ->]]; [apply Hr1; left|done|done]|].
    destruct (Hoth q Hne) as [->|[Hd _]]; [auto|]. by destruct (Hqs q Hq).
  - intros q Hq. apply Hblk; [by intros ->|auto].
Qed.

Lemma listen_all_spec f socks ps : Forall2 placed socks ps → apart ps → ∀ t, ready ps t →
  let '(t', r) := listen_all f socks t in
  ready ps t' ∧ (∀ q, q ∉ ps → q ∉ dirs ps → t' !! q = t !! q) ∧
  (f = no_faults → r = Ok tt ∧ ∀ q, t' !! q = served ps t q).
Proof.
  induction 1 as [|sock p socks ps Hpl Hf IH]; intros Hap t Hr; cbn [listen_all].
  { by split_and!. }
  pose proof (listen_keeps_ready f sock p ps t Hpl Hap Hr) as Hr'.
  pose proof (apart_cons _ _ Hap) as (Hp & Hpp & Hqs & Hap'). pose proof (proj1 (ready_cons _ _ _) Hr) as [Hr1 _].
  pose proof (listen_result f sock p t Hpl Hr1) as H. destruct (listen f sock t) as [t1 r1]. cbn [fst] in Hr'.
  destruct H as (Hoth & _ & Hok).
  assert (Hfar : ∀ q, q ∉ p :: ps → q ∉ dirs (p :: ps) → t1 !! q = t !! q).
  { intros q [Hq _]%not_elem_of_cons Hd. rewrite dirs_cons, not_elem_of_app in Hd. destruct (Hoth q Hq) as [?|[? _]]; [done|tauto]. }
  destruct r1 as [[]|e]; [|split_and!; [done|done|intros Hf0; by destruct (Hok Hf0)]].
  pose proof (proj1 (ready_cons _ _ _) Hr') as [Hr1' Hr2']. specialize (IH Hap' t1 Hr2').
  pose proof (Hok) as Hok'. destruct (listen_all f socks t1) as [t2 r]. destruct IH as (Hrd & Hsame & Hfin).
  assert (Hp2 : p ∈ ps ∨ t2 !! p = t1 !! p) by (destruct (decide (p ∈ ps)); [by left|right; by apply Hsame]).
  split_and!.
  - apply ready_cons. split; [|done]. split.
    + intros q ->%list_elem_of_singleton. destruct Hp2 as [Hin| ->]; [by apply Hrd|apply Hr1'; left].
    + intros q Hq. destruct (decide (q ∈ dirs ps)) as [Hd|Hd]; [by apply Hrd|]. unfold blocks. rewrite Hsame; [by apply Hr1'| |done].
      intros Hin. by apply (Hqs q Hin).
  - intros q Hq Hd. pose proof Hq as [_ Hq']%not_elem_of_cons. rewrite Hsame; [by apply Hfar|done|].
    rewrite dirs_cons, not_elem_of_app in Hd. tauto.
  - intros Hf0. destruct (Hok Hf0) as [_ Hs1], (Hfin Hf0) as [-> Hs2]. split; [done|]. intros q. rewrite Hs2. unfold served in *.
    rewrite dirs_cons, Hs1. destruct (decide (q ∈ ps)) as [Hq|Hq]; [by rewrite decide_True by (by right)|].
    destruct (decide (q = p)) as [->|Hne].
    + rewrite (decide_False (P := p ∈ dirs ps)) by done. by rewrite (decide_True (P := p ∈ [p])), (decide_True (P := p ∈ p :: ps)) by left.
    + rewrite (decide_False (P := q ∈ [p])), (decide_False (P := q ∈ p :: ps)) by set_solver.
      destruct (decide (q ∈ dirs ps)); [by rewrite decide_True by (apply elem_of_app; by right)|].
      destruct (decide (q ∈ dirs [p])); [rewrite decide_True|rewrite decide_False]; set_solver.
Qed.

(** A start over what an earlier run left finds the same sockets. *)
Lemma served_twice ps t t' : (∀ q, t' !! q = served ps t q) → ∀ q, served ps t' q = t' !! q.
Proof. intros H q. unfold served. rewrite H. unfold served. repeat case_decide; done. Qed.

Lemma placed_paths socks ps : Forall2 placed socks ps → map path_of socks = ps.
Proof. induction 1 as [|sock p socks ps (Hp & _) _ IH]; cbn; [done|]. by rewrite Hp, IH. Qed.

Lemma shutdown_lookup socks t q : shutdown socks t !! q = if decide (q ∈ map path_of socks) then None else t !! q.
Proof.
  assert (Hc : ∀ t sock, cleanup t sock = delete (path_of sock) t).
  { intros t0 sock. unfold cleanup, Remove. rewrite lookup_delete_eq. apply map_eq. intros q0. rewrite !lookup_delete. by repeat case_decide. }
  assert (Hgen : ∀ l t, fold_left cleanup l t !! q = if decide (q ∈ map path_of l) then None else t !! q).
  { induction l as [|sock l IH]; intros t0; cbn [fold_left map]; [by rewrite decide_False by apply not_elem_of_nil|].
    rewrite IH, Hc. destruct (decide (q = path_of sock)) as [->|Hne].
    - rewrite lookup_delete_eq, (decide_True (P := _ ∈ _ :: _)) by left. by case_decide.
    - rewrite lookup_delete_ne by done. assert (Hiff : q ∈ path_of sock :: map path_of l ↔ q ∈ map path_of l) by (rewrite elem_of_cons; tauto).
      destruct (decide (q ∈ map path_of l)); [rewrite decide_True|rewrite decide_False]; by rewrite ?Hiff. }
  unfold shutdown. rewrite Hgen, map_rev. assert (q ∈ map path_of socks ↔ q ∈ rev (map path_of socks)) as Hin by (rewrite !list_elem_of_In; apply in_rev).
  destruct (decide (q ∈ map path_of socks)); [rewrite decide_True|rewrite decide_False]; by rewrite <- ?Hin.
Qed.

(** ** The run that mpsd starts *)

(** The sockets below the pipe directory. *)
Definition pipe_paths (cs : path) (sm : bool) : list path :=
  (cs ++ ["control"]) :: (if sm then [(cs ++ ["shared"; "default"; "control"])] else []).

Lemma placed_abs (cs xs : path) x : cs ≠ [] → Forall component cs → Forall component xs → component x →
  placed (abs (cs ++ xs ++ [x])) (cs ++ xs ++ [x]).
Proof.
  intros Hne Hcs Hxs Hx. unfold placed. rewrite !app_assoc. rewrite removelast_last.
  rewrite PathDir_abs by (done || (by destruct cs) || by apply Forall_app).
  split_and!; [apply path_of_abs|apply path_of_abs|]; try (by destruct cs); repeat (apply Forall_app; split); try done.
  by constructor.
Qed.

Lemma pipe_paths_placed (cs : path) (sm : bool) : cs ≠ [] → Forall component cs →
  Forall2 placed (sockets (abs cs) (if sm then ["shared"] else [])) (pipe_paths cs sm).
Proof.
  intros Hne Hcs. assert (Forall component ["control"; "shared"; "default"]) as (H1 & (H2 & (H3 & _)%Forall_cons)%Forall_cons)%Forall_cons.
  { apply (bool_decide_eq_true_1 _). vm_compute. reflexivity. }
  assert (Forall component ["shared"; "default"]) by (by repeat apply Forall_cons_2).
  unfold sockets, pipe_paths. change (String.eqb (abs cs) "") with false. cbn [map].
  rewrite PathJoin_abs by (done || by apply Forall_cons_2).
  constructor; [by apply (placed_abs cs [] "control")|]. destruct sm; [|constructor]. cbn [map].
  rewrite PathJoin_abs by (done || by repeat apply Forall_cons_2).
  constructor; [|constructor]. by apply (placed_abs cs ["shared"; "default"] "control").
Qed.

Lemma elem_of_dirs_pipe cs sm q : q ∈ dirs (pipe_paths cs sm) →
  ∃ k, q = take k (cs ++ ["shared"; "default"]) ∧ (1 ≤ k ≤ List.length cs + 2)%nat.
Proof.
  unfold dirs, pipe_paths. cbn [map concat]. rewrite removelast_last, elem_of_app.
  intros [(k & Hk & ->)%elem_of_steps_to|Hq].
  - exists k. rewrite take_app_le by lia. split; [done|lia].
  - destruct sm; [|by apply elem_of_nil in Hq]. cbn [map concat] in Hq. rewrite app_nil_r in Hq.
    change (cs ++ ["shared"; "default"; "control"]) with (cs ++ ["shared"; "default"] ++ ["control"]) in Hq.
    rewrite app_assoc, removelast_last in Hq. apply elem_of_steps_to in Hq as (k & Hk & ->). exists k. split; [done|].
    rewrite length_app in Hk. cbn in Hk. lia.
Qed.

Lemma pipe_paths_apart cs sm : apart (pipe_paths cs sm).
Proof.
  intros p Hp (k & -> & Hk)%elem_of_dirs_pipe. unfold pipe_paths in Hp. apply elem_of_cons in Hp as [Hp|Hp].
  - assert (Hl : k = S (List.length cs)).
    { apply (f_equal (@List.length _)) in Hp. rewrite length_firstn, !length_app in Hp. cbn in Hp. lia. }
    rewrite Hl, take_app, firstn_all2 in Hp by lia. replace (S (List.length cs) - List.length cs)%nat with 1%nat in Hp by lia.
    apply app_inv_head in Hp. done.
  - destruct sm; [|by apply elem_of_nil in Hp]. apply list_elem_of_singleton in Hp.
    apply (f_equal (@List.length _)) in Hp. rewrite length_firstn, !length_app in Hp. cbn in Hp. lia.
Qed.

(** The child reads the pipe directory the supervisor set, whatever it inherits. *)
Lemma Getenv_pipe environ pipe log : pipe ≠ "" →
  Getenv (environ ++ ["CUDA_MPS_PIPE_DIRECTORY=" +:+ pipe; "CUDA_MPS_LOG_DIRECTORY=" +:+ log]) "CUDA_MPS_PIPE_DIRECTORY" = pipe.
Proof.
  intros _. unfold Getenv. rewrite omap_app.
  assert (omap (env_entry "CUDA_MPS_PIPE_DIRECTORY") ["CUDA_MPS_PIPE_DIRECTORY=" +:+ pipe; "CUDA_MPS_LOG_DIRECTORY=" +:+ log] = [pipe]) as ->.
  { cbn [omap list_omap]. unfold env_entry, CutPrefix.
    rewrite (proj2 (HasPrefix_spec _ ("CUDA_MPS_PIPE_DIRECTORY" +:+ "="))) by (by exists pipe).
    assert (HasPrefix ("CUDA_MPS_LOG_DIRECTORY=" +:+ log) ("CUDA_MPS_PIPE_DIRECTORY" +:+ "=") = false) as ->; [|done].
    apply not_true_iff_false. intros [r Hr]%HasPrefix_spec. discriminate. }
  by rewrite last_snoc.
Qed.

Lemma quit_is_read : scan_ends quit_message false = true.
Proof. vm_compute. reflexivity. Qed.

(** The sockets of the run that [runMPS] starts, and where they are. *)
Lemma started_sockets f cs environ ReadFile : cs ≠ [] → Forall component cs → pipeDir f = abs cs → controlPort f ≠ "-a" →
  configPathFlag f ≠ "" → ReadFile (configPathFlag f) = Some (Supervisor.ConfigContent (supervisorConfig f)) →
  ∃ bin args env, Supervisor.runMPS (supervisorConfig f) environ = Supervisor.StartMPS bin args env ∧
    Forall2 placed (run_sockets env args ReadFile) (pipe_paths cs (supportSMSharing f)).
Proof.
  intros Hne Hcs Hpipe Hport Hpath Hread. eexists _, _, _. split; [reflexivity|].
  unfold run_sockets. unfold supervisorConfig in *. cbn [Supervisor.PipeDir Supervisor.LogDir Supervisor.ControlPort
    Supervisor.ConfigPath Supervisor.Multiuser Supervisor.ConfigContent] in *.
  rewrite Hpipe, Getenv_pipe by done. rewrite configPath_args, Hread, configured_servers by done.
  by apply pipe_paths_placed.
Qed.

(** The directory fractiond mounts for a compute mode is the parent of one of them. *)
Lemma mounted_socket cs sm mode : cs ≠ [] → Forall component cs → (mode = ComputeModeSMSharing → sm = true) →
  ∃ p, p ∈ pipe_paths cs sm ∧ p = path_of (MPSPipeMount (abs cs) mode).1 ++ ["control"] ∧ removelast p ≠ [].
Proof.
  intros Hne Hcs Hm. unfold MPSPipeMount. case_bool_decide as Hmode; cbn [fst].
  - rewrite (Hm Hmode). exists (cs ++ ["shared"; "default"; "control"]). split; [right; left|].
    assert (PathJoin [abs cs; SharedMPSSocketPath] = abs (cs ++ ["shared"; "default"])) as ->.
    { unfold PathJoin. rewrite !filter_cons_True, filter_nil by done.
      assert (Join [abs cs; SharedMPSSocketPath] "/" = abs (cs ++ ["shared"; "default"])) as ->; [unfold abs; by rewrite Join_app by done|].
      apply Clean_abs; [by destruct cs|]. apply Forall_app. split; [done|]. apply (bool_decide_eq_true_1 _). vm_compute. reflexivity. }
    rewrite path_of_abs; [|by destruct cs|apply Forall_app; split; [done|apply (bool_decide_eq_true_1 _); vm_compute; reflexivity]].
    rewrite <- app_assoc. split; [done|]. change (cs ++ ["shared"; "default"; "control"]) with (cs ++ ["shared"; "default"] ++ ["control"]).
    rewrite app_assoc, removelast_last. by destruct cs.
  - exists (cs ++ ["control"]). rewrite path_of_abs, removelast_last by done. split_and!; [left|done|done].
Qed.

(** C27: the daemon that mpsd starts, with fake-mps in its place, serves the pipe directory
    fractiond mounts.  Started as [runMPS] starts it, over a tree where at most stale sockets
    are in the way, it comes up with a control socket in the directory that fractiond
    bind-mounts for each supported compute mode, which is a directory by then, and it
    creates no socket but these: none for sm-sharing when that is switched off.  Told
    to quit by the supervisor it exits with status 0 and removes exactly its sockets.  And
    a start that failed half-way or was killed leaves the tree such that the next one
    comes up with the same sockets. *)
Theorem daemon_serves_pipe f cs environ ReadFile t (starting stopping : N)
  (Hne : cs ≠ []) (Hcs : Forall component cs) (Hpipe : pipeDir f = abs cs)
  (Hport : controlPort f ≠ "-a") (Hpath : configPathFlag f ≠ "")
  (Hread : ReadFile (configPathFlag f) = Some (Supervisor.ConfigContent (supervisorConfig f)))
  (Hready : ready (pipe_paths cs (supportSMSharing f)) t) :
  ∃ bin args env, Supervisor.runMPS (supervisorConfig f) environ = Supervisor.StartMPS bin args env ∧
  let socks := run_sockets env args ReadFile in
  let '(up, r) := startup no_faults env args ReadFile t in
  r = Ok tt ∧
  (∀ mode, (mode = ComputeModeSMSharing → supportSMSharing f = true) →
     let mount := path_of (MPSPipeMount (pipeDir f) mode).1 in
     up !! mount = Some Dir ∧ up !! (mount ++ ["control"]) = Some Socket) ∧
  (∀ q, up !! q = Some Socket → t !! q = Some Socket ∨ q ∈ pipe_paths cs (supportSMSharing f)) ∧
  (∀ delay start tc, 0 < delay → Z.of_N stopping ≤ delay → start < tc →
     runMPS delay start (Some tc) (exec.Starts (as_process starting stopping r)) =
       Some (exec.mkFinished (tc + Z.of_N stopping) (Some (exec.ByQuit (exec.Exited 0))) (Some exec.ContextCanceled))) ∧
  (∀ q, shutdown socks up !! q = if decide (q ∈ pipe_paths cs (supportSMSharing f)) then None else up !! q) ∧
  (∀ faults, let '(again, r') := startup no_faults env args ReadFile (startup faults env args ReadFile t).1 in
     r' = Ok tt ∧ ∀ q, q ∈ pipe_paths cs (supportSMSharing f) → again !! q = Some Socket).
Proof.
  destruct (started_sockets f cs environ ReadFile Hne Hcs Hpipe Hport Hpath Hread) as (bin & args & env & Hrun & Hplaced).
  exists bin, args, env. split; [done|]. cbv zeta. unfold startup.
  pose proof (pipe_paths_apart cs (supportSMSharing f)) as Hap. set (ps := pipe_paths cs (supportSMSharing f)) in *.
  assert (Hstart : ∀ t0, ready ps t0 → let '(t', r) := listen_all no_faults (run_sockets env args ReadFile) t0 in
    r = Ok tt ∧ ∀ q, t' !! q = served ps t0 q).
  { intros t0 H0. pose proof (listen_all_spec no_faults _ _ Hplaced Hap t0 H0) as H. destruct (listen_all _ _ _). by apply H. }
  pose proof (Hstart t Hready) as Hup. destruct (listen_all no_faults _ t) as [up r]. destruct Hup as [-> Hup].
  split; [done|]. split; [|split; [|split; [|split]]].
  - intros mode Hm. rewrite Hpipe. destruct (mounted_socket cs _ mode Hne Hcs Hm) as (p & Hp & Heq & Hrl). rewrite <- Heq, !Hup.
    assert (path_of (MPSPipeMount (abs cs) mode).1 = removelast p) as -> by by rewrite Heq, removelast_last.
    assert (removelast p ∈ dirs ps) as Hd.
    { unfold dirs. apply list_elem_of_In, in_concat. exists (steps_to (removelast p)). split; [|by apply list_elem_of_In, removelast_steps].
      apply list_elem_of_In, list_elem_of_fmap. by exists p. }
    unfold served. rewrite (decide_True (P := p ∈ ps)) by done. rewrite decide_False by (intros Hin; by apply (Hap _ Hin)).
    by rewrite decide_True by done.
  - intros q. rewrite Hup. unfold served. repeat case_decide; auto. done.
  - intros delay start tc Hd Hs Ht. cbn [as_process runMPS]. rewrite quit_is_read. unfold exec.Run, exec.own_candidate, exec.cancelled_candidate.
    cbn [exec.own_end exec.quit_end exec.stdin_open fmap option_fmap option_map fst snd].
    rewrite (proj2 (Z.leb_gt tc start)) by lia. rewrite (proj2 (Z.eqb_neq delay 0)) by lia. cbn [exec.earlier].
    by rewrite (proj2 (Z.leb_le (tc + Z.of_N stopping) _)) by lia.
  - intros q. rewrite shutdown_lookup, (placed_paths _ _ Hplaced). done.
  - intros faults. pose proof (listen_all_spec faults _ _ Hplaced Hap t Hready) as H.
    destruct (listen_all faults _ t) as [left r']. cbn [fst]. destruct H as [Hrd _]. specialize (Hstart left Hrd).
    destruct (listen_all no_faults _ left) as [again r'']. destruct Hstart as [-> Ha]. split; [done|].
    intros q Hq. rewrite Ha. unfold served. by rewrite decide_True.
Qed.

(** A node where an earlier daemon was killed: its sockets and a foreign file are there. *)
Definition stale_tree : tree :=
  <[["run"; "nvidia-mps"; "control"] := Socket]> (<[["run"; "nvidia-mps"; "shared"; "default"; "control"] := Socket]>
    (<[["run"] := Dir]> (<[["run"; "nvidia-mps"] := Dir]> {[["run"; "nvidia-mps"; "log"] := Other]}))).

Lemma daemon_serves_pipe_witness :
  ready (pipe_paths ["run"; "nvidia-mps"] true) stale_tree ∧
  let cfg := supervisorConfig example_mpsd_flags in
  let args := Supervisor.buildMPSArgs (Supervisor.ControlPort cfg) (Supervisor.ConfigPath cfg) (Supervisor.Multiuser cfg) in
  ∃ env, let '(up, r) := startup no_faults env args (λ _, Some (Supervisor.ConfigContent cfg)) stale_tree in
    r = Ok tt ∧ up !! ["run"; "nvidia-mps"; "shared"; "default"] = Some Dir ∧
    up !! ["run"; "nvidia-mps"; "shared"; "default"; "control"] = Some Socket.
Proof.
  assert (Hready : ready (pipe_paths ["run"; "nvidia-mps"] true) stale_tree).
  { split; [apply Forall_forall|apply (Forall_forall (λ q, blocks stale_tree q = false))];
      eapply (bool_decide_eq_true_1 _); vm_compute; reflexivity. }
  split; [exact Hready|]. intros cfg args.
  destruct (daemon_serves_pipe example_mpsd_flags ["run"; "nvidia-mps"] [] (λ _, Some (Supervisor.ConfigContent cfg)) stale_tree 0 0)
    as (bin & args' & env & Hrun & H).
  - discriminate.
  - eapply (bool_decide_eq_true_1 _). vm_compute. reflexivity.
  - reflexivity.
  - vm_compute. discriminate.
  - vm_compute. discriminate.
  - reflexivity.
  - exact Hready.
  - unfold Supervisor.runMPS in Hrun. injection Hrun as _ <- _. exists env. change (Supervisor.buildMPSArgs _ _ _) with args in H. destruct (startup _ _ _ _ _) as [up r].
    destruct H as (Hr & Hm & _). split; [exact Hr|]. exact (Hm ComputeModeSMSharing (λ _, eq_refl)).
Defined.
