(* ===== verification/Metricsd.v ===== *)
(** * metricsd: the goroutines of the exporter

    [New], [Start] and [Stop] of [internal/metrics/exporter.go], the [Run] loops of
    the collector and of the engine, the handling of scrapes, and [cmd/main.go],
    as a step relation: the threads are the main goroutine, the collector, the
    engine and one goroutine per HTTP request, and a step of any of them may come
    next.  A poll of NVML, a collect cycle and a refresh of the gauges are not
    atomic: a poll is in progress between two steps, a cycle reads its inputs in
    one step and publishes in another, and a refresh writes one gauge at a time
    under the exporter's mutex while other requests may be reading the gauges, which
    the mutex does not cover. *)

From Stdlib Require Import ZArith Lia String.
From stdpp Require Import base gmap list strings relations.
From S2P Require Import Prelude GoStrings Runtime Store Float64 Nvml PodSource Metrics Exporter DaemonFlags.

#[local] Open Scope string_scope.
#[local] Open Scope list_scope.
#[local] Open Scope Z_scope.

(** ** Refreshing one gauge at a time *)

Inductive gauge := MemoryGauge | SMGauge | NormalizedGauge.

(** A single write of [observe]. *)
Inductive op :=
| SetValue (g : gauge) (labels : Labels) (x : float64)
| DeleteValue (g : gauge) (labels : Labels)
| Know (key : podGPUKey) (labels : Labels)
| Forget (key : podGPUKey).

Section writes.
Context {V : Type} `{HV : GaugeVec V}.

Definition column (g : gauge) (r : Exporter V) : V :=
  match g with MemoryGauge => memoryBytes r | SMGauge => smUtilization r | NormalizedGauge => smUtilizationNormalized r end.

Definition set_column (g : gauge) (v : V) (r : Exporter V) : Exporter V :=
  match g with
  | MemoryGauge => mkExporter v (smUtilization r) (smUtilizationNormalized r) (knownLabels r)
  | SMGauge => mkExporter (memoryBytes r) v (smUtilizationNormalized r) (knownLabels r)
  | NormalizedGauge => mkExporter (memoryBytes r) (smUtilization r) v (knownLabels r)
  end.

Definition set_known (m : gmap podGPUKey Labels) (r : Exporter V) : Exporter V :=
  mkExporter (memoryBytes r) (smUtilization r) (smUtilizationNormalized r) m.

Definition apply_op (r : Exporter V) (o : op) : Exporter V :=
  match o with
  | SetValue g l x => set_column g (vec_set l x (column g r)) r
  | DeleteValue g l => set_column g (vec_delete l (column g r)) r
  | Know k l => set_known (<[k := l]> (knownLabels r)) r
  | Forget k => set_known (delete k (knownLabels r)) r
  end.
Definition apply_ops (r : Exporter V) (os : list op) : Exporter V := fold_left apply_op os r.

(** The writes of a loop whose body depends on what the earlier ones left. *)
Fixpoint loop_ops {A} (body : Exporter V → A → list op) (l : list A) (r : Exporter V) : list op :=
  match l with
  | [] => []
  | a :: l => body r a ++ loop_ops body l (apply_ops r (body r a))
  end.

Definition set_ops (labels : Labels) (mem sm norm : float64) : list op :=
  [SetValue MemoryGauge labels mem; SetValue SMGauge labels sm; SetValue NormalizedGauge labels norm].

Definition deleteSeries_ops (r : Exporter V) (key : podGPUKey) : list op :=
  match knownLabels r !! key with
  | Some labels => [DeleteValue MemoryGauge labels; DeleteValue SMGauge labels; DeleteValue NormalizedGauge labels]
  | None => []
  end ++ [Forget key].

Definition delete_if_ops (P : podGPUKey → bool) (r : Exporter V) (key : podGPUKey) : list op :=
  if P key then deleteSeries_ops r key else [].

Definition prune_ops (activePodUIDs : option (gset string)) (r : Exporter V) : list op :=
  match activePodUIDs with
  | None => []
  | Some active => loop_ops (delete_if_ops (λ key, negb (bool_decide (KPodUID key ∈ active)))) (known_keys r) r
  end.

Definition delete_idle_ops (observed : podGPUKey) (r : Exporter V) : list op :=
  if String.eqb (KUUID observed) "" then []
  else loop_ops (delete_if_ops (is_idle_label observed)) (known_keys r) r.

Definition observe_metric_ops (r : Exporter V) (metric : PodGPUMetric) : list op :=
  let '(key, labels) := metricLabels metric in
  delete_idle_ops key r ++ [Know key labels] ++
  set_ops labels (f_of_int (MemoryBytes metric)) (SMUtilizationPercent metric) (SMUtilizationPercentNormalized metric).

(** The writes of [observe], in order. *)
Definition observe_ops (s : PodSnapshot) (r : Exporter V) : list op :=
  let o1 := prune_ops (SnapPodUIDs s) r in
  let r1 := apply_ops r o1 in
  let o2 := loop_ops (λ _ l, set_ops l f_zero f_zero f_zero) (map_to_list (knownLabels r1)).*2 r1 in
  let r2 := apply_ops r1 o2 in
  o1 ++ o2 ++ loop_ops observe_metric_ops (Metrics s) r2.

Lemma apply_ops_app r a b : apply_ops r (a ++ b) = apply_ops (apply_ops r a) b.
Proof. apply fold_left_app. Qed.

Lemma loop_ops_run {A} (body : Exporter V → A → list op) (f : Exporter V → A → Exporter V) l :
  (∀ r a, apply_ops r (body r a) = f r a) → ∀ r, apply_ops r (loop_ops body l r) = fold_left f l r.
Proof.
  intros Hb. induction l as [|a l IH]; intros r; cbn [loop_ops fold_left]; [done|]. by rewrite apply_ops_app, IH, Hb.
Qed.

Lemma deleteSeries_ops_run r key : apply_ops r (deleteSeries_ops r key) = deleteSeries r key.
Proof. unfold deleteSeries_ops, deleteSeries. by destruct (knownLabels r !! key). Qed.

(** One after the other they are [observe]. *)
Lemma observe_ops_run s r : apply_ops r (observe_ops s r) = refresh (Some s) r.
Proof.
  assert (Hdel : ∀ P r key, apply_ops r (delete_if_ops P r key) = if P key then deleteSeries r key else r).
  { intros P r0 key. unfold delete_if_ops. destruct (P key); [apply deleteSeries_ops_run|done]. }
  unfold observe_ops. cbv zeta. rewrite !apply_ops_app. cbn [refresh]. unfold observe.
  assert (apply_ops r (prune_ops (SnapPodUIDs s) r) = pruneDeletedPods (SnapPodUIDs s) r) as ->.
  { unfold prune_ops, pruneDeletedPods. destruct (SnapPodUIDs s) as [active|]; [|done].
    apply loop_ops_run. intros r0 key. rewrite Hdel. by destruct (bool_decide _). }
  set (r1 := pruneDeletedPods _ r).
  rewrite (loop_ops_run _ setZero) by done. apply loop_ops_run. intros r0 m. unfold observe_metric_ops, observe_metric.
  cbn [metricLabels]. rewrite apply_ops_app.
  assert (apply_ops r0 (delete_idle_ops (podGPUKeyForMetric m) r0) = deleteIdleLabelsForObservedGPU (podGPUKeyForMetric m) r0) as ->; [|done].
  unfold delete_idle_ops, deleteIdleLabelsForObservedGPU. destruct (String.eqb _ _); [done|]. apply loop_ops_run. intros r1' key. apply Hdel.
Qed.
End writes.

(** ** Scrapes *)

(** A request for the metrics path: fetch the snapshot, take the mutex, write the gauges,
    release it, then let Prometheus gather the gauges one by one. *)
Inductive request (V : Type) :=
| RFetch
| RLock (s : PodSnapshot)
| RObserve (s : PodSnapshot) (n : nat) (rest : list op)
| RGather (s : PodSnapshot) (n : nat) (columns : list V)
| RDone (s : PodSnapshot) (n : nat) (alone : bool) (response : Exporter V).
Arguments RFetch {V}.
Arguments RLock {V}.
Arguments RObserve {V}.
Arguments RGather {V}.
Arguments RDone {V}.

(** [observed] lists the snapshots in the order in which the mutex was taken for them; a
    request keeps its place in it. *)
Record scrapes (V : Type) := mkScrapes {
  exporter : Exporter V;
  mu : option nat;
  requests : gmap nat (request V);
  observed : list PodSnapshot
}.
Arguments mkScrapes {V}.
Arguments exporter {V}.
Arguments mu {V}.
Arguments requests {V}.
Arguments observed {V}.

Definition gather_order : list gauge := [MemoryGauge; SMGauge; NormalizedGauge].

Section system.
Context {V : Type} `{HV : GaugeVec V}.

(** The next step of request [i]; [cur] is the engine's published snapshot.  A request whose
    mutex is taken has none.  A response was gathered alone when nobody took the mutex
    after this request did. *)
Definition request_step (cur : PodSnapshot) (i : nat) (st : scrapes V) : option (scrapes V) :=
  let goto r := mkScrapes (exporter st) (mu st) (<[i := r]> (requests st)) (observed st) in
  match requests st !! i with
  | Some RFetch => Some (goto (RLock cur))
  | Some (RLock s) =>
      match mu st with
      | Some _ => None
      | None => Some (mkScrapes (exporter st) (Some i)
                        (<[i := RObserve s (S (List.length (observed st))) (observe_ops s (exporter st))]> (requests st))
                        (observed st ++ [s]))
      end
  | Some (RObserve s n (o :: rest)) =>
      Some (mkScrapes (apply_op (exporter st) o) (mu st) (<[i := RObserve s n rest]> (requests st)) (observed st))
  | Some (RObserve s n []) => Some (mkScrapes (exporter st) None (<[i := RGather s n []]> (requests st)) (observed st))
  | Some (RGather s n columns) =>
      match gather_order !! List.length columns with
      | Some g => Some (goto (RGather s n (columns ++ [column g (exporter st)])))
      | None =>
          match columns with
          | [a; b; c] => Some (goto (RDone s n (bool_decide (List.length (observed st) = n)) (mkExporter a b c ∅)))
          | _ => None
          end
      end
  | Some (RDone _ _ _ _) | None => None
  end.

Definition accept (i : nat) (st : scrapes V) : option (scrapes V) :=
  match requests st !! i with
  | Some _ => None
  | None => Some (mkScrapes (exporter st) (mu st) (<[i := RFetch]> (requests st)) (observed st))
  end.

(** ** The process *)

Inductive nvml_state := NvmlUnavailable | NvmlUp | NvmlDown.
Inductive collector_pc := CStart | CPolling | CWait | CDone.
Inductive engine_pc := EStart | EWait | ECollecting (c : cycle) | EDone.
(** The main goroutine in [<-ctx.Done()], then in [Stop]. *)
Inductive main_pc := MWait | MWaitGroup | MShutdown | MDrain | MClose | MExit.

Record system := mkSystem {
  cancelled : bool;
  main : main_pc;
  nvml : nvml_state;
  coll : collector;
  coll_pc : collector_pc;
  engine : metricsEngine;
  eng_pc : engine_pc;
  serving : bool;
  web : scrapes V
}.

(** [New] and [Start]: the goroutines have not run yet. *)
Definition New (c : ExporterConfig) (lib : library) : result NameError system :=
  _ <-? validate (Names c);;
  let gpuCollector := newCollector lib (collectInterval c) in
  Ok (mkSystem false MWait (match gpuCollector with NVML _ => NvmlUp | Noop => NvmlUnavailable end)
        gpuCollector CStart (newMetricsController (collectInterval c) (SMUtilizationWindow c)) EStart true
        (mkScrapes newRuntime None ∅ [])).

(** [main]: the exporter's configuration, or nothing to run when it is disabled. *)
Definition metricsd_main (f : metricsd_cmd.cliFlags) (lib : library) : option (result NameError system) :=
  if negb (metricsd_cmd.metricsEnabled f) then None
  else Some (New (mkExporterConfig (metricsd_cmd.path f) (metricsd_cmd.procRoot f) (metricsd_cmd.interval f)
                    (metricsd_cmd.smUtilWindow f) (WithDefaults (metricsd_cmd.metricNames f))) lib).

(** What happens next: the signal, a listener that fails, a request, or one thread's step with
    what its surroundings answer. *)
Inductive event :=
| Signal
| ListenFails
| Main
| Collector (lib : library) (order : joined_map → list GPUProcessMetric) (now : Z)
| CollectorTick
| CollectorStop
| EngineCollect (pods : podSource) (uuid_order : ContainerInfo → GPUDevice → list (Z * string))
    (order : gmap podGPUKey PodGPUMetric → list (podGPUKey * PodGPUMetric))
| EnginePublish
| EngineStop
| Accept (i : nat)
| Request (i : nat).

Definition with_main (pc : main_pc) (st : system) : system :=
  mkSystem (cancelled st) pc (nvml st) (coll st) (coll_pc st) (engine st) (eng_pc st) (serving st) (web st).
Definition with_coll (c : collector) (pc : collector_pc) (st : system) : system :=
  mkSystem (cancelled st) (main st) (nvml st) c pc (engine st) (eng_pc st) (serving st) (web st).
Definition with_engine (e : metricsEngine) (pc : engine_pc) (st : system) : system :=
  mkSystem (cancelled st) (main st) (nvml st) (coll st) (coll_pc st) e pc (serving st) (web st).
Definition with_serving (b : bool) (st : system) : system :=
  mkSystem (cancelled st) (main st) (nvml st) (coll st) (coll_pc st) (engine st) (eng_pc st) b (web st).
Definition with_web (s : scrapes V) (st : system) : system :=
  mkSystem (cancelled st) (main st) (nvml st) (coll st) (coll_pc st) (engine st) (eng_pc st) (serving st) s.

(** The main goroutine: woken by the signal it runs [Stop], which waits for the collector,
    shuts the server down (new connections first, then at most five seconds for the requests
    in flight) and closes the collector. *)
Definition main_step (st : system) : option system :=
  match main st with
  | MWait => if cancelled st then Some (with_main MWaitGroup st) else None
  | MWaitGroup => match coll_pc st with CDone => Some (with_main MShutdown st) | _ => None end
  | MShutdown => Some (with_main MDrain (with_serving false st))
  | MDrain => Some (with_main MClose st)
  | MClose =>
      Some (mkSystem (cancelled st) MExit (match coll st with NVML _ => NvmlDown | Noop => nvml st end) (coll st)
              (coll_pc st) (engine st) (eng_pc st) (serving st) (web st))
  | MExit => None
  end.

(** The collector's [Run]: a poll, then the ticker or the context.  The no-op collector returns
    at once. *)
Definition collector_step (lib : library) (order : joined_map → list GPUProcessMetric) (now : Z) (st : system) : option system :=
  match coll_pc st, coll st with
  | CStart, NVML _ => Some (with_coll (coll st) CPolling st)
  | CStart, Noop => Some (with_coll (coll st) CDone st)
  | CPolling, _ => Some (with_coll (poll_once lib order now (coll st)) CWait st)
  | _, _ => None
  end.

(** A step of a process that has not exited. *)
Definition live_step (st : system) (e : event) : option system :=
  match e with
  | Signal => Some (mkSystem true (main st) (nvml st) (coll st) (coll_pc st) (engine st) (eng_pc st) (serving st) (web st))
  | ListenFails => Some (with_serving false st)
  | Main => main_step st
  | Collector lib order now => collector_step lib order now st
  | CollectorTick => match coll_pc st with CWait => Some (with_coll (coll st) CPolling st) | _ => None end
  | CollectorStop => match coll_pc st with CWait => if cancelled st then Some (with_coll (coll st) CDone st) else None | _ => None end
  | EngineCollect pods uo order =>
      match eng_pc st with
      | EStart | EWait => Some (with_engine (engine st) (ECollecting (mkCycle (Snapshot (coll st)) pods uo order)) st)
      | _ => None
      end
  | EnginePublish =>
      match eng_pc st with ECollecting c => Some (with_engine (engine_step (engine st) c) EWait st) | _ => None end
  | EngineStop => match eng_pc st with EWait => if cancelled st then Some (with_engine (engine st) EDone st) else None | _ => None end
  | Accept i => if serving st then (λ s, with_web s st) <$> accept i (web st) else None
  | Request i => (λ s, with_web s st) <$> request_step (snapshot (engine st)) i (web st)
  end.

Definition step (st : system) (e : event) : option system :=
  match main st with MExit => None | _ => live_step st e end.

(** A run: the events one after the other, each possible where it comes. *)
Definition run (st : system) (es : list event) : option system :=
  fold_left (λ o e, o ≫= λ st, step st e) es (Some st).

Lemma run_snoc st es e : run st (es ++ [e]) = run st es ≫= λ st, step st e.
Proof. unfold run. by rewrite fold_left_app. Qed.

Lemma run_app st es es' : run st (es ++ es') = run st es ≫= λ st, run st es'.
Proof.
  induction es' as [|e es' IH] using rev_ind; [rewrite app_nil_r; by destruct (run st es)|].
  rewrite app_assoc, run_snoc, IH. destruct (run st es); [|done]. cbn [mbind option_bind]. by rewrite run_snoc.
Qed.

(** An invariant of the steps holds along a run. *)
Lemma run_invariant (P : system → Prop) (ok : event → Prop) st es st' :
  (∀ st e st', P st → ok e → step st e = Some st' → P st') →
  P st → Forall ok es → run st es = Some st' → P st'.
Proof.
  intros Hstep Hst. revert st'. induction es as [|e es IH] using rev_ind; intros st' Hok Hrun; [by injection Hrun as <-|].
  apply Forall_app in Hok as [Hes [He _]%Forall_cons]. rewrite run_snoc in Hrun.
  destruct (run st es) as [st1|] eqn:E; [|done]. by eapply Hstep; [apply IH| |].
Qed.

(** ** Lemmas: stopping *)

Record stop_inv (st : system) : Prop := {
  nvml_tracks : match coll st with
                | NVML _ => nvml st = match main st with MExit => NvmlDown | _ => NvmlUp end
                | Noop => nvml st = NvmlUnavailable ∧ (coll_pc st = CStart ∨ coll_pc st = CDone)
                end;
  waited : match main st with MWait | MWaitGroup => True | _ => coll_pc st = CDone end;
  stopped_by_signal : match main st with MWait => True | _ => cancelled st = true end
}.

Lemma main_step_inv st st' : stop_inv st → main_step st = Some st' → stop_inv st'.
Proof.
  intros [H1 H2 H3]. unfold main_step. destruct (main st) eqn:Em; try done.
  - destruct (cancelled st) eqn:Ec; [|done]. intros [= <-]. split; cbn; [|done|done]. by destruct (coll st).
  - destruct (coll_pc st) eqn:Ep; try done. intros [= <-]. split; cbn; [|done|done]. destruct (coll st); [done|]. by rewrite Ep in *.
  - intros [= <-]. split; cbn; [|done|done]. by destruct (coll st).
  - intros [= <-]. split; cbn; [|done|done]. by destruct (coll st).
  - intros [= <-]. split; cbn; [|done|done]. by destruct (coll st).
Qed.

Lemma step_live st e st' : step st e = Some st' → main st ≠ MExit ∧ live_step st e = Some st'.
Proof. unfold step. by destruct (main st). Qed.

Lemma collector_step_inv lib order now st st' : stop_inv st → main st ≠ MExit → collector_step lib order now st = Some st' → stop_inv st'.
Proof.
  intros [H1 H2 H3] Hm. unfold collector_step. destruct (coll_pc st) eqn:Ep, (coll st) eqn:Ec; try done; intros [= <-];
    (split; cbn; rewrite ?Ec; [| |done]); try done; try (by destruct (main st)); destruct H1 as [? [|]]; auto; done.
Qed.

(** A step that keeps what the invariant speaks of. *)
Lemma stop_inv_frame st st' : main st' = main st → nvml st' = nvml st → coll st' = coll st → coll_pc st' = coll_pc st →
  (cancelled st = true → cancelled st' = true) → stop_inv st → stop_inv st'.
Proof. intros E1 E2 E3 E4 E5 [H1 H2 H3]. split; rewrite ?E1, ?E2, ?E3, ?E4; try done. destruct (main st); auto. Qed.

Lemma step_stop_inv st e st' : stop_inv st → step st e = Some st' → stop_inv st'.
Proof.
  intros H [Hm Hs]%step_live. pose proof H as [H1 H2 H3].
  destruct e as [| | |lib order now| | |pods uo order| | |i|i]; cbn [live_step] in Hs.
  - injection Hs as <-. by apply (stop_inv_frame st).
  - injection Hs as <-. by apply (stop_inv_frame st).
  - by eapply main_step_inv.
  - by eapply collector_step_inv.
  - destruct (coll_pc st) eqn:Ep; try done. injection Hs as <-. split; cbn; [|by destruct (main st)|done].
    destruct (coll st); [done|by destruct H1 as [_ [|]]].
  - destruct (coll_pc st) eqn:Ep; try done. destruct (cancelled st) eqn:Ec; try done. injection Hs as <-.
    split; cbn; [|by destruct (main st)|by rewrite Ec]. destruct (coll st); [done|by destruct H1 as [_ [|]]].
  - destruct (eng_pc st); try done; injection Hs as <-; by apply (stop_inv_frame st).
  - destruct (eng_pc st); try done. injection Hs as <-. by apply (stop_inv_frame st).
  - destruct (eng_pc st); try done. destruct (cancelled st) eqn:Ec; [|done]. injection Hs as <-. by apply (stop_inv_frame st).
  - destruct (serving st); [|done]. destruct (accept i (web st)); [|done]. injection Hs as <-. by apply (stop_inv_frame st).
  - destruct (request_step _ i (web st)); [|done]. injection Hs as <-. by apply (stop_inv_frame st).
Qed.

(** The steps that bring a process that was told to stop to its end. *)
Definition collector_rest (lib : library) (order : joined_map → list GPUProcessMetric) (now : Z) (st : system) : list event :=
  match coll_pc st, coll st with
  | CStart, NVML _ => [Collector lib order now; Collector lib order now; CollectorStop]
  | CStart, Noop => [Collector lib order now]
  | CPolling, _ => [Collector lib order now; CollectorStop]
  | CWait, _ => [CollectorStop]
  | CDone, _ => []
  end.
Definition main_rest (st : system) : list event :=
  repeat Main match main st with MWait => 5 | MWaitGroup => 4 | MShutdown => 3 | MDrain => 2 | MClose => 1 | MExit => 0 end.

Lemma rest_exits lib order now st : stop_inv st → cancelled st = true →
  ∃ st', run st (collector_rest lib order now st ++ main_rest st) = Some st' ∧ main st' = MExit.
Proof.
  intros [H1 H2 _] Hc. destruct st as [b m nv c cp e ep sv w]. cbn in *. subst b. unfold collector_rest, main_rest. cbn.
  destruct m; cbn in H2; subst; try destruct cp; try destruct c; cbn; try (by eexists); by destruct H1 as [_ [|]].
Qed.

(** ** Lemmas: scrapes *)

(** The gauges after the refreshes with these snapshots, each as a whole. *)
Definition refreshed (obs : list PodSnapshot) : Exporter V := fold_left (λ r s, refresh (Some s) r) obs newRuntime.

Lemma refreshed_snoc obs s : refreshed (obs ++ [s]) = refresh (Some s) (refreshed obs).
Proof. unfold refreshed. by rewrite fold_left_app. Qed.

(** The snapshot of a request and its place in the order of the mutex. *)
Definition place (r : request V) : option (PodSnapshot * nat) :=
  match r with RObserve s n _ | RGather s n _ | RDone s n _ _ => Some (s, n) | RFetch | RLock _ => None end.

Record web_inv (w : scrapes V) : Prop := {
  locked : match mu w with
           | None => exporter w = refreshed (observed w)
           | Some i => ∃ s rest, requests w !! i = Some (RObserve s (List.length (observed w)) rest) ∧
                                 apply_ops (exporter w) rest = refreshed (observed w)
           end;
  writers : ∀ i s n rest, requests w !! i = Some (RObserve s n rest) → mu w = Some i;
  placed_at : ∀ i r s n, requests w !! i = Some r → place r = Some (s, n) → ∃ k, n = S k ∧ observed w !! k = Some s;
  gathering : ∀ i s n cols, requests w !! i = Some (RGather s n cols) → List.length (observed w) = n →
    mu w = None ∧ cols = map (λ g, column g (exporter w)) (take (List.length cols) gather_order);
  gathered : ∀ i s n resp, requests w !! i = Some (RDone s n true resp) →
    ∀ g, column g resp = column g (refreshed (take n (observed w)))
}.

Lemma placed_bound w i r s n : web_inv w → requests w !! i = Some r → place r = Some (s, n) → (n ≤ List.length (observed w))%nat.
Proof. intros Hw Hi Hp. destruct (placed_at _ Hw i r s n Hi Hp) as (k & -> & Hk). apply lookup_lt_Some in Hk. lia. Qed.

(** A request moves without touching the gauges or the mutex. *)
Lemma web_inv_move w i r : web_inv w → (∀ s n rest, r ≠ RObserve s n rest) →
  (∀ s n rest, requests w !! i ≠ Some (RObserve s n rest)) →
  (∀ s n, place r = Some (s, n) → ∃ k, n = S k ∧ observed w !! k = Some s) →
  (∀ s n cols, r = RGather s n cols → List.length (observed w) = n →
     mu w = None ∧ cols = map (λ g, column g (exporter w)) (take (List.length cols) gather_order)) →
  (∀ s n resp, r = RDone s n true resp → ∀ g, column g resp = column g (refreshed (take n (observed w)))) →
  web_inv (mkScrapes (exporter w) (mu w) (<[i := r]> (requests w)) (observed w)).
Proof.
  intros [H1 H2 H3 H4 H5] Hr Hi Hp Hg Hd. split; cbn [mu exporter requests observed].
  - destruct (mu w) as [j|]; [|done]. destruct H1 as (s & rest & Hj & Ha). exists s, rest. split; [|done].
    rewrite lookup_insert_ne; [done|]. intros <-. by eapply Hi.
  - intros j s n rest. destruct (decide (j = i)) as [->|Hne]; [rewrite lookup_insert_eq; intros [= ->]; by destruct (Hr s n rest)|].
    rewrite lookup_insert_ne by done. apply H2.
  - intros j r' s n. destruct (decide (j = i)) as [->|Hne]; [rewrite lookup_insert_eq; intros [= <-]; apply Hp|].
    rewrite lookup_insert_ne by done. apply H3.
  - intros j s n cols. destruct (decide (j = i)) as [->|Hne]; [rewrite lookup_insert_eq; intros [= ->]; by apply (Hg s)|].
    rewrite lookup_insert_ne by done. apply H4.
  - intros j s n resp. destruct (decide (j = i)) as [->|Hne]; [rewrite lookup_insert_eq; intros [= ->]; by apply (Hd s)|].
    rewrite lookup_insert_ne by done. apply H5.
Qed.

Lemma web_inv_accept w i w' : web_inv w → accept i w = Some w' → web_inv w'.
Proof.
  intros Hw. unfold accept. destruct (requests w !! i) eqn:E; [done|]. intros [= <-].
  apply web_inv_move; try done. intros s n rest. by rewrite E.
Qed.

Lemma web_inv_lock w i s : web_inv w → requests w !! i = Some (RLock s) → mu w = None →
  web_inv (mkScrapes (exporter w) (Some i) (<[i := RObserve s (S (List.length (observed w))) (observe_ops s (exporter w))]> (requests w))
             (observed w ++ [s])).
Proof.
  intros Hw Hi Hmu. pose proof Hw as [H1 H2 H3 H4 H5]. rewrite Hmu in H1. split; cbn [mu exporter requests observed].
  - exists s, (observe_ops s (exporter w)). rewrite lookup_insert_eq, length_app, Nat.add_1_r. split; [done|].
    by rewrite observe_ops_run, H1, refreshed_snoc.
  - intros j s' n rest. destruct (decide (j = i)) as [->|Hne]; [done|]. rewrite lookup_insert_ne by done.
    intros Hj. rewrite (H2 _ _ _ _ Hj) in Hmu. done.
  - intros j r s' n. destruct (decide (j = i)) as [->|Hne].
    + rewrite lookup_insert_eq. intros [= <-] [= <- <-]. exists (List.length (observed w)). split; [done|].
      by rewrite list_lookup_middle.
    + rewrite lookup_insert_ne by done. intros Hj Hp. destruct (H3 _ _ _ _ Hj Hp) as (k & -> & Hk). exists k. split; [done|].
      by apply lookup_app_l_Some.
  - intros j s' n cols. destruct (decide (j = i)) as [->|Hne]; [by rewrite lookup_insert_eq|]. rewrite lookup_insert_ne by done.
    intros Hj Hn. pose proof (placed_bound w j _ _ _ Hw Hj eq_refl) as Hb. rewrite length_app in Hn. cbn in Hn. lia.
  - intros j s' n resp. destruct (decide (j = i)) as [->|Hne]; [by rewrite lookup_insert_eq|]. rewrite lookup_insert_ne by done.
    intros Hj. pose proof (placed_bound w j _ _ _ Hw Hj eq_refl) as Hb. rewrite take_app_le by done. by eapply H5.
Qed.

Lemma web_inv_write w i s n o rest : web_inv w → requests w !! i = Some (RObserve s n (o :: rest)) →
  web_inv (mkScrapes (apply_op (exporter w) o) (mu w) (<[i := RObserve s n rest]> (requests w)) (observed w)).
Proof.
  intros Hw Hi. pose proof Hw as [H1 H2 H3 H4 H5]. pose proof (H2 _ _ _ _ Hi) as Hmu. rewrite Hmu in *.
  destruct H1 as (s' & rest' & Hj & Ha). rewrite Hi in Hj. injection Hj as <- -> <-. split; cbn [mu exporter requests observed].
  - exists s, rest. by rewrite lookup_insert_eq.
  - intros j s' n' rest'. destruct (decide (j = i)) as [->|Hne]; [done|]. rewrite lookup_insert_ne by done.
    intros Hj. pose proof (H2 _ _ _ _ Hj). congruence.
  - intros j r s' n'. destruct (decide (j = i)) as [->|Hne].
    + rewrite lookup_insert_eq. intros [= <-] [= <- <-]. by eapply H3.
    + rewrite lookup_insert_ne by done. apply H3.
  - intros j s' n' cols. destruct (decide (j = i)) as [->|Hne]; [by rewrite lookup_insert_eq|]. rewrite lookup_insert_ne by done.
    intros Hj Hn. by destruct (H4 _ _ _ _ Hj Hn).
  - intros j s' n' resp. destruct (decide (j = i)) as [->|Hne]; [by rewrite lookup_insert_eq|]. rewrite lookup_insert_ne by done. apply H5.
Qed.

Lemma web_inv_unlock w i s n : web_inv w → requests w !! i = Some (RObserve s n []) →
  web_inv (mkScrapes (exporter w) None (<[i := RGather s n []]> (requests w)) (observed w)).
Proof.
  intros Hw Hi. pose proof Hw as [H1 H2 H3 H4 H5]. pose proof (H2 _ _ _ _ Hi) as Hmu. rewrite Hmu in *.
  destruct H1 as (s' & rest' & Hj & Ha). rewrite Hi in Hj. injection Hj as <- -> <-. split; cbn [mu exporter requests observed].
  - exact Ha.
  - intros j s' n' rest'. destruct (decide (j = i)) as [->|Hne]; [by rewrite lookup_insert_eq|]. rewrite lookup_insert_ne by done.
    intros Hj. pose proof (H2 _ _ _ _ Hj). congruence.
  - intros j r s' n'. destruct (decide (j = i)) as [->|Hne].
    + rewrite lookup_insert_eq. intros [= <-] [= <- <-]. by eapply H3.
    + rewrite lookup_insert_ne by done. apply H3.
  - intros j s' n' cols. destruct (decide (j = i)) as [->|Hne].
    + rewrite lookup_insert_eq. by intros [= <- <- <-].
    + rewrite lookup_insert_ne by done. intros Hj Hn. by destruct (H4 _ _ _ _ Hj Hn).
  - intros j s' n' resp. destruct (decide (j = i)) as [->|Hne]; [by rewrite lookup_insert_eq|]. rewrite lookup_insert_ne by done. apply H5.
Qed.

Lemma request_step_inv cur i w w' : web_inv w → request_step cur i w = Some w' → web_inv w'.
Proof.
  intros Hw. unfold request_step. destruct (requests w !! i) as [r|] eqn:Ei; [|done].
  destruct r as [|s|s n rest|s n cols|s n alone resp]; [| | | |done].
  - intros [= <-]. apply web_inv_move; try done. by rewrite Ei.
  - destruct (mu w) eqn:Em; [done|]. intros [= <-]. by apply web_inv_lock.
  - destruct rest as [|o rest]; intros [= <-]; [by apply web_inv_unlock|by eapply web_inv_write].
  - destruct (gather_order !! List.length cols) as [g|] eqn:Eg.
    + intros [= <-]. apply web_inv_move; try done; [by rewrite Ei| |].
      * intros s' n' [= <- <-]. by eapply placed_at.
      * intros s' n' cols' [= <- <- <-] Hn. destruct (gathering _ Hw _ _ _ _ Ei Hn) as [Hm Hc]. split; [done|].
        rewrite length_app, Nat.add_1_r, (take_S_r _ _ _ Eg), map_app, <- Hc. done.
    + destruct cols as [|a [|b [|c [|]]]]; try done. intros [= <-]. apply web_inv_move; try done; [by rewrite Ei| |].
      * intros s' n' [= <- <-]. by eapply placed_at.
      * intros s' n' resp. intros [= <- <- Halone <-]. apply bool_decide_eq_true in Halone.
        destruct (gathering _ Hw _ _ _ _ Ei Halone) as [Hm Hc]. cbn in Hc. injection Hc as -> -> ->.
        rewrite <- Halone, firstn_all. pose proof (locked _ Hw) as Hl. rewrite Hm in Hl. rewrite <- Hl. by intros [].
Qed.

Lemma step_web_inv st e st' : web_inv (web st) → step st e = Some st' → web_inv (web st').
Proof.
  intros H [_ Hs]%step_live. destruct e as [| | |lib order now| | |pods uo order| | |i|i]; cbn [live_step] in Hs.
  1,2: by injection Hs as <-.
  1: unfold main_step in Hs; destruct (main st); try destruct (cancelled st); try destruct (coll_pc st); by simplify_eq.
  1: unfold collector_step in Hs; destruct (coll_pc st), (coll st); by simplify_eq.
  1,2,3,4,5: repeat case_match; by simplify_eq.
  - destruct (serving st); [|done]. destruct (accept i (web st)) as [w'|] eqn:E; [|done]. injection Hs as <-. by eapply web_inv_accept.
  - destruct (request_step _ i (web st)) as [w'|] eqn:E; [|done]. injection Hs as <-. by eapply request_step_inv.
Qed.

(** ** Lemmas: the values *)

Context `{!GaugeVecLaws V}.

Definition percentages (v : V) : Prop := ∀ l x, vec_get l v = Some x → f_within 100 x = true.
Definition well_valued (r : Exporter V) : Prop := percentages (smUtilization r) ∧ percentages (smUtilizationNormalized r).
Definition snapshot_ok (s : PodSnapshot) : Prop :=
  Forall (λ m, f_within 100 (SMUtilizationPercent m) = true ∧ f_within 100 (SMUtilizationPercentNormalized m) = true) (Metrics s).
Definition op_ok (o : op) : Prop :=
  match o with SetValue SMGauge _ x | SetValue NormalizedGauge _ x => f_within 100 x = true | _ => True end.

Lemma percentages_set v l x : percentages v → f_within 100 x = true → percentages (vec_set l x v).
Proof. intros Hv Hx l' y. rewrite vec_set_get. case_decide; [by intros [= <-]|apply Hv]. Qed.

Lemma percentages_delete v l : percentages v → percentages (vec_delete l v).
Proof. intros Hv l' y. rewrite vec_delete_get. case_decide; [done|apply Hv]. Qed.

Lemma apply_op_valued r o : well_valued r → op_ok o → well_valued (apply_op r o).
Proof.
  intros [H1 H2]. destruct o as [[] l x|[] l|k l|k]; cbn; intros Ho; split; cbn; auto using percentages_set, percentages_delete.
Qed.

Lemma loop_ops_ok {A} (body : Exporter V → A → list op) l : (∀ r a, a ∈ l → Forall op_ok (body r a)) →
  ∀ r, Forall op_ok (loop_ops body l r).
Proof.
  induction l as [|a l IH]; intros Hb r; cbn [loop_ops]; [constructor|]. apply Forall_app. split; [apply Hb; left|].
  apply IH. intros r' a' Ha. apply Hb. by right.
Qed.

Lemma observe_ops_ok s r : snapshot_ok s → Forall op_ok (observe_ops s r).
Proof.
  intros Hs. assert (Hdel : ∀ P (r : Exporter V) key, Forall op_ok (delete_if_ops P r key)).
  { intros P r0 key. unfold delete_if_ops, deleteSeries_ops. destruct (P key); [|constructor].
    destruct (knownLabels r0 !! key); by repeat constructor. }
  unfold observe_ops. cbv zeta. repeat (apply Forall_app; split).
  - unfold prune_ops. destruct (SnapPodUIDs s); [|constructor]. by apply loop_ops_ok.
  - apply loop_ops_ok. intros _ l _. by repeat constructor.
  - apply loop_ops_ok. intros r0 m Hm. unfold observe_metric_ops. cbn [metricLabels]. apply Forall_app. split.
    + unfold delete_idle_ops. destruct (String.eqb _ _); [constructor|]. by apply loop_ops_ok.
    + destruct (proj1 (Forall_forall _ _) Hs m Hm). by repeat constructor.
Qed.

Definition request_ok (r : request V) : Prop :=
  match r with
  | RFetch => True
  | RLock s => snapshot_ok s
  | RObserve _ _ rest => Forall op_ok rest
  | RGather _ _ cols => ∀ j v, cols !! S j = Some v → percentages v
  | RDone _ _ _ resp => well_valued resp
  end.

Definition web_valued (w : scrapes V) : Prop :=
  well_valued (exporter w) ∧ ∀ i r, requests w !! i = Some r → request_ok r.

Lemma web_valued_update e m reqs obs i r : well_valued e → (∀ j r', reqs !! j = Some r' → request_ok r') → request_ok r →
  web_valued (mkScrapes e m (<[i := r]> reqs) obs).
Proof.
  intros He Hq Hr. split; [done|]. cbn. intros j r'. destruct (decide (j = i)) as [->|Hne].
  - rewrite lookup_insert_eq. by intros [= <-].
  - rewrite lookup_insert_ne by done. apply Hq.
Qed.

Lemma request_step_valued cur i w w' : snapshot_ok cur → web_valued w → request_step cur i w = Some w' → web_valued w'.
Proof.
  intros Hcur [He Hq]. unfold request_step. destruct (requests w !! i) as [r|] eqn:Ei; [|done]. pose proof (Hq _ _ Ei) as Hr.
  destruct r as [|s|s n rest|s n cols|s n alone resp]; [| | | |done].
  - intros [= <-]. by apply web_valued_update.
  - destruct (mu w); [done|]. intros [= <-]. apply web_valued_update; [done..|]. by apply observe_ops_ok.
  - destruct rest as [|o rest]; intros [= <-]; [by apply web_valued_update|]. cbn in Hr. inversion Hr; subst.
    apply web_valued_update; [by apply apply_op_valued|done|done].
  - destruct (gather_order !! List.length cols) as [g|] eqn:Eg.
    + intros [= <-]. apply web_valued_update; [done..|]. cbn in *. intros j v [Hj|[Hl Hj]]%lookup_app_Some; [by eapply Hr|].
      destruct (S j - List.length cols)%nat eqn:Ek; [|done]. injection Hj as <-. assert (Hlen : List.length cols = S j) by lia.
      rewrite Hlen in Eg. destruct j as [|[|j]]; cbn in Eg; simplify_eq; apply He.
    + destruct cols as [|a [|b [|c [|]]]]; try done. intros [= <-]. apply web_valued_update; [done..|].
      split; cbn; [by apply (Hr 0%nat)|by apply (Hr 1%nat)].
Qed.

(** What the surroundings answer: an NVML poll gives numbers of their declared widths, and
    [range] visits every entry of a map once. *)
Definition event_ok (e : event) : Prop :=
  match e with
  | Collector lib order now => ∀ c, snapshot_typed (Snapshot c) → snapshot_typed (Snapshot (poll_once lib order now c))
  | EngineCollect _ _ order => ∀ m, order m ≡ₚ map_to_list m
  | _ => True
  end.

Record value_inv (st : system) : Prop := {
  polled : snapshot_typed (Snapshot (coll st));
  cycling : match eng_pc st with ECollecting c => cycle_ok c | _ => True end;
  computed : ∃ h, engine_inv (engine st) h;
  valued : web_valued (web st)
}.

Lemma engine_inv_ok s h : engine_inv s h → snapshot_ok (snapshot s).
Proof. intros H. eapply Forall_impl; [exact (inv_metrics _ _ H)|]. cbn. by intros m (_ & H1 & H2). Qed.

Lemma step_value_inv st e st' : value_inv st → event_ok e → step st e = Some st' → value_inv st'.
Proof.
  intros H He [_ Hs]%step_live. pose proof H as [H1 H2 [h H3] H4].
  destruct e as [| | |lib order now| | |pods uo order| | |i|i]; cbn [live_step event_ok] in *.
  1,2: injection Hs as <-; split; cbn; eauto.
  - unfold main_step in Hs. destruct (main st); try destruct (cancelled st); try destruct (coll_pc st); simplify_eq; split; cbn; eauto.
  - unfold collector_step in Hs. destruct (coll_pc st), (coll st) as [c|] eqn:Ec; simplify_eq; split; cbn; eauto;
      try (rewrite Ec; done); apply (He (NVML c)); done.
  - destruct (coll_pc st); simplify_eq; split; cbn; eauto.
  - destruct (coll_pc st); try done. destruct (cancelled st); simplify_eq; split; cbn; eauto.
  - destruct (eng_pc st); simplify_eq; (split; cbn; eauto; by split).
  - destruct (eng_pc st) as [| |c|]; simplify_eq. split; cbn; eauto. eexists. by apply (engine_step_inv _ h).
  - destruct (eng_pc st); try done. destruct (cancelled st); simplify_eq; split; cbn; eauto.
  - destruct (serving st); [|done]. unfold accept in Hs. destruct (requests (web st) !! i); [done|]. injection Hs as <-.
    split; cbn; eauto. by apply web_valued_update; [apply H4|apply H4|].
  - destruct (request_step _ i (web st)) as [w'|] eqn:E; [|done]. injection Hs as <-. split; cbn; eauto.
    eapply request_step_valued; [by eapply engine_inv_ok|done|done].
Qed.

(** ** Lemmas: where a response comes from *)

Definition fetched (r : request V) : option PodSnapshot :=
  match r with RFetch => None | RLock s | RObserve s _ _ | RGather s _ _ | RDone s _ _ _ => Some s end.

Lemma request_step_fetched cur i w w' j r : request_step cur i w = Some w' → requests w' !! j = Some r →
  ∃ r0, requests w !! j = Some r0 ∧ (fetched r = fetched r0 ∨ fetched r = Some cur ∧ j = i).
Proof.
  unfold request_step. destruct (requests w !! i) as [r0|] eqn:Ei; [|done]. intros Hs Hj.
  assert (∃ r1, requests w' = <[i := r1]> (requests w) ∧ (fetched r1 = fetched r0 ∨ fetched r1 = Some cur)) as (r1 & Hw' & Hf).
  { destruct r0 as [|s|s n [|o rest]|s n cols|s n alone resp]; try done; repeat case_match; simplify_eq; cbn; eauto. }
  rewrite Hw' in Hj. destruct (decide (j = i)) as [->|Hne].
  - rewrite lookup_insert_eq in Hj. injection Hj as <-. exists r0. split; [done|]. destruct Hf; eauto.
  - rewrite lookup_insert_ne in Hj by done. eauto.
Qed.

(** The web server changes only through its own steps. *)
Lemma step_web st e st' : step st e = Some st' → web st' = web st ∨
  (∃ i, e = Accept i ∧ accept i (web st) = Some (web st')) ∨
  (∃ i, e = Request i ∧ request_step (snapshot (engine st)) i (web st) = Some (web st') ∧ engine st' = engine st).
Proof.
  intros [_ Hs]%step_live. destruct e as [| | |lib order now| | |pods uo order| | |i|i]; cbn [live_step] in Hs.
  1,2: left; by injection Hs as <-.
  1: left; unfold main_step in Hs; destruct (main st); try destruct (cancelled st); try destruct (coll_pc st); by simplify_eq.
  1: left; unfold collector_step in Hs; destruct (coll_pc st), (coll st); by simplify_eq.
  1,2,3,4,5: left; repeat case_match; by simplify_eq.
  - right. left. destruct (serving st); [|done]. destruct (accept i (web st)) as [w'|] eqn:E; [|done]. injection Hs as <-. eauto.
  - right. right. destruct (request_step _ i (web st)) as [w'|] eqn:E; [|done]. injection Hs as <-. eauto.
Qed.

(** A request works on the snapshot that was published when it fetched it, after it arrived. *)
Lemma fetched_was_published st0 es st i r : requests (web st0) = ∅ → run st0 es = Some st → requests (web st) !! i = Some r →
  Accept i ∈ es ∧ ∀ s, fetched r = Some s → ∃ es1 es2 st1, es = es1 ++ es2 ∧ Accept i ∈ es1 ∧ run st0 es1 = Some st1 ∧ snapshot (engine st1) = s.
Proof.
  intros H0. revert st i r. induction es as [|e es IH] using rev_ind; intros st i r Hrun Hi.
  { injection Hrun as <-. by rewrite H0, lookup_empty in Hi. }
  pose proof Hrun as Hrun'. rewrite run_snoc in Hrun. destruct (run st0 es) as [st1|] eqn:E; [|done]. cbn in Hrun.
  assert (Hold : ∀ r0, requests (web st1) !! i = Some r0 → Accept i ∈ es ++ [e] ∧ ∀ s, fetched r0 = Some s →
    ∃ es1 es2 st2, es ++ [e] = es1 ++ es2 ∧ Accept i ∈ es1 ∧ run st0 es1 = Some st2 ∧ snapshot (engine st2) = s).
  { intros r0 Hr0. destruct (IH st1 i r0 eq_refl Hr0) as [Ha Hs]. split; [apply elem_of_app; by left|].
    intros s Hf. destruct (Hs s Hf) as (es1 & es2 & st2 & -> & ? & ? & ?). exists es1, (es2 ++ [e]), st2. by rewrite app_assoc. }
  destruct (step_web _ _ _ Hrun) as [Hw|[(j & -> & Ha)|(j & -> & Hr & _)]].
  - rewrite Hw in Hi. by apply Hold.
  - unfold accept in Ha. destruct (requests (web st1) !! j) eqn:Ej; [done|]. injection Ha as Hw. rewrite <- Hw in Hi. cbn in Hi.
    destruct (decide (i = j)) as [->|Hne].
    + rewrite lookup_insert_eq in Hi. injection Hi as <-. split; [apply elem_of_app; right; left|done].
    + rewrite lookup_insert_ne in Hi by done. by apply Hold.
  - destruct (request_step_fetched _ _ _ _ _ _ Hr Hi) as (r0 & Hr0 & Hf). destruct (Hold r0 Hr0) as [Ha Hs].
    split; [done|]. intros s Hrs. destruct Hf as [Hf|[Hf ->]]; [apply Hs; congruence|].
    exists es, [Request j], st1. split_and!; [done| |done|congruence].
    by destruct (IH st1 j r0 eq_refl Hr0).
Qed.

Lemma New_inv c lib st : New c lib = Ok st → stop_inv st ∧ web_inv (web st) ∧ requests (web st) = ∅ ∧
  (SMUtilizationWindow c ≤ int64_max → value_inv st).
Proof.
  unfold New. destruct (validate (Names c)) as [u|]; cbn [rbind]; [|done]. intros [= <-].
  assert (Htyped : snapshot_typed emptySnapshot).
  { split; [constructor|]. split; [done|]. intros i t. cbn. by rewrite lookup_empty. }
  split_and!.
  - unfold newCollector. destruct (newNVMLProcessCollector lib (collectInterval c)); split; cbn; auto.
  - split; cbn; try done; intros *; by rewrite lookup_empty.
  - done.
  - intros Hw. split; cbn; [|done| |].
    + unfold newCollector, newNVMLProcessCollector. by destruct (_ || _).
    + exists (λ _, []). apply new_engine_inv; [|done]. unfold collectInterval, DefaultCollectInterval, MinCollectInterval.
      repeat case_match; bool_simpl; lia.
    + split; [split; intros l x; cbn; by rewrite vec_new_get|]. intros i r. cbn. by rewrite lookup_empty.
Qed.
End system.
Arguments system V : clear implicits.

(** ** Properties *)

(** C24: metricsd stops without pulling NVML from under its collector.  In every state that any
    interleaving of the goroutines, the requests and the signal can reach, a poll in progress
    runs on an initialised NVML; NVML is shut down only after the collector returned,
    and nothing runs after that.  And once the signal was received the process can always
    finish: at most eight steps of the collector and the main goroutine alone lead to the exit,
    whatever the engine and the requests in flight are doing. *)
Theorem metricsd_stops_cleanly {V} `{HV : GaugeVec V, !GaugeVecLaws V} c lib (st0 : system V) es st
  (Hnew : New c lib = Ok st0) (Hrun : run st0 es = Some st) :
  (coll_pc st = CPolling → nvml st = NvmlUp) ∧
  (nvml st = NvmlDown → coll_pc st = CDone ∧ ∀ e, step st e = None) ∧
  (cancelled st = true → ∀ lib' order now, ∃ es' st',
     (List.length es' ≤ 8)%nat ∧ Forall (λ e, e ∈ [Main; CollectorStop; Collector lib' order now]) es' ∧
     run st es' = Some st' ∧ main st' = MExit).
Proof.
  destruct (New_inv c lib st0 Hnew) as (H0 & _). pose proof (run_invariant stop_inv (λ _, True) st0 es st
    (λ s e s' H _, step_stop_inv s e s' H) H0 ltac:(by apply Forall_true) Hrun) as H. pose proof H as [H1 H2 H3]. split_and!.
  - intros Hp. destruct (coll st); [|rewrite Hp in H1; by destruct H1 as [_ [|]]].
    destruct (main st); try done. all: congruence.
  - intros Hd. destruct (coll st); [|destruct H1; congruence]. destruct (main st) eqn:Em; try congruence.
    split; [done|]. intros e. unfold step. by rewrite Em.
  - intros Hc lib' order now. destruct (rest_exits lib' order now st H Hc) as (st' & Hr & Hm).
    eexists _, st'. split_and!; [| |exact Hr|done]; unfold collector_rest, main_rest.
    + rewrite length_app, repeat_length. destruct (coll_pc st), (coll st), (main st); cbn; lia.
    + apply Forall_app. split; [destruct (coll_pc st), (coll st)|destruct (main st)]; repeat constructor; set_solver.
Qed.

(** C23: a scrape against the goroutines.  However the steps of the collector, the engine and any
    number of concurrent requests interleave, a response gathered before any other request took
    the mutex is the response of a refresh in one piece: the gauges of a sequence of whole
    refreshes, the last one with this request's snapshot.  And that snapshot is the one the
    engine had published at a moment after the request arrived. *)
Theorem scrape_is_atomic {V} `{HV : GaugeVec V, !GaugeVecLaws V} c lib (st0 : system V) es st i s n resp
  (Hnew : New c lib = Ok st0) (Hrun : run st0 es = Some st)
  (Hdone : requests (web st) !! i = Some (RDone s n true resp)) :
  (∃ past, ∀ k, exposed resp k = exposed (refresh (Some s) (fold_left (λ r s, refresh (Some s) r) past newRuntime)) k) ∧
  (∃ es1 es2 st1, es = es1 ++ es2 ∧ Accept i ∈ es1 ∧ run st0 es1 = Some st1 ∧ snapshot (engine st1) = s).
Proof.
  destruct (New_inv c lib st0 Hnew) as (_ & Hw0 & He & _). split.
  - pose proof (run_invariant (λ st, web_inv (web st)) (λ _, True) st0 es st
      (λ s e s' H _, step_web_inv s e s' H) Hw0 ltac:(by apply Forall_true) Hrun) as H.
    destruct (placed_at _ H i _ s n Hdone eq_refl) as (k & -> & Hk). exists (take k (observed (web st))). intros key.
    pose proof (gathered _ H i s (S k) resp Hdone) as Hg. rewrite (take_S_r _ _ _ Hk), refreshed_snoc in Hg.
    unfold exposed. pose proof (Hg MemoryGauge) as G1. pose proof (Hg SMGauge) as G2. pose proof (Hg NormalizedGauge) as G3.
    cbn [column] in G1, G2, G3. by rewrite G1, G2, G3.
  - destruct (fetched_was_published st0 es st i _ He Hrun Hdone) as [_ Hf]. by apply Hf.
Qed.

(** C40: whatever a scrape exposes is a percentage.  In every run in which NVML answers numbers of
    their declared widths, each utilization and normalised utilization in a response is a
    number between 0 and 100, also in a response gathered while another request was rewriting
    the gauges. *)
Theorem scraped_percentages {V} `{HV : GaugeVec V, !GaugeVecLaws V} c lib (st0 : system V) es st i s n alone resp k mem sm norm
  (Hwindow : SMUtilizationWindow c ≤ int64_max) (Hnew : New c lib = Ok st0) (Hok : Forall event_ok es)
  (Hrun : run st0 es = Some st) (Hdone : requests (web st) !! i = Some (RDone s n alone resp)) :
  exposed resp k = Some (mem, sm, norm) → f_within 100 sm = true ∧ f_within 100 norm = true.
Proof.
  destruct (New_inv c lib st0 Hnew) as (_ & _ & _ & Hv0).
  pose proof (run_invariant value_inv event_ok st0 es st step_value_inv (Hv0 Hwindow) Hok Hrun) as [_ _ _ [_ Hq]].
  destruct (Hq _ _ Hdone) as [H1 H2]. unfold exposed.
  destruct (vec_get (label_set k) (memoryBytes resp)), (vec_get (label_set k) (smUtilization resp)) eqn:E1, (vec_get (label_set k) (smUtilizationNormalized resp)) eqn:E2; try done.
  intros [= -> -> ->]. split; [by eapply H1|by eapply H2].
Qed.

(** ** A node with one busy pod *)

Definition busy_config : ExporterConfig := mkExporterConfig "" "/proc" 5000000000 0 defaultMetricNames.
Abbreviation table := (gmap Labels float64).

Definition started : system table :=
  match New busy_config example_library with Ok st => st | Err _ => mkSystem false MExit NvmlDown Noop CDone (newMetricsController 0 0) EDone false (mkScrapes newRuntime None ∅ []) end.

(** The collector polls, the engine publishes, then a request is served alone. *)
Definition poll_and_publish : list event :=
  [Collector example_library joined_list 6000000000; Collector example_library joined_list 6000000000;
   EngineCollect (example_pods one_container) table_order map_to_list; EnginePublish].
(** The steps of a whole refresh up to the gathering, and of the gathering. *)
Definition up_to_gather (i : nat) (writes : nat) : list event := [Accept i; Request i; Request i] ++ repeat (Request i) (S writes).
Definition gather_all (i : nat) : list event := repeat (Request i) 4.

Definition busy_key : podGPUKey := mkKey "team-a" "p1" "uid-p1" "GPU-a" 0.

Definition response_of (i : nat) (o : option (system table)) : option (bool * option values3) :=
  st ← o; r ← requests (web st) !! i;
  match r with RDone _ _ alone resp => Some (alone, exposed resp busy_key) | _ => None end.

(** Two concurrent scrapes interfere: the second one, still refreshing, has set every known series
    to zero when the first one gathers, and the first response reports an idle pod in the middle
    of its work.  The gauges are gathered outside the mutex. *)
Theorem concurrent_scrapes_interfere : ∃ es,
  response_of 1 (run started (poll_and_publish ++ up_to_gather 1 4 ++ gather_all 1)) = Some (true, Some (f_of_int 4096, f_of_int 30, f_of_int 60)) ∧
  response_of 1 (run started (poll_and_publish ++ up_to_gather 1 4 ++ es ++ gather_all 1)) = Some (false, Some zeros).
Proof.
  exists ([Accept 2; Request 2; Request 2] ++ repeat (Request 2) 3). split; vm_compute; reflexivity.
Qed.

(** The signal arrives in the middle of the first poll. *)
Lemma metricsd_stops_cleanly_witness :
  ∃ st, run started [Collector example_library joined_list 6000000000; Signal; Main] = Some st ∧ coll_pc st = CPolling ∧ nvml st = NvmlUp ∧
  ∃ es' st', (List.length es' ≤ 8)%nat ∧ run st es' = Some st' ∧ main st' = MExit.
Proof.
  destruct (run started [Collector example_library joined_list 6000000000; Signal; Main]) as [st|] eqn:E; [|discriminate E].
  assert (Hst : coll_pc st = CPolling ∧ cancelled st = true) by (injection E as <-; split; reflexivity). destruct Hst as [Hp Hc].
  destruct (metricsd_stops_cleanly busy_config example_library started _ st eq_refl E) as (H1 & _ & H3).
  destruct (H3 Hc example_library joined_list 0) as (es' & st' & Hl & _ & Hr & Hm).
  exists st. split; [reflexivity|]. split; [exact Hp|]. split; [exact (H1 Hp)|]. exists es', st'. split; [exact Hl|]. split; [exact Hr|exact Hm].
Defined.

Definition served_alone : list event := poll_and_publish ++ up_to_gather 1 4 ++ gather_all 1.

Lemma scrape_is_atomic_witness :
  ∃ st s n resp past, run started served_alone = Some st ∧ requests (web st) !! 1%nat = Some (RDone s n true resp) ∧
  exposed resp busy_key = Some (f_of_int 4096, f_of_int 30, f_of_int 60) ∧
  exposed (refresh (Some s) (fold_left (λ r s, refresh (Some s) r) past newRuntime) : Exporter table) busy_key =
    Some (f_of_int 4096, f_of_int 30, f_of_int 60).
Proof.
  assert (Hresp : response_of 1 (run started served_alone) = Some (true, Some (f_of_int 4096, f_of_int 30, f_of_int 60)))
    by (vm_compute; reflexivity).
  destruct (run started served_alone) as [st|] eqn:E; [|discriminate Hresp]. cbn [response_of mbind option_bind] in Hresp.
  destruct (requests (web st) !! 1%nat) as [[|? |? ? ?|? ? ?|s n alone resp]|] eqn:Er; try discriminate Hresp.
  injection Hresp as -> Hx. destruct (scrape_is_atomic busy_config example_library started served_alone st 1 s n resp eq_refl E Er) as [[past Hp] _].
  exists st, s, n, resp, past. split; [reflexivity|]. split; [exact Er|]. split; [exact Hx|]. rewrite <- (Hp busy_key). exact Hx.
Defined.

(** A library without devices: the pod is idle. *)
Definition empty_library : library := mkLibrary SUCCESS SUCCESS (0, SUCCESS) (λ _, (example_device, ERROR_NOT_FOUND)).
Definition idle_scrape : list event :=
  [Collector empty_library joined_list 1; Collector empty_library joined_list 1;
   EngineCollect (example_pods one_container) table_order map_to_list; EnginePublish] ++ up_to_gather 1 4 ++ gather_all 1.

Lemma scraped_percentages_witness :
  ∃ st s n alone resp v, run started idle_scrape = Some st ∧ requests (web st) !! 1%nat = Some (RDone s n alone resp) ∧
  exposed resp (mkKey "team-a" "p1" "uid-p1" "" 0) = Some v ∧ f_within 100 v.1.2 = true ∧ f_within 100 v.2 = true.
Proof.
  assert (Hresp : (st ← run started idle_scrape; r ← requests (web st) !! 1%nat;
    match r with RDone _ _ _ resp => exposed resp (mkKey "team-a" "p1" "uid-p1" "" 0) | _ => None end) = Some zeros) by (vm_compute; reflexivity).
  destruct (run started idle_scrape) as [st|] eqn:E; [|discriminate Hresp]. cbn [mbind option_bind] in Hresp.
  destruct (requests (web st) !! 1%nat) as [[|? |? ? ?|? ? ?|s n alone resp]|] eqn:Er; try discriminate Hresp. cbn [mbind option_bind] in Hresp.
  exists st, s, n, alone, resp, zeros. split; [reflexivity|]. split; [exact Er|]. split; [exact Hresp|].
  eapply (scraped_percentages busy_config example_library started idle_scrape st 1 s n alone resp _ _ _ _); [| | |exact E|exact Er|exact Hresp].
  - vm_compute. congruence.
  - reflexivity.
  - assert (Hc : event_ok (Collector empty_library joined_list 1)).
    { intros [c|] Ht; [|exact Ht]. split; [constructor|]. split; [reflexivity|]. intros i t Hi. change ((∅ : gmap Z Z) !! i = Some t) in Hi. rewrite lookup_empty in Hi. discriminate Hi. }
    constructor; [exact Hc|]. constructor; [exact Hc|]. constructor; [intros m; reflexivity|]. repeat (constructor; [exact I|]). constructor.
Defined.
