(* ===== verification/Controller.v ===== *)
(** * operator: the controller around the reconciler

    [SetupWithManager] and the optional watches of
    [controller/gpufractioningconfig_controller.go], and the loop that controller-runtime
    runs with them: objects change, the watches turn the changes into requests, each
    request is one [Reconcile] (Reconcile), and what that run writes are changes again.

    The API discovery is an argument ([lookup]); of controller-runtime the model has the
    watches, the requests they enqueue, the work queue as a set of names and the wait
    for the caches at the start.  The reconciler watches the configuration without a
    predicate, so each status it writes comes back to it: [Calm] says what it means
    that nobody else changes the cluster and no call fails, and the loop is shown to end. *)

From Stdlib Require Import ZArith Lia String Ascii.
From stdpp Require Import base gmap list strings.
From S2P Require Import Prelude GoStrings GoTime Status DaemonSets NodeStatus GpuStack Reconcile.

#[local] Open Scope string_scope.
#[local] Open Scope list_scope.
#[local] Open Scope Z_scope.

(** ** The watches *)

Record GroupVersionKind := mkGVK { Group : string; Version : string; Kind : string }.
#[global] Instance GroupVersionKind_eq_dec : EqDecision GroupVersionKind.
Proof. solve_decision. Defined.

Definition clusterPolicyGVK : GroupVersionKind := mkGVK "nvidia.com" "v1" "ClusterPolicy".
Definition clusterServiceVersionGVK : GroupVersionKind := mkGVK "operators.coreos.com" "v1alpha1" "ClusterServiceVersion".
Definition defaultGpuFractioningConfigName : string := "default".

(** What [RESTMapping] answers: a mapping, a no-match error, or another error. *)
Inductive lookup := Mapped | NoMatch | LookupFailed (msg : string).

Inductive SetupError := CheckingDependency (gvk : GroupVersionKind) (msg : string).

(** A source of the controller: the configurations, the DaemonSets they own, or the metadata of
    a GPU Operator API. *)
Inductive source := ForConfig | OwnsDaemonSets | DependencySource (gvk : GroupVersionKind).

Definition gpuOperatorDependencyGVKExists (mapper : GroupVersionKind → lookup) (gvk : GroupVersionKind) : result string bool :=
  match mapper gvk with Mapped => Ok true | NoMatch => Ok false | LookupFailed msg => Err msg end.

Definition watchGpuOperatorDependencyIfAvailable (b : list source) (mapper : GroupVersionKind → lookup) (gvk : GroupVersionKind)
    : result SetupError (list source) :=
  match gpuOperatorDependencyGVKExists mapper gvk with
  | Err msg => Err (CheckingDependency gvk msg)
  | Ok available => Ok (if negb available then b else b ++ [DependencySource gvk])
  end.

Fixpoint watch_dependencies (b : list source) (mapper : GroupVersionKind → lookup) (gvks : list GroupVersionKind)
    : result SetupError (list source) :=
  match gvks with
  | [] => Ok b
  | gvk :: gvks => b <-? watchGpuOperatorDependencyIfAvailable b mapper gvk;; watch_dependencies b mapper gvks
  end.

Definition SetupWithManager (mapper : GroupVersionKind → lookup) : result SetupError (list source) :=
  watch_dependencies [ForConfig; OwnsDaemonSets] mapper [clusterPolicyGVK; clusterServiceVersionGVK].

(** A source that exposes [WaitForSync]; [nonBlockingSyncingSource] hides it. *)
Definition syncing (s : source) : bool := match s with ForConfig | OwnsDaemonSets => true | DependencySource _ => false end.

(** The controller starts its workers once the caches of the syncing sources are filled. *)
Definition starts (synced : source → bool) (sources : list source) : bool :=
  forallb (λ s, negb (syncing s) || synced s) sources.

(** ** Changes and requests *)

Inductive change :=
| ConfigChanged (name : string)
| DaemonSetChanged (k : key) (controller : option string)      (** the config that owns it *)
| DependencyChanged (gvk : GroupVersionKind).

(** The request a source enqueues for a change; the dependencies enqueue the singleton. *)
Definition request_of (s : source) (c : change) : option string :=
  match s, c with
  | ForConfig, ConfigChanged name => Some name
  | OwnsDaemonSets, DaemonSetChanged _ controller => controller
  | DependencySource gvk, DependencyChanged gvk' =>
      if decide (gvk = gvk') then Some defaultGpuFractioningConfigName else None
  | _, _ => None
  end.

Definition enqueued (sources : list source) (c : change) : list string := omap (λ s, request_of s c) sources.

(** Objects that can be compared: a write that changes nothing is no change. *)
#[local] Instance EnvSource_eq_dec : EqDecision EnvSource := ltac:(solve_decision).
#[local] Instance EnvVar_eq_dec : EqDecision EnvVar := ltac:(solve_decision).
#[local] Instance VolumeSource_eq_dec : EqDecision VolumeSource := ltac:(solve_decision).
#[local] Instance Volume_eq_dec : EqDecision Volume := ltac:(solve_decision).
#[local] Instance VolumeMount_eq_dec : EqDecision VolumeMount := ltac:(solve_decision).
#[local] Instance ProbeHandler_eq_dec : EqDecision ProbeHandler := ltac:(solve_decision).
#[local] Instance Probe_eq_dec : EqDecision Probe := ltac:(solve_decision).
#[local] Instance ContainerPort_eq_dec : EqDecision ContainerPort := ltac:(solve_decision).
#[local] Instance ResourceRequirements_eq_dec : EqDecision ResourceRequirements := ltac:(solve_decision).
#[local] Instance Container_eq_dec : EqDecision Container := ltac:(solve_decision).
#[local] Instance Toleration_eq_dec : EqDecision Toleration := ltac:(solve_decision).
#[local] Instance NodeSelectorRequirement_eq_dec : EqDecision NodeSelectorRequirement := ltac:(solve_decision).
#[local] Instance PodSpec_eq_dec : EqDecision PodSpec := ltac:(solve_decision).
#[global] Instance DaemonSet_eq_dec : EqDecision DaemonSet := ltac:(solve_decision).
#[global] Instance Condition_eq_dec : EqDecision Condition := ltac:(solve_decision).
#[global] Instance DaemonHealth_eq_dec : EqDecision DaemonHealth := ltac:(solve_decision).

(** ** The conditions a run writes *)

Definition daemon_cond (generation : Z) (o : observation) : Condition :=
  DaemonHealthToCondition (daemon o) (match reconcile_err o with Some _ => mkHealth 0 0 | None => health o end) generation
    (reconcile_err o) (observed_at o).

(** The status after a run: the daemons' conditions, the aggregate as the GPU stack check leaves
    it, the driver upgrade. *)
Definition written (generation : Z) (cs : list Condition) (os : list observation) (now : Z) (check : Condition → Condition)
    (upgrading : bool) (now' : Z) : list Condition :=
  let cs := fold_left (λ cs o, SetCondition cs (daemon_cond generation o)) os cs in
  SetCondition (SetCondition cs (check (AggregateReadyCondition cs generation now))) (DriverUpgradeCondition upgrading generation now').

(** Equal up to the transition time. *)
Definition agree (c c' : Condition) : Prop :=
  CType c = CType c' ∧ CStatus c = CStatus c' ∧ ObservedGeneration c = ObservedGeneration c' ∧ CReason c = CReason c' ∧
  CMessage c = CMessage c'.

#[local] Instance agree_equiv : Equivalence agree.
Proof.
  split; [done| |].
  - intros a b (? & ? & ? & ? & ?). by split_and!.
  - intros a b c (? & ? & ? & ? & ?) (? & ? & ? & ? & ?). split_and!; congruence.
Qed.

(** The conditions contain this one. *)
Definition holds (cs : list Condition) (c : Condition) : Prop := ∃ e, find_condition (CType c) cs = Some e ∧ agree e c.

Lemma holds_agree cs c c' : agree c c' → holds cs c → holds cs c'.
Proof. intros H (e & He & Ha). exists e. rewrite <- (proj1 H). split; [done|]. by etrans. Qed.

Lemma SetCondition_idem cs c : holds cs c → SetCondition cs c = cs.
Proof.
  intros (e & He & Ha). induction cs as [|x cs IH]; [done|]. unfold find_condition in He. cbn [List.find SetCondition] in *.
  destruct (String.eqb (CType x) (CType c)) eqn:E; [|by rewrite IH].
  injection He as ->. destruct e, c, Ha as (Ht & Hs & Hg & Hr & Hm). cbn in *. subst. by rewrite String.eqb_refl.
Qed.

Lemma stored_agree old c : agree (stored old c) c.
Proof. unfold stored. by repeat case_match. Qed.

Lemma holds_SetCondition cs c : holds (SetCondition cs c) c.
Proof. exists (stored (find_condition (CType c) cs) c). rewrite find_SetCondition, String.eqb_refl. split; [done|apply stored_agree]. Qed.

Lemma holds_SetCondition_ne cs c c' : CType c' ≠ CType c → holds cs c → holds (SetCondition cs c') c.
Proof. intros Hne (e & He & Ha). exists e. rewrite find_SetCondition, (proj2 (String.eqb_neq _ _)) by done. done. Qed.

Lemma daemon_cond_type generation o : CType (daemon_cond generation o) = condition_type o.
Proof. unfold daemon_cond, DaemonHealthToCondition, condition_type. by repeat case_match. Qed.

Lemma daemon_fold_written generation os : ∀ cs rq,
  (fold_left (daemon_step generation) os (cs, rq)).1 = fold_left (λ cs o, SetCondition cs (daemon_cond generation o)) os cs.
Proof.
  induction os as [|o os IH]; intros cs rq; cbn [fold_left]; [done|].
  assert ((daemon_step generation (cs, rq) o).1 = SetCondition cs (daemon_cond generation o)) as <-.
  { unfold daemon_step, daemon_cond. by destruct (reconcile_err o). }
  destruct (daemon_step _ _ _). apply IH.
Qed.

Lemma holds_after_fold generation os : ∀ cs c, holds cs c → CType c ∉ map condition_type os →
  holds (fold_left (λ cs o, SetCondition cs (daemon_cond generation o)) os cs) c.
Proof.
  induction os as [|o os IH]; intros cs c Hc Hn; cbn [fold_left map] in *; [done|]. apply not_elem_of_cons in Hn as [Hne Hn].
  apply IH; [|done]. apply holds_SetCondition_ne; [rewrite daemon_cond_type; congruence|done].
Qed.

Lemma fold_holds generation os : ∀ cs, NoDup (map condition_type os) → ∀ o, o ∈ os →
  holds (fold_left (λ cs o, SetCondition cs (daemon_cond generation o)) os cs) (daemon_cond generation o).
Proof.
  induction os as [|o os IH]; intros cs Hnd o' Ho; [by apply elem_of_nil in Ho|]. cbn [map fold_left] in *.
  apply list.NoDup_cons in Hnd as [Hn Hnd]. apply elem_of_cons in Ho as [->|Ho]; [|by apply IH].
  apply holds_after_fold; [apply holds_SetCondition|by rewrite daemon_cond_type].
Qed.

Lemma fold_idem generation os cs : (∀ o, o ∈ os → holds cs (daemon_cond generation o)) →
  fold_left (λ cs o, SetCondition cs (daemon_cond generation o)) os cs = cs.
Proof.
  induction os as [|o os IH]; intros H; cbn [fold_left]; [done|]. rewrite SetCondition_idem by (apply H; left).
  apply IH. intros o' Ho. apply H. by right.
Qed.

(** Writing a condition that does not count leaves the aggregate alone. *)
Lemma aggregate_other c : is_component c = false → ∀ cs acc,
  fold_left aggregate_step (SetCondition cs c) acc = fold_left aggregate_step cs acc.
Proof.
  intros Hc. induction cs as [|e cs IH]; intros acc; cbn [SetCondition fold_left].
  { unfold aggregate_step. destruct acc. by rewrite Hc. }
  destruct (String.eqb_spec (CType e) (CType c)) as [Ht|Ht]; cbn [fold_left]; [|apply IH]. f_equal.
  assert (Hskip : ∀ x, CType x = CType c → aggregate_step acc x = acc).
  { intros x Hx. unfold aggregate_step. destruct acc. unfold is_component in *. by rewrite Hx, Hc. }
  rewrite !Hskip; [done|done|]. by destruct (String.eqb (CStatus e) (CStatus c)).
Qed.

Lemma aggregate_agree cs c generation now now' : is_component c = false → cs ≠ [] →
  agree (AggregateReadyCondition (SetCondition cs c) generation now) (AggregateReadyCondition cs generation now').
Proof.
  intros Hc Hne. unfold AggregateReadyCondition.
  assert (Hne' : SetCondition cs c ≠ []) by (destruct cs as [|e cs]; [done|cbn; by destruct (String.eqb (CType e) (CType c))]).
  destruct (SetCondition cs c) eqn:E; [done|]. rewrite <- E. destruct cs eqn:E'; [done|]. rewrite <- E', aggregate_other by done.
  destruct (fold_left _ _ _) as [[|] [|]]; done.
Qed.

Lemma aggregate_now cs generation now now' :
  agree (AggregateReadyCondition cs generation now) (AggregateReadyCondition cs generation now').
Proof. unfold AggregateReadyCondition. destruct cs; [done|]. destruct (fold_left _ _ _) as [[|] [|]]; done. Qed.

(** The same observation, made at another time. *)
Definition same_observation (o o' : observation) : Prop :=
  daemon o = daemon o' ∧ health o = health o' ∧ reconcile_err o = reconcile_err o'.

Lemma daemon_cond_agree generation o o' : same_observation o o' → agree (daemon_cond generation o) (daemon_cond generation o').
Proof. intros (H1 & H2 & H3). unfold daemon_cond, DaemonHealthToCondition. rewrite H1, H2, H3. by repeat case_match. Qed.

(** The status is a fixpoint: with the same observations, the same check and the same upgrade
    state a further run writes it as it is, whatever the clock says. *)
Lemma written_fixpoint generation cs os os' now1 now2 check check' up t t' :
  os ≠ [] → NoDup (map condition_type os) →
  (∀ o, o ∈ os → condition_type o ∉ [ConditionReady; ConditionDriverUpgradeInProgress]) →
  Forall2 same_observation os os' →
  (∀ c, CType c = ConditionReady → CType (check c) = ConditionReady) →
  (∀ c c', CType c = ConditionReady → agree c c' → agree (check c) (check' c')) →
  written generation (written generation cs os now1 check up t) os' now2 check' up t' = written generation cs os now1 check up t.
Proof.
  intros Hne Hnd Hty Hos Hct Hca. unfold written. set (X := fold_left _ os cs). set (agg := AggregateReadyCondition X generation now1).
  set (Y := SetCondition (SetCondition X (check agg)) _).
  assert (Hagg : CType agg = ConditionReady) by (unfold agg, AggregateReadyCondition; repeat case_match; done).
  assert (Hr : CType (check agg) = ConditionReady) by auto.
  assert (Hu : CType (DriverUpgradeCondition up generation t) = ConditionDriverUpgradeInProgress) by by destruct up.
  assert (HX : X ≠ []).
  { destruct os as [|o os]; [done|]. intros HX. destruct (fold_holds generation (o :: os) cs Hnd o (list_elem_of_here _ _)) as (e & He & _).
    fold X in He. by rewrite HX in He. }
  assert (Hfold : fold_left (λ cs o, SetCondition cs (daemon_cond generation o)) os' Y = Y).
  { apply fold_idem. intros o' [i Hi]%list_elem_of_lookup_1. destruct (Forall2_lookup_r _ _ _ _ _ Hos Hi) as (o & Ho & Hsame).
    apply list_elem_of_lookup_2 in Ho. apply (holds_agree _ (daemon_cond generation o)); [by apply daemon_cond_agree|].
    specialize (Hty o Ho). rewrite !not_elem_of_cons in Hty. destruct Hty as (H1 & H2 & _).
    apply holds_SetCondition_ne; [rewrite Hu, daemon_cond_type; congruence|].
    apply holds_SetCondition_ne; [rewrite Hr, daemon_cond_type; congruence|]. by apply fold_holds. }
  rewrite Hfold.
  assert (Ha : agree agg (AggregateReadyCondition Y generation now2)).
  { symmetry. unfold Y. etrans; [apply (aggregate_agree _ _ _ _ now2)|apply aggregate_agree; [|done]].
    - unfold is_component. by rewrite Hu.
    - destruct X as [|e X']; [done|]. cbn [SetCondition]. by destruct (String.eqb (CType e) (CType (check agg))).
    - unfold is_component. by rewrite Hr. }
  assert (HY : holds Y (check' (AggregateReadyCondition Y generation now2))).
  { apply (holds_agree _ _ _ (Hca agg _ Hagg Ha)). apply holds_SetCondition_ne; [by rewrite Hu, Hr|]. apply holds_SetCondition. }
  rewrite (SetCondition_idem Y) by done. apply SetCondition_idem.
  apply (holds_agree _ (DriverUpgradeCondition up generation t)); [by destruct up|]. apply holds_SetCondition.
Qed.

(** The GPU stack check looks at the aggregate's status only, and at the clock for its times. *)
Lemma Check_agree {Obj} `{Unstructured Obj} `{Semver} (c : checker) (csvs : Listing Obj) cancelled p generation now now' ready ready' :
  agree ready ready' →
  agree (Check c csvs cancelled p generation now ready).1 (Check c csvs cancelled p generation now' ready').1.
Proof.
  intros Ha. unfold Check. rewrite <- (proj1 (proj2 Ha)). by repeat case_match.
Qed.

(** ** A calm cluster

    Nobody but the controller changes the cluster, and no call fails.  [background] is what
    the reconciler only reads. *)

Class Calm (W Obj : Type) {cluster : ClusterAPI W} {selection : NodeSelection} {laws : ClusterLaws W}
    {config_api : ConfigAPI W Obj} {config_laws : ConfigLaws W Obj} := {
  object : W → string * Z * GpuFractioningConfigSpec;
  csvs : W → Listing Obj;
  background (w : W) := (object w, csvs w, ctx_err w);
  calm_Get_config w : background (Get_config w).1 = background w ∧ ∃ c, (Get_config w).2 = Ok c ∧
    (config_name c, Generation c, Spec c) = object w ∧ deleting c = false ∧ Conditions c = (stored_status w).1;
  calm_Get_node w name : background (Get_node w name).1 = background w;
  calm_Patch_status w name p : background (Patch_status w name p).1 = background w ∧
    ((Patch_status w name p).2 = None ∨ (Patch_status w name p).2 = Some NotFound);
  calm_List_matching w sel reqs : background (List_matching w sel reqs).1 = background w ∧ is_ok (List_matching w sel reqs).2 = true;
  calm_Update_finalizers w fs : background (Update_finalizers w fs).1 = background w ∧ (Update_finalizers w fs).2 = None;
  (** an update that changes nothing is not sent *)
  calm_CreateOrUpdate w ds owner : let '(w', e) := CreateOrUpdate w ds owner in
    background w' = background w ∧ stored_status w' = stored_status w ∧ e = None ∧
    (daemonsets w !! key_of ds = Some ds → daemonset_health w' !! key_of ds = daemonset_health w !! key_of ds);
  calm_Get_daemonset w k : background (Get_daemonset w k).1 = background w ∧
    (Get_daemonset w k).2 = match daemonset_health w !! k with Some h => Ok h | None => Err NotFound end;
  calm_List_pods w ns sel : background (List_pods w ns sel).1 = background w;
  calm_List_policies w : background (List_policies w).1 = background w ∧ (List_policies w).2 = policies w;
  calm_List_csvs w : background (List_csvs w).1 = background w ∧ (List_csvs w).2 = csvs w;
  calm_Update_status w cs g : background (Update_status w cs g).1 = background w ∧ (Update_status w cs g).2 = None
}.

Section Calm.
Context {W Obj : Type} {cluster : ClusterAPI W} {selection : NodeSelection} {laws : ClusterLaws W}.
Context {config_api : ConfigAPI W Obj} {config_laws : ConfigLaws W Obj} {calm : Calm W Obj}.
Context {unstructured : Unstructured Obj} {semver : Semver}.
Context (error_text : DaemonError → string).

(** What a run leaves as it is, besides the finalizers: the background and the labels of the nodes. *)
Definition view (w : W) := (background w, node_labels <$> nodes w).

Lemma labels_read (w w' : W) : nodes w' = nodes w → node_labels <$> nodes w' = node_labels <$> nodes w.
Proof. by intros ->. Qed.

Lemma Get_node_view w name : view (Get_node w name).1 = view w.
Proof.
  unfold view. rewrite calm_Get_node. pose proof (Get_node_reads w name) as H. destruct (Get_node w name). cbn [fst].
  by rewrite (proj1 H).
Qed.

Lemma Patch_status_view w name p : view (Patch_status w name p).1 = view w.
Proof.
  unfold view. rewrite (proj1 (calm_Patch_status w name p)). f_equal. pose proof (Patch_status_writes w name p) as H.
  destruct (Patch_status w name p) as [w' e]. destruct H as [_ [Hoth Hat]]. cbn [fst]. apply map_eq. intros m.
  rewrite !lookup_fmap. destruct (decide (m = name)) as [->|Hne]; [|by rewrite Hoth].
  assert (Happ : ∀ n n', nodes w !! name = Some n → nodes w' !! name = Some n' → apply_status_patch p n n' →
    node_labels <$> nodes w' !! name = node_labels <$> nodes w !! name).
  { intros n n' -> -> [Hl _]. cbn. by rewrite Hl. }
  destruct e as [[|msg]|].
  - by destruct Hat as [-> ->].
  - destruct Hat as [->|(n & n' & H1 & H2 & H3)]; [done|by eapply Happ].
  - destruct Hat as (n & n' & H1 & H2 & H3). by eapply Happ.
Qed.

Lemma List_matching_view w sel reqs : view (List_matching w sel reqs).1 = view w.
Proof.
  unfold view. rewrite (proj1 (calm_List_matching w sel reqs)). pose proof (List_matching_reads w sel reqs) as H.
  destruct (List_matching _ _ _). cbn [fst]. by rewrite (proj1 H).
Qed.

Lemma node_phase_view r w rq was : view (node_phase r w rq was).1.1 = view w.
Proof.
  unfold node_phase. destruct (rq || was); [|done]. pose proof (calm_List_pods w (r_Namespace r) managedByLabels) as Hb.
  pose proof (List_pods_reads w (r_Namespace r) managedByLabels) as H. destruct (List_pods _ _ _) as [w1 pages]. cbn [fst] in Hb.
  destruct H as (_ & Hn & _). pose proof (patchNodeConditions_keeps view Get_node_view Patch_status_view w1 pages) as Hk.
  destruct (patchNodeConditions _ _) as [[[w2 unh] errs] g]. cbn [fst] in *. rewrite Hk. unfold view. by rewrite Hb, Hn.
Qed.

(** Is a targeted node being upgraded, by the labels? *)
Definition upgrades (labels : gmap string labels_map) (sel : labels_map) : Prop :=
  ∃ name ls, labels !! name = Some ls ∧ selects sel ls && forallb (λ q, matches q ls) upgrading_requirements = true.

Lemma remove_steps_clean l : ∀ acc : W * list NodeError, acc.2 = [] → (fold_left remove_condition_step l acc).2 = [].
Proof.
  induction l as [|e l IH]; intros [w errs] He; cbn [fold_left]; [done|]. apply IH. cbn in He. subst. unfold remove_condition_step.
  destruct (FindNodeCondition e.2); [|done]. unfold RemoveNodeCondition.
  pose proof (proj2 (calm_Patch_status w e.1 (DeleteCondition NodeConditionType))) as H.
  destruct (Patch_status _ _ _) as [w' o]. cbn [snd] in H. by destruct H as [->| ->].
Qed.

Lemma evaluateDriverUpgrade_calm w sel : let '(w', up, errs) := evaluateDriverUpgrade w sel in
  view w' = view w ∧ off_nodes w' = off_nodes w ∧ errs = [] ∧ (up = true ↔ upgrades (node_labels <$> nodes w) sel).
Proof.
  pose proof (evaluateDriverUpgrade_keeps view Patch_status_view List_matching_view w sel) as Hv.
  pose proof (evaluateDriverUpgrade_off_nodes w sel) as Ho. unfold evaluateDriverUpgrade in *.
  pose proof (List_matching_reads w sel upgrading_requirements) as H. pose proof (proj2 (calm_List_matching w sel upgrading_requirements)) as Hok.
  destruct (List_matching _ _ _) as [w1 [l|e]]; [|done]. destruct H as (_ & _ & Hl). specialize (Hl l eq_refl).
  pose proof (remove_steps_clean l (w1, []) eq_refl) as He. destruct (fold_left _ _ _) as [w2 errs]. cbn [fst snd] in *.
  split_and!; [done|done|done|]. rewrite negb_true_iff, bool_decide_eq_false. split.
  - destruct l as [|[name n] l]; [done|]. intros _. destruct (proj1 (Hl name n)) as [H1 H2]; [left|].
    exists name, (node_labels n). by rewrite lookup_fmap, H1.
  - intros (name & ls & H1 & H2) ->. rewrite lookup_fmap in H1. destruct (nodes w !! name) as [n|] eqn:En; [|done].
    injection H1 as <-. by apply (elem_of_nil (A := string * Node) (name, n)), Hl.
Qed.

(** *** The daemons *)

(** What a run observes of a daemon whose DaemonSet is in place. *)
Definition observation_of (healths : gmap key DaemonHealth) (opts : BuildOptions) (d : ManagedDaemon) (t : Z) : observation :=
  match healths !! key_of (Build d opts) with
  | Some h => mkObservation (Name d) h None t
  | None => mkObservation (Name d) (mkHealth 0 0) (Some (error_text (FetchingDaemonSet (key_of (Build d opts)) NotFound))) t
  end.

Definition in_place (w : W) (opts : BuildOptions) (d : ManagedDaemon) : Prop := daemonsets w !! key_of (Build d opts) = Some (Build d opts).

Lemma ReconcileDaemon_calm w owner d opts (k := key_of (Build d opts)) :
  let '(w', r) := ReconcileDaemon w owner d opts in
  view w' = view w ∧ stored_status w' = stored_status w ∧ in_place w' opts d ∧
  (in_place w opts d → daemonsets w' = daemonsets w ∧ daemonset_health w' = daemonset_health w) ∧
  r = match daemonset_health w' !! k with Some h => Ok h | None => Err (FetchingDaemonSet k NotFound) end.
Proof.
  unfold ReconcileDaemon. pose proof (CreateOrUpdate_writes w (Build d opts) owner) as H.
  pose proof (calm_CreateOrUpdate w (Build d opts) owner) as Hc. destruct (CreateOrUpdate _ _ _) as [w1 e].
  destruct Hc as (B1 & S1 & -> & K1). destruct H as (N1 & _ & _ & _ & Hoth & Hok). specialize (Hok eq_refl). fold k in Hok, Hoth, K1.
  pose proof (Get_daemonset_reads w1 k) as H. destruct (calm_Get_daemonset w1 k) as [B2 R2]. fold k.
  destruct (Get_daemonset w1 k) as [w2 r]. destruct H as (Hside & N2 & _ & _). cbn [fst snd] in *. subst r.
  unfold side in Hside. injection Hside as HD HH _ _ HS. unfold in_place, view in *. rewrite B2, B1, N2, N1, HS, S1, HD, HH.
  split_and!; [done|done|done| |by destruct (daemonset_health w1 !! k)].
  intros Hin. split; apply map_eq; intros j; (destruct (decide (j = k)) as [->|Hj]; [|by apply Hoth]).
  - by rewrite Hok, <- Hin.
  - by apply K1.
Qed.

Lemma reconcile_daemons_calm owner opts ds : ∀ w, NoDup (map (λ d, key_of (Build d opts)) ds) →
  let '(w', os) := reconcile_daemons error_text w owner ds opts in
  view w' = view w ∧ stored_status w' = stored_status w ∧ (∀ d, d ∈ ds → in_place w' opts d) ∧
  ((∀ d, d ∈ ds → in_place w opts d) → daemonsets w' = daemonsets w ∧ daemonset_health w' = daemonset_health w) ∧
  Forall2 (λ d o, same_observation o.1 (observation_of (daemonset_health w') opts d 0)) ds os.
Proof.
  induction ds as [|d ds IH]; intros w Hnd; cbn [reconcile_daemons].
  { split_and!; [done|done|by intros ? ?%elem_of_nil|done|constructor]. }
  pose proof (ReconcileDaemon_calm w owner d opts) as H1. pose proof (reconcile_daemons_spec error_text opts owner (d :: ds) w Hnd) as Hspec.
  cbn [map] in Hnd. apply list.NoDup_cons in Hnd as [Hd Hnd]. cbn [reconcile_daemons] in Hspec.
  destruct (ReconcileDaemon _ _ _ _) as [w1 r]. destruct H1 as (V1 & S1 & P1 & K1 & ->).
  specialize (IH w1 Hnd). pose proof (reconcile_daemons_spec error_text opts owner ds w1 Hnd) as Hrest.
  destruct (reconcile_daemons _ _ _ _ _) as [w2 os]. destruct IH as (V2 & S2 & P2 & K2 & Hos). destruct Hrest as (_ & Hoth & _).
  destruct (Hoth _ Hd) as [D2 H2]. split_and!; [congruence|congruence| | |].
  - intros d' [->|Hd']%elem_of_cons; [unfold in_place in *; congruence|by apply P2].
  - intros Hall. destruct K1 as [KD KH]; [apply Hall; left|]. rewrite <- KD, <- KH. apply K2. intros d' Hd'. unfold in_place in *.
    rewrite KD. apply Hall. by right.
  - constructor; [|done]. unfold observation_of. rewrite H2. by destruct (daemonset_health w1 !! _).
Qed.

(** *** A run *)

Definition daemons_of (r : reconciler) (w : W) : list ManagedDaemon :=
  buildDaemons (object w).2 (MpsdAuditLog r) (SupportSMSharing r).
Definition options_of (r : reconciler) (w : W) : BuildOptions :=
  buildOptions r (mkConfig "" 0 false [] (object w).2 []) (ReadClusterPolicy (policies w)).
Definition check_of (r : reconciler) (w : W) (now : Z) (c : Condition) : Condition :=
  (Check (mkChecker (SkipGpuStackVersionChecks r) (r_Namespace r)) (csvs w) (ctx_err w) (ReadClusterPolicy (policies w))
     (object w).1.2 now c).1.

(** What a run on an active configuration leaves behind. *)
Definition ran (r : reconciler) (w w' : W) (out : outcome) : Prop :=
  view w' = view w ∧ policies w' = policies w ∧
  (∀ d, d ∈ daemons_of r w → in_place w' (options_of r w) d) ∧
  ((∀ d, d ∈ daemons_of r w → in_place w (options_of r w) d) → daemonsets w' = daemonsets w ∧ daemonset_health w' = daemonset_health w) ∧
  (∃ os now now' up t, Forall2 (λ d o, same_observation o (observation_of (daemonset_health w') (options_of r w) d 0)) (daemons_of r w) os ∧
     (up = true ↔ upgrades (node_labels <$> nodes w) (spec_NodeSelector (object w).2)) ∧
     stored_status w' = (written (object w).1.2 (stored_status w).1 os now (check_of r w now') up t, (object w).1.2)) ∧
  run_error out = None ∧ (RequeueAfter out = 0 ∨ RequeueAfter out = requeueInterval).

Lemma list_csvs_calm c p w : let '(w', cl) := list_csvs c p w in background w' = background w ∧
  ∀ cancelled generation now ready, Check c cl cancelled p generation now ready = Check c (csvs w) cancelled p generation now ready.
Proof.
  unfold list_csvs. destruct (consults_csvs c p) eqn:E; [|split; [done|]; intros; by apply Check_unread].
  destruct (calm_List_csvs w) as [B C]. destruct (List_csvs w) as [w' cl]. cbn in *. by subst cl.
Qed.

Lemma reconcile_active_calm r w config :
  (config_name config, Generation config, Spec config) = object w → Conditions config = (stored_status w).1 →
  let '(w', out) := reconcile_active error_text r w config in ran r w w' out ∧ finalizers w' = finalizers w.
Proof.
  intros Hobj Hcs. unfold reconcile_active, ran, daemons_of, options_of, check_of. rewrite <- Hobj. cbv zeta. cbn [fst snd].
  pose proof (List_policies_reads w) as H1. destruct (calm_List_policies w) as [B1 L1]. destruct (List_policies w) as [w1 l].
  cbn [fst snd] in B1, L1. subst l. destruct H1 as (S1 & N1 & F1 & _). unfold side in S1. injection S1 as D1 Hh1 _ P1 St1.
  change (buildOptions r (mkConfig "" 0 false [] (Spec config) [])) with (buildOptions r config).
  set (opts := buildOptions r config (ReadClusterPolicy (policies w))).
  set (ds := buildDaemons _ _ _).
  pose proof (reconcile_daemons_spec error_text opts (config_name config) ds w1 (daemon_keys _ _ _ _)) as H2.
  pose proof (reconcile_daemons_calm (config_name config) opts ds w1 (daemon_keys _ _ _ _)) as C2.
  destruct (reconcile_daemons _ _ _ _ _) as [w2 os]. destruct H2 as ((_ & F2 & _ & P2) & _ & _).
  destruct C2 as (V2 & St2 & I2 & K2 & Hos). unfold daemon_pass.
  pose proof (daemon_fold_written (Generation config) (map fst os) (Conditions config) false) as Hw.
  destruct (fold_left (daemon_step _) _ _) as [cs rq]. cbn [fst] in Hw. subst cs.
  pose proof (list_csvs_reads (mkChecker (SkipGpuStackVersionChecks r) (r_Namespace r)) (ReadClusterPolicy (policies w)) w2) as H3.
  pose proof (list_csvs_calm (mkChecker (SkipGpuStackVersionChecks r) (r_Namespace r)) (ReadClusterPolicy (policies w)) w2) as Hcl.
  destruct (list_csvs _ _ w2) as [w3 cl]. destruct Hcl as [B3 Hcl]. rewrite Hcl. clear Hcl cl. destruct H3 as (S3 & N3 & F3).
  unfold view, background in V2, B1, B3. injection V2 as O2 C2 X2 Lb2. injection B1 as O1 C1 X1. injection B3 as O3 C3 X3.
  assert (HC : csvs w2 = csvs w) by congruence. assert (HX : ctx_err w3 = ctx_err w) by congruence. rewrite HC, HX.
  destruct (Check _ _ _ _ _ _ _) as [ready checkErr] eqn:Eck. apply (f_equal fst) in Eck. cbn [fst] in Eck. subst ready.
  pose proof (evaluateDriverUpgrade_calm w3 (spec_NodeSelector (Spec config))) as H4. destruct (evaluateDriverUpgrade _ _) as [[w4 up] errs].
  destruct H4 as (V4 & O4 & -> & Hup).
  set (rq1 := match checkErr with Some _ => true | None => rq end).
  pose proof (node_phase_spec r w4 rq1 (negb (isConditionTrue (Conditions config) ConditionReady))) as H5.
  pose proof (node_phase_view r w4 rq1 (negb (isConditionTrue (Conditions config) ConditionReady))) as V5.
  destruct (node_phase _ _ _ _) as [[w5 rq2] g]. destruct H5 as [O5 _]. cbn [fst] in V5.
  match goal with |- context [Update_status w5 ?cs ?g] => pose proof (Update_status_writes w5 cs g) as H6; destruct (calm_Update_status w5 cs g) as [B6 E6] end.
  destruct (Update_status _ _ _) as [w6 e]. cbn [fst snd] in B6, E6. subst e. destruct H6 as (N6 & F6 & D6 & Hh6 & Po6 & Pl6 & St6).
  specialize (St6 eq_refl). unfold off_nodes, side in O4, O5. unfold side in S3. unfold view, background in V4, V5, B6. simplify_eq.
  assert (HL : node_labels <$> nodes w3 = node_labels <$> nodes w) by (rewrite N3, Lb2; by rewrite N1).
  assert (HD : daemonsets w6 = daemonsets w2) by congruence. assert (HH : daemonset_health w6 = daemonset_health w2) by congruence.
  assert (HI : ∀ d, in_place w6 opts d ↔ in_place w2 opts d) by (intros d; unfold in_place; by rewrite HD).
  split; [|congruence]. split_and!.
  - unfold view, background. f_equal; [|rewrite N6; congruence]. f_equal; [|congruence]. f_equal; congruence.
  - congruence.
  - intros d Hd. by apply HI, I2.
  - intros Hall. rewrite HD, HH, <- D1, <- Hh1. apply K2. intros d Hd. unfold in_place. rewrite D1. by apply Hall.
  - exists (map fst os), (Now w2), (Now w3), up, (Now w4). split_and!.
    + rewrite HH. apply Forall2_fmap_r. exact Hos.
    + rewrite <- HL. exact Hup.
    + rewrite St6, Hcs. done.
  - done.
  - cbn [RequeueAfter]. destruct rq2; [by right|by left].
Qed.

(** The relation only depends on what the world before the run shows. *)
Lemma ran_from r w0 w w' out : view w = view w0 → side w = side w0 → ran r w w' out → ran r w0 w' out.
Proof.
  intros Hv Hs. unfold side in Hs. injection Hs as HD HH _ HP HS. unfold view, background in Hv. injection Hv as HO HC HX HL.
  unfold ran, daemons_of, options_of, check_of, in_place, view, background. by rewrite HO, HC, HX, HL, HD, HH, HP, HS.
Qed.

Lemma Reconcile_calm r w : let '(w', out) := Reconcile error_text r w in
  ran r w w' out ∧ NodeConditionCleanupFinalizer ∈ finalizers w' ∧
  (NodeConditionCleanupFinalizer ∈ finalizers w → finalizers w' = finalizers w).
Proof.
  unfold Reconcile. pose proof (Get_config_reads w) as H. destruct (calm_Get_config w) as (B1 & config & Hgot & Hobj & Hdel & Hcs).
  destruct (Get_config w) as [w1 got]. cbn [fst snd] in *. subst got. destruct H as (S1 & N1 & F1 & Hfs). specialize (Hfs config eq_refl).
  assert (V1 : view w1 = view w) by (unfold view; by rewrite B1, N1).
  assert (Hobj1 : (config_name config, Generation config, Spec config) = object w1) by (unfold background in B1; congruence).
  assert (Hcs1 : Conditions config = (stored_status w1).1) by (unfold side in S1; congruence).
  rewrite Hdel. destruct (ContainsFinalizer _ _) eqn:Ec.
  - apply ContainsFinalizer_spec in Ec. pose proof (reconcile_active_calm r w1 config Hobj1 Hcs1) as H.
    destruct (reconcile_active _ _ _ _) as [w' out]. destruct H as [Hran Hf]. split; [by apply (ran_from r w w1)|].
    split; [congruence|intros _; congruence].
  - set (fs := AddFinalizer _ _). pose proof (Update_finalizers_side w1 fs) as S2. pose proof (Update_finalizers_writes w1 fs) as H.
    destruct (calm_Update_finalizers w1 fs) as [B2 E2]. destruct (Update_finalizers _ _) as [w2 e]. cbn [fst snd] in *. subst e.
    destruct H as [N2 F2].
    assert (Hobj2 : (config_name config, Generation config, Spec config) = object w2) by (unfold background in B2; congruence).
    assert (Hcs2 : Conditions config = (stored_status w2).1) by (unfold side in S1, S2; congruence).
    pose proof (reconcile_active_calm r w2 config Hobj2 Hcs2) as H. destruct (reconcile_active _ _ _ _) as [w' out].
    destruct H as [Hran Hf]. split; [apply (ran_from r w w2); [unfold view in *; congruence|congruence|done]|]. split.
    + rewrite Hf, F2. apply AddFinalizer_spec. by right.
    + intros Hin. rewrite <- Hfs in Hin. apply ContainsFinalizer_spec in Hin. congruence.
Qed.

(** *** The second run *)

(** Running again changes nothing the controller watches. *)
Definition stable (r : reconciler) (w : W) : Prop :=
  let '(w', _) := Reconcile error_text r w in
  stored_status w' = stored_status w ∧ finalizers w' = finalizers w ∧ daemonsets w' = daemonsets w ∧
  daemonset_health w' = daemonset_health w ∧ object w' = object w.

Lemma observed_condition_types r w healths opts os :
  Forall2 (λ d o, same_observation o (observation_of healths opts d 0)) (daemons_of r w) os →
  map condition_type os = ["FractiondReady"; "MpsdReady"].
Proof.
  unfold daemons_of, buildDaemons. intros H. inversion H as [|d1 o1 ? os1 [H1 _] H']; subst.
  inversion H' as [|d2 o2 ? os2 [H2 _] H'']; subst. inversion H''; subst. cbn [map]. unfold condition_type. rewrite H1, H2.
  unfold observation_of. by repeat case_match.
Qed.

Lemma Reconcile_stable r w : stable r (Reconcile error_text r w).1.
Proof.
  pose proof (Reconcile_calm r w) as H1. destruct (Reconcile error_text r w) as [w1 out1]. cbn [fst].
  destruct H1 as ((V1 & P1 & I1 & _ & (os & n1 & n1' & up & t1 & Hos & Hup & St1) & _) & Hf1 & _).
  pose proof (Reconcile_calm r w1) as H2. unfold stable. destruct (Reconcile error_text r w1) as [w2 out2].
  destruct H2 as ((V2 & P2 & _ & K2 & (os' & n2 & n2' & up' & t2 & Hos' & Hup' & St2) & _) & _ & Hf2).
  pose proof (observed_condition_types _ _ _ _ _ Hos) as Htypes.
  unfold view, background in V1, V2. injection V1 as O1 C1 X1 L1. injection V2 as O2 C2 X2 L2.
  unfold daemons_of, options_of, check_of in *. rewrite O1, P1 in K2, Hos'. destruct (K2 I1) as [HD HH]. rewrite HH in Hos'.
  rewrite L1, O1 in Hup'. assert (up' = up) as -> by (apply eq_true_iff_eq; by rewrite Hup, Hup').
  split_and!; [|by apply Hf2|done|done|congruence]. rewrite St2, St1, O1, C1, X1, P1. cbn [fst]. f_equal. apply written_fixpoint.
  - by intros ->.
  - rewrite Htypes. eapply bool_decide_unpack. vm_compute. exact I.
  - intros o Ho. assert (Hin : condition_type o ∈ map condition_type os) by (apply list_elem_of_fmap; eauto). rewrite Htypes in Hin.
    rewrite !elem_of_cons in Hin. by destruct Hin as [->|[->|?%elem_of_nil]]; [eapply bool_decide_unpack; vm_compute; exact I..|].
  - clear -Hos Hos'. revert os' Hos'. induction Hos as [|d o ds os (E1 & E2 & E3) _ IH]; intros os' H; inversion H as [|? ? ? ? (E1' & E2' & E3') H']; subst;
      constructor; [|by apply IH]. unfold same_observation. by rewrite E1, E2, E3, E1', E2', E3'.
  - intros c Hc. pose proof (Check_lowers (mkChecker (SkipGpuStackVersionChecks r) (r_Namespace r)) (csvs w) (ctx_err w)
      (ReadClusterPolicy (policies w)) (object w).1.2 n1' c) as Hl. destruct (Check _ _ _ _ _ _ _) as [c' e]. cbn [fst].
    destruct Hl as [[->|(_ & ? & _)] _]; done.
  - intros c c' _ Ha. by apply Check_agree.
Qed.

(** *** The loop *)

(** The changes the watches see of a run: the configuration with its status, and the DaemonSets
    it owns with theirs. *)
Definition own_changes (w w' : W) : list change :=
  let name := (object w).1.1 in
  (if decide (finalizers w' = finalizers w ∧ stored_status w' = stored_status w) then [] else [ConfigChanged name]) ++
  map (λ k, DaemonSetChanged k (Some name))
    (filter (λ k, ¬ (daemonsets w' !! k = daemonsets w !! k ∧ daemonset_health w' !! k = daemonset_health w !! k))
       (elements (dom (daemonsets w) ∪ dom (daemonsets w') ∪ dom (daemonset_health w) ∪ dom (daemonset_health w')))).

(** A worker takes a request off the queue and runs it; a request for another name finds no
    configuration.  The changes come back through the watches. *)
Definition serve (r : reconciler) (sources : list source) (name : string) (st : W * gset string) : W * gset string :=
  let '(w, q) := st in
  let w' := if String.eqb name (object w).1.1 then (Reconcile error_text r w).1 else w in
  (w', q ∖ {[name]} ∪ list_to_set (concat (map (enqueued sources) (own_changes w w')))).

Inductive loop_step (r : reconciler) (sources : list source) : W * gset string → W * gset string → Prop :=
| serves name w q : name ∈ q → loop_step r sources (w, q) (serve r sources name (w, q)).

Lemma own_changes_none (w w' : W) : stored_status w' = stored_status w → finalizers w' = finalizers w →
  daemonsets w' = daemonsets w → daemonset_health w' = daemonset_health w → own_changes w w' = [].
Proof.
  intros Hs Hf Hd Hh. unfold own_changes. rewrite decide_True by done. cbn [app]. rewrite Hd, Hh.
  set (l := elements _). clearbody l. induction l as [|k l IH]; [done|]. by rewrite filter_cons_False by tauto.
Qed.

Lemma own_changes_request sources w w' n c : c ∈ own_changes w w' → n ∈ enqueued sources c → n = (object w).1.1.
Proof.
  intros Hc (s & _ & Hs)%list_elem_of_omap. unfold own_changes in Hc. apply elem_of_app in Hc as [Hc|Hc].
  - destruct (decide _); [by apply elem_of_nil in Hc|]. apply list_elem_of_singleton in Hc as ->. destruct s; cbn in Hs; congruence.
  - apply list_elem_of_fmap in Hc as (k & -> & _). destruct s; cbn in Hs; congruence.
Qed.

Lemma serve_queue r sources name w q : (serve r sources name (w, q)).2 ⊆ q ∖ {[name]} ∪ {[(object w).1.1]}.
Proof.
  unfold serve. cbn [snd]. apply union_mono_l. intros n Hn. rewrite elem_of_list_to_set in Hn. apply list_elem_of_In, in_concat in Hn as (l & Hl & Hin).
  apply in_map_iff in Hl as (c & <- & Hc). apply elem_of_singleton. eapply own_changes_request; by apply list_elem_of_In.
Qed.

Lemma serve_quiet r sources name w q : stable r w ∨ name ≠ (object w).1.1 →
  (serve r sources name (w, q)).2 = q ∖ {[name]} ∧ object (serve r sources name (w, q)).1 = object w.
Proof.
  intros H. unfold serve. cbn [fst snd]. destruct (String.eqb_spec name (object w).1.1) as [Hn|Hn].
  - destruct H as [Hst|]; [|done]. unfold stable in Hst. destruct (Reconcile error_text r w) as [w' out]. destruct Hst as (Hs & Hf & Hd & Hh & Ho).
    cbn [fst]. rewrite own_changes_none by done. cbn. split; [set_solver|done].
  - rewrite own_changes_none by done. cbn. split; [set_solver|done].
Qed.

Lemma serve_stable r sources name w q : stable r w ∨ name = (object w).1.1 → stable r (serve r sources name (w, q)).1.
Proof.
  intros H. unfold serve. cbn [fst]. destruct (String.eqb_spec name (object w).1.1) as [Hn|Hn]; [apply Reconcile_stable|].
  by destruct H.
Qed.

Lemma size_removed (q : gset string) name : name ∈ q → S (size (q ∖ {[name]})) = size q.
Proof.
  intros Hn. pose proof (size_union (C := gset string) {[name]} (q ∖ {[name]}) ltac:(set_solver)) as H.
  rewrite <- (union_difference_singleton_L name q Hn), (size_singleton (C := gset string)) in H. lia.
Qed.

Lemma stable_path r sources k : ∀ st st', stable r st.1 → nsteps (loop_step r sources) k st st' → (k ≤ size st.2)%nat ∧ stable r st'.1.
Proof.
  induction k as [|k IH]; intros st st' Hst Hsteps; inversion Hsteps as [|? ? st1 ? Hstep Hrest]; subst; [split; [lia|done]|].
  inversion Hstep as [name w q Hin]; subst. cbn [fst snd] in *.
  destruct (IH _ _ (serve_stable r sources name w q (or_introl Hst)) Hrest) as [Hk Hs].
  destruct (serve_quiet r sources name w q (or_introl Hst)) as [Hq _]. rewrite Hq in Hk. pose proof (size_removed q name Hin). split; [lia|done].
Qed.

Lemma path_bound r sources k : ∀ w q st', nsteps (loop_step r sources) k (w, q) st' →
  (k ≤ size q + 1)%nat ∧ ((object w).1.1 ∈ q → st'.2 = ∅ → stable r st'.1).
Proof.
  induction k as [|k IH]; intros w q st' Hsteps; inversion Hsteps as [|? ? st1 ? Hstep Hrest]; subst.
  { split; [lia|]. intros Hin Hq. cbn in Hq. set_solver. }
  inversion Hstep as [name w0 q0 Hin]; subst. pose proof (size_removed q name Hin) as Hsz.
  destruct (decide (name = (object w).1.1)) as [Hn|Hn].
  - destruct (stable_path r sources k _ _ (serve_stable r sources name w q (or_intror Hn)) Hrest) as [Hk Hs].
    pose proof (subseteq_size (C := gset string) _ _ (serve_queue r sources name w q)) as Hle. rewrite <- Hn in Hle.
    pose proof (size_union (C := gset string) (q ∖ {[name]}) {[name]} ltac:(set_solver)) as Hu. rewrite (size_singleton (C := gset string)) in Hu. split; [lia|done].
  - destruct (serve_quiet r sources name w q (or_intror Hn)) as [Hq Ho].
    destruct (serve r sources name (w, q)) as [w1 q1]. cbn [fst snd] in *. subst q1.
    destruct (IH _ _ _ Hrest) as [Hk Hs]. split; [lia|]. intros Hin' Hq. apply Hs; [|done]. rewrite Ho. set_solver.
Qed.
End Calm.

(** ** Lemmas: the set-up *)

Definition optional_APIs : list GroupVersionKind := [clusterPolicyGVK; clusterServiceVersionGVK].
Definition installed (mapper : GroupVersionKind → lookup) (gvk : GroupVersionKind) : bool :=
  match mapper gvk with Mapped => true | _ => false end.

(** The set-up fails exactly when a lookup does, and watches what is served. *)
Lemma SetupWithManager_spec mapper :
  match SetupWithManager mapper with
  | Err (CheckingDependency gvk msg) => gvk ∈ optional_APIs ∧ mapper gvk = LookupFailed msg
  | Ok sources => sources = [ForConfig; OwnsDaemonSets] ++ map DependencySource (List.filter (installed mapper) optional_APIs) ∧
      ∀ gvk msg, gvk ∈ optional_APIs → mapper gvk ≠ LookupFailed msg
  end.
Proof.
  unfold SetupWithManager, optional_APIs, watch_dependencies, watchGpuOperatorDependencyIfAvailable, gpuOperatorDependencyGVKExists.
  destruct (mapper clusterPolicyGVK) as [| |m1] eqn:E1; [| |by split; [left|]];
    (destruct (mapper clusterServiceVersionGVK) as [| |m2] eqn:E2; [| |by split; [right; left|]]).
  all: cbn; unfold installed; rewrite E1, E2; split; [done|]; intros gvk msg; rewrite !elem_of_cons; intros [->|[->|?%elem_of_nil]]; congruence.
Qed.

(** ** Properties *)

Section Properties.
Context {W Obj : Type} {cluster : ClusterAPI W} {selection : NodeSelection} {laws : ClusterLaws W}.
Context {config_api : ConfigAPI W Obj} {config_laws : ConfigLaws W Obj} {calm : Calm W Obj}.
Context {unstructured : Unstructured Obj} {semver : Semver}.

(** C9: the controller does not keep itself busy.  It watches the configurations and their
    DaemonSets, and each GPU Operator API that is installed, whose changes run the default
    configuration; an API that is not there, or that goes away before the start, neither fails
    the set-up nor delays the start.  And although the controller sees every change of the
    configuration, its own status writes included, it comes to rest by itself: on a calm
    cluster, from any state and queue, and whatever the clock reads at each run, the workers
    serve at most one request more than were queued, and once the queue is empty a further run
    of the configuration would change neither its status nor its finalizers nor any DaemonSet.
    Each of these runs ends without error, and asks for another one never or after thirty
    seconds. *)
Theorem controller_comes_to_rest error_text r mapper sources (Hsetup : SetupWithManager mapper = Ok sources) :
  (∀ gvk, gvk ∈ optional_APIs →
     enqueued sources (DependencyChanged gvk) = if installed mapper gvk then ["default"] else []) ∧
  (∀ synced, starts synced sources = synced ForConfig && synced OwnsDaemonSets) ∧
  (∀ k (w : W) q w' q', nsteps (loop_step error_text r sources) k (w, q) (w', q') →
     (k ≤ size q + 1)%nat ∧
     (q' ≠ ∅ → ∃ st, loop_step error_text r sources (w', q') st) ∧
     ((object w).1.1 ∈ q → q' = ∅ → stable error_text r w')) ∧
  (∀ w : W, let out := (Reconcile error_text r w).2 in
     run_error out = None ∧ (RequeueAfter out = 0 ∨ RequeueAfter out = 30 * Second)).
Proof.
  pose proof (SetupWithManager_spec mapper) as Hspec. rewrite Hsetup in Hspec. destruct Hspec as [-> _]. split_and!.
  - intros gvk Hg. unfold optional_APIs in *. rewrite !elem_of_cons in Hg. destruct Hg as [->|[->|?%elem_of_nil]]; [| |done];
      cbn [List.filter]; destruct (installed mapper clusterPolicyGVK), (installed mapper clusterServiceVersionGVK); reflexivity.
  - intros synced. unfold starts, optional_APIs. cbn [List.filter].
    destruct (installed mapper clusterPolicyGVK), (installed mapper clusterServiceVersionGVK); cbn; by rewrite andb_true_r.
  - intros k w q w' q' Hsteps. destruct (path_bound error_text r _ k w q (w', q') Hsteps) as [Hk Hs]. split_and!; [done| |exact Hs].
    intros [name Hin]%set_choose_L. eexists. by apply (serves error_text r _ name).
  - intros w. pose proof (Reconcile_calm error_text r w) as H. destruct (Reconcile error_text r w) as [w' out].
    destruct H as [(_ & _ & _ & _ & _ & He & Hq) _]. done.
Qed.
End Properties.

(** ** A calm site *)

#[local] Existing Instance k8s_selection.
#[local] Existing Instance json_object.
#[local] Existing Instance release_semver.
#[local] Existing Instance site_cluster_api.
#[local] Existing Instance site_cluster_laws.
#[local] Existing Instance site_api.
#[local] Existing Instance site_laws.

#[local] Instance calm_site : Calm site any.
Proof.
  refine {| object w := (config_name (s_config w), Generation (s_config w), Spec (s_config w)); csvs w := Absent |}; try done.
  - intros w. cbn. split; [done|]. by eexists.
  - intros w name p. split; [done|]. cbn. unfold on_stored. destruct (stored_nodes (s_cluster w) !! name); [by left|by right].
Defined.

(** The cluster policy API is installed, OLM is not; the queue holds a stray name as well. *)
Definition policy_only (gvk : GroupVersionKind) : lookup := if decide (gvk = clusterPolicyGVK) then Mapped else NoMatch.

Lemma controller_comes_to_rest_witness :
  let sources := [ForConfig; OwnsDaemonSets; DependencySource clusterPolicyGVK] in
  enqueued sources (DependencyChanged clusterPolicyGVK) = ["default"] ∧
  ∃ w', nsteps (loop_step (λ _, "error") sample_reconciler sources) 3 (sample_site, {["default"; "other"]}) (w', ∅) ∧
    List.length (s_status w').1 = 4%nat ∧ stable (λ _, "error") sample_reconciler w'.
Proof.
  intros sources. destruct (controller_comes_to_rest (W := site) (λ _, "error") sample_reconciler policy_only sources eq_refl) as (Hdep & _ & Hloop & _).
  split; [apply (Hdep clusterPolicyGVK); left|].
  set (st := serve (λ _, "error") sample_reconciler sources "default"
              (serve (λ _, "error") sample_reconciler sources "other" (serve (λ _, "error") sample_reconciler sources "default" (sample_site, {["default"; "other"]})))).
  assert (Hq : st.2 = ∅) by (vm_compute; reflexivity).
  assert (Hsteps : nsteps (loop_step (λ _, "error") sample_reconciler sources) 3 (sample_site, {["default"; "other"]}) (st.1, ∅)).
  { assert (Hone : ∀ name s, bool_decide (name ∈ s.2) = true →
      loop_step (λ _, "error") sample_reconciler sources s (serve (λ _, "error") sample_reconciler sources name s)).
    { intros name [w q] Hin. apply serves. exact (bool_decide_eq_true_1 _ Hin). }
    rewrite <- Hq, <- (surjective_pairing st). 
    eapply nsteps_l; [apply (Hone "default"); vm_compute; reflexivity|].
    eapply nsteps_l; [apply (Hone "other"); vm_compute; reflexivity|].
    eapply nsteps_l; [apply (Hone "default"); vm_compute; reflexivity|apply nsteps_O]. }
  exists st.1. split; [exact Hsteps|]. split; [vm_compute; reflexivity|].
  apply (Hloop 3%nat sample_site {["default"; "other"]} st.1 ∅ Hsteps); [|reflexivity]. change (("default" : string) ∈ ({["default"; "other"]} : gset string)). set_solver.
Defined.
