(* ===== verification/OperatorMain.v ===== *)
(** * operator: the process

    [operator/cmd/main.go] with [operator/internal/metrics/metrics.go]: the subcommand of the
    CRD hook (CrdUpgrade), the flags (DaemonFlags), the manager's options, the checks before
    the start, the controller's set-up (Controller), and the gauges a run of the reconciler
    writes.  [surroundings] is what Kubernetes and controller-runtime answer at the start;
    logging is left out. *)

From Stdlib Require Import ZArith Lia String Ascii.
From stdpp Require Import base gmap list strings.
From S2P Require Import Prelude GoStrings GoTime GoFlag Float64 DaemonFlags Status DaemonSets Deploy NodeStatus GpuStack Reconcile CrdUpgrade Controller.

#[local] Open Scope string_scope.
#[local] Open Scope list_scope.
#[local] Open Scope Z_scope.

Import operator_config (MetricsAddr, ProbeAddr, EnableLeaderElect, SecureMetrics, EnableHTTP2, MetricsCertPath, MetricsCertName, MetricsCertKey).

(** ** internal/metrics *)

(** The gauges, each of the first two with the label [daemon]. *)
Record operator_gauges := mkGauges {
  daemonReadyNodes : gmap string float64;
  daemonDesiredNodes : gmap string float64;
  nodesReady : float64;
  nodesDegraded : float64
}.

Definition SetDaemonHealth (g : operator_gauges) (daemon : string) (ready desired : Z) : operator_gauges :=
  mkGauges (<[daemon := f_of_int ready]> (daemonReadyNodes g)) (<[daemon := f_of_int desired]> (daemonDesiredNodes g))
    (nodesReady g) (nodesDegraded g).
Definition SetNodeHealth (g : operator_gauges) (ready degraded : Z) : operator_gauges :=
  mkGauges (daemonReadyNodes g) (daemonDesiredNodes g) (f_of_int ready) (f_of_int degraded).

(** What a run of the reconciler writes to them, in its order. *)
Definition record_run (g : operator_gauges) (out : outcome) : operator_gauges :=
  let g := fold_left (λ g e, SetDaemonHealth g e.1.1 e.1.2 e.2) (daemon_gauges out) g in
  match node_gauges out with Some (ready, degraded) => SetNodeHealth g ready degraded | None => g end.

(** ** cmd/main.go *)

Definition applyCRDsCommand : string := "apply-crds".

(** The options of the metrics server.  [next_protos] is what the TLS options set, the server's
    own list otherwise; [filter] is the authentication and authorization filter. *)
Record MetricsOptions := mkMetricsOptions {
  BindAddress : string;
  SecureServing : bool;
  next_protos : option (list string);
  filter : bool;
  certificate : option (string * string * string)           (** directory, certificate and key *)
}.

Record ManagerOptions := mkManagerOptions {
  Metrics : MetricsOptions;
  HealthProbeBindAddress : string;
  LeaderElection : bool;
  LeaderElectionID : string
}.

Definition metricsServerOptions (cfg : operator_config.Config) : MetricsOptions :=
  mkMetricsOptions (MetricsAddr cfg) (SecureMetrics cfg)
    (if negb (EnableHTTP2 cfg) then Some ["http/1.1"] else None)
    (SecureMetrics cfg)
    (if negb (String.eqb (MetricsCertPath cfg) "") then Some (MetricsCertPath cfg, MetricsCertName cfg, MetricsCertKey cfg) else None).

Definition managerOptions (cfg : operator_config.Config) : ManagerOptions :=
  mkManagerOptions (metricsServerOptions cfg) (ProbeAddr cfg) (EnableLeaderElect cfg) "gpu-fractioning.kai.scheduler".

(** What the process finds: the kubeconfig, the client of the hook, the manager, the API
    discovery, the health checks and the manager's run; [Some] is an error. *)
Record surroundings := mkSurroundings {
  kubeconfig : option string;
  client_err : option string;
  NewManager : ManagerOptions → option string;
  mapper : GroupVersionKind → lookup;
  AddHealthzCheck : option string;
  AddReadyzCheck : option string;
  Start : option string
}.

(** How the process ends, and the manager it ran before. *)
Record process := mkProcess { exit_code : Z; managed : option (ManagerOptions * reconciler * list source) }.

(** [flag.ExitOnError] *)
Definition flag_exit (e : FlagError) : Z := match e with HelpRequested => 0 | _ => 2 end.

Section main.
Context {W Obj : Type} {crd_api : CrdAPI W Obj} {unstructured : Unstructured Obj}.

(** [crdupgrade.Run] *)
Definition Run (env : surroundings) (loaded : result CrdError (list Obj)) (w : W) : W * bool :=
  match kubeconfig env, client_err env with
  | None, None => let '(w, err) := Apply w loaded in (w, match err with None => true | Some _ => false end)
  | _, _ => (w, false)
  end.

Definition apply_flags : FlagSet := [("development", VBool false)].

Definition runApplyCRDs (env : surroundings) (loaded : result CrdError (list Obj)) (args : list string) (w : W) : W * process :=
  match ParseArgs apply_flags args with
  | Err e => (w, mkProcess (flag_exit e) None)
  | Ok (_, _ :: _) => (w, mkProcess 1 None)
  | Ok (_, []) => let '(w, ok) := Run env loaded w in (w, mkProcess (if ok then 0 else 1) None)
  end.

(** The rest of [main], from [ParseFlags] on. *)
Definition manage (env : surroundings) (Getenv : string → string) (args : list string) : process :=
  match operator_config.ParseFlags args with
  | Err e => mkProcess (flag_exit e) None
  | Ok cfg =>
      match kubeconfig env, NewManager env (managerOptions cfg), main_reconciler Getenv, SetupWithManager (mapper env),
            AddHealthzCheck env, AddReadyzCheck env with
      | None, None, Some r, Ok sources, None, None =>
          mkProcess (match Start env with None => 0 | Some _ => 1 end) (Some (managerOptions cfg, r, sources))
      | _, _, _, _, _, _ => mkProcess 1 None
      end
  end.

(** [main], with the arguments after the program's name. *)
Definition operator_main (env : surroundings) (Getenv : string → string) (loaded : result CrdError (list Obj)) (args : list string) (w : W)
    : W * process :=
  match args with
  | cmd :: rest => if String.eqb cmd applyCRDsCommand then runApplyCRDs env loaded rest w else (w, manage env Getenv args)
  | [] => (w, manage env Getenv args)
  end.
End main.

(** ** Lemmas *)

(** After a run each gauge of a daemon shows what the run observed of it, and the other
    daemons' gauges are as they were. *)
Lemma record_run_daemons out g d : NoDup (map (λ e, e.1.1) (daemon_gauges out)) →
  match List.find (λ e, String.eqb e.1.1 d) (daemon_gauges out) with
  | Some (_, ready, desired) => daemonReadyNodes (record_run g out) !! d = Some (f_of_int ready) ∧
                                daemonDesiredNodes (record_run g out) !! d = Some (f_of_int desired)
  | None => daemonReadyNodes (record_run g out) !! d = daemonReadyNodes g !! d ∧
            daemonDesiredNodes (record_run g out) !! d = daemonDesiredNodes g !! d
  end.
Proof.
  intros Hnd. set (fold := fold_left (λ g e, SetDaemonHealth g e.1.1 e.1.2 e.2) (daemon_gauges out)).
  assert (Hr : daemonReadyNodes (record_run g out) = daemonReadyNodes (fold g) ∧
               daemonDesiredNodes (record_run g out) = daemonDesiredNodes (fold g)).
  { unfold record_run. fold fold. by destruct (node_gauges out) as [[]|]. }
  destruct Hr as [-> ->]. unfold fold. clear fold. revert g. induction (daemon_gauges out) as [|[[n r] m] l IH]; intros g; [done|].
  cbn [map] in Hnd. apply list.NoDup_cons in Hnd as [Hn Hnd]. cbn [List.find fold_left fst snd]. specialize (IH Hnd (SetDaemonHealth g n r m)).
  cbn [fst snd] in *. destruct (String.eqb_spec n d) as [->|Hne].
  - destruct (List.find _ l) as [[[n' r'] m']|] eqn:Ef.
    + apply find_some in Ef as [Hin Heq]. apply String.eqb_eq in Heq. cbn in Heq. subst n'. destruct Hn.
      apply list_elem_of_fmap. exists (d, r', m'). split; [done|by apply list_elem_of_In].
    + cbn in IH. by rewrite !lookup_insert_eq in IH.
  - destruct (List.find _ l) as [[[n' r'] m']|]; [done|]. cbn in IH. by rewrite !lookup_insert_ne in IH.
Qed.

Section process.
Context {W Obj : Type} {crd_api : CrdAPI W Obj} {unstructured : Unstructured Obj} {crd_laws : CrdLaws (W := W) (Obj := Obj)}.

(** Arguments that are no flags, a misspelt subcommand among them, are ignored by the manager. *)
Theorem stray_arguments_ignored env Getenv (loaded : result CrdError (list Obj)) arg rest (w : W) :
  flag_name arg = None → arg ≠ applyCRDsCommand →
  operator_main env Getenv loaded (arg :: rest) w = operator_main env Getenv loaded [] w.
Proof.
  intros Hf Hne. unfold operator_main, manage. rewrite (proj2 (String.eqb_neq _ _)) by done. f_equal.
  assert (operator_config.ParseFlags (arg :: rest) = operator_config.ParseFlags []) as ->; [|done].
  unfold operator_config.ParseFlags, Parse. cbn [ParseArgs]. rewrite Hf. destruct (String.eqb_spec arg "--") as [->|]; done.
Qed.

Lemma Run_applies env (loaded : result CrdError (list Obj)) w w' :
  (∀ objs, loaded = Ok objs → NoDup (map GetName objs)) → Run env loaded w = (w', true) →
  ∃ objs, loaded = Ok objs ∧ ∀ o, o ∈ objs → is_served w' (GetName o).
Proof.
  intros Hnd. unfold Run. destruct (kubeconfig env), (client_err env); try done. unfold Apply. destruct loaded as [objs|e]; [|done].
  pose proof (applyObjects_spec objs w (Hnd objs eq_refl)) as H. destruct (applyObjects w objs) as [w1 [e|]]; [done|].
  intros [= <-]. exists objs. split; [done|]. by apply H.
Qed.

Lemma runApplyCRDs_spec env (loaded : result CrdError (list Obj)) args w w' p :
  (∀ objs, loaded = Ok objs → NoDup (map GetName objs)) → runApplyCRDs env loaded args w = (w', p) →
  managed p = None ∧
  (exit_code p = 0 → ParseArgs apply_flags args = Err HelpRequested ∧ w' = w ∨
     ∃ objs, loaded = Ok objs ∧ ∀ o, o ∈ objs → is_served w' (GetName o)) ∧
  (∀ arg, head args = Some arg → flag_name arg = None → w' = w ∧ exit_code p = 1).
Proof.
  intros Hnd. unfold runApplyCRDs.
  assert (Hpos : ∀ arg, head args = Some arg → flag_name arg = None → ParseArgs apply_flags args = Ok (apply_flags, args)).
  { intros arg Ha Hf. destruct args as [|a args]; [done|]. injection Ha as ->. cbn [ParseArgs]. rewrite Hf.
    by destruct (String.eqb_spec arg "--") as [->|]. }
  destruct (ParseArgs apply_flags args) as [[f [|a l]]|e] eqn:Ep.
  - destruct (Run env loaded w) as [w1 ok] eqn:Er. intros [= <- <-]. split_and!; [done| |].
    + destruct ok; [|done]. intros _. right. by apply (Run_applies env loaded w).
    + intros arg Ha Hf. specialize (Hpos arg Ha Hf). by destruct args.
  - by intros [= <- <-].
  - intros [= <- <-]. split_and!; [done| |].
    + destruct e; try done. by left.
    + intros arg Ha Hf. by specialize (Hpos arg Ha Hf).
Qed.

(** The manager runs exactly when every step before it succeeded. *)
Lemma manage_spec env Getenv args : match managed (manage env Getenv args) with
  | Some (opts, r, sources) => ∃ cfg, operator_config.ParseFlags args = Ok cfg ∧ opts = managerOptions cfg ∧
      main_reconciler Getenv = Some r ∧ SetupWithManager (mapper env) = Ok sources ∧
      exit_code (manage env Getenv args) = match Start env with None => 0 | Some _ => 1 end
  | None => operator_config.ParseFlags args = Err HelpRequested ∨ exit_code (manage env Getenv args) ≠ 0
  end.
Proof.
  unfold manage. destruct (operator_config.ParseFlags args) as [cfg|e]; [|by destruct e; (left + right)].
  destruct (kubeconfig env), (NewManager env (managerOptions cfg)), (main_reconciler Getenv), (SetupWithManager _), (AddHealthzCheck env), (AddReadyzCheck env);
    cbn [managed exit_code]; try (by right). by exists cfg.
Qed.

(** C28: the exit code of the operator's process tells what happened.  As the hook it exits with 0
    only when it was asked for help or every CRD of its image is applied and served; with a
    positional argument it exits with 1 and applies nothing.  Otherwise it never touches the
    CRDs; it exits with 0 only when asked for help or when its manager ran and stopped without an
    error; and a manager that ran watches what its controller needs, has an image for every
    component it will deploy, serves metrics over HTTPS to authorised clients only unless
    that is switched off, and over HTTP/1.1 unless HTTP/2 is switched on. *)
Theorem operator_exit_code env Getenv (loaded : result CrdError (list Obj)) args (w : W)
  (Hnames : ∀ objs, loaded = Ok objs → NoDup (map GetName objs)) :
  let '(w', p) := operator_main env Getenv loaded args w in
  (∀ rest, args = "apply-crds" :: rest →
     managed p = None ∧
     (exit_code p = 0 → ParseArgs apply_flags rest = Err HelpRequested ∧ w' = w ∨
        ∃ objs, loaded = Ok objs ∧ ∀ o, o ∈ objs → is_served w' (GetName o)) ∧
     (∀ arg, head rest = Some arg → flag_name arg = None → w' = w ∧ exit_code p = 1)) ∧
  (head args ≠ Some "apply-crds" →
     w' = w ∧
     (exit_code p = 0 → operator_config.ParseFlags args = Err HelpRequested ∨ managed p ≠ None ∧ Start env = None) ∧
     (∀ opts r sources, managed p = Some (opts, r, sources) →
        SetupWithManager (mapper env) = Ok sources ∧
        (∀ config (policy : ClusterPolicy Obj), images_set (buildOptions r config policy)) ∧
        ∃ cfg, operator_config.ParseFlags args = Ok cfg ∧
        let m := Metrics opts in
        BindAddress m = MetricsAddr cfg ∧ (SecureMetrics cfg = true → SecureServing m = true ∧ filter m = true) ∧
        (EnableHTTP2 cfg = false → next_protos m = Some ["http/1.1"]))).
Proof.
  assert (Hmanage : let p := manage env Getenv args in
    (exit_code p = 0 → operator_config.ParseFlags args = Err HelpRequested ∨ managed p ≠ None ∧ Start env = None) ∧
    (∀ opts r sources, managed p = Some (opts, r, sources) →
        SetupWithManager (mapper env) = Ok sources ∧ (∀ config (policy : ClusterPolicy Obj), images_set (buildOptions r config policy)) ∧
        ∃ cfg, operator_config.ParseFlags args = Ok cfg ∧
        let m := Metrics opts in
        BindAddress m = MetricsAddr cfg ∧ (SecureMetrics cfg = true → SecureServing m = true ∧ filter m = true) ∧
        (EnableHTTP2 cfg = false → next_protos m = Some ["http/1.1"]))).
  { pose proof (manage_spec env Getenv args) as Hm. cbv zeta. destruct (managed _) as [[[opts r] sources]|].
    - destruct Hm as (cfg & Hp & -> & Hr & Hs & Hx). split.
      + rewrite Hx. right. by destruct (Start env).
      + intros ? ? ? [= <- <- <-]. split_and!; [done|intros config policy; by apply main_reconciler_images with Getenv|].
        exists cfg. split_and!; [done|done|by intros H; cbn; rewrite H|by intros H; cbn; rewrite H].
    - split; [by destruct Hm; [left|]|done]. }
  unfold operator_main, applyCRDsCommand. destruct args as [|cmd rest]; [by split|].
  destruct (String.eqb_spec cmd "apply-crds") as [->|Hne]; [|split; [intros rest' ?; congruence|done]].
  destruct (runApplyCRDs env loaded rest w) as [w' p] eqn:Er. split; [|done]. intros rest' [= <-]. by apply (runApplyCRDs_spec env loaded rest w).
Qed.
End process.

(** ** A hook and a manager *)

#[local] Existing Instance json_object.
#[local] Existing Instance server_api.
#[local] Existing Instance server_laws.

Definition working : surroundings := mkSurroundings None None (λ _, None) policy_only None None None.
Definition images_env (key : string) : string :=
  if bool_decide (key ∈ ["FRACTIOND_IMAGE_REPOSITORY"; "METRICSD_IMAGE_REPOSITORY"; "MPSD_IMAGE_REPOSITORY"]) then "registry/image" else
  if bool_decide (key ∈ ["FRACTIOND_IMAGE_TAG"; "METRICSD_IMAGE_TAG"; "MPSD_IMAGE_TAG"]) then "v1" else "".
Definition sample_crds : result CrdError (list any) := Ok [sample_crd "a"; sample_crd "b"].

Lemma operator_exit_code_witness :
  let hook args := operator_main working images_env sample_crds args (mkServer ∅ [] 0) in
  exit_code (hook ["apply-crds"; "-development"]).2 = 0 ∧ is_served (hook ["apply-crds"; "-development"]).1 "b" ∧
  (hook ["apply-crds"; "development"]).1 = mkServer ∅ [] 0 ∧ exit_code (hook ["apply-crds"; "development"]).2 = 1 ∧
  ∃ opts r sources, managed (hook ["-leader-elect"; "-metrics-bind-address=:8443"]).2 = Some (opts, r, sources) ∧
    BindAddress (Metrics opts) = ":8443" ∧ filter (Metrics opts) = true ∧ next_protos (Metrics opts) = Some ["http/1.1"].
Proof.
  intros hook.
  assert (Hnd : ∀ objs, sample_crds = Ok objs → NoDup (map GetName objs)) by (intros objs [= <-]; eapply bool_decide_unpack; vm_compute; exact I).
  pose proof (operator_exit_code working images_env sample_crds ["apply-crds"; "-development"] (mkServer ∅ [] 0) Hnd) as H1.
  pose proof (operator_exit_code working images_env sample_crds ["apply-crds"; "development"] (mkServer ∅ [] 0) Hnd) as H2.
  pose proof (operator_exit_code working images_env sample_crds ["-leader-elect"; "-metrics-bind-address=:8443"] (mkServer ∅ [] 0) Hnd) as H3.
  fold (hook ["apply-crds"; "-development"]) in H1. fold (hook ["apply-crds"; "development"]) in H2.
  fold (hook ["-leader-elect"; "-metrics-bind-address=:8443"]) in H3.
  assert (E1 : exit_code (hook ["apply-crds"; "-development"]).2 = 0) by (vm_compute; reflexivity).
  split; [exact E1|]. split.
  { destruct (hook ["apply-crds"; "-development"]) as [w' p]. destruct H1 as [H1 _]. destruct (H1 _ eq_refl) as (_ & H & _).
    destruct (H E1) as [[Hh _]|(objs & [= <-] & Hs)]; [discriminate Hh|]. apply (Hs (sample_crd "b")). right. left. }
  split; [|split].
  1, 2: destruct (hook ["apply-crds"; "development"]) as [w' p]; destruct H2 as [H2 _]; destruct (H2 _ eq_refl) as (_ & _ & H);
    apply (H "development"); reflexivity.
  destruct (managed (hook ["-leader-elect"; "-metrics-bind-address=:8443"]).2) as [[[opts r] sources]|] eqn:Em; [|vm_compute in Em; discriminate Em].
  exists opts, r, sources. split; [reflexivity|]. destruct (hook ["-leader-elect"; "-metrics-bind-address=:8443"]) as [w' p]. destruct H3 as [_ H3].
  destruct H3 as (_ & _ & H); [discriminate|]. destruct (H opts r sources Em) as (_ & _ & cfg & Hp & Hb & Hs & Hh).
  injection Hp as <-. split; [exact Hb|]. split; [apply Hs; reflexivity|apply Hh; reflexivity].
Defined.
