(* ===== verification/DeepCopy.v ===== *)
(** * api/v1alpha1: deep copies

    [zz_generated.deepcopy.go] over a heap.  The structures of
    [gpufractioningconfig_types.go] are records over what a pointer, a slice and a map are:
    locations in the heap, or the values they stand for.  A cell of the heap is what a
    pointer points to, the backing array of a slice, or the contents of a map.

    controller-runtime hands out the objects of its cache as deep copies, which the
    reconciler then changes; [Copyable] says what that takes of a type: a copy
    stands for the same value and shares no cell with anything that was there.  The types of
    other packages (metav1, corev1) are parameters with an instance of their own. *)

From Stdlib Require Import ZArith Lia String.
From stdpp Require Import base gmap list strings option.
From S2P Require Import Prelude.

#[local] Open Scope string_scope.
#[local] Open Scope list_scope.
#[local] Open Scope Z_scope.

Abbreviation loc := nat.

(** ** The structures *)

(** The shape of the references: pointers, slices and maps of strings. *)
Record refs := mkRefs { Ptr : Type → Type; Slice : Type → Type; StringMap : Type }.
(** References in the heap; nil is [None]. *)
Definition heap_refs : refs := mkRefs (λ _, option loc) (λ _, option loc) (option loc).
(** What they stand for. *)
Definition value_refs : refs := mkRefs option (λ A, option (list A)) (option (gmap string string)).

Section structures.
Context (R : refs).

Record FractioningAgentSpec := mkFractioningAgentSpec {
  AnnotationPrefix : string;
  FailOpen : Ptr R bool;
  NRISocketPath : string;
  RetroactiveEnforcement : bool;
  CRISocketPath : string;
  fa_LogLevel : string;
  RetryInterval : Ptr R Z;
  fa_StableThreshold : Ptr R Z;
  fa_MaxRetries : Ptr R Z;
  ReadinessPort : Ptr R Z
}.

Record MetricNamesSpec := mkMetricNamesSpec {
  GPUMemoryUsedBytes : string;
  GPUSMUtilizationPercent : string;
  GPUSMUtilizationPercentNormalized : string
}.

Record MetricsAgentSpec (Volume VolumeMount : Type) := mkMetricsAgentSpec {
  Enabled : bool;
  ma_LogLevel : string;
  Address : string;
  Path : string;
  Volumes : Slice R Volume;
  VolumeMounts : Slice R VolumeMount;
  MetricNames : Ptr R MetricNamesSpec
}.

Record MpsDaemonSpec := mkMpsDaemonSpec {
  md_LogLevel : string;
  Backoff : Ptr R Z;
  md_MaxRetries : Ptr R Z;
  md_StableThreshold : Ptr R Z;
  GracefulStopDelay : Ptr R Z
}.

Record GpuFractioningConfigSpec (Toleration Volume VolumeMount : Type) := mkSpec {
  NodeSelector : StringMap R;
  Tolerations : Slice R Toleration;
  RuntimeClassName : Ptr R string;
  FractioningAgent : Ptr R FractioningAgentSpec;
  MetricsAgent : Ptr R (MetricsAgentSpec Volume VolumeMount);
  MpsDaemon : Ptr R MpsDaemonSpec
}.

Record GpuFractioningConfigStatus (Condition : Type) := mkStatus {
  ObservedGeneration : Z;
  Conditions : Slice R Condition
}.

Record GpuFractioningConfig (ObjectMeta Toleration Volume VolumeMount Condition : Type) := mkConfig {
  config_TypeMeta : string * string;
  config_ObjectMeta : ObjectMeta;
  Spec : GpuFractioningConfigSpec Toleration Volume VolumeMount;
  Status : GpuFractioningConfigStatus Condition
}.

Record GpuFractioningConfigList (ListMeta ObjectMeta Toleration Volume VolumeMount Condition : Type) := mkList {
  list_TypeMeta : string * string;
  list_ListMeta : ListMeta;
  Items : Slice R (GpuFractioningConfig ObjectMeta Toleration Volume VolumeMount Condition)
}.
End structures.

(** ** The heap *)

(** The types of other packages as they lie in memory, and their own cells. *)
Record packages := mkPackages {
  Toleration : Type; Volume : Type; VolumeMount : Type; Condition : Type; ObjectMeta : Type; ListMeta : Type; foreign : Type
}.

Section heap.
Context (M : packages).

Abbreviation Agent := (FractioningAgentSpec heap_refs).
Abbreviation Names := MetricNamesSpec.
Abbreviation MAgent := (MetricsAgentSpec heap_refs (Volume M) (VolumeMount M)).
Abbreviation Mps := (MpsDaemonSpec heap_refs).
Abbreviation SpecH := (GpuFractioningConfigSpec heap_refs (Toleration M) (Volume M) (VolumeMount M)).
Abbreviation StatusH := (GpuFractioningConfigStatus heap_refs (Condition M)).
Abbreviation ConfigH := (GpuFractioningConfig heap_refs (ObjectMeta M) (Toleration M) (Volume M) (VolumeMount M) (Condition M)).
Abbreviation ListH := (GpuFractioningConfigList heap_refs (ListMeta M) (ObjectMeta M) (Toleration M) (Volume M) (VolumeMount M) (Condition M)).

Inductive cell :=
| CBool (b : bool) | CInt (n : Z) | CString (s : string) | CMap (m : gmap string string)
| CAgent (v : Agent) | CNames (v : Names) | CMetrics (v : MAgent) | CMps (v : Mps)
| CSpec (v : SpecH) | CStatus (v : StatusH) | CConfig (v : ConfigH) | CList (v : ListH)
| CTolerations (l : list (Toleration M)) | CVolumes (l : list (Volume M)) | CMounts (l : list (VolumeMount M))
| CConditions (l : list (Condition M)) | CItems (l : list ConfigH)
| CForeign (x : foreign M).

Abbreviation heap := (gmap loc cell).

(** A computation that allocates and writes cells. *)
Definition alloc_monad (A : Type) : Type := heap → heap * A.
#[local] Instance alloc_ret : MRet alloc_monad := λ A a h, (h, a).
#[local] Instance alloc_bind : MBind alloc_monad := λ A B k m h, let '(h, a) := m h in k a h.

(** Values of a type that a cell holds. *)
Class Stored (A : Type) := { to_cell : A → cell; of_cell : cell → option A; of_to_cell a : of_cell (to_cell a) = Some a }.

(** What a reference refers to; Go has no dangling ones. *)
Definition deref {A} {stored : Stored A} (h : heap) (p : option loc) : option A :=
  match p with
  | Some l => match h !! l with Some c => of_cell c | None => None end
  | None => None
  end.

Arguments deref : simpl never.

(** [A] in memory, [V] the values it stands for. *)
Class DeepCopies (A V : Type) := {
  DeepCopyInto : A → alloc_monad A;
  reads : heap → A → V → Prop;
  reads_mono h h' a v : h ⊆ h' → reads h a v → reads h' a v;
  (** the old cells stay, and the copy reads from the new ones alone *)
  copy_is_fresh h a v : reads h a v → let '(h', a') := DeepCopyInto a h in h ⊆ h' ∧ reads (h' ∖ h) a' v
}.

(** *** References *)

Section references.
Context {A V : Type} {stored : Stored A} {copies : DeepCopies A V}.

(** [if in == nil { return nil }; out := new(T); in.DeepCopyInto(out)]: the new cell, then its
    contents. *)
Definition copy_ptr (p : option loc) : alloc_monad (option loc) := λ h,
  match deref h p with
  | None => (h, None)
  | Some a =>
      let out := fresh (dom h) in
      let '(h, a') := DeepCopyInto a (<[out := to_cell a]> h) in
      (<[out := to_cell a']> h, Some out)
  end.

Definition reads_ptr (h : heap) (p : option loc) (v : option V) : Prop :=
  match p, v with
  | None, None => True
  | Some l, Some v => ∃ a, deref h (Some l) = Some a ∧ reads h a v
  | _, _ => False
  end.
End references.

Section slices.
Context {A V : Type} {stored : Stored (list A)} {copies : DeepCopies A V}.

Fixpoint copy_elements (l : list A) : alloc_monad (list A) :=
  match l with
  | [] => mret []
  | a :: l => a' ← DeepCopyInto a; l' ← copy_elements l; mret (a' :: l')
  end.

(** A new array of the same length, then [DeepCopyInto] of each element into it. *)
Definition copy_slice (p : option loc) : alloc_monad (option loc) := λ h,
  match deref h p with
  | None => (h, None)
  | Some l =>
      let out := fresh (dom h) in
      let '(h, l') := copy_elements l (<[out := to_cell l]> h) in
      (<[out := to_cell l']> h, Some out)
  end.

Definition reads_slice (h : heap) (p : option loc) (v : option (list V)) : Prop :=
  match p, v with
  | None, None => True
  | Some loc, Some vs => ∃ l, deref h (Some loc) = Some l ∧ Forall2 (reads h) l vs
  | _, _ => False
  end.
End slices.

#[local] Instance stored_map : Stored (gmap string string) := {| to_cell := CMap; of_cell c := match c with CMap m => Some m | _ => None end; of_to_cell _ := eq_refl |}.

(** A new map, then every entry. *)
Definition copy_map (p : option loc) : alloc_monad (option loc) := λ h,
  match deref h p with
  | Some m => let out := fresh (dom h) in (<[out := CMap m]> h, Some out)
  | None => (h, None)
  end.
Definition reads_map (h : heap) (p : option loc) (v : option (gmap string string)) : Prop :=
  match p, v with None, None => True | Some l, Some m => h !! l = Some (CMap m) | _, _ => False end.

(** ** Lemmas *)

(** From [h] on, the computation only adds cells, and its result satisfies [Q] in the cells added
    since [h0]. *)
Definition clones {A} (h0 h : heap) (m : alloc_monad A) (Q : heap → A → Prop) : Prop :=
  let '(h', a) := m h in h ⊆ h' ∧ Q (h' ∖ h0) a.

Lemma added_mono (h0 h h' : heap) : h ⊆ h' → h ∖ h0 ⊆ h' ∖ h0.
Proof.
  intros Hs. apply map_subseteq_spec. intros l c. rewrite !lookup_difference_Some. intros [H1 H2]. split; [|done].
  by apply (lookup_weaken _ _ _ _ H1).
Qed.

Lemma added_since (h0 h h' : heap) : h0 ⊆ h → h' ∖ h ⊆ h' ∖ h0.
Proof.
  intros Hs. apply map_subseteq_spec. intros l c. rewrite !lookup_difference_Some. intros [H1 H2]. split; [done|].
  destruct (h0 !! l) eqn:E; [|done]. by rewrite (lookup_weaken _ _ _ _ E Hs) in H2.
Qed.

Lemma clones_ret {A} h0 h (a : A) Q : Q (h ∖ h0) a → clones h0 h (mret a) Q.
Proof. by split. Qed.

Lemma clones_bind {A B} h0 h (m : alloc_monad A) (k : A → alloc_monad B) P Q : clones h0 h m P →
  (∀ h1 a, h ⊆ h1 → P (h1 ∖ h0) a → clones h0 h1 (k a) Q) → clones h0 h (m ≫= k) Q.
Proof.
  unfold clones, mbind, alloc_bind. destruct (m h) as [h1 a]. intros [Hs Hp] Hk. specialize (Hk h1 a Hs Hp).
  destruct (k a h1) as [h2 b]. destruct Hk. split; [by etrans|done].
Qed.

Lemma copy_clones {A V} {copies : DeepCopies A V} h0 h a v : h0 ⊆ h → reads h a v → clones h0 h (DeepCopyInto a) (λ h a', reads h a' v).
Proof.
  intros Hs Hr. unfold clones. pose proof (copy_is_fresh h a v Hr) as H. destruct (DeepCopyInto a h) as [h' a']. destruct H as [H1 H2].
  split; [done|]. eapply reads_mono; [by apply added_since|done].
Qed.

Lemma reads_all_mono {A V} {copies : DeepCopies A V} (h h' : heap) l vs : h ⊆ h' → Forall2 (reads h) l vs → Forall2 (reads h') l vs.
Proof. intros Hs H. induction H; constructor; [by apply (reads_mono h)|done]. Qed.

Lemma deref_mono {A} {stored : Stored A} (h h' : heap) p a : h ⊆ h' → deref h p = Some a → deref h' p = Some a.
Proof.
  intros Hs. unfold deref. destruct p as [l|]; [|done]. destruct (h !! l) as [c|] eqn:E; [|done]. by rewrite (lookup_weaken _ _ _ _ E Hs).
Qed.

Lemma deref_to_cell {A} {stored : Stored A} (h : heap) l a : h !! l = Some (to_cell a) → deref h (Some l) = Some a.
Proof. intros H. unfold deref. rewrite H. apply of_to_cell. Qed.

(** Filling a new cell: the old cells stay, and the new ones are the cell and what its contents
    needed. *)
Lemma fill_fresh {A} (h : heap) (c : cell) (m : alloc_monad A) (to : A → cell) Q (out := fresh (dom h)) :
  clones (<[out := c]> h) (<[out := c]> h) m Q → (∀ h h' a, h ⊆ h' → Q h a → Q h' a) →
  let '(h', a) := m (<[out := c]> h) in
  h ⊆ <[out := to a]> h' ∧ (<[out := to a]> h' ∖ h) !! out = Some (to a) ∧ Q (<[out := to a]> h' ∖ h) a.
Proof.
  intros Hc Hmono. unfold clones in Hc. destruct (m _) as [h' a]. destruct Hc as [Hs HQ].
  assert (Hnew : h !! out = None) by apply not_elem_of_dom, is_fresh.
  assert (Hold : h ⊆ h') by (etrans; [by apply (insert_subseteq h out c)|done]). split_and!.
  - apply map_subseteq_spec. intros l x Hl. rewrite lookup_insert_ne by congruence. by apply (lookup_weaken _ _ _ _ Hl).
  - apply lookup_difference_Some. by rewrite lookup_insert_eq.
  - apply (Hmono _ _ _) with (2 := HQ). apply map_subseteq_spec. intros l x. rewrite !lookup_difference_Some. intros [H1 H2].
    rewrite lookup_insert_None in H2. destruct H2 as [H2 H3]. by rewrite lookup_insert_ne.
Qed.

#[local] Instance ptr_copies {A V} {stored : Stored A} {copies : DeepCopies A V} : DeepCopies (option loc) (option V).
Proof.
  refine {| DeepCopyInto := copy_ptr (A := A); reads := reads_ptr (A := A) |}.
  - intros h h' [l|] [v|] Hs; cbn; [|done..]. intros (a & Ha & Hr). exists a. split; [by apply (deref_mono h)|by apply (reads_mono h)].
  - intros h [l|] [v|] Hr; [|done..|by split]. destruct Hr as (a & Ha & Hr). unfold copy_ptr. rewrite Ha.
    pose proof (fill_fresh h (to_cell a) (DeepCopyInto a) to_cell (λ h a', reads h a' v)) as H. cbv zeta in H.
    assert (Hsub : h ⊆ <[fresh (dom h) := to_cell a]> h) by (apply insert_subseteq, not_elem_of_dom, is_fresh).
    specialize (H (copy_clones _ _ a v (reflexivity _) (reads_mono _ _ _ _ Hsub Hr)) ltac:(intros ? ? ? ? ?; by eapply reads_mono)).
    destruct (DeepCopyInto a _) as [h' a']. destruct H as (H1 & H2 & H3). split; [done|]. exists a'. split; [by apply deref_to_cell|done].
Defined.

Lemma copy_elements_clones {A V} {copies : DeepCopies A V} l vs : ∀ h0 h, h0 ⊆ h → Forall2 (reads h) l vs →
  clones h0 h (copy_elements l) (λ h l', Forall2 (reads h) l' vs).
Proof.
  revert vs. induction l as [|a l IH]; intros vs h0 h Hs Hl; inversion Hl as [|? v ? vs' Ha Hl']; subst; cbn [copy_elements].
  { apply clones_ret. constructor. }
  eapply clones_bind; [by apply copy_clones|]. intros h1 a' H1 Hr. eapply clones_bind.
  { apply IH; [by etrans|by apply (reads_all_mono h)]. }
  intros h2 l' H2 Hrl. apply clones_ret. constructor; [|done]. eapply reads_mono; [by apply added_mono|done].
Qed.

#[local] Instance slice_copies {A V} {stored : Stored (list A)} {copies : DeepCopies A V} : DeepCopies (option loc) (option (list V)).
Proof.
  refine {| DeepCopyInto := copy_slice (A := A); reads := reads_slice (A := A) |}.
  - intros h h' [l|] [v|] Hs; cbn; [|done..]. intros (a & Ha & Hr). exists a. split; [by apply (deref_mono h)|by apply (reads_all_mono h)].
  - intros h [l|] [vs|] Hr; [|done..|by split]. destruct Hr as (a & Ha & Hr). unfold copy_slice. rewrite Ha.
    pose proof (fill_fresh h (to_cell a) (copy_elements a) to_cell (λ h l', Forall2 (reads h) l' vs)) as H. cbv zeta in H.
    assert (Hsub : h ⊆ <[fresh (dom h) := to_cell a]> h) by (apply insert_subseteq, not_elem_of_dom, is_fresh).
    assert (Hr' : Forall2 (reads (<[fresh (dom h) := to_cell a]> h)) a vs) by by apply (reads_all_mono h).
    specialize (H (copy_elements_clones a vs _ _ (reflexivity _) Hr')
      ltac:(intros ? ? ? ? ?; by eapply reads_all_mono)).
    destruct (copy_elements a _) as [h' a']. destruct H as (H1 & H2 & H3). split; [done|]. exists a'. split; [by apply deref_to_cell|done].
Defined.

#[local] Instance map_copies : DeepCopies (option loc) (option (gmap string string)).
Proof.
  refine {| DeepCopyInto := copy_map; reads := reads_map |}.
  - intros h h' [l|] [m|] Hs; cbn; [|done..]. intros H. by apply (lookup_weaken _ _ _ _ H).
  - intros h [l|] [m|] Hr; [|done..|by split]. cbn in Hr. unfold copy_map, deref. rewrite Hr. cbn.
    assert (Hnew : h !! fresh (dom h) = None) by apply not_elem_of_dom, is_fresh. split; [by apply insert_subseteq|].
    apply lookup_difference_Some. by rewrite lookup_insert_eq.
Defined.

(** The three kinds of references, as steps of a copy. *)
Lemma ptr_clones {A V} {stored : Stored A} {copies : DeepCopies A V} h0 h p v : h0 ⊆ h → reads_ptr (A := A) (V := V) h p v →
  clones h0 h (copy_ptr (A := A) (V := V) p) (λ h p', reads_ptr (A := A) (V := V) h p' v).
Proof. apply (copy_clones (copies := ptr_copies)). Qed.
Lemma slice_clones {A V} {stored : Stored (list A)} {copies : DeepCopies A V} h0 h p v : h0 ⊆ h → reads_slice (A := A) (V := V) h p v →
  clones h0 h (copy_slice (A := A) (V := V) p) (λ h p', reads_slice (A := A) (V := V) h p' v).
Proof. apply (copy_clones (copies := slice_copies)). Qed.
Lemma map_clones h0 h p v : h0 ⊆ h → reads_map h p v → clones h0 h (copy_map p) (λ h p', reads_map h p' v).
Proof. apply (copy_clones (copies := map_copies)). Qed.

Lemma ptr_mono {A V} {stored : Stored A} {copies : DeepCopies A V} h h' p v : h ⊆ h' →
  reads_ptr (A := A) (V := V) h p v → reads_ptr (A := A) (V := V) h' p v.
Proof. apply (reads_mono (DeepCopies := ptr_copies)). Qed.
Lemma slice_mono {A V} {stored : Stored (list A)} {copies : DeepCopies A V} h h' p v : h ⊆ h' →
  reads_slice (A := A) (V := V) h p v → reads_slice (A := A) (V := V) h' p v.
Proof. apply (reads_mono (DeepCopies := slice_copies)). Qed.
Lemma map_mono h h' p v : h ⊆ h' → reads_map h p v → reads_map h' p v.
Proof. apply (reads_mono (DeepCopies := map_copies)). Qed.

(** *** Proving a structure's copy: field by field *)

(** The heap only grew: follow the steps. *)
Ltac grown :=
  lazymatch goal with
  | |- ?h ⊆ ?h => reflexivity
  | H : ?h ⊆ ?h1 |- ?h ⊆ ?h2 => first [exact H | transitivity h1; [exact H|grown]]
  | |- _ ∖ _ ⊆ _ ∖ _ => apply added_mono; grown
  end.
(** A field reads the same in the grown heap. *)
Ltac reads_on :=
  first [eassumption | eapply ptr_mono; [|eassumption]; grown | eapply slice_mono; [|eassumption]; grown
        | eapply map_mono; [|eassumption]; grown | eapply reads_mono; [|eassumption]; grown].
Ltac copy_field :=
  let h := fresh "h" in let Hs := fresh "Hs" in let Hr := fresh "Hr" in
  eapply clones_bind;
    [first [eapply ptr_clones | eapply slice_clones | eapply map_clones | eapply copy_clones]; [grown|reads_on] | intros h ? Hs Hr; cbn beta in Hr].
Ltac copy_structure := repeat copy_field; apply clones_ret; cbv beta; split_and!; first [done|reads_on].

(** ** The structures *)

(** Values without references: [*out = *in]. *)
Definition shallow (A : Type) : DeepCopies A A.
Proof. refine {| DeepCopyInto := mret; reads _ a v := a = v |}; [done|]. by intros h a v ->. Defined.
#[local] Instance bool_copies : DeepCopies bool bool := shallow bool.
#[local] Instance Z_copies : DeepCopies Z Z := shallow Z.
#[local] Instance string_copies : DeepCopies string string := shallow string.
(** [MetricNamesSpec.DeepCopyInto] *)
#[local] Instance MetricNamesSpec_copies : DeepCopies Names Names := shallow Names.

#[local] Instance stored_bool : Stored bool := {| to_cell := CBool; of_cell c := match c with CBool b => Some b | _ => None end; of_to_cell _ := eq_refl |}.
#[local] Instance stored_int : Stored Z := {| to_cell := CInt; of_cell c := match c with CInt b => Some b | _ => None end; of_to_cell _ := eq_refl |}.
#[local] Instance stored_string : Stored string := {| to_cell := CString; of_cell c := match c with CString b => Some b | _ => None end; of_to_cell _ := eq_refl |}.
#[local] Instance stored_agent : Stored Agent := {| to_cell := CAgent; of_cell c := match c with CAgent b => Some b | _ => None end; of_to_cell _ := eq_refl |}.
#[local] Instance stored_names : Stored Names := {| to_cell := CNames; of_cell c := match c with CNames b => Some b | _ => None end; of_to_cell _ := eq_refl |}.
#[local] Instance stored_metrics : Stored MAgent := {| to_cell := CMetrics; of_cell c := match c with CMetrics b => Some b | _ => None end; of_to_cell _ := eq_refl |}.
#[local] Instance stored_mps : Stored Mps := {| to_cell := CMps; of_cell c := match c with CMps b => Some b | _ => None end; of_to_cell _ := eq_refl |}.
#[local] Instance stored_spec : Stored SpecH := {| to_cell := CSpec; of_cell c := match c with CSpec b => Some b | _ => None end; of_to_cell _ := eq_refl |}.
#[local] Instance stored_status_cell : Stored StatusH := {| to_cell := CStatus; of_cell c := match c with CStatus b => Some b | _ => None end; of_to_cell _ := eq_refl |}.
#[local] Instance stored_config : Stored ConfigH := {| to_cell := CConfig; of_cell c := match c with CConfig b => Some b | _ => None end; of_to_cell _ := eq_refl |}.
#[local] Instance stored_list : Stored ListH := {| to_cell := CList; of_cell c := match c with CList b => Some b | _ => None end; of_to_cell _ := eq_refl |}.
#[local] Instance stored_tolerations : Stored (list (Toleration M)) := {| to_cell := CTolerations; of_cell c := match c with CTolerations b => Some b | _ => None end; of_to_cell _ := eq_refl |}.
#[local] Instance stored_volumes : Stored (list (Volume M)) := {| to_cell := CVolumes; of_cell c := match c with CVolumes b => Some b | _ => None end; of_to_cell _ := eq_refl |}.
#[local] Instance stored_mounts : Stored (list (VolumeMount M)) := {| to_cell := CMounts; of_cell c := match c with CMounts b => Some b | _ => None end; of_to_cell _ := eq_refl |}.
#[local] Instance stored_conditions : Stored (list (Condition M)) := {| to_cell := CConditions; of_cell c := match c with CConditions b => Some b | _ => None end; of_to_cell _ := eq_refl |}.
#[local] Instance stored_items : Stored (list ConfigH) := {| to_cell := CItems; of_cell c := match c with CItems b => Some b | _ => None end; of_to_cell _ := eq_refl |}.

Definition FractioningAgentSpec_DeepCopyInto (i : Agent) : alloc_monad Agent :=
  FailOpen' ← copy_ptr (A := bool) (FailOpen _ i);
  RetryInterval' ← copy_ptr (A := Z) (RetryInterval _ i);
  StableThreshold' ← copy_ptr (A := Z) (fa_StableThreshold _ i);
  MaxRetries' ← copy_ptr (A := Z) (fa_MaxRetries _ i);
  ReadinessPort' ← copy_ptr (A := Z) (ReadinessPort _ i);
  mret (mkFractioningAgentSpec heap_refs (AnnotationPrefix _ i) FailOpen' (NRISocketPath _ i) (RetroactiveEnforcement _ i)
    (CRISocketPath _ i) (fa_LogLevel _ i) RetryInterval' StableThreshold' MaxRetries' ReadinessPort').

Definition reads_agent (h : heap) (i : Agent) (v : FractioningAgentSpec value_refs) : Prop :=
  (AnnotationPrefix _ i, NRISocketPath _ i, RetroactiveEnforcement _ i, CRISocketPath _ i, fa_LogLevel _ i) =
  (AnnotationPrefix _ v, NRISocketPath _ v, RetroactiveEnforcement _ v, CRISocketPath _ v, fa_LogLevel _ v) ∧
  reads_ptr (A := bool) h (FailOpen _ i) (FailOpen _ v) ∧ reads_ptr (A := Z) h (RetryInterval _ i) (RetryInterval _ v) ∧
  reads_ptr (A := Z) h (fa_StableThreshold _ i) (fa_StableThreshold _ v) ∧ reads_ptr (A := Z) h (fa_MaxRetries _ i) (fa_MaxRetries _ v) ∧
  reads_ptr (A := Z) h (ReadinessPort _ i) (ReadinessPort _ v).

#[local] Instance FractioningAgentSpec_copies : DeepCopies Agent (FractioningAgentSpec value_refs).
Proof.
  refine {| DeepCopyInto := FractioningAgentSpec_DeepCopyInto; reads := reads_agent |}.
  - intros h h' i v Hs. unfold reads_agent. intros. destruct_and!. split_and!; first [done|reads_on].
  - intros h i v Hr. change (clones h h (FractioningAgentSpec_DeepCopyInto i) (λ h i, reads_agent h i v)).
    unfold FractioningAgentSpec_DeepCopyInto, reads_agent in *. destruct_and!. copy_structure.
Defined.

Definition MpsDaemonSpec_DeepCopyInto (i : Mps) : alloc_monad Mps :=
  Backoff' ← copy_ptr (A := Z) (Backoff _ i);
  MaxRetries' ← copy_ptr (A := Z) (md_MaxRetries _ i);
  StableThreshold' ← copy_ptr (A := Z) (md_StableThreshold _ i);
  GracefulStopDelay' ← copy_ptr (A := Z) (GracefulStopDelay _ i);
  mret (mkMpsDaemonSpec heap_refs (md_LogLevel _ i) Backoff' MaxRetries' StableThreshold' GracefulStopDelay').

Definition reads_mps (h : heap) (i : Mps) (v : MpsDaemonSpec value_refs) : Prop :=
  md_LogLevel _ i = md_LogLevel _ v ∧ reads_ptr (A := Z) h (Backoff _ i) (Backoff _ v) ∧
  reads_ptr (A := Z) h (md_MaxRetries _ i) (md_MaxRetries _ v) ∧ reads_ptr (A := Z) h (md_StableThreshold _ i) (md_StableThreshold _ v) ∧
  reads_ptr (A := Z) h (GracefulStopDelay _ i) (GracefulStopDelay _ v).

#[local] Instance MpsDaemonSpec_copies : DeepCopies Mps (MpsDaemonSpec value_refs).
Proof.
  refine {| DeepCopyInto := MpsDaemonSpec_DeepCopyInto; reads := reads_mps |}.
  - intros h h' i v Hs. unfold reads_mps. intros. destruct_and!. split_and!; first [done|reads_on].
  - intros h i v Hr. change (clones h h (MpsDaemonSpec_DeepCopyInto i) (λ h i, reads_mps h i v)).
    unfold MpsDaemonSpec_DeepCopyInto, reads_mps in *. destruct_and!. copy_structure.
Defined.

(** The copies of the other packages' types. *)
Context {TV VV MV CV OV LV : Type}.
Context {toleration_copies : DeepCopies (Toleration M) TV} {volume_copies : DeepCopies (Volume M) VV}.
Context {mount_copies : DeepCopies (VolumeMount M) MV} {condition_copies : DeepCopies (Condition M) CV}.
Context {object_meta_copies : DeepCopies (ObjectMeta M) OV} {list_meta_copies : DeepCopies (ListMeta M) LV}.

Abbreviation MAgentV := (MetricsAgentSpec value_refs VV MV).
Abbreviation SpecV := (GpuFractioningConfigSpec value_refs TV VV MV).
Abbreviation StatusV := (GpuFractioningConfigStatus value_refs CV).
Abbreviation ConfigV := (GpuFractioningConfig value_refs OV TV VV MV CV).
Abbreviation ListV := (GpuFractioningConfigList value_refs LV OV TV VV MV CV).

Definition MetricsAgentSpec_DeepCopyInto (i : MAgent) : alloc_monad MAgent :=
  Volumes' ← copy_slice (A := Volume M) (V := VV) (Volumes _ _ _ i);
  VolumeMounts' ← copy_slice (A := VolumeMount M) (V := MV) (VolumeMounts _ _ _ i);
  MetricNames' ← copy_ptr (A := Names) (V := Names) (MetricNames _ _ _ i);
  mret (mkMetricsAgentSpec heap_refs _ _ (Enabled _ _ _ i) (ma_LogLevel _ _ _ i) (Address _ _ _ i) (Path _ _ _ i)
    Volumes' VolumeMounts' MetricNames').

Definition reads_metrics (h : heap) (i : MAgent) (v : MAgentV) : Prop :=
  (Enabled _ _ _ i, ma_LogLevel _ _ _ i, Address _ _ _ i, Path _ _ _ i) = (Enabled _ _ _ v, ma_LogLevel _ _ _ v, Address _ _ _ v, Path _ _ _ v) ∧
  reads_slice (A := Volume M) h (Volumes _ _ _ i) (Volumes _ _ _ v) ∧
  reads_slice (A := VolumeMount M) h (VolumeMounts _ _ _ i) (VolumeMounts _ _ _ v) ∧
  reads_ptr (A := Names) h (MetricNames _ _ _ i) (MetricNames _ _ _ v).

#[local] Instance MetricsAgentSpec_copies : DeepCopies MAgent MAgentV.
Proof.
  refine {| DeepCopyInto := MetricsAgentSpec_DeepCopyInto; reads := reads_metrics |}.
  - intros h h' i v Hs. unfold reads_metrics. intros. destruct_and!. split_and!; first [done|reads_on].
  - intros h i v Hr. change (clones h h (MetricsAgentSpec_DeepCopyInto i) (λ h i, reads_metrics h i v)).
    unfold MetricsAgentSpec_DeepCopyInto, reads_metrics in *. destruct_and!. copy_structure.
Defined.

Definition GpuFractioningConfigSpec_DeepCopyInto (i : SpecH) : alloc_monad SpecH :=
  NodeSelector' ← copy_map (NodeSelector _ _ _ _ i);
  Tolerations' ← copy_slice (A := Toleration M) (V := TV) (Tolerations _ _ _ _ i);
  RuntimeClassName' ← copy_ptr (A := string) (V := string) (RuntimeClassName _ _ _ _ i);
  FractioningAgent' ← copy_ptr (A := Agent) (V := FractioningAgentSpec value_refs) (FractioningAgent _ _ _ _ i);
  MetricsAgent' ← copy_ptr (A := MAgent) (V := MAgentV) (MetricsAgent _ _ _ _ i);
  MpsDaemon' ← copy_ptr (A := Mps) (V := MpsDaemonSpec value_refs) (MpsDaemon _ _ _ _ i);
  mret (mkSpec heap_refs _ _ _ NodeSelector' Tolerations' RuntimeClassName' FractioningAgent' MetricsAgent' MpsDaemon').

Definition reads_spec (h : heap) (i : SpecH) (v : SpecV) : Prop :=
  reads_map h (NodeSelector _ _ _ _ i) (NodeSelector _ _ _ _ v) ∧
  reads_slice (A := Toleration M) h (Tolerations _ _ _ _ i) (Tolerations _ _ _ _ v) ∧
  reads_ptr (A := string) h (RuntimeClassName _ _ _ _ i) (RuntimeClassName _ _ _ _ v) ∧
  reads_ptr (A := Agent) h (FractioningAgent _ _ _ _ i) (FractioningAgent _ _ _ _ v) ∧
  reads_ptr (A := MAgent) h (MetricsAgent _ _ _ _ i) (MetricsAgent _ _ _ _ v) ∧
  reads_ptr (A := Mps) h (MpsDaemon _ _ _ _ i) (MpsDaemon _ _ _ _ v).

#[local] Instance GpuFractioningConfigSpec_copies : DeepCopies SpecH SpecV.
Proof.
  refine {| DeepCopyInto := GpuFractioningConfigSpec_DeepCopyInto; reads := reads_spec |}.
  - intros h h' i v Hs. unfold reads_spec. intros. destruct_and!. split_and!; first [done|reads_on].
  - intros h i v Hr. change (clones h h (GpuFractioningConfigSpec_DeepCopyInto i) (λ h i, reads_spec h i v)).
    unfold GpuFractioningConfigSpec_DeepCopyInto, reads_spec in *. destruct_and!. copy_structure.
Defined.

Definition GpuFractioningConfigStatus_DeepCopyInto (i : StatusH) : alloc_monad StatusH :=
  Conditions' ← copy_slice (A := Condition M) (V := CV) (Conditions _ _ i);
  mret (mkStatus heap_refs _ (ObservedGeneration _ _ i) Conditions').

Definition reads_status (h : heap) (i : StatusH) (v : StatusV) : Prop :=
  ObservedGeneration _ _ i = ObservedGeneration _ _ v ∧ reads_slice (A := Condition M) h (Conditions _ _ i) (Conditions _ _ v).

#[local] Instance GpuFractioningConfigStatus_copies : DeepCopies StatusH StatusV.
Proof.
  refine {| DeepCopyInto := GpuFractioningConfigStatus_DeepCopyInto; reads := reads_status |}.
  - intros h h' i v Hs. unfold reads_status. intros. destruct_and!. split_and!; first [done|reads_on].
  - intros h i v Hr. change (clones h h (GpuFractioningConfigStatus_DeepCopyInto i) (λ h i, reads_status h i v)).
    unfold GpuFractioningConfigStatus_DeepCopyInto, reads_status in *. destruct_and!. copy_structure.
Defined.

Definition GpuFractioningConfig_DeepCopyInto (i : ConfigH) : alloc_monad ConfigH :=
  ObjectMeta' ← DeepCopyInto (V := OV) (config_ObjectMeta _ _ _ _ _ _ i);
  Spec' ← DeepCopyInto (V := SpecV) (Spec _ _ _ _ _ _ i);
  Status' ← DeepCopyInto (V := StatusV) (Status _ _ _ _ _ _ i);
  mret (mkConfig heap_refs _ _ _ _ _ (config_TypeMeta _ _ _ _ _ _ i) ObjectMeta' Spec' Status').

Definition reads_config (h : heap) (i : ConfigH) (v : ConfigV) : Prop :=
  config_TypeMeta _ _ _ _ _ _ i = config_TypeMeta _ _ _ _ _ _ v ∧
  reads h (config_ObjectMeta _ _ _ _ _ _ i) (config_ObjectMeta _ _ _ _ _ _ v) ∧
  reads h (Spec _ _ _ _ _ _ i) (Spec _ _ _ _ _ _ v) ∧ reads h (Status _ _ _ _ _ _ i) (Status _ _ _ _ _ _ v).

#[local] Instance GpuFractioningConfig_copies : DeepCopies ConfigH ConfigV.
Proof.
  refine {| DeepCopyInto := GpuFractioningConfig_DeepCopyInto; reads := reads_config |}.
  - intros h h' i v Hs. unfold reads_config. intros. destruct_and!. split_and!; first [done|reads_on].
  - intros h i v Hr. change (clones h h (GpuFractioningConfig_DeepCopyInto i) (λ h i, reads_config h i v)).
    unfold GpuFractioningConfig_DeepCopyInto, reads_config in *. destruct_and!. copy_structure.
Defined.

Definition GpuFractioningConfigList_DeepCopyInto (i : ListH) : alloc_monad ListH :=
  ListMeta' ← DeepCopyInto (V := LV) (list_ListMeta _ _ _ _ _ _ _ i);
  Items' ← copy_slice (A := ConfigH) (V := ConfigV) (Items _ _ _ _ _ _ _ i);
  mret (mkList heap_refs _ _ _ _ _ _ (list_TypeMeta _ _ _ _ _ _ _ i) ListMeta' Items').

Definition reads_list (h : heap) (i : ListH) (v : ListV) : Prop :=
  list_TypeMeta _ _ _ _ _ _ _ i = list_TypeMeta _ _ _ _ _ _ _ v ∧
  reads h (list_ListMeta _ _ _ _ _ _ _ i) (list_ListMeta _ _ _ _ _ _ _ v) ∧
  reads_slice (A := ConfigH) h (Items _ _ _ _ _ _ _ i) (Items _ _ _ _ _ _ _ v).

#[local] Instance GpuFractioningConfigList_copies : DeepCopies ListH ListV.
Proof.
  refine {| DeepCopyInto := GpuFractioningConfigList_DeepCopyInto; reads := reads_list |}.
  - intros h h' i v Hs. unfold reads_list. intros. destruct_and!. split_and!; first [done|reads_on].
  - intros h i v Hr. change (clones h h (GpuFractioningConfigList_DeepCopyInto i) (λ h i, reads_list h i v)).
    unfold GpuFractioningConfigList_DeepCopyInto, reads_list in *. destruct_and!. copy_structure.
Defined.

(** ** DeepCopy and DeepCopyObject *)

Definition FractioningAgentSpec_DeepCopy : option loc → alloc_monad (option loc) := copy_ptr (A := Agent) (V := FractioningAgentSpec value_refs).
Definition MetricNamesSpec_DeepCopy : option loc → alloc_monad (option loc) := copy_ptr (A := Names) (V := Names).
Definition MetricsAgentSpec_DeepCopy : option loc → alloc_monad (option loc) := copy_ptr (A := MAgent) (V := MAgentV).
Definition MpsDaemonSpec_DeepCopy : option loc → alloc_monad (option loc) := copy_ptr (A := Mps) (V := MpsDaemonSpec value_refs).
Definition GpuFractioningConfigSpec_DeepCopy : option loc → alloc_monad (option loc) := copy_ptr (A := SpecH) (V := SpecV).
Definition GpuFractioningConfigStatus_DeepCopy : option loc → alloc_monad (option loc) := copy_ptr (A := StatusH) (V := StatusV).
Definition GpuFractioningConfig_DeepCopy : option loc → alloc_monad (option loc) := copy_ptr (A := ConfigH) (V := ConfigV).
Definition GpuFractioningConfigList_DeepCopy : option loc → alloc_monad (option loc) := copy_ptr (A := ListH) (V := ListV).

(** [runtime.Object]: nil, or a pointer with its type. *)
Inductive Object := ConfigObject (l : loc) | ListObject (l : loc).

Definition GpuFractioningConfig_DeepCopyObject (i : option loc) : alloc_monad (option Object) :=
  c ← GpuFractioningConfig_DeepCopy i; mret (match c with Some l => Some (ConfigObject l) | None => None end).
Definition GpuFractioningConfigList_DeepCopyObject (i : option loc) : alloc_monad (option Object) :=
  c ← GpuFractioningConfigList_DeepCopy i; mret (match c with Some l => Some (ListObject l) | None => None end).

(** ** Properties *)

(** A copy that shares nothing: both stand for the value afterwards, the original whatever
    happens to other cells than those that were there, the copy whatever happens to these. *)
Definition independent {V} (copy : option loc → alloc_monad (option loc)) (rd : heap → option loc → option V → Prop) : Prop :=
  ∀ h p v, rd h p v → let '(h', p') := copy p h in
  h ⊆ h' ∧ rd h' p v ∧ rd h' p' v ∧
  (∀ h'', (∀ l, l ∈ dom h → h'' !! l = h !! l) → rd h'' p v) ∧
  (∀ h'', (∀ l, l ∉ dom h → h'' !! l = h' !! l) → rd h'' p' v).

Lemma copy_ptr_independent {A V} {stored : Stored A} {copies : DeepCopies A V} :
  independent (copy_ptr (A := A) (V := V)) (reads_ptr (A := A) (V := V)).
Proof.
  intros h p v Hr. pose proof (ptr_clones h h p v (reflexivity _) Hr) as H. unfold clones in H.
  destruct (copy_ptr p h) as [h' p']. destruct H as [Hs Hr']. split_and!; [done|by apply (ptr_mono h)| | |].
  - eapply ptr_mono; [|exact Hr']. apply map_subseteq_spec. intros l c. by intros [? _]%lookup_difference_Some.
  - intros h'' Hag. eapply ptr_mono; [|exact Hr]. apply map_subseteq_spec. intros l c Hl. rewrite Hag; [done|]. by apply elem_of_dom_2 in Hl.
  - intros h'' Hag. eapply ptr_mono; [|exact Hr']. apply map_subseteq_spec. intros l c [Hl Hn]%lookup_difference_Some.
    rewrite Hag; [done|]. by apply not_elem_of_dom.
Qed.

(** C26: deep copies are deep.  For every type of the API, a copy stands for the same value as the
    original, nil or not at every pointer, slice and map, and the two share no cell: whatever is
    written afterwards to the cells that were there leaves the copy as it is, and whatever is
    written to the cells the copy brought leaves the original, in the cache, as it is.  A nil
    object is copied to nil. *)
Theorem deep_copies_share_nothing :
  independent FractioningAgentSpec_DeepCopy (reads_ptr (A := Agent) (V := FractioningAgentSpec value_refs)) ∧
  independent MetricNamesSpec_DeepCopy (reads_ptr (A := Names) (V := Names)) ∧
  independent MetricsAgentSpec_DeepCopy (reads_ptr (A := MAgent) (V := MAgentV)) ∧
  independent MpsDaemonSpec_DeepCopy (reads_ptr (A := Mps) (V := MpsDaemonSpec value_refs)) ∧
  independent GpuFractioningConfigSpec_DeepCopy (reads_ptr (A := SpecH) (V := SpecV)) ∧
  independent GpuFractioningConfigStatus_DeepCopy (reads_ptr (A := StatusH) (V := StatusV)) ∧
  independent GpuFractioningConfig_DeepCopy (reads_ptr (A := ConfigH) (V := ConfigV)) ∧
  independent GpuFractioningConfigList_DeepCopy (reads_ptr (A := ListH) (V := ListV)) ∧
  (∀ p h, GpuFractioningConfig_DeepCopyObject p h =
     ((GpuFractioningConfig_DeepCopy p h).1, ConfigObject <$> (GpuFractioningConfig_DeepCopy p h).2)) ∧
  (∀ p h, GpuFractioningConfigList_DeepCopyObject p h =
     ((GpuFractioningConfigList_DeepCopy p h).1, ListObject <$> (GpuFractioningConfigList_DeepCopy p h).2)) ∧
  (∀ h, GpuFractioningConfig_DeepCopyObject None h = (h, None)).
Proof.
  split_and!; try apply copy_ptr_independent; try done; intros p h; unfold GpuFractioningConfig_DeepCopyObject, GpuFractioningConfigList_DeepCopyObject, mbind, alloc_bind.
  - by destruct (GpuFractioningConfig_DeepCopy p h) as [h' [l|]].
  - by destruct (GpuFractioningConfigList_DeepCopy p h) as [h' [l|]].
Qed.
End heap.

(** ** An object in a cache *)

(** Tolerations with a pointer to their seconds; the other types without references. *)
Definition sample_packages : packages := mkPackages (string * option loc) string string string string string Empty_set.
Abbreviation sample_heap := (gmap loc (cell sample_packages)).

#[local] Existing Instance alloc_ret.
#[local] Existing Instance alloc_bind.
#[local] Instance sample_toleration : DeepCopies sample_packages (string * option loc) (string * option Z).
Proof.
  refine {| DeepCopyInto t := (p ← copy_ptr sample_packages (stored := stored_int _) (copies := Z_copies _) t.2; mret (t.1, p)) : alloc_monad sample_packages _;
            reads h t v := t.1 = v.1 ∧ reads_ptr sample_packages (stored := stored_int _) (copies := Z_copies _) h t.2 v.2 |}.
  - intros h h' t v Hs [H1 H2]. split; [done|]. by apply (ptr_mono _ h).
  - intros h t v [H1 H2]. pose proof (ptr_clones sample_packages h h t.2 v.2 (reflexivity _) H2) as H. unfold clones in H.
    unfold mbind, alloc_bind. destruct (copy_ptr _ t.2 h) as [h' p']. by destruct H.
Defined.
#[local] Instance sample_shallow : DeepCopies sample_packages string string := shallow _ string.

Definition cached_spec : GpuFractioningConfigSpec heap_refs (string * option loc) string string :=
  mkSpec heap_refs _ _ _ (Some 4%nat) (Some 2%nat) None None None None.
Definition cached_object : GpuFractioningConfig heap_refs string (string * option loc) string string string :=
  mkConfig heap_refs _ _ _ _ _ ("v1alpha1", "GpuFractioningConfig") "default" cached_spec (mkStatus heap_refs _ 3 (Some 1%nat)).
Definition cache : sample_heap :=
  <[0%nat := CConfig sample_packages cached_object]> (<[1%nat := CConditions sample_packages ["Ready"]]>
    (<[2%nat := CTolerations sample_packages [("gpu", Some 3%nat)]]> (<[3%nat := CInt sample_packages 60]>
      {[4%nat := CMap sample_packages {["gpu" := "a"]}]}))).
Definition cached_value : GpuFractioningConfig value_refs string (string * option Z) string string string :=
  mkConfig value_refs _ _ _ _ _ ("v1alpha1", "GpuFractioningConfig") "default"
    (mkSpec value_refs _ _ _ (Some {["gpu" := "a"]}) (Some [("gpu", Some 60)]) None None None None) (mkStatus value_refs _ 3 (Some ["Ready"])).

(** The reconciler empties the conditions of its copy; the cached object keeps its own. *)
Lemma deep_copies_share_nothing_witness :
  let stored := stored_config sample_packages in
  let copies := GpuFractioningConfig_copies sample_packages (TV := string * option Z) (VV := string) (MV := string) (CV := string) (OV := string) in
  let reads_object := reads_ptr sample_packages (stored := stored) (copies := copies) in
  ∃ h p o c, GpuFractioningConfig_DeepCopy sample_packages (TV := string * option Z) (VV := string) (MV := string) (CV := string) (OV := string) (Some 0%nat) cache = (h, Some p) ∧
    deref sample_packages (stored := stored) h (Some p) = Some o ∧ Conditions _ _ (Status _ _ _ _ _ _ o) = Some c ∧
    c ≠ 1%nat ∧ reads_object h (Some p) (Some cached_value) ∧ reads_object (<[c := CConditions sample_packages []]> h) (Some 0%nat) (Some cached_value).
Proof.
  intros stored copies reads_object.
  destruct (deep_copies_share_nothing sample_packages (TV := string * option Z) (VV := string) (MV := string) (CV := string) (OV := string) (LV := string))
    as (_ & _ & _ & _ & _ & _ & H & _).
  assert (Hr : reads_object cache (Some 0%nat) (Some cached_value)).
  { exists cached_object. split; [reflexivity|]. split; [reflexivity|]. split; [reflexivity|]. split; [|split; [reflexivity|]].
    - split; [reflexivity|]. split; [|repeat split]. exists [("gpu", Some 3%nat)]. split; [reflexivity|]. constructor; [|constructor].
      split; [reflexivity|]. exists 60. split; reflexivity.
    - exists ["Ready"]. split; [reflexivity|]. repeat constructor. }
  specialize (H cache (Some 0%nat) (Some cached_value) Hr).
  set (res := GpuFractioningConfig_DeepCopy sample_packages (Some 0%nat) cache) in *.
  assert (Hres : res.2 = Some 5%nat ∧ Conditions _ _ ∘ Status _ _ _ _ _ _ <$> deref sample_packages (stored := stored) res.1 (Some 5%nat) = Some (Some 9%nat))
    by (split; vm_compute; reflexivity).
  destruct res as [h p]. cbn [fst snd] in Hres. destruct Hres as [-> Hc]. destruct (deref _ _ _) as [o|] eqn:Eo; [|discriminate Hc]. injection Hc as Hc.
  destruct H as (Hs & _ & Hcopy & Horig & _). exists h, 5%nat, o, 9%nat. split; [reflexivity|]. split; [exact Eo|]. split; [exact Hc|].
  split; [discriminate|]. split; [exact Hcopy|]. apply Horig. intros l [x Hl]%elem_of_dom.
  assert (l ≠ 9%nat) by (intros ->; vm_compute in Hl; discriminate Hl). rewrite lookup_insert_ne by congruence.
  rewrite Hl. exact (lookup_weaken _ _ _ _ Hl Hs).
Defined.
