(* ===== verification/Fractiond.v ===== *)
(** * fractiond: the process

    [fractiond/cmd/main.go] around the plugin (Plugin): the NRI connection loop, the
    readiness server of [internal/readiness], the worker of the event processor
    (Events), the remediation goroutines (RetroAudit) and the end of [main], as one system
    that makes one step at a time.

    The NRI stub and net/http are what they promise: callbacks are delivered, one at a
    time, while the stub's [Run] has not returned; [Run] returns when the connection is gone or
    the context is done.  A listener may fail at any time. *)

From Stdlib Require Import ZArith Lia String Ascii.
From stdpp Require Import base gmap list strings.
From S2P Require Import Prelude GoStrings Annotations Json Injection Runtime Store FileSystem FsStore Events Adapter RetroAudit Plugin Retry GoTime GoFlag DaemonFlags CriStopper.

#[local] Open Scope string_scope.
#[local] Open Scope list_scope.
#[local] Open Scope Z_scope.

Import fractiond_cmd (cliFlags, retryInterval, stableThreshold, maxRetries, readinessPort).

(** ** The system *)

(** [runWithRetry]: before [stub.New], in [s.Run] (has the runtime synchronized since it
    connected, and not shut down?), in the wait, or returned. *)
Inductive link := Idle | Up (synced : bool) | Waiting | Returned (r : result runWithRetry.RetryError unit).

(** The server's goroutine: not started, listening, or returned. *)
Inductive server := Off | Listening | Down.

(** The main goroutine: in [runWithRetry], in [plugin.Flush] with its barrier, or gone. *)
Inductive main_pc := Looping | Flushing (n : nat) | Exited (code : Z).

Inductive callback :=
| OnSynchronize (pods : list (option PodSandbox)) (containers : list (option Container))
| OnCreateContainer (pod : PodSandbox) (ctr : Container)
| OnRemoveContainer (ctr : Container)
| OnShutdown.

(** What happens next. *)
Inductive event :=
| Signal                                          (** SIGTERM or SIGINT *)
| StubNew (err : option string)
| Delivered (c : callback)
| ShutdownFlush (n : nat)                         (** the flush of a [Shutdown] sends its barrier *)
| Recv | Handle                                   (** the worker *)
| Remediated (i : nat)                            (** a remediation goroutine *)
| RunReturns (err : option string) (uptime : Z)
| Timer | WaitCancelled
| MainFlush (n : nat)
| MainExit
| ListenFails | ServerStops.

Section fractiond.
Context {St R : Type} `{HW : StoreWriter St} `{HQ : QuantityLib} `{HS : ContainerStopper R}.
(** [cri.Close], deferred by main when there is a stopper *)
Context (close_stopper : R → R).

Record fractiond := mkFractiond {
  plugin : Plugin St;
  stopper : R;
  conn : link;
  attempt : Z;
  backoff : Z;
  signalled : bool;
  readyz : server;
  main : main_pc
}.

(** What [NewPlugin] made of the flags, before the loop. *)
Definition start (flags : cliFlags) (p : Plugin St) (r : R) : fractiond :=
  mkFractiond p r Idle 0 (retryInterval flags) false (if 0 <? readinessPort flags then Listening else Off) Looping.

Definition with_plugin (p : Plugin St) (st : fractiond) : fractiond :=
  mkFractiond p (stopper st) (conn st) (attempt st) (backoff st) (signalled st) (readyz st) (main st).
Definition with_conn (l : link) (st : fractiond) : fractiond :=
  mkFractiond (plugin st) (stopper st) l (attempt st) (backoff st) (signalled st) (readyz st) (main st).
Definition with_main (m : main_pc) (st : fractiond) : fractiond :=
  mkFractiond (plugin st) (stopper st) (conn st) (attempt st) (backoff st) (signalled st) (readyz st) m.
Definition with_readyz (s : server) (st : fractiond) : fractiond :=
  mkFractiond (plugin st) (stopper st) (conn st) (attempt st) (backoff st) (signalled st) s (main st).

(** A callback of the runtime on the plugin. *)
Definition deliver (c : callback) (st : fractiond) : fractiond :=
  match c with
  | OnSynchronize pods ctrs => with_conn (Up true) (with_plugin (Plugin.Synchronize (plugin st) pods ctrs) st)
  | OnCreateContainer pod ctr => with_plugin (CreateContainer (plugin st) pod ctr).1 st
  | OnRemoveContainer ctr => with_plugin (RemoveContainer (plugin st) ctr) st
  | OnShutdown => with_conn (Up false) (with_plugin (setReady false (plugin st)) st)
  end.

(** [runWithRetry] after [s.Run] returned. *)
Definition after_run (flags : cliFlags) (err : option string) (uptime : Z) (st : fractiond) : fractiond :=
  let p := setReady false (plugin st) in
  if signalled st then with_conn (Returned (Ok tt)) (with_plugin p st)
  else
    let '(attempt, backoff) := if stableThreshold flags <=? uptime then (0, retryInterval flags) else (attempt st, backoff st) in
    mkFractiond p (stopper st)
      (if (0 <? maxRetries flags) && (maxRetries flags <=? attempt) then Returned (Err (runWithRetry.ConnectionFailed attempt err)) else Waiting)
      attempt backoff (signalled st) (readyz st) (main st).

Definition processor_step (f : Processor St → option (Processor St)) (st : fractiond) : option fractiond :=
  (λ e, with_plugin (set_events e (plugin st)) st) <$> f (events (plugin st)).

Definition remediated (i : nat) (st : fractiond) : option fractiond :=
  match sentinel (plugin st) with
  | Some s =>
      if decide (i < List.length (sInflight s))%nat then
        let '(s, r) := finish_remediation i s (stopper st) in
        Some (mkFractiond (set_sentinel (Some s) (plugin st)) r (conn st) (attempt st) (backoff st) (signalled st) (readyz st) (main st))
      else None
  | None => None
  end.

(** The end of [main]: [os.Exit(1)] skips the deferred close. *)
Definition main_exit (st : fractiond) : option fractiond :=
  match main st, conn st with
  | Flushing n, Returned r =>
      if shutdown_done n (plugin st) then
        Some (mkFractiond (plugin st) (match r with Ok _ => close_stopper (stopper st) | Err _ => stopper st end)
                (conn st) (attempt st) (backoff st) (signalled st) (readyz st)
                (Exited (match r with Ok _ => 0 | Err _ => 1 end)))
      else None
  | _, _ => None
  end.

Definition live_step (flags : cliFlags) (st : fractiond) (e : event) : option fractiond :=
  match e with
  | Signal => Some (mkFractiond (plugin st) (stopper st) (conn st) (attempt st) (backoff st) true (readyz st) (main st))
  | StubNew err =>
      match conn st with
      | Idle =>
          let l := match err with Some e => Returned (Err (runWithRetry.CreatingStub e)) | None => Up false end in
          Some (mkFractiond (plugin st) (stopper st) l (attempt st + 1) (backoff st) (signalled st) (readyz st) (main st))
      | _ => None
      end
  | Delivered c => match conn st with Up _ => Some (deliver c st) | _ => None end
  | ShutdownFlush n => processor_step (flush_send n) st
  | Recv => processor_step run_recv st
  | Handle => processor_step run_handle st
  | Remediated i => remediated i st
  | RunReturns err uptime => match conn st with Up _ => Some (after_run flags err uptime st) | _ => None end
  | Timer =>
      match conn st with
      | Waiting => Some (mkFractiond (plugin st) (stopper st) Idle (attempt st) (next_backoff (backoff st)) (signalled st) (readyz st) (main st))
      | _ => None
      end
  | WaitCancelled => match conn st with Waiting => if signalled st then Some (with_conn (Returned (Ok tt)) st) else None | _ => None end
  | MainFlush n =>
      match main st, conn st with
      | Looping, Returned _ => (with_main (Flushing n)) <$> processor_step (flush_send n) st
      | _, _ => None
      end
  | MainExit => main_exit st
  | ListenFails => match readyz st with Listening => Some (with_readyz Down st) | _ => None end
  | ServerStops => match readyz st with Listening => if signalled st then Some (with_readyz Down st) else None | _ => None end
  end.

Definition step (flags : cliFlags) (st : fractiond) (e : event) : option fractiond :=
  match main st with Exited _ => None | _ => live_step flags st e end.

Definition run (flags : cliFlags) (st : fractiond) (es : list event) : option fractiond :=
  fold_left (λ o e, o ≫= λ st, step flags st e) es (Some st).

(** The kubelet's probe: refused unless the server listens. *)
Definition probe (st : fractiond) (path : string) : option readiness.response :=
  match readyz st with Listening => Some (readiness.handler (ready (plugin st)) path) | _ => None end.

(** ** Lemmas *)

(** One iteration of the loop of Retry is one connection here. *)
Lemma loop_is_after_run flags st c script rd (f := runWithRetry.mkFlags (retryInterval flags) (maxRetries flags) (stableThreshold flags)) :
  runWithRetry.stub_error c = None → signalled st = it_cancelled (runWithRetry.conn_it c) →
  let st' := after_run flags (runWithRetry.conn_error c) (it_uptime (runWithRetry.conn_it c)) st in
  let connected := [runWithRetry.Connected (rd || runWithRetry.synchronized c)] in
  runWithRetry.loop f (attempt st - 1) (backoff st) rd (c :: script) =
  match conn st' with
  | Returned r => (connected, Some (false, r))
  | _ =>
      let obs := connected ++ [runWithRetry.Waiting false (backoff st')] in
      if it_cancelled_waiting (runWithRetry.conn_it c) then (obs, Some (false, Ok tt))
      else let '(rest, r) := runWithRetry.loop f (attempt st') (next_backoff (backoff st')) false script in (obs ++ rest, r)
  end.
Proof.
  intros Hc Hs. cbv zeta. unfold after_run. rewrite Hs. cbn [runWithRetry.loop]. rewrite Hc.
  replace (attempt st - 1 + 1) with (attempt st) by lia. destruct (it_cancelled _); [done|]. cbn [runWithRetry.stableThreshold f].
  destruct (stableThreshold flags <=? _); cbn [runWithRetry.maxRetries f runWithRetry.retryInterval]; by destruct (_ && _).
Qed.

(** *** Readiness *)

Definition ready_inv (st : fractiond) : Prop :=
  ready (plugin st) = match conn st with Up synced => synced | _ => false end.

Lemma processor_step_same f (st st' : fractiond) : processor_step f st = Some st' →
  ready (plugin st') = ready (plugin st) ∧ conn st' = conn st ∧ main st' = main st ∧ signalled st' = signalled st.
Proof. unfold processor_step. destruct (f _); [|done]. by intros [= <-]. Qed.

Lemma Synchronize_ready (p : Plugin St) pods ctrs : ready (Plugin.Synchronize p pods ctrs) = true.
Proof. unfold Plugin.Synchronize. destruct (Events.Synchronize _ _). cbn. by destruct (sentinel p). Qed.
Lemma CreateContainer_ready (p : Plugin St) pod ctr : ready (CreateContainer p pod ctr).1 = ready p.
Proof. unfold CreateContainer. destruct (buildAdjustment _ _ _); [|done]. by destruct (Events.Upsert _ _). Qed.
Lemma RemoveContainer_ready (p : Plugin St) ctr : ready (RemoveContainer p ctr) = ready p.
Proof. unfold RemoveContainer. by destruct (Events.Delete _ _). Qed.

Lemma remediated_same i (st st' : fractiond) : remediated i st = Some st' →
  events (plugin st') = events (plugin st) ∧ ready (plugin st') = ready (plugin st) ∧ conn st' = conn st ∧ main st' = main st ∧
  signalled st' = signalled st.
Proof.
  unfold remediated. destruct (sentinel (plugin st)) as [s|]; [|done]. destruct (decide _); [|done].
  destruct (finish_remediation _ _ _). by intros [= <-].
Qed.

Lemma step_ready flags st e st' : ready_inv st → live_step flags st e = Some st' → ready_inv st'.
Proof.
  unfold ready_inv. intros H Hs. destruct e as [|err|c|n| | |i|err u| | |n| | |]; cbn [live_step] in Hs.
  - by simplify_eq.
  - destruct (conn st) eqn:E; [|done..]. injection Hs as <-. cbn. rewrite H. by destruct err.
  - destruct (conn st) eqn:E; [done| |done..]. injection Hs as <-. destruct c; cbn.
    + apply Synchronize_ready.
    + by rewrite CreateContainer_ready, E.
    + by rewrite RemoveContainer_ready, E.
    + done.
  - apply processor_step_same in Hs as (-> & -> & _). done.
  - apply processor_step_same in Hs as (-> & -> & _). done.
  - apply processor_step_same in Hs as (-> & -> & _). done.
  - apply remediated_same in Hs as (_ & -> & -> & _). done.
  - destruct (conn st) eqn:E; [done| |done..]. injection Hs as <-. unfold after_run. destruct (signalled st); [done|].
    destruct (stableThreshold flags <=? u); cbn; by destruct (_ && _).
  - destruct (conn st); try done. by injection Hs as <-.
  - destruct (conn st); try done. destruct (signalled st); [|done]. by injection Hs as <-.
  - destruct (main st), (conn st) eqn:E; try done. destruct (processor_step _ st) as [s|] eqn:Ep; [|done].
    apply processor_step_same in Ep as (E1 & E2 & _). injection Hs as <-. cbn. by rewrite E1, E2, E.
  - unfold main_exit in Hs. destruct (main st), (conn st) eqn:E; try done. case_match; [|done]. by injection Hs as <-.
  - destruct (readyz st); try done. by injection Hs as <-.
  - destruct (readyz st); try done. destruct (signalled st); [|done]. by injection Hs as <-.
Qed.

(** *** The event processor *)

(** What a callback has to say to the processor, by the plugin's settings. *)
Definition offered (p : Plugin St) (e : event) : option Events.event :=
  match e with
  | Delivered (OnSynchronize pods ctrs) => Some (replace (Returns (adapter.containers (AnnotationPrefix p) pods ctrs)) true)
  | Delivered (OnCreateContainer pod ctr) =>
      if is_ok (buildAdjustment p pod ctr) then Some (upsert (Returns (adapter.container (AnnotationPrefix p) (Some pod) (Some ctr)))) else None
  | Delivered (OnRemoveContainer ctr) => Some (remove (Id ctr))
  | _ => None
  end.

(** Steps that may put something into the queue. *)
Definition sends (e : event) : bool :=
  match e with Delivered OnShutdown => false | Delivered _ | ShutdownFlush _ | MainFlush _ => true | _ => false end.
Definition send_count (es : list event) : nat := List.length (List.filter sends es).

Definition settings (p : Plugin St) := (AnnotationPrefix p, MPSPipeDirectory p, FailOpen p, SupportSMSharing p, InjectCDIDevice p).

Lemma offered_settings (p p' : Plugin St) e : settings p = settings p' → offered p e = offered p' e.
Proof. destruct p, p'. cbn. intros [= -> -> -> -> ->]. done. Qed.

(** The labels of a step, from one processor to the next. *)
Definition labelled (p p' : Processor St) (ls : list label) (ev : option Events.event) (sent : bool) : Prop :=
  steps p ls p' ∧ accepted ls = (if has_room p then option_list ev else []) ∧
  (List.length (queue p') ≤ List.length (queue p) + (if sent then 1 else 0))%nat.

Lemma enqueue_labelled p ev : labelled p (enqueue (IEvent ev) p).1 [LSend ev (enqueue (IEvent ev) p).2] (Some ev) true.
Proof.
  split_and!; [apply steps_one, step_send| |]; unfold enqueue; destruct (has_room p); cbn; try done; rewrite ?length_app; cbn; lia.
Qed.

Lemma same_labelled p : labelled p p [] None false.
Proof. split_and!; [constructor|by destruct (has_room p)|lia]. Qed.

Lemma flush_labelled n p p' : flush_send n p = Some p' → labelled p p' [LFlush n] None true.
Proof.
  intros Hf. split_and!; [by apply steps_one, step_flush|by destruct (has_room p)|]. unfold flush_send in Hf.
  destruct (_ && _); [|done]. injection Hf as <-. cbn. rewrite length_app. cbn. lia.
Qed.

Lemma recv_labelled p p' : run_recv p = Some p' → labelled p p' [LRecv] None false.
Proof.
  intros Hr. split_and!; [by apply steps_one, step_recv|by destruct (has_room p)|]. unfold run_recv in Hr.
  destruct (inflight p); [done|]. destruct (queue p) as [|it q]; [done|]. injection Hr as <-. cbn. lia.
Qed.

Lemma handle_labelled p p' : run_handle p = Some p' → labelled p p' [LHandle] None false.
Proof.
  intros Hr. split_and!; [by apply steps_one, step_handle|by destruct (has_room p)|]. unfold run_handle in Hr.
  destruct (inflight p) as [[ev|m]|]; [| |done]; injection Hr as <-; cbn; lia.
Qed.

Lemma deliver_labelled c st : settings (plugin (deliver c st)) = settings (plugin st) ∧
  ∃ ls, labelled (events (plugin st)) (events (plugin (deliver c st))) ls (offered (plugin st) (Delivered c)) (sends (Delivered c)).
Proof.
  destruct c as [pods ctrs|pod ctr|ctr|]; cbn [deliver plugin with_conn with_plugin offered sends].
  - unfold Plugin.Synchronize, Events.Synchronize. set (ev := replace _ _). pose proof (enqueue_labelled (events (plugin st)) ev) as H.
    destruct (enqueue _ _) as [q b]. cbn [fst snd] in H. cbn. destruct (sentinel (plugin st)); (split; [done|by eexists]).
  - unfold CreateContainer. destruct (buildAdjustment _ _ _) as [adj|err]; cbn [is_ok].
    + unfold Events.Upsert. set (ev := upsert _). pose proof (enqueue_labelled (events (plugin st)) ev) as H.
      destruct (enqueue _ _) as [q b]. cbn [fst snd] in H. split; [done|by eexists].
    + split; [done|]. exists []. cbn. destruct (same_labelled (events (plugin st))) as (H1 & H2 & H3). split_and!; [done|done|lia].
  - unfold RemoveContainer, Events.Delete. set (ev := remove _). pose proof (enqueue_labelled (events (plugin st)) ev) as H.
    destruct (enqueue _ _) as [q b]. cbn [fst snd] in H. split; [done|by eexists].
  - split; [done|]. exists []. apply same_labelled.
Qed.

Lemma step_labelled flags st e st' : live_step flags st e = Some st' → settings (plugin st') = settings (plugin st) ∧
  ∃ ls, labelled (events (plugin st)) (events (plugin st')) ls (offered (plugin st) e) (sends e) ∧ ∀ n, e = MainFlush n → ls = [LFlush n].
Proof.
  assert (Hproc : ∀ f ls ev sent s, (∀ p p', f p = Some p' → labelled p p' ls ev sent) → processor_step f st = Some s →
    settings (plugin s) = settings (plugin st) ∧ labelled (events (plugin st)) (events (plugin s)) ls ev sent).
  { intros f ls ev sent s Hf. unfold processor_step. destruct (f _) as [q|] eqn:Eq; [|done]. intros [= <-]. split; [done|]. by apply Hf. }
  assert (Hsame : settings (plugin st') = settings (plugin st) → events (plugin st') = events (plugin st) → sends e = false →
    offered (plugin st) e = None → settings (plugin st') = settings (plugin st) ∧
    ∃ ls, labelled (events (plugin st)) (events (plugin st')) ls (offered (plugin st) e) (sends e) ∧ ∀ n, e = MainFlush n → ls = [LFlush n]).
  { intros H1 H2 H3 H4. split; [done|]. exists []. rewrite H2, H3, H4. split; [apply same_labelled|]. intros n ->. done. }
  intros Hs. destruct e as [|err|c|n| | |i|err u| | |n| | |]; cbn [live_step] in Hs.
  - injection Hs as <-. by apply Hsame.
  - destruct (conn st); try done. injection Hs as <-. by apply Hsame.
  - destruct (conn st); try done. injection Hs as <-. destruct (deliver_labelled c st) as (H1 & ls & H2). split; [done|]. by exists ls.
  - destruct (Hproc _ _ _ _ _ (flush_labelled n) Hs). split; [done|]. by eexists.
  - destruct (Hproc _ _ _ _ _ recv_labelled Hs). split; [done|]. by eexists.
  - destruct (Hproc _ _ _ _ _ handle_labelled Hs). split; [done|]. by eexists.
  - apply Hsame; try done; unfold remediated in Hs; destruct (sentinel (plugin st)) as [sn|]; try done; destruct (decide _); try done;
      destruct (finish_remediation _ _ _); by injection Hs as <-.
  - destruct (conn st); try done. injection Hs as <-. unfold after_run in Hsame |- *.
    destruct (signalled st); [by apply Hsame|]. destruct (stableThreshold flags <=? u); by apply Hsame.
  - destruct (conn st); try done. injection Hs as <-. by apply Hsame.
  - destruct (conn st); try done. destruct (signalled st); [|done]. injection Hs as <-. by apply Hsame.
  - destruct (main st), (conn st); try done. destruct (processor_step _ st) as [s1|] eqn:Ep; [|done]. injection Hs as <-.
    destruct (Hproc _ _ _ _ _ (flush_labelled n) Ep) as [H1 H2]. split; [done|]. exists [LFlush n]. split; [done|]. by intros ? [= ->].
  - unfold main_exit in Hs. destruct (main st), (conn st); try done. case_match; [|done]. injection Hs as <-. by apply Hsame.
  - destruct (readyz st); try done. injection Hs as <-. by apply Hsame.
  - destruct (readyz st); try done. destruct (signalled st); [|done]. injection Hs as <-. by apply Hsame.
Qed.

(** *** The invariant of a run *)

Definition exit_code (r : result runWithRetry.RetryError unit) : Z := match r with Ok _ => 0 | Err _ => 1 end.

(** Main is at the flush with barrier [n], or past it. *)
Definition at_flush (n : nat) (st : fractiond) : Prop :=
  main st = Flushing n ∨ ∃ r, main st = Exited (exit_code r) ∧ conn st = Returned r ∧ shutdown_done n (plugin st) = true.

Record run_inv (p0 : Plugin St) (w0 : St) (es : list event) (st : fractiond) (tr : list label) : Prop := {
  inv_settings : settings (plugin st) = settings p0;
  inv_steps : steps (NewProcessor w0) tr (events (plugin st));
  inv_accepted : accepted tr `sublist_of` omap (offered p0) es;
  inv_room : Z.of_nat (send_count es) ≤ defaultQueueDepth → accepted tr = omap (offered p0) es;
  inv_queue : (List.length (queue (events (plugin st))) ≤ send_count es)%nat;
  inv_main : main st = Looping ∨ ∃ n tr1 tr2 r, at_flush n st ∧ conn st = Returned r ∧ tr = tr1 ++ LFlush n :: tr2 ∧ accepted tr2 = [];
  inv_signal : conn st = Returned (Ok tt) → signalled st = true
}.

Lemma step_signalled flags st e st' : (conn st = Returned (Ok tt) → signalled st = true) → live_step flags st e = Some st' →
  conn st' = Returned (Ok tt) → signalled st' = true.
Proof.
  intros H Hs. destruct e as [|err|c|n| | |i|err u| | |n| | |]; cbn [live_step] in Hs.
  - by injection Hs as <-.
  - destruct (conn st); try done. injection Hs as <-. cbn. by destruct err.
  - destruct (conn st) eqn:E; try done. injection Hs as <-. destruct c; cbn; by rewrite ?E.
  - apply processor_step_same in Hs as (_ & -> & _ & ->). done.
  - apply processor_step_same in Hs as (_ & -> & _ & ->). done.
  - apply processor_step_same in Hs as (_ & -> & _ & ->). done.
  - apply remediated_same in Hs as (_ & _ & -> & _ & ->). done.
  - destruct (conn st); try done. injection Hs as <-. unfold after_run. destruct (signalled st) eqn:E; [by cbn; rewrite E|].
    destruct (stableThreshold flags <=? u); cbn; by destruct (_ && _).
  - destruct (conn st); try done. by injection Hs as <-.
  - destruct (conn st); try done. destruct (signalled st) eqn:E; [|done]. injection Hs as <-. by cbn; rewrite E.
  - destruct (main st), (conn st) eqn:E; try done. destruct (processor_step _ st) as [s1|] eqn:Ep; [|done]. injection Hs as <-.
    apply processor_step_same in Ep as (_ & E2 & _ & E4). cbn. rewrite E2, E4, E. done.
  - unfold main_exit in Hs. destruct (main st), (conn st) eqn:E; try done. case_match; [|done]. by injection Hs as <-.
  - destruct (readyz st); try done. by injection Hs as <-.
  - destruct (readyz st); try done. destruct (signalled st) eqn:E; [|done]. injection Hs as <-. by cbn; rewrite E.
Qed.

(** Once the loop has returned, main is the only one to move, to the flush and to the exit. *)
Lemma step_main flags st e st' : live_step flags st e = Some st' →
  (∀ r, conn st = Returned r → conn st' = Returned r ∧ ∀ p, offered p e = None) ∧
  (main st' = main st ∨ (∃ n r, e = MainFlush n ∧ main st = Looping ∧ main st' = Flushing n ∧ conn st = Returned r) ∨
   ∃ n r, main st = Flushing n ∧ conn st = Returned r ∧ main st' = Exited (exit_code r) ∧ shutdown_done n (plugin st') = true).
Proof.
  intros Hs. destruct e as [|err|c|n| | |i|err u| | |n| | |]; cbn [live_step] in Hs.
  - injection Hs as <-. split; [by intros r|by left].
  - destruct (conn st); try done. injection Hs as <-. split; [done|by left].
  - destruct (conn st); try done. injection Hs as <-. split; [done|left]. by destruct c.
  - apply processor_step_same in Hs as (_ & E2 & E3 & _). rewrite E2, E3. split; [done|by left].
  - apply processor_step_same in Hs as (_ & E2 & E3 & _). rewrite E2, E3. split; [done|by left].
  - apply processor_step_same in Hs as (_ & E2 & E3 & _). rewrite E2, E3. split; [done|by left].
  - apply remediated_same in Hs as (_ & _ & E2 & E3 & _). rewrite E2, E3. split; [done|by left].
  - destruct (conn st); try done. injection Hs as <-. split; [done|left]. unfold after_run. destruct (signalled st); [done|].
    by destruct (stableThreshold flags <=? u).
  - destruct (conn st); try done. injection Hs as <-. split; [done|by left].
  - destruct (conn st); try done. destruct (signalled st); [|done]. injection Hs as <-. split; [done|by left].
  - destruct (main st) eqn:Em, (conn st) as [| | |r] eqn:E; try done. destruct (processor_step _ st) as [s1|] eqn:Ep; [|done].
    injection Hs as <-. apply processor_step_same in Ep as (_ & E2 & E3 & _). cbn. rewrite E2, E. split; [done|right; left]. by exists n, r.
  - unfold main_exit in Hs. destruct (main st) as [|n|] eqn:Em, (conn st) as [| | |r] eqn:E; try done.
    destruct (shutdown_done _ _) eqn:Ed; [|done]. injection Hs as <-. cbn. split; [done|right; right]. by exists n, r.
  - destruct (readyz st); try done. injection Hs as <-. split; [done|by left].
  - destruct (readyz st); try done. destruct (signalled st); [|done]. injection Hs as <-. split; [done|by left].
Qed.

Lemma send_count_snoc es e : send_count (es ++ [e]) = (send_count es + if sends e then 1 else 0)%nat.
Proof. unfold send_count. rewrite List.filter_app, length_app. cbn. by destruct (sends e). Qed.

Lemma step_inv flags p0 w0 es st tr e st' : run_inv p0 w0 es st tr → step flags st e = Some st' → ∃ tr', run_inv p0 w0 (es ++ [e]) st' tr'.
Proof.
  intros [H1 H2 H3 H4 H5 H6 H7] Hs. unfold step in Hs. assert (Hlive : live_step flags st e = Some st') by by destruct (main st).
  assert (Hex : ∀ c, main st ≠ Exited c) by (intros c Hc; by rewrite Hc in Hs). clear Hs.
  destruct (step_labelled flags st e st' Hlive) as (Hset & ls & (Hls & Hacc & Hq) & Hmf).
  destruct (step_main flags st e st' Hlive) as [Hret Hmain]. rewrite (offered_settings _ p0 e H1) in Hacc.
  exists (tr ++ ls). assert (Happ : accepted (tr ++ ls) = accepted tr ++ accepted ls) by apply omap_app.
  split; [congruence|by eapply steps_append| | | | |by eapply step_signalled].
  - rewrite Happ, Hacc, omap_app. apply sublist_app; [done|]. cbn. destruct (offered p0 e); cbn; destruct (has_room _); repeat constructor.
  - rewrite Happ, Hacc, omap_app, send_count_snoc. cbn. intros Hle. rewrite H4 by lia. f_equal. unfold has_room.
    destruct (sends e) eqn:Es.
    + destruct (Z.ltb_spec (Z.of_nat (List.length (queue (events (plugin st))))) defaultQueueDepth); [by destruct (offered p0 e)|lia].
    + assert (offered p0 e = None) as ->; [|by destruct (_ <? _)]. by destruct e as [| |[]| | | | | | | | | | |].
  - rewrite send_count_snoc. lia.
  - destruct H6 as [Hl|(n & tr1 & tr2 & r & Hat & Hr & -> & Ha2)].
    + destruct Hmain as [Hm|[(n & r & -> & _ & Hm & Hr)|(n & r & Hm & _)]]; [left; congruence| |congruence].
      right. exists n, tr, [], r. rewrite (Hmf n eq_refl). split_and!; [by left|by apply Hret|done|done].
    + right. destruct (Hret r Hr) as [Hr' Hoff]. exists n, tr1, (tr2 ++ ls), r. split_and!; [|done| |].
      * destruct Hat as [Hf|(r' & Hx & _)]; [|by destruct (Hex (exit_code r'))].
        destruct Hmain as [Hm|[(m & _ & _ & Hm & _)|(m & r' & Hm & Hr2 & Hx & Hd)]]; [left; congruence|congruence|].
        right. exists r'. rewrite Hf in Hm. injection Hm as ->. split_and!; [done|congruence|done].
      * by rewrite <- app_assoc.
      * unfold accepted. rewrite omap_app. fold (accepted tr2). fold (accepted ls). rewrite Ha2, Hacc, Hoff. by destruct (has_room _).
Qed.

Lemma process_run_snoc flags (st : fractiond) es e : run flags st (es ++ [e]) = run flags st es ≫= λ st, step flags st e.
Proof. unfold run. by rewrite fold_left_app. Qed.

Lemma run_has_inv flags p0 w0 r0 es : ∀ st, events p0 = NewProcessor w0 → run flags (start flags p0 r0) es = Some st →
  ∃ tr, run_inv p0 w0 es st tr.
Proof.
  induction es as [|e es IH] using rev_ind; intros st He Hrun.
  - injection Hrun as <-. exists []. split; [done|rewrite <- He; apply steps_nil|done|done|cbn; rewrite He; cbn; lia|by left|done].
  - rewrite process_run_snoc in Hrun. destruct (run flags _ es) as [st1|] eqn:E; [|done]. destruct (IH st1 He eq_refl) as [tr Hi].
    by eapply step_inv.
Qed.

Lemma run_ready flags p0 r0 es : ∀ st, ready p0 = false → run flags (start flags p0 r0) es = Some st → ready_inv st.
Proof.
  induction es as [|e es IH] using rev_ind; intros st Hr Hrun; [by injection Hrun as <-|].
  rewrite process_run_snoc in Hrun. destruct (run flags _ es) as [st1|] eqn:E; [|done]. cbn in Hrun. unfold step in Hrun.
  eapply step_ready; [by apply IH|]. by destruct (main st1).
Qed.

(** *** The way out *)

(** Steps of the process itself. *)
Definition own (e : event) : bool := match e with Signal | Delivered _ | ListenFails => false | _ => true end.

Lemma process_run_app flags (st : fractiond) es1 es2 : run flags st (es1 ++ es2) = run flags st es1 ≫= λ st, run flags st es2.
Proof.
  unfold run. rewrite fold_left_app. destruct (fold_left _ es1 _) as [st1|]; [done|]. cbn.
  induction es2 as [|e es2 IH]; [done|exact IH].
Qed.

Definition with_events (e : Processor St) (st : fractiond) : fractiond := with_plugin (set_events e (plugin st)) st.

(** The worker's steps are steps of the process. *)
Lemma run_worker flags (st : fractiond) ls q : (∀ c, main st ≠ Exited c) →
  steps (events (plugin st)) ls q → Forall (λ l, worker_label l = true) ls →
  ∃ es, Forall (λ e, own e = true) es ∧ List.length es = List.length ls ∧ run flags st es = Some (with_events q st).
Proof.
  intros Hm H. induction H as [|ls q l q' _ IH Hstep]; intros Hw.
  - exists []. split_and!; [done|done|]. unfold run. cbn. by destruct st as [[]].
  - apply Forall_app in Hw as [Hw Hl]. destruct (IH Hw) as (es & Ho & Hlen & Hrun). inversion Hl as [|? ? Hlab _]; subst. clear Hl. rename Hlab into Hl.
    assert (Hstep' : ∃ e, own e = true ∧ step flags (with_events q st) e = Some (with_events q' st)).
    { unfold step. cbn [main with_events with_plugin]. destruct (main st) as [| |c]; [| |by destruct (Hm c)].
      all: destruct l; cbn in Hl; try discriminate Hl; [exists Recv|exists Handle]; (split; [done|]); cbn [live_step]; unfold processor_step; cbn;
        inversion Hstep as [| | |? ? Hr|? ? Hr]; subst; by rewrite Hr. }
    destruct Hstep' as (e & He & Hs). exists (es ++ [e]). split_and!.
    + apply Forall_app. by split; [|apply Forall_singleton].
    + rewrite !length_app. cbn. lia.
    + rewrite process_run_app, Hrun. unfold run. cbn. by rewrite Hs.
Qed.

(** The remediation goroutines finish. *)
Lemma run_remediations flags k : ∀ st : fractiond, (∀ c, main st ≠ Exited c) →
  match sentinel (plugin st) with Some s => List.length (sInflight s) = k | None => True end →
  ∃ es st', Forall (λ e, own e = true) es ∧ (List.length es ≤ k)%nat ∧ run flags st es = Some st' ∧ conn st' = conn st ∧ main st' = main st ∧
    events (plugin st') = events (plugin st) ∧ match sentinel (plugin st') with Some s => wait_done s = true | None => True end.
Proof.
  induction k as [|k IH]; intros st Hm Hk.
  - exists [], st. split_and!; try done. destruct (sentinel (plugin st)) as [s|]; [|done].
    unfold wait_done. apply nil_length_inv in Hk. by rewrite Hk.
  - destruct (sentinel (plugin st)) as [s|] eqn:Es.
    2:{ exists [], st. split_and!; try done; [cbn; lia|]. by rewrite Es. }
    destruct (sInflight s) as [|vs inflight] eqn:Ei; [done|]. cbn in Hk. injection Hk as Hk.
    set (st1 := mkFractiond (set_sentinel (Some (mkSentinel (sDetector s) inflight)) (plugin st)) (remediate vs (stopper st))
                  (conn st) (attempt st) (backoff st) (signalled st) (readyz st) (main st)).
    assert (Hstep : step flags st (Remediated 0) = Some st1).
    { assert (live_step flags st (Remediated 0) = Some st1) as Hl.
      { cbn [live_step]. unfold remediated. rewrite Es, Ei. cbn. unfold finish_remediation. by rewrite Ei. }
      unfold step. destruct (main st) as [| |c] eqn:Em; [done|done|by destruct (Hm c)]. }
    destruct (IH st1 Hm Hk) as (es & st' & Ho & Hl & Hr & H1 & H2 & H3 & H4). exists (Remediated 0 :: es), st'.
    split_and!; [by constructor|cbn; lia| |done|done|done|done]. change (Remediated 0 :: es) with ([Remediated 0] ++ es).
    rewrite process_run_app. unfold run at 2. cbn [fold_left mbind option_bind]. by rewrite Hstep.
Qed.

(** Once the context is done the loop returns, in two steps at most. *)
Lemma run_loop_returns flags (st : fractiond) : signalled st = true → main st = Looping →
  ∃ es st' r, Forall (λ e, own e = true) es ∧ (List.length es ≤ 2)%nat ∧ run flags st es = Some st' ∧ conn st' = Returned r ∧ main st' = Looping ∧
    signalled st' = true ∧ events (plugin st') = events (plugin st) ∧ sentinel (plugin st') = sentinel (plugin st) ∧
    (r = Ok tt ∨ conn st = Returned r).
Proof.
  intros Hs Hm. destruct (conn st) as [|b| |r] eqn:Ec.
  - exists [StubNew None; RunReturns None 0]. eexists _, (Ok tt). split; [by repeat constructor|]. split; [cbn; lia|]. split.
    { unfold run. cbn [fold_left mbind option_bind]. unfold step at 2. rewrite Hm. cbn [live_step]. rewrite Ec. cbn [mbind option_bind].
      unfold step. cbn [main]. rewrite Hm. cbn [live_step conn]. unfold after_run. cbn [signalled]. rewrite Hs. reflexivity. }
    split_and!; [done..|by left].
  - exists [RunReturns None 0]. eexists _, (Ok tt). split; [by repeat constructor|]. split; [cbn; lia|]. split.
    { unfold run. cbn [fold_left mbind option_bind]. unfold step. rewrite Hm. cbn [live_step]. rewrite Ec. unfold after_run. rewrite Hs. reflexivity. }
    split_and!; [done..|by left].
  - exists [WaitCancelled]. eexists _, (Ok tt). split; [by repeat constructor|]. split; [cbn; lia|]. split.
    { unfold run. cbn [fold_left mbind option_bind]. unfold step. rewrite Hm. cbn [live_step]. rewrite Ec, Hs. reflexivity. }
    split_and!; [done..|by left].
  - exists [], st, r. split_and!; try done; [cbn; lia|by right].
Qed.

(** The worker alone empties the queue and releases the barriers in it. *)
Lemma run_drain flags (st : fractiond) : (∀ c, main st ≠ Exited c) →
  ∃ es q, Forall (λ e, own e = true) es ∧ (List.length es ≤ 2 * List.length (pending (events (plugin st))))%nat ∧
    run flags st es = Some (with_events q st) ∧ pending q = [] ∧
    (∀ n, n ∈ closed (events (plugin st)) ∨ IBarrier n ∈ pending (events (plugin st)) → n ∈ closed q).
Proof.
  intros Hm. set (p := events (plugin st)).
  assert (Hd : ∃ tr q, steps p tr q ∧ Forall (λ l, worker_label l = true) tr ∧ (List.length tr ≤ 2 * List.length (pending p))%nat ∧
    pending q = [] ∧ ∀ n, n ∈ closed p ∨ IBarrier n ∈ pending p → n ∈ closed q).
  { unfold pending. destruct (inflight p) as [it|] eqn:Ei; cbn [option_list app].
    - destruct (handle_inflight p it Ei) as (p2 & H2 & Hi2 & Hq2 & _ & Hc2 & Hb2).
      destruct (drain_queue (queue p) p2 Hi2 Hq2) as (tr & p3 & H3 & Htr & Hlen & Hp3 & _ & Hc3 & Hb3).
      exists ([LHandle] ++ tr), p3. split_and!; [by eapply steps_append|by constructor|cbn; lia|done|].
      intros n [Hn|[Hn|Hn]%elem_of_cons]; [by apply Hc3, Hc2|by apply Hc3, Hb2|by apply Hb3].
    - destruct (drain_queue (queue p) p Ei eq_refl) as (tr & p3 & H3 & Htr & Hlen & Hp3 & _ & Hc3 & Hb3).
      exists tr, p3. split_and!; [done|done|cbn; lia|done|]. intros n [Hn|Hn]; [by apply Hc3|by apply Hb3]. }
  destruct Hd as (tr & q & Hst & Hw & Hl & Hp & Hc). destruct (run_worker flags st tr q Hm Hst Hw) as (es & Ho & Hlen & Hrun).
  exists es, q. split_and!; [done|lia|done|done|done].
Qed.

Definition in_flight (st : fractiond) : nat := match sentinel (plugin st) with Some s => List.length (sInflight s) | None => 0 end.

(** From the flush on, the worker and the remediations lead to the exit. *)
Lemma run_from_flush flags (st : fractiond) n r : main st = Flushing n → conn st = Returned r →
  n ∈ closed (events (plugin st)) ∨ IBarrier n ∈ pending (events (plugin st)) →
  ∃ es st', Forall (λ e, own e = true) es ∧ (List.length es ≤ 2 * List.length (pending (events (plugin st))) + in_flight st + 1)%nat ∧
    run flags st es = Some st' ∧ main st' = Exited (exit_code r).
Proof.
  intros Hm Hr Hn. destruct (run_drain flags st) as (es1 & q & Ho1 & Hl1 & Hr1 & Hp & Hc); [by rewrite Hm|].
  destruct (run_remediations flags (in_flight st) (with_events q st)) as (es2 & st2 & Ho2 & Hl2 & Hr2 & Hconn & Hmain & Hev & Hwait).
  { cbn. by rewrite Hm. }
  { unfold in_flight. cbn. by destruct (sentinel (plugin st)). }
  assert (Hdone : shutdown_done n (plugin st2) = true).
  { unfold shutdown_done. rewrite Hev. cbn. rewrite bool_decide_eq_true_2 by by apply Hc. by destruct (sentinel (plugin st2)). }
  cbn in Hconn, Hmain. rewrite Hr in Hconn. rewrite Hm in Hmain.
  exists (es1 ++ es2 ++ [MainExit]). eexists. split_and!.
  - rewrite !Forall_app. split_and!; [done|done|by repeat constructor].
  - rewrite !length_app. cbn. lia.
  - rewrite process_run_app, Hr1. cbn. rewrite process_run_app, Hr2. cbn. unfold run. cbn. unfold step. rewrite Hmain. cbn [live_step].
    unfold main_exit. rewrite Hmain, Hconn, Hdone. reflexivity.
  - done.
Qed.

(** After the signal, from every reachable state. *)
Lemma run_exits flags p0 w0 es0 (st : fractiond) tr : run_inv p0 w0 es0 st tr → signalled st = true → (∀ c, main st ≠ Exited c) →
  ∃ es st' r, Forall (λ e, own e = true) es ∧
    (List.length es ≤ 2 * List.length (pending (events (plugin st))) + in_flight st + 6)%nat ∧
    run flags st es = Some st' ∧ main st' = Exited (exit_code r) ∧ (r = Ok tt ∨ conn st = Returned r).
Proof.
  intros [_ Hsteps _ _ _ Hmain _] Hs Hm. destruct Hmain as [Hl|(n & tr1 & tr2 & r & Hat & Hr & -> & _)].
  - destruct (run_loop_returns flags st Hs Hl) as (es1 & st1 & r & Ho1 & Hl1 & Hr1 & Hc1 & Hm1 & _ & He1 & Hsn1 & Hres).
    destruct (run_drain flags st1) as (es2 & q & Ho2 & Hl2 & Hr2 & Hp2 & _); [by rewrite Hm1|]. rewrite He1 in Hl2.
    set (n := fresh (flushes q)). unfold pending in Hp2. destruct (inflight q) eqn:Ei; [done|]. cbn in Hp2.
    assert (Hsend : flush_send n q = Some (mkProcessor (writer q) [IBarrier n] None ({[n]} ∪ flushes q) (closed q))).
    { unfold flush_send, has_room. rewrite Hp2. cbn. rewrite bool_decide_eq_true_2 by apply is_fresh. by rewrite Ei. }
    set (q' := mkProcessor _ [IBarrier n] _ _ _) in *. set (st2 := with_main (Flushing n) (with_events q' st1)).
    assert (Hstep : step flags (with_events q st1) (MainFlush n) = Some st2).
    { unfold step. cbn [main with_events with_plugin]. rewrite Hm1. cbn [live_step main conn with_events with_plugin]. rewrite Hm1, Hc1.
      unfold processor_step. cbn [events set_events plugin with_events with_plugin]. by rewrite Hsend. }
    destruct (run_from_flush flags st2 n r) as (es3 & st3 & Ho3 & Hl3 & Hr3 & Hm3); [done|done|right; left|].
    exists (es1 ++ es2 ++ [MainFlush n] ++ es3), st3, r. split_and!; [| | |done|done].
    + rewrite !Forall_app. split_and!; [done|done|by repeat constructor|done].
    + rewrite !length_app. cbn [length]. unfold in_flight in *. cbn [sentinel plugin st2 with_main with_events with_plugin set_events] in Hl3.
      rewrite Hsn1 in Hl3. unfold pending in Hl3. cbn in Hl3. lia.
    + rewrite process_run_app, Hr1. cbn [mbind option_bind]. rewrite process_run_app, Hr2. cbn [mbind option_bind]. rewrite process_run_app.
      unfold run at 2. cbn [fold_left mbind option_bind]. rewrite Hstep. cbn [mbind option_bind]. exact Hr3.
  - destruct Hat as [Hf|(r' & Hx & _)]; [|by destruct (Hm (exit_code r'))].
    destruct (processor_invariant _ _ _ Hsteps) as (applied & _ & _ & _ & _ & _ & _ & Hsplit).
    destruct (run_from_flush flags st n r Hf Hr) as (es & st' & Ho & Hlen & Hrun & Hx).
    { destruct (Hsplit tr1 n tr2 eq_refl) as [(Hc & _)|(_ & before & after & Hp & _)]; [by left|right]. rewrite Hp. apply elem_of_app. right. left. }
    exists es, st', r. split_and!; [done|lia|done|done|by right].
Qed.

(** *** Every schedule after the signal *)

(** What the runtime makes the process do, and what the process does by itself. *)
Definition prompted (e : event) : bool := match e with Delivered _ | ShutdownFlush _ => true | _ => false end.
Definition driven (e : event) : bool := own e && negb (prompted e).
Definition count (P : event → bool) (es : list event) : nat := List.length (List.filter P es).

Definition link_rank (l : link) : nat := match l with Waiting => 3 | Idle => 2 | Up _ => 1 | Returned _ => 0 end.
Definition queue_rank (p : Processor St) : nat := 2 * List.length (queue p) + List.length (option_list (inflight p)).
Definition main_rank (m : main_pc) : nat := match m with Looping => 4 | Flushing _ => 1 | Exited _ => 0 end.
Definition server_rank (s : server) : nat := match s with Listening => 1 | _ => 0 end.

(** Steps left to the exit, at most. *)
Definition exit_rank (st : fractiond) : nat :=
  link_rank (conn st) + queue_rank (events (plugin st)) + in_flight st + main_rank (main st) + server_rank (readyz st).

Lemma enqueue_rank it (p : Processor St) : (queue_rank (enqueue it p).1 ≤ queue_rank p + 2)%nat.
Proof. unfold enqueue, queue_rank. destruct (has_room p); cbn; [rewrite length_app; cbn|]; lia. Qed.
Lemma flush_rank n (p p' : Processor St) : flush_send n p = Some p' → queue_rank p' = (queue_rank p + 2)%nat.
Proof. unfold flush_send, queue_rank. destruct (_ && _); [|done]. intros [= <-]. cbn. rewrite length_app. cbn. lia. Qed.
Lemma recv_rank (p p' : Processor St) : run_recv p = Some p' → queue_rank p = S (queue_rank p').
Proof. unfold run_recv, queue_rank. destruct (inflight p), (queue p); try done. intros [= <-]. cbn. lia. Qed.
Lemma handle_rank (p p' : Processor St) : run_handle p = Some p' → queue_rank p = S (queue_rank p').
Proof. unfold run_handle, queue_rank. destruct (inflight p) as [[]|]; try done; intros [= <-]; cbn; lia. Qed.

#[local] Arguments queue_rank : simpl never.

Lemma processor_step_rank f (st st' : fractiond) : processor_step f st = Some st' → ∃ q, f (events (plugin st)) = Some q ∧
  (exit_rank st' + queue_rank (events (plugin st)) = exit_rank st + queue_rank q)%nat.
Proof.
  unfold processor_step. destruct (f _) as [q|]; [|done]. intros [= <-]. exists q. split; [done|]. unfold exit_rank, in_flight. cbn.
  destruct (sentinel (plugin st)); lia.
Qed.

Lemma deliver_rank c (st : fractiond) b : conn st = Up b → (exit_rank (deliver c st) ≤ exit_rank st + 3)%nat.
Proof.
  intros Hc. unfold exit_rank, in_flight. rewrite Hc. destruct c as [pods ctrs|pod ctr|ctr|]; cbn.
  - unfold Plugin.Synchronize, Events.Synchronize. set (ev := IEvent _). pose proof (enqueue_rank ev (events (plugin st))) as H.
    destruct (enqueue ev _) as [q acc]. cbn in H |- *. destruct (sentinel (plugin st)) as [s|] eqn:Es; cbn; rewrite ?Es; [|lia].
    unfold Audit. destruct (violators _ _ _); cbn; rewrite ?length_app; cbn; lia.
  - unfold CreateContainer. destruct (buildAdjustment _ _ _); cbn; [|rewrite Hc; cbn; lia]. unfold Events.Upsert. set (ev := IEvent _).
    pose proof (enqueue_rank ev (events (plugin st))) as H. destruct (enqueue ev _) as [q acc]. cbn in H |- *. rewrite Hc. cbn. destruct (sentinel (plugin st)); lia.
  - unfold RemoveContainer, Events.Delete. set (ev := IEvent _). pose proof (enqueue_rank ev (events (plugin st))) as H.
    destruct (enqueue ev _) as [q acc]. cbn in H |- *. rewrite Hc. cbn. destruct (sentinel (plugin st)); lia.
  - destruct (sentinel (plugin st)); lia.
Qed.

Lemma remediated_rank i (st st' : fractiond) : remediated i st = Some st' → exit_rank st = S (exit_rank st').
Proof.
  unfold remediated, exit_rank, in_flight. destruct (sentinel (plugin st)) as [s|]; [|done]. destruct (decide _) as [Hi|]; [|done].
  unfold finish_remediation. destruct (lookup_lt_is_Some_2 _ _ Hi) as [vs Hvs]. rewrite Hvs. intros [= <-]. cbn.
  rewrite length_delete by by eexists. lia.
Qed.

Lemma step_rank flags st e st' : signalled st = true → step flags st e = Some st' → signalled st' = true ∧
  (exit_rank st' + (if driven e then 1 else 0) ≤ exit_rank st + (if prompted e then 3 else 0))%nat.
Proof.
  intros Hsig Hs. assert (Hl : live_step flags st e = Some st') by (unfold step in Hs; by destruct (main st)). clear Hs.
  assert (Hproc : ∀ f, processor_step f st = Some st' → signalled st' = true).
  { intros f Hf. apply processor_step_same in Hf as (_ & _ & _ & ->). done. }
  destruct e as [|err|c|n| | |i|err u| | |n| | |]; cbn [live_step driven prompted own andb negb] in Hl |- *.
  - injection Hl as <-. split; [done|]. unfold exit_rank, in_flight. cbn. lia.
  - destruct (conn st) eqn:E; try done. injection Hl as <-. split; [done|]. unfold exit_rank, in_flight. rewrite E. destruct err; cbn; lia.
  - destruct (conn st) eqn:E; try done. injection Hl as <-. split; [by destruct c|]. rewrite Nat.add_0_r. by eapply deliver_rank.
  - split; [by eapply Hproc|]. apply processor_step_rank in Hl as (q & Hq%flush_rank & H). lia.
  - split; [by eapply Hproc|]. apply processor_step_rank in Hl as (q & Hq%recv_rank & H). lia.
  - split; [by eapply Hproc|]. apply processor_step_rank in Hl as (q & Hq%handle_rank & H). lia.
  - split; [apply remediated_same in Hl as (_ & _ & _ & _ & ->); done|]. apply remediated_rank in Hl. lia.
  - destruct (conn st) eqn:E; try done. injection Hl as <-. unfold after_run. rewrite Hsig. split; [done|]. unfold exit_rank, in_flight. rewrite E. cbn. lia.
  - destruct (conn st) eqn:E; try done. injection Hl as <-. split; [done|]. unfold exit_rank, in_flight. rewrite E. cbn. lia.
  - destruct (conn st) eqn:E; try done. rewrite Hsig in Hl. injection Hl as <-. split; [done|]. unfold exit_rank, in_flight. rewrite E. cbn. lia.
  - destruct (main st) eqn:Em, (conn st) eqn:E; try done. destruct (processor_step _ st) as [s1|] eqn:Ep; [|done]. injection Hl as <-.
    pose proof (processor_step_same _ _ _ Ep) as (_ & _ & Hm & Hsg). apply processor_step_rank in Ep as (q & Hq%flush_rank & H). cbn. rewrite Hsg. split; [done|].
    unfold exit_rank, in_flight in *. rewrite Hm, Em in H. cbn in *. rewrite Em. cbn. lia.
  - unfold main_exit in Hl. destruct (main st) eqn:Em, (conn st) eqn:E; try done. case_match; [|done]. injection Hl as <-. split; [done|].
    unfold exit_rank, in_flight. rewrite Em, E. cbn. lia.
  - destruct (readyz st) eqn:E; try done. injection Hl as <-. split; [done|]. unfold exit_rank, in_flight. rewrite E. cbn. lia.
  - destruct (readyz st) eqn:E; try done. rewrite Hsig in Hl. injection Hl as <-. split; [done|]. unfold exit_rank, in_flight. rewrite E. cbn. lia.
Qed.

Lemma count_cons P e es : count P (e :: es) = ((if P e then 1 else 0) + count P es)%nat.
Proof. unfold count. cbn. by destruct (P e). Qed.

Lemma run_cons flags (st : fractiond) e es : run flags st (e :: es) = step flags st e ≫= λ st, run flags st es.
Proof. exact (process_run_app flags st [e] es). Qed.

(** No schedule is longer than the rank and what the runtime adds to it. *)
Lemma run_rank flags es : ∀ st st' : fractiond, signalled st = true → run flags st es = Some st' →
  signalled st' = true ∧ (exit_rank st' + count driven es ≤ exit_rank st + 3 * count prompted es)%nat.
Proof.
  induction es as [|e es IH]; intros st st' Hs Hr; [injection Hr as <-; split; [done|cbn; lia]|].
  rewrite run_cons in Hr. destruct (step flags st e) as [st1|] eqn:E; [|done]. destruct (step_rank flags st e st1 Hs E) as [Hs1 Hle].
  destruct (IH st1 st' Hs1 Hr) as [H1 H2]. split; [done|]. rewrite !count_cons. destruct (driven e), (prompted e); lia.
Qed.

(** As long as main has not exited, the process can move by itself. *)
Lemma run_progress flags p0 w0 es0 (st : fractiond) tr : run_inv p0 w0 es0 st tr → signalled st = true → (∀ c, main st ≠ Exited c) →
  ∃ e, driven e = true ∧ is_Some (step flags st e).
Proof.
  intros [_ Hsteps _ _ _ Hmain _] Hs Hm. assert (Hlive : ∀ e, step flags st e = live_step flags st e).
  { intros e. unfold step. destruct (main st) as [| |c]; [done|done|by destruct (Hm c)]. }
  setoid_rewrite Hlive. destruct (inflight (events (plugin st))) as [it|] eqn:Ei.
  { exists Handle. split; [done|]. cbn [live_step]. unfold processor_step, run_handle. rewrite Ei. destruct it; by eexists. }
  destruct (queue (events (plugin st))) as [|it q] eqn:Eq.
  2:{ exists Recv. split; [done|]. cbn [live_step]. unfold processor_step, run_recv. rewrite Ei, Eq. by eexists. }
  destruct (in_flight st) as [|k] eqn:Ek.
  2:{ exists (Remediated 0). split; [done|]. cbn [live_step]. unfold remediated, in_flight in *. destruct (sentinel (plugin st)) as [s|]; [|done].
      rewrite Ek, decide_True by lia. destruct (finish_remediation _ _ _). by eexists. }
  assert (Hwait : match sentinel (plugin st) with Some s => wait_done s | None => true end = true).
  { unfold in_flight in Ek. destruct (sentinel (plugin st)) as [s|]; [|done]. apply nil_length_inv in Ek. unfold wait_done. by rewrite Ek. }
  destruct (conn st) as [|b| |r] eqn:Ec.
  - exists (StubNew None). split; [done|]. cbn [live_step]. rewrite Ec. by eexists.
  - exists (RunReturns None 0). split; [done|]. cbn [live_step]. rewrite Ec. by eexists.
  - exists WaitCancelled. split; [done|]. cbn [live_step]. rewrite Ec, Hs. by eexists.
  - destruct Hmain as [Hl|(n & tr1 & tr2 & r' & Hat & _ & -> & _)].
    + exists (MainFlush (fresh (flushes (events (plugin st))))). split; [done|]. cbn [live_step]. rewrite Hl, Ec. unfold processor_step, flush_send, has_room.
      rewrite Eq. cbn. rewrite bool_decide_eq_true_2 by apply is_fresh. by eexists.
    + destruct Hat as [Hf|(r'' & Hx & _)]; [|by destruct (Hm (exit_code r''))]. exists MainExit. split; [done|]. cbn [live_step]. unfold main_exit. rewrite Hf, Ec.
      destruct (processor_invariant _ _ _ Hsteps) as (applied & _ & _ & _ & _ & _ & _ & Hsplit).
      destruct (Hsplit tr1 n tr2 eq_refl) as [(Hc & _)|(_ & before & after & Hp & _)].
      * unfold shutdown_done. rewrite bool_decide_eq_true_2 by done. rewrite Hwait. by eexists.
      * exfalso. unfold pending in Hp. rewrite Ei, Eq in Hp. by destruct before.
Qed.

(** An execution without end: a step each time, or nothing once main has exited. *)
Definition exited (st : fractiond) : Prop := ∃ c, main st = Exited c.
Definition execution (flags : cliFlags) (s : nat → fractiond) (σ : nat → event) : Prop :=
  ∀ n, step flags (s n) (σ n) = Some (s (S n)) ∨ exited (s n) ∧ s (S n) = s n.

Lemma execution_runs flags s σ n : execution flags s σ → (∃ m, exited (s m)) ∨ run flags (s O) (map σ (seq 0 n)) = Some (s n).
Proof.
  intros He. induction n as [|n [?|IH]]; [by right|by left|]. destruct (He n) as [Hs|[? _]]; [|left; by exists n].
  right. rewrite seq_S, map_app. cbn [map Nat.add]. by rewrite process_run_snoc, IH.
Qed.

Lemma count_app P es es' : count P (es ++ es') = (count P es + count P es')%nat.
Proof. unfold count. by rewrite List.filter_app, length_app. Qed.

Lemma count_infinitely (P : event → bool) σ k : (∀ n, ∃ m, (n ≤ m)%nat ∧ P (σ m) = true) → ∃ n, ∀ n', (n ≤ n')%nat → (k ≤ count P (map σ (seq 0 n')))%nat.
Proof.
  intros H. induction k as [|k [n IH]]; [exists O; intros; lia|]. destruct (H n) as (m & Hm & HP). exists (S m). intros n' Hn'.
  replace n' with (m + S (n' - S m))%nat by lia. rewrite seq_app, map_app, count_app. specialize (IH m Hm).
  cbn [seq map]. rewrite count_cons. cbn [Nat.add]. rewrite HP. lia.
Qed.

Lemma count_finitely (P : event → bool) σ n0 n : (∀ m, (n0 ≤ m)%nat → P (σ m) = false) → (count P (map σ (seq 0 n)) ≤ n0)%nat.
Proof.
  intros H. induction n as [|n IH]; [cbn; lia|]. rewrite seq_S, map_app, count_app. cbn [map Nat.add]. rewrite count_cons.
  destruct (Nat.le_gt_cases n0 n) as [Hle|Hgt]; [rewrite H by done; cbn; lia|].
  assert (count P (map σ (seq 0 n)) ≤ n)%nat.
  { unfold count. etransitivity; [apply List.filter_length_le|]. by rewrite length_map, length_seq. }
  destruct (P (σ n)); cbn; lia.
Qed.

(** Once signalled, an execution in which the process is not starved and the runtime's calls
    are finitely many exits. *)
Lemma execution_exits flags s σ : execution flags s σ → signalled (s O) = true →
  (∃ n0, ∀ n, (n0 ≤ n)%nat → prompted (σ n) = false) → (∀ n, ∃ m, (n ≤ m)%nat ∧ driven (σ m) = true) → ∃ n, exited (s n).
Proof.
  intros He Hs [n0 Hfin] Hfair. destruct (count_infinitely driven σ (S (exit_rank (s O) + 3 * n0)) Hfair) as [n Hn].
  specialize (Hn n ltac:(lia)). destruct (execution_runs flags s σ n He) as [|Hr]; [done|exfalso].
  destruct (run_rank flags _ _ _ Hs Hr) as [_ Hle]. pose proof (count_finitely prompted σ n0 n Hfin). lia.
Qed.
End fractiond.

(** ** Properties *)

Lemma NewPlugin_fresh {St} `{StoreWriter St} cfg b (w : St) p : NewPlugin cfg b w = Ok p → events p = NewProcessor w ∧ ready p = false.
Proof. unfold NewPlugin. destruct (cRetroactiveEnforcement cfg); [destruct b|]; cbn; by intros [= <-]. Qed.

Lemma Forall_omap_sublist {A B} (P : B → Prop) (f : A → option B) l l' : l `sublist_of` l' → Forall P (omap f l') → Forall P (omap f l).
Proof.
  intros H. induction H as [|x l l' _ IH|x l l' _ IH]; cbn; [done| |]; destruct (f x); cbn; [|done| |done].
  - intros Hf. inversion Hf; subst. constructor; auto.
  - intros Hf. inversion Hf; subst. auto.
Qed.

(** C25: the readiness probe tells whether the plugin is registered.  In every state that the
    connection loop, the runtime's callbacks, the worker, the remediations and the signal can
    lead to, a probe of /readyz that is answered says OK exactly when the connection is up and
    the runtime has synchronized on it and not shut it down since; in particular not before the
    first synchronization, not after a lost connection and not during a wait.  A node is never
    reported ready by a server that does not listen. *)
Theorem readyz_tells_registration {St R} `{HW : StoreWriter St, HQ : QuantityLib, HS : ContainerStopper R} close_stopper flags b (w0 : St) p0 (r0 : R) es st
  (Hnew : NewPlugin (main_config flags) b w0 = Ok p0) (Hrun : run close_stopper flags (start flags p0 r0) es = Some st) :
  (probe st "/readyz" = Some (readiness.StatusOK "ok") ↔ readyz st = Listening ∧ conn st = Up true) ∧
  (readyz st = Listening → conn st ≠ Up true → ∃ body, probe st "/readyz" = Some (readiness.StatusServiceUnavailable body)) ∧
  (readyz st ≠ Listening → ∀ path, probe st path = None).
Proof.
  destruct (NewPlugin_fresh _ _ _ _ Hnew) as [_ Hr]. pose proof (run_ready close_stopper flags p0 r0 es st Hr Hrun) as Hi.
  unfold ready_inv in Hi. unfold probe, readiness.handler. rewrite String.eqb_refl. cbn [negb]. rewrite Hi.
  destruct (readyz st), (conn st) as [|[]| |]; cbn; split_and!; try done; try (by split; [|intros []]); by eauto.
Qed.

(** The example pod on an empty node: its container runs without the injected environment. *)
Definition example_start : result PluginError (Plugin world) := NewPlugin (main_config example_flags) true (mkWorld None [] []).

Lemma readyz_tells_registration_witness :
  let sync := Delivered (OnSynchronize [Some example_pod] [Some (example_container ["PATH=/bin"])]) in
  ∃ p0 st1 st2, example_start = Ok p0 ∧
    @run _ _ _ DecimalQuantities (RecordingStopper (λ _, false)) (λ r, r) example_flags (start example_flags p0 [])
      [StubNew None; sync] = Some st1 ∧ probe st1 "/readyz" = Some (readiness.StatusOK "ok") ∧
    @run _ _ _ DecimalQuantities (RecordingStopper (λ _, false)) (λ r, r) example_flags (start example_flags p0 [])
      [StubNew None; sync; RunReturns (Some "connection lost") 7] = Some st2 ∧
    ∃ body, probe st2 "/readyz" = Some (readiness.StatusServiceUnavailable body).
Proof.
  cbv zeta. destruct example_start as [p0|] eqn:E0; [|vm_compute in E0; discriminate E0]. exists p0.
  set (st0 := start example_flags p0 []). set (sync := Delivered _).
  destruct (@run _ _ _ DecimalQuantities (RecordingStopper (λ _, false)) (λ r, r) example_flags st0 [StubNew None; sync])
    as [st1|] eqn:E1; [|discriminate E1].
  destruct (@run _ _ _ DecimalQuantities (RecordingStopper (λ _, false)) (λ r, r) example_flags st0
    [StubNew None; sync; RunReturns (Some "connection lost") 7]) as [st2|] eqn:E2; [|discriminate E2].
  exists st1, st2. split_and!; try reflexivity.
  - apply (@readyz_tells_registration _ _ _ DecimalQuantities (RecordingStopper (λ _, false)) (λ r, r) _ _ _ _ [] _ _ E0 E1).
    injection E1 as <-. split; reflexivity.
  - apply (@readyz_tells_registration _ _ _ DecimalQuantities (RecordingStopper (λ _, false)) (λ r, r) _ _ _ _ [] _ _ E0 E2);
      injection E2 as <-; [reflexivity|discriminate].
Defined.

(** C3: fractiond exits after a signal, whatever the schedule, and leaves the mapping behind.  Over
    the filesystem store, without faults and for bare container IDs: when the process has
    exited, a scan of the mapping directory is the in-memory mapping of the callbacks in their
    order, less those the full queue dropped, and of all of them when no more than
    10240 sends were made; no remediation is left running; and the exit code is 0 only after a
    signal.  And it does exit.  Once signalled, from every reachable state: every execution in
    which the process keeps making steps of its own and the runtime makes only finitely many
    more calls reaches the exit; no schedule has more of those steps than the
    rank of the state and three for each call; and in whatever state a schedule
    leaves it, the process has exited or has such a step to make.  Some schedule exits in
    two steps for each queued event, one for each remediation and at most six more, with code
    0 unless the loop had failed before. *)
Theorem fractiond_leaves_mapping {R} `{HQ : QuantityLib, HS : ContainerStopper R} close_stopper flags b (w0 : world) s0 p0 (r0 : R) es st
  (Hnew : NewPlugin (main_config flags) b w0 = Ok p0) (Hsim : simulates w0 s0)
  (Hfit : Forall op_fit (omap event_op (omap (offered p0) es)))
  (Hrun : run close_stopper flags (start flags p0 r0) es = Some st) :
  (∀ code, main st = Exited code →
     (code = 0 → signalled st = true) ∧
     (∀ s, sentinel (plugin st) = Some s → sInflight s = []) ∧
     ∃ applied, applied `sublist_of` omap (offered p0) es ∧
       (Z.of_nat (send_count es) ≤ 10240 → applied = omap (offered p0) es) ∧
       scan_dir (cur (writer (events (plugin st)))) = persisted <$> run_ops (omap event_op applied) s0) ∧
  (signalled st = true →
     (∀ s σ, s O = st → execution close_stopper flags s σ → (∃ n0, ∀ n, (n0 ≤ n)%nat → prompted (σ n) = false) →
        (∀ n, ∃ m, (n ≤ m)%nat ∧ driven (σ m) = true) → ∃ n, exited (s n)) ∧
     (∀ es' st', run close_stopper flags st es' = Some st' →
        (count driven es' ≤ exit_rank st + 3 * count prompted es')%nat ∧
        (exited st' ∨ ∃ e, driven e = true ∧ is_Some (step close_stopper flags st' e)))) ∧
  (signalled st = true → (∀ code, main st ≠ Exited code) → ∃ es' st' code,
     Forall (λ e, own e = true) es' ∧
     (List.length es' ≤ 2 * List.length (pending (events (plugin st))) + in_flight st + 6)%nat ∧
     run close_stopper flags st es' = Some st' ∧ main st' = Exited code ∧ ((∀ e, conn st ≠ Returned (Err e)) → code = 0)).
Proof.
  destruct (NewPlugin_fresh _ _ _ _ Hnew) as [He _]. destruct (run_has_inv close_stopper flags p0 w0 r0 es st He Hrun) as [tr Hi]. split_and!.
  - intros code Hx. pose proof Hi as [_ Hsteps Hsub Hall _ Hmain Hsig]. destruct Hmain as [?|(n & tr1 & tr2 & r & Hat & Hr & -> & Ha2)]; [congruence|].
    destruct Hat as [?|(r' & Hx' & Hr' & Hd)]; [congruence|]. rewrite Hx in Hx'. injection Hx' as ->.
    unfold shutdown_done in Hd. apply andb_true_iff in Hd as [Hc Hw]. apply bool_decide_eq_true in Hc.
    destruct (processor_invariant _ _ _ Hsteps) as (applied & Hwr & Hacc & _ & _ & _ & _ & Hsplit).
    destruct (Hsplit tr1 n tr2 eq_refl) as [(_ & [later Hl] & _)|(? & _)]; [|done].
    assert (Htr : accepted (tr1 ++ LFlush n :: tr2) = accepted tr1).
    { unfold accepted in Ha2 |- *. rewrite omap_app. cbn. rewrite Ha2. apply app_nil_r. }
    rewrite Htr, Hl in Hacc. apply (f_equal List.length) in Hacc. rewrite !length_app in Hacc.
    destruct later; cbn in Hacc; [|lia]. rewrite app_nil_r in Hl. subst applied. rewrite <- Htr in Hwr. split_and!.
    + destruct r' as [[]|e]; [|done]. intros _. by apply Hsig.
    + intros s Hs. rewrite Hs in Hw. by apply bool_decide_eq_true in Hw.
    + exists (accepted (tr1 ++ LFlush n :: tr2)). split_and!; [done|exact Hall|]. rewrite Hwr, fold_safeApply.
      by destruct (simulates_run_ops _ _ _ (Forall_omap_sublist _ _ _ _ Hsub Hfit) Hsim) as (_ & H & _).
  - intros Hs. split; [intros s σ <- Hex Hfin Hfair; by eapply execution_exits|]. intros es' st' Hr.
    destruct (run_rank close_stopper flags es' st st' Hs Hr) as [Hs' Hle]. split; [lia|].
    destruct (run_has_inv close_stopper flags p0 w0 r0 (es ++ es') st' He) as [tr' Hi'].
    { by rewrite process_run_app, Hrun. }
    destruct (main st') as [| |code] eqn:Em; [| |left; by exists code]; right; eapply run_progress; (done || by rewrite Em).
  - intros Hs Hm. destruct (run_exits close_stopper flags p0 w0 es st tr Hi Hs Hm) as (es' & st' & r & H1 & H2 & H3 & H4 & H5).
    exists es', st', (exit_code r). split_and!; [done|done|done|done|]. intros Hne. destruct H5 as [->|H5]; [done|].
    destruct r as [|e]; [done|]. by destruct (Hne e).
Qed.

(** A synchronization that finds the container without the injection, its remediation, and a signal. *)
Definition example_run : list event :=
  [StubNew None; Delivered (OnSynchronize [Some example_pod] [Some (example_container ["PATH=/bin"])]); Recv; Handle; Signal;
   RunReturns None 0; MainFlush 0; Recv; Handle; Remediated 0; MainExit].

Lemma fractiond_leaves_mapping_witness :
  ∃ p0 st applied, example_start = Ok p0 ∧
    @run _ _ _ DecimalQuantities (RecordingStopper (λ _, false)) (λ r, r) example_flags (start example_flags p0 []) example_run = Some st ∧
    main st = Exited 0 ∧ stopper st = ["c1"] ∧ applied = omap (@offered _ DecimalQuantities p0) example_run ∧
    scan_dir (cur (writer (events (plugin st)))) = persisted <$> run_ops (omap event_op applied) (∅ : ContainerStore.t).
Proof.
  destruct example_start as [p0|] eqn:E0; [|vm_compute in E0; discriminate E0]. exists p0.
  destruct (@run _ _ _ DecimalQuantities (RecordingStopper (λ _, false)) (λ r, r) example_flags (start example_flags p0 []) example_run)
    as [st|] eqn:E1; [|vm_compute in E0; injection E0 as <-; vm_compute in E1; discriminate E1].
  destruct (@fractiond_leaves_mapping _ DecimalQuantities (RecordingStopper (λ _, false)) (λ r, r) example_flags true
    (mkWorld None [] []) ∅ p0 [] example_run st E0 simulates_empty) as [Hx _].
  - vm_compute in E0. injection E0 as <-.
    constructor; [|constructor]. constructor; [|constructor]. split; apply (bool_decide_unpack _); vm_compute; exact I.
  - exact E1.
  - assert (Hend : main st = Exited 0 ∧ stopper st = ["c1"]).
    { vm_compute in E0. injection E0 as <-. vm_compute in E1. injection E1 as <-. split; reflexivity. }
    destruct (Hx 0 (proj1 Hend)) as (_ & _ & applied & _ & Hall & Hscan).
    exists st, applied. split_and!; [reflexivity|reflexivity|apply Hend|apply Hend|apply Hall; vm_compute; discriminate|exact Hscan].
Defined.
