(* ===== verification/Handoff.v ===== *)
(** * The handoff: metricsd reads the directory while fractiond writes it

    The two daemons share nothing but the mapping directory: fractiond's writer
    (common/mapping/fsstore/writer.go) makes its system calls while metricsd's reader (reader.go,
    and podsource.go on top of it) makes its own in another process.  Here the reader of FsStore
    runs beside the writer: each of its calls sees the directory of some instant, with any
    number of the writer's system calls in between.

    A listing is not a snapshot either: POSIX promises only that it contains the names that
    were there all along, and no name that was never there. *)

From Stdlib Require Import ZArith Lia String Ascii.
From stdpp Require Import base gmap list strings sorting.
From S2P Require Import Prelude GoStrings Runtime Store FileSystem FsStore PodSource.

#[local] Open Scope string_scope.
#[local] Open Scope list_scope.
#[local] Open Scope nat_scope.

(** ** The reader beside a writer *)

(** The number of files read so far is all the reader's state. *)
Definition Beside (A : Type) : Type := nat → A * nat.
#[global] Instance Beside_ret : MRet Beside := λ A a n, (a, n).
#[global] Instance Beside_bind : MBind Beside := λ A B k m n, let '(a, n') := m n in k a n'.

Section beside.
(** The directory at each instant, what the listing returned, and the instant of each file read. *)
Context (timeline : nat → directory) (listing : result errno (list (string * node))) (clock : nat → nat).

Instance Beside_reads : DirReads Beside := {|
  list_dir n := (listing, n);
  read_file name n := ((ReadFile name (mkWorld (timeline (clock n)) [] [])).1, S n)
|}.

Definition concurrent_scan : ContainerStore.t := (Reader.scan (R:=Beside) 0).1.

(** What podsource.go makes of it for a collect cycle. *)
Definition concurrent_snapshot (iter : ContainerStore.t → nat → list ContainerInfo) : ContainerStore.t :=
  (snapshot_store (R:=Beside) iter 0).1.

(** What the listing may be, taken between the instants [a] and [b]. *)
Definition listed (a b : nat) : Prop :=
  match listing with
  | Ok entries =>
      NoDup entries.*1 ∧
      (∀ name n, (name, n) ∈ entries → ∃ t, a ≤ t ≤ b ∧ dir_lookup (timeline t) name = Some n) ∧
      (∀ name, (∀ t, a ≤ t ≤ b → is_Some (dir_lookup (timeline t) name)) → name ∈ entries.*1)
  | Err _ => ∃ t, a ≤ t ≤ b ∧ timeline t = None
  end.

(** ** Lemmas: one scan *)

Lemma readFile_at name n : scannable name = true →
  Reader.readFile (R:=Beside) name n = (lookup_entry (timeline (clock n)) name, S n).
Proof.
  intros Hs. unfold Reader.readFile, mbind at 1, Beside_bind at 1. cbn [read_file Beside_reads].
  unfold ReadFile, syscall, lookup_entry. cbn [cur script fst]. destruct (timeline (clock n)) as [m|]; [|done].
  cbn [default head fails success mbind option_bind fst from_option]. destruct (m !! name) as [[data|b]|]; cbn [mbind option_bind]; [|done|done].
  unfold entry_info. cbn [fst snd]. rewrite Hs. unfold load. destruct (json_Unmarshal data) as [rec|]; [|done].
  cbn [mbind option_bind]. by destruct (negb _).
Qed.

Lemma beside_scan_entries entries : ∀ infos n, ∃ loaded n',
  Reader.scan_entries (R:=Beside) entries infos n = (infos ++ loaded, n') ∧
  map (λ c, ContainerID c +:+ fileExtension) loaded `sublist_of` entries.*1 ∧
  (∀ c, c ∈ loaded → ∃ i, lookup_entry (timeline (clock i)) (ContainerID c +:+ fileExtension) = Some c) ∧
  (∀ name nd, (name, nd) ∈ entries → isDir nd = false → scannable name = true →
     ∃ i, ∀ c, lookup_entry (timeline (clock i)) name = Some c → c ∈ loaded).
Proof.
  induction entries as [|[name nd] entries IH]; intros infos n.
  { exists [], n. rewrite app_nil_r. split_and!; [done|constructor|by intros ? ?%elem_of_nil|by intros ? ? ?%elem_of_nil]. }
  cbn [Reader.scan_entries]. assert (isDir nd || HasPrefix name "." || negb (HasSuffix name fileExtension) = isDir nd || negb (scannable name)) as ->.
  { unfold scannable. by destruct (isDir nd), (HasPrefix name "."), (HasSuffix name fileExtension). }
  destruct (isDir nd || negb (scannable name)) eqn:Eskip.
  { destruct (IH infos n) as (loaded & n' & H1 & H2 & H3 & H4). exists loaded, n'. split_and!; [done|by apply sublist_cons|done|].
    intros name' nd' [[= -> ->]|Hin]%elem_of_cons Hd Hs; [by rewrite Hd, Hs in Eskip|by eapply H4]. }
  apply orb_false_iff in Eskip as [Ed Es%negb_false_iff].
  unfold mbind at 1, Beside_bind at 1. rewrite readFile_at by done.
  destruct (lookup_entry (timeline (clock n)) name) as [c|] eqn:El.
  - destruct (IH (infos ++ [c]) (S n)) as (loaded & n' & H1 & H2 & H3 & H4).
    assert (Hn : name = ContainerID c +:+ fileExtension).
    { unfold lookup_entry in El. destruct (timeline (clock n)) as [m|]; [|done]. cbn in El. destruct (m !! name); [|done]. cbn in El.
      by apply entry_info_name in El as [? _]. }
    exists (c :: loaded), n'. rewrite <- app_assoc in H1. split_and!; [done|cbn [map fmap list_fmap fst]; rewrite Hn; by apply sublist_skip| |].
    + intros c' [->|Hc]%elem_of_cons; [|by apply H3]. exists n. by rewrite <- Hn.
    + intros name' nd' [[= -> ->]|Hin]%elem_of_cons Hd Hs.
      * exists n. intros c' Hc'. rewrite El in Hc'. injection Hc' as <-. left.
      * destruct (H4 name' nd' Hin Hd Hs) as [i Hi]. exists i. intros c' Hc'. right. by apply Hi.
  - destruct (IH infos (S n)) as (loaded & n' & H1 & H2 & H3 & H4). exists loaded, n'. split_and!; [done|by apply sublist_cons|done|].
    intros name' nd' [[= -> ->]|Hin]%elem_of_cons Hd Hs; [|by eapply H4]. exists n. intros c' Hc'. by rewrite El in Hc'.
Qed.

Lemma concurrent_scan_unfold : concurrent_scan =
  match listing with
  | Err _ => ∅
  | Ok entries => ContainerStore.Replace (Reader.scan_entries (R:=Beside) entries [] 0).1 ∅
  end.
Proof.
  unfold concurrent_scan, Reader.scan, mbind at 1, Beside_bind at 1. cbn [list_dir Beside_reads]. destruct listing as [entries|e]; [|done].
  unfold mbind at 1, Beside_bind at 1. by destruct (Reader.scan_entries (R:=Beside) entries [] 0).
Qed.

Lemma concurrent_scan_keyed : keyed concurrent_scan.
Proof.
  rewrite concurrent_scan_unfold. destruct listing; [apply Replace_keyed|]. intros id c Hc. by rewrite lookup_empty in Hc.
Qed.

(** The store of the cycle is what the scan loaded. *)
Lemma concurrent_snapshot_scan iter : (∀ s n, iter s n ≡ₚ ContainerStore.values s) → concurrent_snapshot iter = concurrent_scan.
Proof.
  intros Hiter. unfold concurrent_snapshot, snapshot_store, Reader.ActiveContainers.
  pose proof concurrent_scan_keyed as Hk. unfold concurrent_scan in *. unfold mbind, Beside_bind in *.
  destruct (Reader.scan (R:=Beside) 0) as [s n] eqn:E. cbn [fst] in *. unfold mret, Beside_ret. cbn [fst].
  apply Replace_values; [done|]. rewrite ActiveContainers_order. apply Hiter.
Qed.

Lemma scannable_of_entry d k c : lookup_entry d (k +:+ fileExtension) = Some c → scannable (k +:+ fileExtension) = true ∧ k ≠ "".
Proof.
  unfold lookup_entry. destruct d as [m|]; [|done]. cbn. destruct (m !! _); [|done]. cbn. intros [Hn Hs]%entry_info_name. cbn in *.
  split; [done|]. intros ->. done.
Qed.

(** Whatever happens to the directory meanwhile, a scan is regular: each record it loads was
    in the directory at an instant of its reads, and a container that was there from the
    first to the last instant of the scan is in it. *)
Lemma scan_regular a b e k : listed a b → (∀ i, b ≤ clock i ≤ e) → a ≤ b →
  (∀ c, concurrent_scan !! k = Some c → ∃ t, b ≤ t ≤ e ∧ scan_dir (timeline t) !! k = Some c) ∧
  ((∀ t, a ≤ t ≤ e → is_Some (scan_dir (timeline t) !! k)) → is_Some (concurrent_scan !! k)).
Proof.
  intros Hl Hclock Hab. rewrite concurrent_scan_unfold. unfold listed in Hl. destruct listing as [entries|err].
  2:{ split; [by intros c Hc; rewrite lookup_empty in Hc|]. destruct Hl as (t & Ht & Hnone). intros Hall.
      assert (b ≤ e) by (specialize (Hclock 0); lia). destruct (Hall t ltac:(lia)) as [c Hc]. by rewrite Hnone, lookup_scan_dir in Hc. }
  destruct Hl as (Hnd & Hsound & Hcomplete).
  destruct (beside_scan_entries entries [] 0) as (loaded & n' & -> & Hsub & Hloaded & Hreads). cbn [fst app].
  assert (Hids : NoDup (map ContainerID loaded)).
  { apply (NoDup_fmap_1 (λ k, k +:+ fileExtension)). rewrite <- list_fmap_compose. eapply sublist_NoDup; [exact Hnd|exact Hsub]. }
  split.
  - intros c. rewrite lookup_Replace_NoDup by done. intros (Hc & <- & _). destruct (Hloaded c Hc) as [i Hi].
    exists (clock i). split; [apply Hclock|]. by rewrite lookup_scan_dir.
  - intros Hall. assert (b ≤ e) by (specialize (Hclock 0); lia).
    assert (Hfile : ∀ t, a ≤ t ≤ e → ∃ c data, lookup_entry (timeline t) (k +:+ fileExtension) = Some c ∧
      dir_lookup (timeline t) (k +:+ fileExtension) = Some (NFile data)).
    { intros t Ht. destruct (Hall t Ht) as [c Hc]. rewrite lookup_scan_dir in Hc. exists c. unfold lookup_entry, dir_lookup in *.
      destruct (timeline t) as [m|]; [|done]. cbn in *. destruct (m !! _) as [[data|]|]; [|done|done]. by exists data. }
    assert (Hin : k +:+ fileExtension ∈ entries.*1).
    { apply Hcomplete. intros t Ht. destruct (Hfile t ltac:(lia)) as (c & data & _ & ->). by eexists. }
    apply list_elem_of_fmap in Hin as ([name nd] & Hname & Hin). cbn [fst] in Hname. subst name. destruct (Hsound _ _ Hin) as (t & Ht & Hnode).
    destruct (Hfile t ltac:(lia)) as (c & data & Hc & Hdata). rewrite Hdata in Hnode. injection Hnode as <-.
    destruct (scannable_of_entry _ _ _ Hc) as [Hs Hk]. destruct (Hreads _ _ Hin eq_refl Hs) as [i Hi].
    destruct (Hfile (clock i)) as (c' & _ & Hc' & _); [specialize (Hclock i); lia|]. exists c'.
    apply lookup_Replace_NoDup; [done|]. split_and!; [by apply Hi| |done].
    rewrite <- lookup_scan_dir in Hc'. unfold scan_dir in Hc'. by apply scan_keyed in Hc' as [-> _].
Qed.
End beside.

(** ** Lemmas: what a scan can see of a writer's operation *)

(** A program all whose instants satisfy [P] when it starts in [P]. *)
Definition keeps {A} (P : directory → Prop) (m : M A) : Prop := triple (λ d _, P d) P m (λ _ d _, P d).

Lemma keeps_ret {A} P (a : A) : keeps P (mret a).
Proof. by apply triple_ret. Qed.
Lemma keeps_bind {A B} P (m : M A) (k : A → M B) : keeps P m → (∀ a, keeps P (k a)) → keeps P (m ≫= k).
Proof. intros Hm Hk. by eapply triple_bind. Qed.
Lemma keeps_for_each {A} P (f : A → M unit) l : (∀ a, a ∈ l → keeps P (f a)) → keeps P (for_each f l).
Proof.
  intros Hf. apply (triple_for_each _ _ (λ _ d _, P d)). intros pre a post ->. apply Hf. apply elem_of_app. right. left.
Qed.

(** A program whose instants are those of [v] or of [f v], for the view [v] it starts in. *)
Lemma keeps_views {A} (P : directory → Prop) (Q : ContainerStore.t → Prop) (m : M A) (f : ContainerStore.t → ContainerStore.t) :
  (∀ d, P d ↔ Q (scan_dir d)) → (∀ v, Q v → Q (f v)) →
  (∀ v, triple (λ d _, scan_dir d = v) (λ d, scan_dir d = v ∨ scan_dir d = f v) m (λ _ d _, scan_dir d = v ∨ scan_dir d = f v)) →
  keeps P m.
Proof.
  intros HP Hf Hm. apply triple_at. intros d0 s0 H0%HP. eapply triple_pre, triple_post, triple_ok, (Hm (scan_dir d0)).
  - by intros d s [-> ->].
  - intros _ d s [H|H]; apply HP; rewrite H; auto.
  - intros d [H|H]; apply HP; rewrite H; auto.
Qed.

(** The record of every container is as before the operation or as after it. *)
Definition between (v0 v1 v : ContainerStore.t) : Prop := ∀ k, v !! k = v0 !! k ∨ v !! k = v1 !! k.

Lemma between_start v0 v1 : between v0 v1 v0.
Proof. by left. Qed.

Lemma writeRecord_views i v : info_fit i → ContainerID i ≠ "" →
  triple (λ d _, scan_dir d = v) (λ d, scan_dir d = v ∨ scan_dir d = ContainerStore.Upsert (persisted i) v) (Writer.writeRecord i)
    (λ _ d _, scan_dir d = v ∨ scan_dir d = ContainerStore.Upsert (persisted i) v).
Proof.
  intros [Hok Hp] Hne. pose proof (triple_writeRecord i Hok (scannable_plain _ Hp Hne) v) as H. rewrite (stored_plain i Hp) in H.
  eapply triple_post, H. intros r d s Hv. cbn in Hv. rewrite Hv. destruct (is_ok r); auto.
Qed.

Lemma keeps_writeRecord i v0 v1 : info_fit i → ContainerID i ≠ "" → v1 !! ContainerID i = Some (persisted i) →
  keeps (λ d, between v0 v1 (scan_dir d)) (Writer.writeRecord i).
Proof.
  intros Hi Hne Hv1. eapply (keeps_views _ (between v0 v1) _ (ContainerStore.Upsert (persisted i))); [done| |intros v; by apply writeRecord_views].
  intros v Hv k. rewrite lookup_Upsert. case_bool_decide as Hb; [|apply Hv]. right. destruct Hb as [_ ->]. by rewrite <- Hv1.
Qed.

Lemma keeps_Remove k0 v0 v1 : v1 !! k0 = None → keeps (λ d, between v0 v1 (scan_dir d)) (Remove (k0 +:+ fileExtension)).
Proof.
  intros Hv1. eapply (keeps_views _ (between v0 v1) _ (delete k0)); [done| |apply triple_Remove].
  intros v Hv k. destruct (decide (k0 = k)) as [<-|Hne]; [right; by rewrite lookup_delete_eq|]. rewrite lookup_delete_ne by done. apply Hv.
Qed.

Lemma keeps_quiet {A} P (f : outcome → directory → A * directory) : (∀ o d, P d → P (f o d).2) → keeps P (syscall f).
Proof. intros H. apply triple_syscall. intros d s Hd. split; by apply H. Qed.

Lemma keeps_Replace infos v0 (v1 := ContainerStore.Replace (map persisted infos) ∅) :
  Forall info_fit infos → NoDup (map ContainerID infos) → keeps (λ d, between v0 v1 (scan_dir d)) (Writer.Replace infos).
Proof.
  intros Hf Hnd. assert (Hids : NoDup (map ContainerID (map persisted infos))) by by rewrite map_map.
  unfold Writer.Replace. apply keeps_bind.
  { apply keeps_quiet. intros o d Hd. destruct (fails o); [done|]. cbn [snd]. by rewrite scan_dir_mkdir. }
  intros [[]|e]; [|apply keeps_ret]. apply keeps_bind.
  { apply keeps_for_each. intros i Hi. unfold Writer.replace_write. destruct (String.eqb_spec (ContainerID i) "") as [|Hne]; [apply keeps_ret|].
    rewrite Forall_forall in Hf. apply keeps_bind; [|intros; apply keeps_ret]. apply keeps_writeRecord; [by apply Hf|done|].
    apply lookup_Replace_NoDup; [done|]. split_and!; [|done|done]. apply list_elem_of_fmap. by exists i. }
  intros []. apply keeps_bind.
  { apply keeps_quiet. intros o [m|] Hd; [|done]. by destruct (fails o). }
  intros [entries|e]; [|apply keeps_ret]. apply keeps_for_each. intros [name n] _. unfold Writer.replace_prune. cbn [fst snd].
  destruct (isDir n || negb (HasSuffix name fileExtension)) eqn:Es; [apply keeps_ret|]. case_bool_decide as Hdes; [apply keeps_ret|].
  apply orb_false_iff in Es as [_ [k0 ->]%negb_false_iff%HasSuffix_spec]. apply keeps_bind; [|intros; apply keeps_ret].
  apply keeps_Remove. apply eq_None_not_Some. intros Hk. apply Hdes. apply desired_names_spec.
  - eapply Forall_impl; [exact Hf|]. by intros ? [_ ?].
  - subst v1. replace (map stored infos) with (map persisted infos); [done|]. apply map_ext_in. intros i Hi%list_elem_of_In. symmetry.
    apply stored_plain. rewrite Forall_forall in Hf. by apply Hf.
Qed.

(** ** A writer at work *)

(** The instants of a run of the writer: how many operations are complete, and the directory. *)
Fixpoint trail (n : nat) (ops : list WriterOp) (w : world) : list (nat * directory) :=
  match ops with
  | [] => [(n, cur w)]
  | op :: ops =>
      let w' := run_op w op in
      (n, cur w) :: map (pair n) (drop (List.length (history w)) (history w')) ++ trail (S n) ops w'
  end.

(** After its last operation the writer is idle. *)
Definition instant (ops : list WriterOp) (w : world) (t : nat) : nat * directory :=
  default (List.length ops, cur (run_ops ops w)) (trail 0 ops w !! t).
Definition completed (ops : list WriterOp) (w : world) (t : nat) : nat := (instant ops w t).1.
Definition directory_at (ops : list WriterOp) (w : world) (t : nat) : directory := (instant ops w t).2.

(** The runtime has no two containers with one ID. *)
Definition op_distinct (op : WriterOp) : Prop :=
  match op with OpReplace infos => NoDup (map ContainerID infos) | _ => True end.

Lemma persisted_lookup_Delete id (s : ContainerStore.t) k :
  (∀ k, is_Some (s !! k) → plain k) → plain id → (persisted <$> Store.Delete id s) !! k = delete id (persisted <$> s) !! k ∨ id = "".
Proof.
  intros Hs Hp. destruct (decide (id = "")) as [?|Hne]; [by right|left]. cbn [Store.Delete ContainerStore_writer].
  by rewrite Delete_plain, fmap_delete by done.
Qed.

(** Every instant of one operation, beside the in-memory store. *)
Lemma op_between op w s : op_fit op → op_distinct op → simulates w s → ∃ hs, history (run_op w op) = history w ++ hs ∧
  Forall (λ d, between (persisted <$> s) (persisted <$> run_op s op) (scan_dir d)) hs.
Proof.
  intros Hfit Hdist (Hh & Hv & Hs).
  assert (Hrun : ∀ {A} (m : M A), keeps (λ d, between (persisted <$> s) (persisted <$> run_op s op) (scan_dir d)) m →
    ∃ hs, history (m w).2 = history w ++ hs ∧ Forall (λ d, between (persisted <$> s) (persisted <$> run_op s op) (scan_dir d)) hs).
  { intros A m Hm. destruct (Hm w) as (hs & H1 & H2 & _); [rewrite Hv; apply between_start|]. by exists hs. }
  destruct op as [i|id|infos]; cbn [run_op op_fit op_distinct] in *; cbn [Store.Upsert Store.Delete Store.Replace Writer_store]; apply Hrun.
  - unfold Writer.Upsert. destruct (String.eqb_spec (ContainerID i) "") as [|Hne]; [apply keeps_ret|].
    apply keeps_bind; [|intros; apply keeps_ret]. apply keeps_writeRecord; [done|done|].
    cbn [Store.Upsert ContainerStore_writer]. rewrite persisted_Upsert, lookup_Upsert. by rewrite bool_decide_eq_true_2 by done.
  - unfold Writer.Delete. destruct (String.eqb_spec id "") as [|Hne]; [apply keeps_ret|]. rewrite fileName_plain by done.
    apply keeps_bind; [|intros; apply keeps_ret]. apply keeps_Remove. destruct (persisted_lookup_Delete id s id Hs Hfit) as [->|?]; [|done].
    apply lookup_delete_eq.
  - cbn [Store.Replace ContainerStore_writer]. rewrite persisted_Replace. by apply keeps_Replace.
Qed.

Lemma trail_spec ops : ∀ n w s, Forall op_fit ops → Forall op_distinct ops → simulates w s →
  Forall (λ '(j, d), ∃ i, j = n + i ∧ i ≤ List.length ops ∧
    between (persisted <$> run_ops (take i ops) s) (persisted <$> run_ops (take (S i) ops) s) (scan_dir d)) (trail n ops w).
Proof.
  induction ops as [|op ops IH]; intros n w s Hfit Hdist Hsim; cbn [trail].
  { constructor; [|done]. exists 0. destruct Hsim as (_ & -> & _). split_and!; [lia|cbn; lia|apply between_start]. }
  apply Forall_cons in Hfit as [Hop Hfit], Hdist as [Hdop Hdist].
  destruct (op_between op w s Hop Hdop Hsim) as (hs & Hhist & Hbetween). constructor; [|apply Forall_app; split].
  - exists 0. pose proof Hsim as (_ & -> & _). split_and!; [lia|cbn; lia|apply between_start].
  - rewrite Hhist, drop_app_length. apply Forall_map. eapply Forall_impl; [exact Hbetween|]. intros d Hd. exists 0. split_and!; [lia|cbn; lia|done].
  - assert (Hsim' : simulates (run_op w op) (run_op s op)) by (apply (simulates_run_ops [op]); [by constructor|done]).
    eapply Forall_impl; [exact (IH (S n) _ _ Hfit Hdist Hsim')|]. intros [j d] (i & -> & Hi & Hd). exists (S i).
    split_and!; [lia|cbn; lia|exact Hd].
Qed.

Lemma instant_spec ops w s t : Forall op_fit ops → Forall op_distinct ops → simulates w s →
  let i := completed ops w t in i ≤ List.length ops ∧
  between (persisted <$> run_ops (take i ops) s) (persisted <$> run_ops (take (S i) ops) s) (scan_dir (directory_at ops w t)).
Proof.
  intros Hfit Hdist Hsim. unfold completed, directory_at, instant. cbv zeta. destruct (trail 0 ops w !! t) as [[j d]|] eqn:E; cbn [default fst snd from_option id].
  - pose proof (trail_spec ops 0 w s Hfit Hdist Hsim) as H. rewrite Forall_forall in H.
    destruct (H _ (list_elem_of_lookup_2 _ _ _ E)) as (i & -> & Hi & Hd). done.
  - split; [done|]. rewrite !take_ge by lia. pose proof (simulates_run_ops ops w s Hfit Hsim) as (_ & -> & _). apply between_start.
Qed.

(** The writer only moves forward. *)
Lemma trail_bounds ops : ∀ n w, Forall (λ j, n ≤ j ≤ n + List.length ops) (trail n ops w).*1.
Proof.
  induction ops as [|op ops IH]; intros n w; cbn [trail]; [by repeat constructor; cbn; lia|].
  cbn [fmap list_fmap fst]. constructor; [lia|]. rewrite fmap_app. apply Forall_app. split.
  - rewrite <- list_fmap_compose. apply Forall_fmap, Forall_true. intros d. cbn. lia.
  - eapply Forall_impl; [apply IH|]. intros j Hj. cbn in Hj |- *. lia.
Qed.

Lemma trail_sorted ops : ∀ n w, StronglySorted le (trail n ops w).*1.
Proof.
  induction ops as [|op ops IH]; intros n w; [by repeat constructor|].
  pose proof (trail_bounds (op :: ops) n w) as Hb. cbn [trail fmap list_fmap fst] in *. apply Forall_cons in Hb as [_ Hb].
  constructor; [|eapply Forall_impl; [exact Hb|]; cbn; lia]. clear Hb. rewrite fmap_app. generalize (drop (List.length (history w)) (history (run_op w op))).
  intros hs. induction hs as [|d hs IHhs]; cbn [map fmap list_fmap app fst]; [apply IH|]. constructor; [exact IHhs|].
  apply Forall_app. split; [apply Forall_fmap, Forall_map, Forall_true; intros ?; apply Nat.le_refl|].
  eapply Forall_impl; [apply trail_bounds|]. cbn. lia.
Qed.

Lemma StronglySorted_le_lookup l : StronglySorted le l → ∀ t t' x x', t ≤ t' → l !! t = Some x → l !! t' = Some x' → x ≤ x'.
Proof.
  induction 1 as [|y l Hl IH Hy]; intros t t' x x' Ht Hx Hx'; [done|]. destruct t as [|t], t' as [|t']; cbn in *; simplify_eq; [done| |lia|].
  - rewrite Forall_forall in Hy. by apply Hy, list_elem_of_lookup_2 with t'.
  - by apply (IH t t'); [lia|..].
Qed.

Lemma completed_mono ops w t t' : t ≤ t' → completed ops w t ≤ completed ops w t'.
Proof.
  intros Ht. unfold completed, instant. pose proof (trail_bounds ops 0 w) as Hb. rewrite Forall_fmap in Hb.
  destruct (trail 0 ops w !! t') as [x'|] eqn:E'; cbn [default from_option id].
  - destruct (lookup_lt_is_Some_2 (trail 0 ops w) t) as [x Hx]; [apply lookup_lt_Some in E'; lia|]. rewrite Hx. cbn [from_option id].
    apply (StronglySorted_le_lookup _ (trail_sorted ops 0 w) t t'); [done|by rewrite list_lookup_fmap, Hx|by rewrite list_lookup_fmap, E'].
  - destruct (trail 0 ops w !! t) as [x|] eqn:E; cbn [from_option id fst]; [|done].
    rewrite Forall_forall in Hb. apply (Hb x). by eapply list_elem_of_lookup_2.
Qed.

(** A listing of one instant is such a listing. *)
Lemma listed_instant timeline a b t : a ≤ t ≤ b → listed timeline (ReadDir (mkWorld (timeline t) [] [])).1 a b.
Proof.
  intros Ht. unfold listed, ReadDir, syscall. cbn [cur script]. destruct (timeline t) as [m|] eqn:E; cbn; [|by exists t]. fold (dir_entries m). split_and!.
  - apply dir_entries_NoDup.
  - intros name n Hin%elem_of_dir_entries. exists t. by rewrite E.
  - intros name Hall. destruct (Hall t Ht) as [n Hn]. rewrite E in Hn. apply list_elem_of_fmap. exists (name, n). by rewrite elem_of_dir_entries.
Qed.

(** ** Property *)

(** C2: the handoff is regular.  metricsd scans the directory between the instants [a] and [e],
    listing it up to [b], while fractiond's writer works through any operations without a
    fault; every system call of either may fall between any two of the other, and the listing may
    or may not have the names that came or went meanwhile.  Then each record the collect
    cycle gets is one the in-memory mapping held after some number of operations that were
    complete or in progress during the scan; a container that had a record all that time is
    not missed; and so one whose record no operation of that time changes is reported
    exactly, or not at all when it has none. *)
Theorem handoff_is_regular ops w s listing clock iter a b e k
  (Hfit : Forall op_fit ops) (Hdist : Forall op_distinct ops) (Hsim : simulates w s)
  (Hab : a ≤ b) (Hlisted : listed (directory_at ops w) listing a b) (Hclock : ∀ i, b ≤ clock i ≤ e)
  (Hiter : ∀ s n, iter s n ≡ₚ ContainerStore.values s) :
  let got := concurrent_snapshot (directory_at ops w) listing clock iter in
  let mapping i := run_ops (take i ops) s in
  let during i := completed ops w a ≤ i ≤ S (completed ops w e) in
  (∀ c, got !! k = Some c → ∃ i info, during i ∧ mapping i !! k = Some info ∧ c = persisted info) ∧
  ((∀ i, during i → is_Some (mapping i !! k)) → is_Some (got !! k)) ∧
  (∀ o, (∀ i, during i → mapping i !! k = o) → got !! k = persisted <$> o).
Proof.
  cbv zeta. rewrite concurrent_snapshot_scan by done.
  destruct (scan_regular (directory_at ops w) listing clock a b e k Hlisted Hclock Hab) as [Hsound Hcomplete].
  assert (Hbe : b ≤ e) by (specialize (Hclock 0); lia).
  assert (Hin : ∀ t, a ≤ t ≤ e → ∃ i, completed ops w a ≤ i ≤ S (completed ops w e) ∧
    scan_dir (directory_at ops w t) !! k = persisted <$> run_ops (take i ops) s !! k).
  { intros t Ht. destruct (instant_spec ops w s t Hfit Hdist Hsim) as [_ Hd].
    pose proof (completed_mono ops w a t ltac:(lia)). pose proof (completed_mono ops w t e ltac:(lia)).
    destruct (Hd k) as [Hk|Hk]; rewrite lookup_fmap in Hk; [exists (completed ops w t)|exists (S (completed ops w t))]; (split; [lia|done]). }
  assert (Hs : ∀ c, concurrent_scan (directory_at ops w) listing clock !! k = Some c → ∃ i info,
    completed ops w a ≤ i ≤ S (completed ops w e) ∧ run_ops (take i ops) s !! k = Some info ∧ c = persisted info).
  { intros c Hc. destruct (Hsound c Hc) as (t & Ht & Hd). destruct (Hin t ltac:(lia)) as (i & Hi & Hk). rewrite Hk in Hd.
    apply fmap_Some in Hd as (info & Hinfo & ->). by exists i, info. }
  assert (Hc : (∀ i, completed ops w a ≤ i ≤ S (completed ops w e) → is_Some (run_ops (take i ops) s !! k)) →
    is_Some (concurrent_scan (directory_at ops w) listing clock !! k)).
  { intros Hall. apply Hcomplete. intros t Ht. destruct (Hin t Ht) as (i & Hi & ->). destruct (Hall i Hi) as [info ->]. by eexists. }
  split_and!; [done|done|]. intros o Hall. destruct o as [info|]; cbn [fmap option_fmap option_map].
  - destruct Hc as [c Hgot]; [intros i Hi; rewrite Hall by done; by eexists|]. rewrite Hgot. f_equal.
    destruct (Hs c Hgot) as (i & info' & Hi & Hk & ->). rewrite Hall in Hk by done. by injection Hk as ->.
  - destruct (concurrent_scan _ _ _ !! k) as [c|] eqn:Hgot; [|done]. destruct (Hs c eq_refl) as (i & info & Hi & Hk & _).
    by rewrite Hall in Hk.
Qed.

(** Two containers are recorded; one is removed after the directory is listed and before its
    file is read. *)
Definition example_ops : list WriterOp :=
  [OpUpsert (example_info "0a" "/x"); OpReplace [example_info "0a" "/x"; example_info "ff" "/y"]; OpDelete "ff"].

Lemma handoff_is_regular_witness :
  let w := mkWorld None [] [] in
  let timeline := directory_at example_ops w in
  let listing := (ReadDir (mkWorld (timeline 25) [] [])).1 in
  let got := concurrent_snapshot timeline listing (λ _, 27) (λ s _, ContainerStore.values s) in
  (completed example_ops w 25, completed example_ops w 27) = (2, 3) ∧ (match listing with Ok l => l.*1 | Err _ => [] end) = ["0a.json"; "ff.json"] ∧
  got !! "0a" = Some (persisted (example_info "0a" "/x")) ∧ got !! "ff" = None.
Proof.
  cbv zeta. split; [vm_compute; reflexivity|]. split; [vm_compute; reflexivity|]. split; [|vm_compute; reflexivity].
  destruct (handoff_is_regular example_ops (mkWorld None [] []) ∅ (ReadDir (mkWorld (directory_at example_ops (mkWorld None [] []) 25) [] [])).1
    (λ _, 27) (λ s _, ContainerStore.values s) 25 25 27 "0a") as (_ & _ & H).
  - repeat constructor; apply (bool_decide_unpack _); vm_compute; exact I.
  - repeat constructor; apply (bool_decide_unpack _); vm_compute; exact I.
  - split_and!.
    + split; [repeat constructor|done].
    + rewrite fmap_empty. apply map_eq. intros k. by rewrite lookup_scan_dir.
    + intros k [c Hk]. by rewrite lookup_empty in Hk.
  - lia.
  - apply listed_instant. lia.
  - intros i. lia.
  - done.
  - apply (H (Some (example_info "0a" "/x"))). intros i Hi.
    change (2 ≤ i ≤ 4) in Hi. destruct i as [|[|[|[|[|i]]]]]; [lia|lia|vm_compute; reflexivity..|lia].
Defined.
