(* ===== verification/Accounting.v ===== *)
(** * From the annotation to the metric

    The whole path of one container through the two node daemons: fractiond's hook injects the
    limit and offers the record (Plugin), the worker writes it (Events, FsStore), metricsd scans the
    directory (PodSource), reads the kernel's cgroup file of a GPU process and publishes the
    pod's series (Metrics).  The daemons share the directory and nothing else. *)

From Stdlib Require Import ZArith Lia String Ascii.
From stdpp Require Import base gmap list strings.
From S2P Require Import Prelude GoStrings Annotations Json Injection Runtime Store FileSystem FsStore Events Adapter RetroAudit Plugin Retry GoTime GoFlag DaemonFlags CriStopper Float64 Nvml PodSource Metrics Fractiond.

#[local] Open Scope string_scope.
#[local] Open Scope list_scope.
#[local] Open Scope Z_scope.

(** ** Lemmas: the record stays *)

(** An operation that leaves the record of a container as it is. *)
Definition op_keeps (info : ContainerInfo) (op : WriterOp) : Prop :=
  match op with
  | OpUpsert i => ContainerID i ≠ ContainerID info
  | OpDelete id => id ≠ ContainerID info
  | OpReplace infos => NoDup (map ContainerID infos) ∧ info ∈ infos
  end.

Lemma ops_keep info ops : ∀ s : ContainerStore.t, Forall op_fit ops → Forall (op_keeps info) ops → plain (ContainerID info) → ContainerID info ≠ "" →
  s !! ContainerID info = Some info → run_ops ops s !! ContainerID info = Some info.
Proof.
  induction ops as [|op ops IH]; intros s Hfit Hkeep Hp Hne Hs; [done|].
  apply Forall_cons in Hfit as [Hf Hfit], Hkeep as [Hk Hkeep]. apply IH; [done..|]. destruct op as [i|id|infos]; cbn in *.
  - rewrite lookup_Upsert, bool_decide_eq_false_2; [done|]. intros [_ ?]. congruence.
  - rewrite lookup_Delete, bool_decide_eq_false_2; [done|]. rewrite !normalizeContainerID_plain by done. intros [_ [?|[_ ?]]]; congruence.
  - apply lookup_Replace_NoDup; [apply Hk|]. split_and!; [apply Hk|done|done].
Qed.

Section fractiond.
Context {R : Type} `{HQ : QuantityLib} `{HS : ContainerStopper R} (close_stopper : R → R).

(** A callback that leaves the record of [ctr] as its creation made it: one about another
    container, or a resynchronization that lists it. *)
Definition keeps_record (p : Plugin world) (pod : PodSandbox) (ctr : Container) (e : event) : Prop :=
  match e with
  | Delivered (OnSynchronize pods ctrs) =>
      let infos := adapter.containers (AnnotationPrefix p) pods ctrs in
      NoDup (map ContainerID infos) ∧ ∃ info, adapter.container (AnnotationPrefix p) (Some pod) (Some ctr) = Some info ∧ info ∈ infos
  | Delivered (OnCreateContainer _ c) | Delivered (OnRemoveContainer c) => Id c ≠ Id ctr
  | _ => True
  end.

Lemma keeps_record_op p pod ctr info e ev op : adapter.container (AnnotationPrefix p) (Some pod) (Some ctr) = Some info →
  keeps_record p pod ctr e → offered p e = Some ev → event_op ev = Some op → op_keeps info op.
Proof.
  intros Hinfo Hk Ho Hop. assert (Hid : ContainerID info = Id ctr) by (apply adapter_container_spec in Hinfo as (_ & cfg & _ & _ & ->); done).
  destruct e as [| |c| | | | | | | | | | |]; try done. destruct c as [pods ctrs|pod' c|c|]; cbn [offered keeps_record] in *; try done.
  - injection Ho as <-. cbn [event_op] in Hop. destruct Hk as (Hnd & info' & Hi & Hin). rewrite Hinfo in Hi. injection Hi as <-.
    destruct (adapter.containers _ pods ctrs) as [|i infos]; [done|]. injection Hop as <-. by split.
  - destruct (is_ok _); [|done]. injection Ho as <-.
    change ((OpUpsert <$> adapter.container (AnnotationPrefix p) (Some pod') (Some c)) = Some op) in Hop.
    destruct (adapter.container (AnnotationPrefix p) (Some pod') (Some c)) as [i|] eqn:E; [|done]. injection Hop as <-. cbn.
    apply adapter_container_spec in E as (_ & cfg & _ & _ & ->). by rewrite Hid.
  - injection Ho as <-. injection Hop as <-. cbn. by rewrite Hid.
Qed.

(** With the worker idle and nothing dropped, the directory is the mapping of all callbacks. *)
Lemma idle_directory flags b (w0 : world) s0 p0 (r0 : R) es st : NewPlugin (main_config flags) b w0 = Ok p0 → simulates w0 s0 →
  Forall op_fit (omap event_op (omap (offered p0) es)) → run close_stopper flags (start flags p0 r0) es = Some st →
  (Z.of_nat (send_count es) ≤ 10240) → pending (events (plugin st)) = [] →
  scan_dir (cur (writer (events (plugin st)))) = persisted <$> run_ops (omap event_op (omap (offered p0) es)) s0.
Proof.
  intros Hnew Hsim Hfit Hrun Hroom Hidle. destruct (NewPlugin_fresh _ _ _ _ Hnew) as [He _].
  destruct (run_has_inv close_stopper flags p0 w0 r0 es st He Hrun) as [tr [_ Hsteps _ Hall _ _ _]].
  destruct (processor_invariant _ _ _ Hsteps) as (applied & Hw & Hacc & _). rewrite Hidle in Hacc. cbn in Hacc. rewrite app_nil_r in Hacc.
  rewrite Hw, fold_safeApply, <- Hacc, Hall by done. by destruct (simulates_run_ops _ _ _ Hfit Hsim) as (_ & H & _).
Qed.

Lemma omap_Forall {A B} (P : B → Prop) (f : A → option B) l : (∀ x y, x ∈ l → f x = Some y → P y) → Forall P (omap f l).
Proof. intros H. apply Forall_forall. intros y (x & Hx & Hy)%list_elem_of_omap. by eapply H. Qed.

(** The record of a container the hook adjusted is in the directory. *)
Lemma created_record flags b (w0 : world) s0 p0 (r0 : R) before after st pod ctr adj info (es := before ++ Delivered (OnCreateContainer pod ctr) :: after) :
  NewPlugin (main_config flags) b w0 = Ok p0 → simulates w0 s0 →
  Forall op_fit (omap event_op (omap (offered p0) es)) → run close_stopper flags (start flags p0 r0) es = Some st →
  Z.of_nat (send_count es) ≤ 10240 → pending (events (plugin st)) = [] →
  buildAdjustment p0 pod ctr = Ok (Some adj) → adapter.container (AnnotationPrefix p0) (Some pod) (Some ctr) = Some info →
  Forall (keeps_record p0 pod ctr) after →
  scan_dir (cur (writer (events (plugin st)))) !! Id ctr = Some (persisted info) ∧ info_fit info.
Proof.
  intros Hnew Hsim Hfit Hrun Hroom Hidle Hadj Hinfo Hafter.
  rewrite (idle_directory flags b w0 s0 p0 r0 es st) by done. clear Hrun. subst es. rewrite !omap_app in Hfit |- *. cbn [omap list_omap offered] in Hfit |- *.
  rewrite Hadj in Hfit |- *. cbn [is_ok] in Hfit |- *. rewrite Hinfo in Hfit |- *. cbn [omap list_omap event_op] in Hfit |- *.
  apply Forall_app in Hfit as [_ [Hi Hfit]%Forall_cons]. split; [|done].
  assert (Hid : ContainerID info = Id ctr ∧ Id ctr ≠ "") by (by apply adapter_container_spec in Hinfo as (? & cfg & _ & _ & ->)).
  destruct Hid as [Hid Hne]. unfold run_ops. rewrite fold_left_app. cbn [fold_left run_op].
  rewrite lookup_fmap, <- Hid. change (fold_left run_op ?l ?s) with (run_ops l s). rewrite (ops_keep info); [done|done| |apply Hi|congruence|].
  - apply omap_Forall. intros ev op Hev Hop. apply list_elem_of_omap in Hev as (e & He & Hev). rewrite Forall_forall in Hafter.
    by eapply keeps_record_op; [|apply Hafter|..].
  - cbn [Store.Upsert ContainerStore_writer]. rewrite lookup_Upsert, bool_decide_eq_true_2; [done|]. split; [congruence|done].
Qed.
End fractiond.

(** ** Lemmas: the series a container counts in *)

Lemma foldr_add_perm (l l' : list Z) : l ≡ₚ l' → foldr Z.add 0 l = foldr Z.add 0 l'.
Proof. induction 1; cbn; lia. Qed.

Section series.
Context (eng : metricsEngine) (g : GPUProcessSnapshot) (uo : ContainerInfo → GPUDevice → list (Z * string))
  (order : gmap podGPUKey PodGPUMetric → list (podGPUKey * PodGPUMetric)) (Horder : ∀ m, order m ≡ₚ map_to_list m).

(** The container of a process contributes to its series, beside others of its pod. *)
Lemma contributors_split pods cs ps c process `{Hok : !PodSourceOk pods cs} (k := process_key c process) :
  c ∈ cs → 1 ≤ RequestedMemoryMiB c → process ∈ ps → PID process ≠ 0 → ResolveProcess pods process = Some c →
  ∃ others, contributors (remember eng g) uo pods cs ps k ≡ₚ c :: others ∧
    ∀ d, d ∈ others → d ∈ cs ∧ d ≠ c ∧ PodUID d = PodUID c.
Proof.
  intros Hc Hreq Hp Hpid Hres. assert (Hin : c ∈ contributors (remember eng g) uo pods cs ps k).
  { apply list_elem_of_filter. split; [|done]. apply andb_true_iff. split; [|by apply Z.ltb_lt; lia]. unfold contributes. apply orb_true_iff. left.
    apply existsb_exists. exists process. split; [by apply list_elem_of_In|]. rewrite Hres, !bool_decide_eq_true_2 by done. by rewrite (proj2 (Z.eqb_neq _ _)). }
  assert (Hnd : NoDup (contributors (remember eng g) uo pods cs ps k)) by (apply NoDup_filter; by eapply NoDup_fmap_1, ps_ids).
  assert (Hall : ∀ d, d ∈ contributors (remember eng g) uo pods cs ps k → d ∈ cs ∧ PodUID d = PodUID c).
  { intros d [[Hcon _]%andb_true_iff Hd]%list_elem_of_filter. split; [done|]. unfold contributes in Hcon.
    apply orb_true_iff in Hcon as [(p & _ & Hk)%existsb_exists|Hk%bool_decide_eq_true].
    - bool_simpl. unfold k, process_key in *. congruence.
    - by apply device_keys_pod in Hk as [_ <-]. }
  apply list_elem_of_split in Hin as (l1 & l2 & E). rewrite E in *. exists (l1 ++ l2). rewrite Permutation_middle. split; [done|].
  rewrite <- Permutation_middle in Hnd. apply NoDup_cons in Hnd as [Hno _].
  intros d Hd. destruct (Hall d) as [? ?]; [by rewrite <- Permutation_middle; right|]. split_and!; [done|by intros ->|done].
Qed.

Lemma process_series pods cs c process `{Hok : !PodSourceOk pods cs} (k := process_key c process) :
  (∀ d, d ∈ cs → slash_free (Namespace d) ∧ slash_free (PodUID d)) →
  c ∈ cs → 1 ≤ RequestedMemoryMiB c → process ∈ Processes g → PID process ≠ 0 → ResolveProcess pods process = Some c →
  ∃ m others, m ∈ Metrics.Metrics (snapshot (Metrics.collect eng g pods uo order)) ∧ podGPUKeyForMetric m = k ∧
    process ∈ attributed pods (Processes g) k ∧
    MemoryBytes m = wrapu64 (foldr Z.add 0 (map UsedGPUMemoryBytes (attributed pods (Processes g) k))) ∧
    RequestedGPUFraction m = gpuFraction (remember eng g) (PGPUIndex process)
      (wrap64 (RequestedMemoryMiB c + foldr Z.add 0 (map RequestedMemoryMiB others))) ∧
    ∀ d, d ∈ others → d ∈ cs ∧ d ≠ c ∧ PodUID d = PodUID c.
Proof.
  intros Hnames Hc Hreq Hp Hpid Hres.
  assert (Hatt : process ∈ attributed pods (Processes g) k).
  { apply list_elem_of_filter. split; [|done]. unfold owner. rewrite (proj2 (Z.eqb_neq _ _)) by done. by rewrite Hres. }
  destruct (collect_series eng g pods cs uo order) as (_ & Hkeys & Hseries); [by intros ->; apply elem_of_nil in Hc|done|done|].
  assert (Hin := proj2 (Hkeys k)). apply list_elem_of_fmap in Hin as (m & Hk & Hm); [|left; intros E; rewrite E in Hatt; by apply elem_of_nil in Hatt].
  destruct (contributors_split pods cs (Processes g) c process Hc Hreq Hp Hpid Hres) as (others & Hperm & Hothers).
  exists m, others. destruct (Hseries m Hm) as [Hmem Hfrac]. rewrite <- Hk in Hmem, Hfrac. split_and!; [done|done|done|done| |done].
  rewrite Hfrac. fold k in Hperm. by rewrite (foldr_add_perm _ (map RequestedMemoryMiB (c :: others))) by by apply Permutation_map.
Qed.
End series.

(** ** Property *)

(** C4: what is enforced is what is measured.  fractiond's process runs over a directory without
    faults, the hook adjusts a container, and later callbacks leave its record alone; once the worker
    is idle and nothing was dropped, metricsd makes a cycle over the directory.  A GPU
    process that the kernel's cgroup file places in that container, and in no other
    recorded one, is then counted in the series of the container's pod and of the
    process's GPU: its memory is in the sum of that series, and the published fraction is
    computed from a sum in which the container counts for exactly the number of MiB that the hook put
    into its environment as its limit, beside other recorded containers of the same pod
    and nothing else; for a pod with no other recorded container it is that number. *)
Theorem enforced_limit_is_measured {R} `{HQ : QuantityLib, HS : ContainerStopper R, HN : NRIRuntime} close_stopper flags b (w0 : world) s0 p0 (r0 : R)
  before after st pod ctr adj (es := before ++ Delivered (OnCreateContainer pod ctr) :: after)
  (Hnew : NewPlugin (main_config flags) b w0 = Ok p0) (Hsim : simulates w0 s0)
  (Hfit : Forall op_fit (omap event_op (omap (offered p0) es)))
  (Hadj : buildAdjustment p0 pod ctr = Ok (Some adj)) (Hid : Id ctr ≠ "")
  (Hafter : Forall (keeps_record p0 pod ctr) after)
  (Hrun : run close_stopper flags (start flags p0 r0) es = Some st)
  (Hroom : Z.of_nat (send_count es) ≤ 10240) (Hidle : pending (events (plugin st)) = [])
  iter match_order list_order readFile procRoot entries eng g uo order process
  (store := (snapshot_store (R:=M) iter (mkWorld (cur (writer (events (plugin st)))) [] [])).1)
  (pods := podSourceSnapshot (CgroupPaths readFile procRoot) match_order list_order store)
  (Hiter : ∀ s n, iter s n ≡ₚ ContainerStore.values s)
  (Hmatch : ∀ p n, match_order p n ≡ₚ ContainerStore.values store) (Hlist : ∀ n, list_order n ≡ₚ ContainerStore.values store)
  (Horder : ∀ m, order m ≡ₚ map_to_list m)
  (Hnames : ∀ d, d ∈ ContainerStore.values store → slash_free (Namespace d) ∧ slash_free (PodUID d))
  (Hprocess : process ∈ Processes g) (Hpid : PID process ≠ 0)
  (Hfile : readFile (PathJoin [procRoot; FormatInt (PID process); cgroupFile]) = Some (render_cgroup entries))
  (Hentries : Forall entry_ok entries)
  (Hplaced : ∃ e, e ∈ entries ∧ cgroupPathContainsContainerID (e_path e) (Id ctr) = true)
  (Hown : ∀ e id d, e ∈ entries → store !! id = Some d → id ≠ Id ctr → cgroupPathMatchesContainer (e_path e) d = false) :
  ∃ limit m others,
    "NVIDIA_GPU_MEMORY_LIMIT=" +:+ FormatInt limit ∈ Env (apply_adjustment adj ctr) ∧ 1 ≤ limit ∧
    m ∈ Metrics.Metrics (snapshot (Metrics.collect eng g pods uo order)) ∧
    podGPUKeyForMetric m = mkKey (PodNamespace pod) (PodName pod) (PodUid pod) (PGPUUUID process) (PGPUIndex process) ∧
    process ∈ attributed pods (Processes g) (podGPUKeyForMetric m) ∧
    MemoryBytes m = wrapu64 (foldr Z.add 0 (map UsedGPUMemoryBytes (attributed pods (Processes g) (podGPUKeyForMetric m)))) ∧
    RequestedGPUFraction m = gpuFraction (remember eng g) (PGPUIndex process) (wrap64 (limit + foldr Z.add 0 (map RequestedMemoryMiB others))) ∧
    (∀ d, d ∈ others → ∃ id, store !! id = Some d ∧ id ≠ Id ctr ∧ PodUID d = PodUid pod) ∧
    ((∀ id d, store !! id = Some d → id ≠ Id ctr → PodUID d ≠ PodUid pod) →
     RequestedGPUFraction m = gpuFraction (remember eng g) (PGPUIndex process) limit).
Proof.
  pose proof (proj1 (buildAdjustment_Some p0 pod ctr adj) Hadj) as (cfg & mode & Hparse & Hempty & _ & Hcalls).
  destruct (enforced_limit cfg Hparse Hempty) as [Hlimit Hge].
  pose proof (proj2 (adapter_container_spec (AnnotationPrefix p0) (Some pod) ctr _)
    (conj Hid (ex_intro _ cfg (conj Hparse (conj Hempty eq_refl))))) as Hinfo.
  destruct (created_record close_stopper flags b w0 s0 p0 r0 before after st pod ctr adj _ Hnew Hsim Hfit Hrun Hroom Hidle Hadj Hinfo Hafter)
    as [Hrec [(_ & _ & _ & Hint & _) _]]. clear Hinfo. set (info := mkContainerInfo _ _ _ _ _ _ _ _) in *.
  assert (Hscan : store = scan_dir (cur (writer (events (plugin st))))).
  { unfold store. by rewrite snapshot_store_scan. }
  rewrite <- Hscan in Hrec.
  assert (Hkeyed : keyed store) by (rewrite Hscan; apply scan_keyed).
  pose proof (podSourceSnapshot_ok (CgroupPaths readFile procRoot) match_order list_order store Hkeyed Hmatch Hlist) as Hok. fold pods in Hok.
  assert (Hres : ResolveProcess pods process = Some (persisted info)).
  { destruct (process_attribution iter (mkWorld (cur (writer (events (plugin st)))) [] []) readFile procRoot match_order list_order process entries Hiter Hmatch Hfile Hentries)
      as [_ Hattr]. fold store pods in Hattr. destruct (ResolveProcess pods process) as [c|].
    - destruct Hattr as [(id & Hc & _) (pre & e & post & -> & Hm & _)]. destruct (decide (id = Id ctr)) as [->|Hne]; [congruence|].
      rewrite (Hown e id c) in Hm; [done|apply elem_of_app; right; left|done|done].
    - destruct Hplaced as (e & He & Hpath). specialize (Hattr e _ _ He Hrec). unfold cgroupPathMatchesContainer in Hattr.
      destruct (cgroupPathContains _ _); [done|]. change (ContainerID (persisted info)) with (Id ctr) in Hattr. congruence. }
  destruct (process_series eng g uo order Horder pods (ContainerStore.values store) (persisted info) process)
    as (m & others & Hm & Hk & Hatt & Hmem & Hfrac & Hothers).
  - exact Hnames.
  - apply elem_of_values. by exists (Id ctr).
  - exact Hge.
  - exact Hprocess.
  - exact Hpid.
  - exact Hres.
  - assert (Hrest : ∀ d, d ∈ others → ∃ id, store !! id = Some d ∧ id ≠ Id ctr ∧ PodUID d = PodUid pod).
    { intros d Hd. destruct (Hothers d Hd) as ([id Hs]%elem_of_values & Hne & Huid). exists id. split_and!; [done| |done]. intros ->. congruence. }
    exists (EffectiveMemoryMiB cfg), m, others. split_and!; [|exact Hge|exact Hm|exact Hk|by rewrite Hk|by rewrite Hk|exact Hfrac|exact Hrest|].
    + rewrite <- Hlimit, Hcalls. apply (injected_env p0 ctr _ mode _ "NVIDIA_GPU_MEMORY_LIMIT"). apply elem_of_adjustment_calls. right; left.
      split; [|done]. rewrite Hlimit. apply FormatInt_nonempty.
    + intros Hsole. assert (others = []) as ->.
      { destruct others as [|d others]; [done|]. destruct (Hrest d) as (id & Hs & Hne & Huid); [left|]. by destruct (Hsole id d Hs Hne). }
      rewrite Hfrac. cbn [map foldr]. rewrite Z.add_0_r. by rewrite wrap64_small.
Qed.

(** The example container is created, its process runs on the device it was given. *)
Definition example_events : list event :=
  [StubNew None; Delivered (OnSynchronize [] []); Delivered (OnCreateContainer example_pod (Plugin.example_container ["PATH=/bin"]));
   Recv; Handle; Recv; Handle].
Definition example_placement : cgroup_entry := mkCgroupEntry "0" "" "/kubepods/podu/c1".
Definition example_cgroups (path : string) : option string :=
  if String.eqb path "/proc/42/cgroup" then Some (render_cgroup [example_placement]) else None.
Definition example_worker : GPUProcessMetric := mkGPUProcessMetric 42 "GPU-a" 0 100 30 1.

Lemma enforced_limit_is_measured_witness :
  let run := @run _ _ _ DecimalQuantities (RecordingStopper (λ _, false)) (λ r, r) in
  ∃ p0 st limit m, example_start = Ok p0 ∧ run example_flags (start example_flags p0 []) example_events = Some st ∧
    let store := scan_dir (cur (writer (events (plugin st)))) in
    let pods := podSourceSnapshot (CgroupPaths example_cgroups "/proc") (λ _ _, ContainerStore.values store) (λ _, ContainerStore.values store) store in
    m ∈ Metrics.Metrics (snapshot (Metrics.collect (newMetricsController 5000000000 0) (example_gpu [example_worker]) pods table_order map_to_list)) ∧
    MPodUID m = "uid" ∧ 1 ≤ limit ∧
    RequestedGPUFraction m = gpuFraction (remember (newMetricsController 5000000000 0) (example_gpu [example_worker])) 0 limit.
Proof.
  cbv zeta. destruct example_start as [p0|] eqn:E0; [|vm_compute in E0; discriminate E0].
  destruct (@run _ _ _ DecimalQuantities (RecordingStopper (λ _, false)) (λ r, r) example_flags (start example_flags p0 []) example_events)
    as [st|] eqn:E1; [|vm_compute in E0; injection E0 as <-; vm_compute in E1; discriminate E1].
  set (iter := λ (s : ContainerStore.t) (_ : nat), ContainerStore.values s).
  set (store := scan_dir (cur (writer (events (plugin st))))).
  assert (Hstore : (snapshot_store (R:=M) iter (mkWorld (cur (writer (events (plugin st)))) [] [])).1 = store).
  { by rewrite snapshot_store_scan. }
  assert (Hst : store = {["c1" := mkContainerInfo "c1" "" "p" "ns" "uid" "" (Some [mkGPUDevice 0 3 ""]) 954]} ∧ pending (events (plugin st)) = []).
  { unfold store. vm_compute in E0. injection E0 as <-. vm_compute in E1. injection E1 as <-. split; vm_compute; reflexivity. }
  destruct Hst as [Hst Hidle].
  destruct (@buildAdjustment _ DecimalQuantities p0 example_pod (Plugin.example_container ["PATH=/bin"])) as [[adj|]|] eqn:Eadj;
    [|vm_compute in E0; injection E0 as <-; vm_compute in Eadj; discriminate Eadj..].
  destruct (@enforced_limit_is_measured _ DecimalQuantities (RecordingStopper (λ _, false)) ToyRuntime (λ r, r) example_flags true (mkWorld None [] []) ∅ p0 []
    [StubNew None; Delivered (OnSynchronize [] [])] [Recv; Handle; Recv; Handle] st example_pod (Plugin.example_container ["PATH=/bin"]) adj)
    with (iter := iter) (match_order := λ (_ : GPUProcessMetric) (_ : nat), ContainerStore.values store) (list_order := λ _ : nat, ContainerStore.values store)
      (readFile := example_cgroups) (procRoot := "/proc") (entries := [example_placement]) (eng := newMetricsController 5000000000 0)
      (g := example_gpu [example_worker]) (uo := table_order) (order := (map_to_list : gmap podGPUKey PodGPUMetric → list (podGPUKey * PodGPUMetric))) (process := example_worker)
    as (limit & m & others & _ & Hge & Hm & Hk & _ & _ & _ & _ & Hfrac); try rewrite Hstore.
  - exact E0.
  - exact simulates_empty.
  - vm_compute in E0. injection E0 as <-. constructor; [|constructor]. split; apply (bool_decide_unpack _); vm_compute; exact I.
  - exact Eadj.
  - discriminate.
  - repeat constructor.
  - exact E1.
  - vm_compute. discriminate.
  - exact Hidle.
  - done.
  - done.
  - done.
  - done.
  - rewrite Hst. intros d Hd. apply elem_of_values in Hd as (id & Hd). apply lookup_singleton_Some in Hd as [_ <-].
    split; apply (bool_decide_unpack _); vm_compute; exact I.
  - left.
  - discriminate.
  - vm_compute. reflexivity.
  - constructor; [|constructor]. unfold entry_ok, free_of.
    split; [exists "0"%char, []; done|]. split; [eapply bool_decide_unpack; vm_compute; exact I|].
    split; [eapply bool_decide_unpack; vm_compute; exact I|]. split; [constructor|]. split; [constructor|].
    split; [eexists _, _; split; [reflexivity|reflexivity]|].
    split; [exists (bytes_of "/kubepods/podu/c"), "1"%char; split; reflexivity|].
    eapply bool_decide_unpack. vm_compute. exact I.
  - exists example_placement. split; [left|vm_compute; reflexivity].
  - rewrite Hst. intros e id d _ Hd Hne. apply lookup_singleton_Some in Hd as [<- _]. by destruct Hne.
  - rewrite Hstore in Hm. exists p0, st, limit, m. split_and!; [reflexivity|exact E1|exact Hm|exact (f_equal KPodUID Hk)|exact Hge|].
    apply Hfrac. rewrite Hstore, Hst. intros id d Hd Hne. apply lookup_singleton_Some in Hd as [<- _]. by destruct Hne.
Defined.
