(* ===== verification/Provenance.v ===== *)
(** * Where the records come from

    metricsd believes whatever the mapping directory says of a container.  Over fractiond's
    process (Fractiond) and its writer (FsStore), with any system call failing, at every instant: what
    a record must look like, and which callback it must have come from. *)

From Stdlib Require Import ZArith Lia String Ascii.
From stdpp Require Import base gmap list strings.
From S2P Require Import Prelude GoStrings Annotations Json Injection Runtime Store FileSystem FsStore Events Adapter RetroAudit Plugin Retry GoTime GoFlag DaemonFlags CriStopper PodSource Fractiond Handoff.

#[local] Open Scope string_scope.
#[local] Open Scope list_scope.
#[local] Open Scope Z_scope.

(** ** Lemmas: what the writer adds to a directory *)

(** Every record a scan of the directory finds satisfies [good]. *)
Definition records (good : string → ContainerInfo → Prop) (v : ContainerStore.t) : Prop := ∀ id c, v !! id = Some c → good id c.

(** The records an operation would write. *)
Definition op_good (good : string → ContainerInfo → Prop) (op : WriterOp) : Prop :=
  let fine i := ContainerID i ≠ "" → good (ContainerID i) (persisted i) in
  match op with OpUpsert i => fine i | OpDelete _ => True | OpReplace infos => Forall fine infos end.

Lemma op_good_impl (good good' : string → ContainerInfo → Prop) op : (∀ id c, good id c → good' id c) → op_good good op → op_good good' op.
Proof. intros H. destruct op as [i| |infos]; cbn; [auto|done|]. intros Hf. eapply Forall_impl; [exact Hf|]. auto. Qed.

Section writer.
Context (good : string → ContainerInfo → Prop).
Abbreviation good_dir := (λ d, records good (scan_dir d)).

Lemma writeRecord_keeps i : info_fit i → ContainerID i ≠ "" → good (ContainerID i) (persisted i) → keeps good_dir (Writer.writeRecord i).
Proof.
  intros Hi Hne Hg. eapply (keeps_views _ (records good) _ (ContainerStore.Upsert (persisted i))); [done| |intros v; by apply writeRecord_views].
  intros v Hv id c. rewrite lookup_Upsert. case_bool_decide as Hb; [|apply Hv]. destruct Hb as [_ ->]. by intros [= <-].
Qed.

Lemma Remove_keeps k : keeps good_dir (Remove (k +:+ fileExtension)).
Proof.
  eapply (keeps_views _ (records good) _ (delete k)); [done| |apply triple_Remove]. intros v Hv id c [_ Hc]%lookup_delete_Some. by apply Hv.
Qed.

Lemma replace_prune_keeps desired e : keeps good_dir (Writer.replace_prune desired e).
Proof.
  unfold Writer.replace_prune. destruct e as [name n]. cbn [fst snd].
  destruct (isDir n || negb (HasSuffix name fileExtension)) eqn:Es; [apply keeps_ret|]. case_bool_decide; [apply keeps_ret|].
  apply orb_false_iff in Es as [_ [k ->]%negb_false_iff%HasSuffix_spec]. apply keeps_bind; [apply Remove_keeps|intros; apply keeps_ret].
Qed.

Lemma Replace_keeps infos : Forall info_fit infos → op_good good (OpReplace infos) → keeps good_dir (Writer.Replace infos).
Proof.
  intros Hf Hg. cbn in Hg. rewrite Forall_forall in Hf, Hg. unfold Writer.Replace. apply keeps_bind.
  { apply keeps_quiet. intros o d Hd. destruct (fails o); [done|]. cbn [snd]. by rewrite scan_dir_mkdir. }
  intros [[]|e]; [|apply keeps_ret]. apply keeps_bind.
  { apply keeps_for_each. intros i Hi. unfold Writer.replace_write. destruct (String.eqb_spec (ContainerID i) "") as [|Hne]; [apply keeps_ret|].
    apply keeps_bind; [|intros; apply keeps_ret]. apply writeRecord_keeps; [by apply Hf|done|by apply Hg]. }
  intros []. apply keeps_bind.
  { apply keeps_quiet. intros o [m|] Hd; [|done]. by destruct (fails o). }
  intros [entries|e]; [|apply keeps_ret]. apply keeps_for_each. intros e _. apply replace_prune_keeps.
Qed.

(** One operation, whatever fails: at every instant the records are good. *)
Lemma run_op_keeps op (w : world) : op_fit op → op_good good op → good_dir (cur w) →
  ∃ hs, history (run_op w op) = history w ++ hs ∧ Forall good_dir hs ∧ good_dir (cur (run_op w op)).
Proof.
  intros Hf Hg Hw. assert (Hrun : ∀ m : M unit, keeps good_dir m → ∃ hs, history (m w).2 = history w ++ hs ∧ Forall good_dir hs ∧ good_dir (cur (m w).2)).
  { intros m Hm. exact (Hm w Hw). }
  destruct op as [i|id|infos]; cbn [run_op op_fit] in *; cbn [Store.Upsert Store.Delete Store.Replace Writer_store]; apply Hrun.
  - unfold Writer.Upsert. destruct (String.eqb_spec (ContainerID i) "") as [|Hne]; [apply keeps_ret|].
    apply keeps_bind; [|intros; apply keeps_ret]. apply writeRecord_keeps; [done|done|by apply Hg].
  - unfold Writer.Delete. destruct (String.eqb_spec id "") as [|Hne]; [apply keeps_ret|]. rewrite fileName_plain by done.
    apply keeps_bind; [apply Remove_keeps|intros; apply keeps_ret].
  - by apply Replace_keeps.
Qed.

Lemma run_ops_keeps ops : ∀ w : world, Forall op_fit ops → Forall (op_good good) ops → good_dir (cur w) →
  ∃ hs, history (run_ops ops w) = history w ++ hs ∧ Forall good_dir hs ∧ good_dir (cur (run_ops ops w)).
Proof.
  induction ops as [|op ops IH]; intros w Hf Hg Hw; [exists []; rewrite app_nil_r; by split_and!|].
  apply Forall_cons in Hf as [Hf Hfs], Hg as [Hg Hgs]. destruct (run_op_keeps op w Hf Hg Hw) as (h1 & E1 & H1 & Hw1).
  destruct (IH (run_op w op) Hfs Hgs Hw1) as (h2 & E2 & H2 & Hw2). exists (h1 ++ h2).
  split_and!; [|by apply Forall_app|done]. change (run_ops (op :: ops) w) with (run_ops ops (run_op w op)). by rewrite E2, E1, app_assoc.
Qed.
End writer.

(** ** Lemmas: what the process offers to the writer *)

Section process.
Context {R : Type} `{HQ : QuantityLib} `{HS : ContainerStopper R}.

(** The container [ctr] of [pod], as a callback of the runtime named it. *)
Definition named (es : list event) (pod : PodSandbox) (ctr : Container) : Prop :=
  Delivered (OnCreateContainer pod ctr) ∈ es ∨
  ∃ pods ctrs, Delivered (OnSynchronize pods ctrs) ∈ es ∧ Some ctr ∈ ctrs ∧ podSandboxLookup pods !! PodSandboxId ctr = Some pod.

(** The record says of a container the runtime named what its pod's annotations ask for. *)
Definition truthful (p : Plugin world) (es : list event) (id : string) (c : ContainerInfo) : Prop :=
  ∃ pod ctr cfg, named es pod ctr ∧ Id ctr = id ∧ id ≠ "" ∧
    ParseGPUMemoryAnnotations (Runtime.Annotations pod) (Name ctr) (AnnotationPrefix p) = Ok cfg ∧ IsEmpty cfg = false ∧
    ContainerID c = id ∧ Pod c = PodName pod ∧ Namespace c = PodNamespace pod ∧ PodUID c = PodUid pod ∧
    RequestedMemoryMiB c = EffectiveMemoryMiB cfg ∧ 1 ≤ RequestedMemoryMiB c ∧
    elems (GPUDevices c) = elems (gpudevices.FromContainer ctr).

Lemma adapter_needs_pod prefix c : adapter.container prefix None (Some c) = None.
Proof.
  destruct (adapter.container prefix None (Some c)) as [info|] eqn:E; [|done]. apply adapter_container_spec in E as (_ & cfg & Hp & He & _).
  unfold ParseGPUMemoryAnnotations, parseMemoryField in Hp. cbn [GetPodAnnotations] in Hp. rewrite !lookup_empty in Hp. by injection Hp as <-.
Qed.

Lemma adapted_truthful p es pod ctr info : named es pod ctr → adapter.container (AnnotationPrefix p) (Some pod) (Some ctr) = Some info →
  truthful p es (ContainerID info) (persisted info).
Proof.
  intros Hn (Hid & cfg & Hp & He & ->)%adapter_container_spec. destruct (enforced_limit cfg Hp He) as [_ Hge].
  exists pod, ctr, cfg. cbn. by split_and!.
Qed.

Lemma offered_good p es e ev op : e ∈ es → offered p e = Some ev → event_op ev = Some op → op_good (truthful p es) op.
Proof.
  intros He Ho Hop. destruct e as [| |c| | | | | | | | | | |]; try done. destruct c as [pods ctrs|pod ctr|ctr|]; cbn [offered] in Ho; [| | |done].
  - injection Ho as <-. cbn [event_op] in Hop.
    assert (Hall : Forall (λ i, truthful p es (ContainerID i) (persisted i)) (adapter.containers (AnnotationPrefix p) pods ctrs)).
    { apply Forall_forall. intros i Hi. rewrite adapter_containers_omap in Hi. apply list_elem_of_omap in Hi as ([ctr|] & Hin & Hi); [|done]. cbn [GetPodSandboxId] in Hi.
      destruct (podSandboxLookup pods !! PodSandboxId ctr) as [pod|] eqn:Ep; [|by rewrite adapter_needs_pod in Hi].
      eapply adapted_truthful; [|exact Hi]. right. by exists pods, ctrs. }
    destruct (adapter.containers _ _ _) as [|i infos]; [done|]. injection Hop as <-. cbn. eapply Forall_impl; [exact Hall|]. by intros.
  - destruct (is_ok _); [|done]. injection Ho as <-.
    change ((OpUpsert <$> adapter.container (AnnotationPrefix p) (Some pod) (Some ctr)) = Some op) in Hop.
    destruct (adapter.container (AnnotationPrefix p) (Some pod) (Some ctr)) as [i|] eqn:E; [|done]. injection Hop as <-.
    intros _. eapply adapted_truthful; [|exact E]. by left.
  - injection Ho as <-. by injection Hop as <-.
Qed.
End process.

(** ** Property *)

(** C7: every record is true of a container.  fractiond runs over any directory, any
    system call of its writer may fail, events may be dropped.  At every instant of the run, a record
    that a scan of the mapping directory finds was there before the start, or is the record
    of a container that some callback of the runtime named: its file bears the container's ID, which
    is not empty, it names the container's own pod, its devices are the container's, and its
    memory is at least one MiB and what the annotations of that pod ask for that
    container.  No half-written and no mixed record is ever seen.  (The strings are
    ASCII, the IDs bare, the numbers fit int64.) *)
Theorem records_are_truthful {R} `{HQ : QuantityLib, HS : ContainerStopper R} close_stopper flags b (w0 : world) p0 (r0 : R) es st
  (Hnew : NewPlugin (main_config flags) b w0 = Ok p0)
  (Hfit : Forall op_fit (omap event_op (omap (offered p0) es)))
  (Hrun : run close_stopper flags (start flags p0 r0) es = Some st) (w := writer (events (plugin st))) :
  ∃ hs, history w = history w0 ++ hs ∧
    ∀ d, d ∈ hs ∨ d = cur w → ∀ id c, scan_dir d !! id = Some c → scan_dir (cur w0) !! id = Some c ∨ truthful p0 es id c.
Proof.
  destruct (NewPlugin_fresh _ _ _ _ Hnew) as [He _]. destruct (run_has_inv close_stopper flags p0 w0 r0 es st He Hrun) as [tr [_ Hsteps Hsub _ _ _ _]].
  destruct (processor_invariant _ _ _ Hsteps) as (applied & Hw & Hacc & _). fold w in Hw. rewrite fold_safeApply in Hw.
  assert (Happ : applied `sublist_of` omap (offered p0) es) by (etransitivity; [|exact Hsub]; rewrite Hacc; apply sublist_inserts_r; reflexivity).
  set (good := λ id c, scan_dir (cur w0) !! id = Some c ∨ truthful p0 es id c).
  destruct (run_ops_keeps good (omap event_op applied) w0) as (hs & Hh & Hall & Hcur).
  - by eapply Forall_omap_sublist.
  - eapply Forall_omap_sublist; [exact Happ|]. apply Forall_forall. intros op (ev & Hev & Hop)%list_elem_of_omap.
    apply list_elem_of_omap in Hev as (e & Hin & Ho).
    eapply op_good_impl; [|by eapply offered_good]. intros id c Ht. by right.
  - intros id c Hc. by left.
  - rewrite <- Hw in Hh, Hcur. exists hs. split; [done|]. rewrite Forall_forall in Hall. intros d [Hd| ->]; [by apply Hall|exact Hcur].
Qed.

(** The example container is created over a directory with a record of before; it is removed, and
    the removal of its file fails. *)
Definition example_before : directory := Some {["old.json" := NFile (json_Marshal (newRecord (mkContainerInfo "old" "" "q" "ns" "u" "" None 7)))]}.
Definition example_world : world := mkWorld example_before (replicate 7 success ++ [mkOutcome true 0 ""]) [].
Definition example_removed : list event :=
  let ctr := Plugin.example_container ["PATH=/bin"] in
  [StubNew None; Delivered (OnSynchronize [] []); Delivered (OnCreateContainer example_pod ctr); Delivered (OnRemoveContainer ctr);
   Recv; Handle; Recv; Handle; Recv; Handle].

Lemma records_are_truthful_witness :
  ∃ p0 st c, NewPlugin (main_config example_flags) true example_world = Ok p0 ∧
    @run _ _ _ DecimalQuantities (RecordingStopper (λ _, false)) (λ r, r) example_flags (start example_flags p0 []) example_removed = Some st ∧
    scan_dir (cur (writer (events (plugin st)))) !! "c1" = Some c ∧ RequestedMemoryMiB c = 954 ∧ @truthful DecimalQuantities p0 example_removed "c1" c.
Proof.
  destruct (NewPlugin (main_config example_flags) true example_world) as [p0|] eqn:E0; [|vm_compute in E0; discriminate E0].
  destruct (@run _ _ _ DecimalQuantities (RecordingStopper (λ _, false)) (λ r, r) example_flags (start example_flags p0 []) example_removed)
    as [st|] eqn:E1; [|vm_compute in E0; injection E0 as <-; vm_compute in E1; discriminate E1].
  set (c := mkContainerInfo "c1" "" "p" "ns" "uid" "" (Some [mkGPUDevice 0 3 ""]) 954).
  assert (Hc : scan_dir (cur (writer (events (plugin st)))) !! "c1" = Some c).
  { vm_compute in E0. injection E0 as <-. vm_compute in E1. injection E1 as <-. vm_compute. reflexivity. }
  exists p0, st, c. split; [reflexivity|]. split; [exact E1|]. split; [exact Hc|]. split; [reflexivity|].
  destruct (@records_are_truthful _ DecimalQuantities (RecordingStopper (λ _, false)) (λ r, r) example_flags true example_world p0 [] example_removed st E0)
    as (hs & _ & H).
  - vm_compute in E0. injection E0 as <-. constructor; [split; apply (bool_decide_unpack _); vm_compute; exact I|].
    constructor; [apply (bool_decide_unpack _); vm_compute; exact I|constructor].
  - exact E1.
  - destruct (H _ (or_intror eq_refl) "c1" c Hc) as [Hold|Ht]; [vm_compute in Hold; discriminate Hold|exact Ht].
Defined.
