(* ===== verification/Node.v ===== *)
(** * Enforcement on a node

    The container runtime of a node beside fractiond's process (Fractiond): pods and
    containers come and go whether or not the plugin is registered, the runtime calls the plugin
    while it is, hands over its containers when it synchronizes, and stops a container when the
    remediation asks for it.  What the audit (internal/audit) is for is proved over this system. *)

From Stdlib Require Import ZArith Lia String Ascii.
From stdpp Require Import base gmap list strings.
From S2P Require Import Prelude GoStrings Annotations Injection Runtime Store FileSystem FsStore Events Adapter RetroAudit Plugin Retry GoTime GoFlag DaemonFlags CriStopper Fractiond.

#[local] Open Scope string_scope.
#[local] Open Scope list_scope.

#[local] Instance ContainerState_eq_dec : EqDecision ContainerState.
Proof. solve_decision. Defined.

(** ** The runtime *)

(** [used]: a runtime never gives an ID to a second container. *)
Record runtime := mkRuntime {
  sandboxes : gmap string PodSandbox;
  containers : gmap string Container;
  used : gset string
}.

Definition set_container (c : Container) (n : runtime) : runtime :=
  mkRuntime (sandboxes n) (<[Id c := c]> (containers n)) ({[Id c]} ∪ used n).

(** The CRI's StopContainer: the container stops, unless the runtime refuses. *)
Definition stop (refuses : string → bool) (id : string) (n : runtime) : runtime :=
  if refuses id then n else mkRuntime (sandboxes n) (alter (with_state CONTAINER_STOPPED) id (containers n)) (used n).
Definition RuntimeStopper (refuses : string → bool) : ContainerStopper runtime := {|
  StopError := unit;
  Stop id n := (if refuses id then Err tt else Ok tt, stop refuses id n)
|}.

(** A container is created, runs and stops; a runtime does not start it again.  (Nor does a
    kubelet's runtime pause and resume one: the audit would pass a paused container over.) *)
Definition advances (old new : ContainerState) : bool :=
  match old, new with
  | CONTAINER_CREATED, (CONTAINER_RUNNING | CONTAINER_STOPPED) | CONTAINER_RUNNING, CONTAINER_STOPPED => true
  | _, _ => false
  end.

Inductive node_event :=
| RunPod (pod : PodSandbox)
| Create (ctr : Container)
| Advance (id : string) (s : ContainerState)
| Delete (id : string)
| Synchronized                                 (** the runtime synchronizes the plugin *)
| ShutDown                                     (** the runtime says it shuts down *)
| Process (e : event).                         (** a step of fractiond's own, no callback *)

Section node.
Context {St : Type} `{HW : StoreWriter St} `{HQ : QuantityLib} `{HN : NRIRuntime}.
Context (refuses : string → bool) (flags : fractiond_cmd.cliFlags).

#[local] Instance node_stopper : ContainerStopper runtime := RuntimeStopper refuses.

Abbreviation node := (fractiond (St:=St) (R:=runtime)).
Definition node_of (st : node) : runtime := stopper st.
Definition with_node (n : runtime) (st : node) : node :=
  mkFractiond (plugin st) n (conn st) (attempt st) (backoff st) (signalled st) (readyz st) (main st).

(** Is the plugin called for what happens? *)
Definition registered (st : node) : bool := match conn st with Up synced => synced | _ => false end.

Definition callback_step (c : callback) (st : node) : option node := step (λ n, n) flags st (Delivered c).

Definition node_step (st : node) (e : node_event) : option node :=
  let n := node_of st in
  match e with
  | RunPod pod =>
      match sandboxes n !! PodId pod with
      | None => if String.eqb (PodId pod) "" then None else Some (with_node (mkRuntime (<[PodId pod := pod]> (sandboxes n)) (containers n) (used n)) st)
      | Some _ => None
      end
  | Create ctr =>
      if String.eqb (Id ctr) "" || bool_decide (Id ctr ∈ used n) then None
      else match sandboxes n !! PodSandboxId ctr with
      | None => None
      | Some pod =>
          if registered st then
            st' ← callback_step (OnCreateContainer pod ctr) st;
            match (CreateContainer (plugin st) pod ctr).2 with
            | Ok (Some adj) => Some (with_node (set_container (apply_adjustment adj ctr) n) st')
            | Ok None => Some (with_node (set_container ctr n) st')
            | Err _ => Some st'                                       (* the creation fails *)
            end
          else Some (with_node (set_container ctr n) st)
      end
  | Advance id s =>
      c ← containers n !! id;
      if advances (State c) s then Some (with_node (mkRuntime (sandboxes n) (<[id := with_state s c]> (containers n)) (used n)) st) else None
  | Delete id =>
      c ← containers n !! id;
      let n' := mkRuntime (sandboxes n) (delete id (containers n)) (used n) in
      if registered st then with_node n' <$> callback_step (OnRemoveContainer c) st else Some (with_node n' st)
  | Synchronized =>
      match conn st with
      | Up false => callback_step (OnSynchronize (map Some (map_to_list (sandboxes n)).*2) (map Some (map_to_list (containers n)).*2)) st
      | _ => None
      end
  | ShutDown => match conn st with Up true => callback_step OnShutdown st | _ => None end
  | Process e => match e with Delivered _ => None | _ => step (λ n, n) flags st e end
  end.

Definition node_run (st : node) (es : list node_event) : option node := fold_left (λ o e, o ≫= λ st, node_step st e) es (Some st).

(** ** Lemmas: one container *)

Lemma with_state_self c : with_state (State c) c = c.
Proof. by destruct c. Qed.

Lemma misses_with_state (p : Plugin St) pod c s : enforceable (State c) = true → enforceable s = true →
  misses_injection p pod (with_state s c) ↔ misses_injection p pod c.
Proof. intros H1 H2. unfold misses_injection. cbn. by rewrite H1, H2. Qed.

Lemma buildAdjustment_settings (p p' : Plugin St) pod c : settings p = settings p' → buildAdjustment p pod c = buildAdjustment p' pod c.
Proof. destruct p, p'. cbn. intros [= -> -> -> -> ->]. done. Qed.

Lemma advances_enforceable old new : advances old new = true → enforceable old = true.
Proof. by destruct old. Qed.

(** ** Lemmas: the runtime's side of the callbacks *)

Lemma podSandboxLookup_values pods id pod : NoDup (PodId <$> pods) →
  podSandboxLookup (map Some pods) !! id = Some pod ↔ pod ∈ pods ∧ PodId pod = id ∧ id ≠ "".
Proof.
  intros Hnd. unfold podSandboxLookup. induction pods as [|q pods IH] using rev_ind; cbn.
  { rewrite lookup_empty. split; [done|]. by intros (?%elem_of_nil & _). }
  rewrite fmap_app in Hnd. apply NoDup_app in Hnd as (Hnd & Hq & _). specialize (IH Hnd). rewrite map_app, fold_left_app. cbn [map fold_left].
  rewrite elem_of_app, list_elem_of_singleton. destruct (String.eqb_spec (PodId q) "") as [He|Hne].
  - rewrite IH. split; [tauto|]. intros ([?| ->] & <- & ?); [done|congruence].
  - rewrite lookup_insert_Some, IH. split.
    + intros [[<- <-]|[_ (? & ? & ?)]]; auto.
    + intros ([Hin| ->] & <- & ?); [right|by left]. split; [|auto]. intros Heq. apply (Hq (PodId q)); [|by left].
      rewrite Heq. by apply list_elem_of_fmap_2.
Qed.

Definition keyed_pods (m : gmap string PodSandbox) : Prop := ∀ id pod, m !! id = Some pod → PodId pod = id ∧ id ≠ "".

Lemma podSandboxLookup_map m : keyed_pods m → podSandboxLookup (map Some (map_to_list m).*2) = m.
Proof.
  intros Hk. apply map_eq. intros id. apply option_eq. intros pod. rewrite podSandboxLookup_values.
  - split.
    + intros (Hin & <- & _). apply list_elem_of_fmap in Hin as ([id pod'] & -> & Hin%elem_of_map_to_list). cbn [snd] in *. destruct (Hk _ _ Hin) as [-> _]. done.
    + intros Hp. destruct (Hk _ _ Hp) as [? ?]. split_and!; [|done|done]. apply list_elem_of_fmap. exists (id, pod). by rewrite elem_of_map_to_list.
  - rewrite <- list_fmap_compose. rewrite (list_fmap_ext _ fst); [apply NoDup_fst_map_to_list|].
    intros _ [id' pod'] Hin%list_elem_of_lookup_2%elem_of_map_to_list. cbn. by apply Hk.
Qed.

Lemma remediate_node vs : ∀ n, let n' := remediate vs n in sandboxes n' = sandboxes n ∧ used n' = used n ∧
  ∀ id, containers n' !! id = if decide (id ∈ map vContainerID vs ∧ refuses id = false)
    then with_state CONTAINER_STOPPED <$> containers n !! id else containers n !! id.
Proof.
  induction vs as [|v vs IH]; intros n; cbv zeta.
  { split_and!; [done|done|]. intros id. rewrite decide_False; [done|]. by intros [?%elem_of_nil _]. }
  destruct (IH (stop refuses (vContainerID v) n)) as (H1 & H2 & H3).
  change (remediate (v :: vs) n) with (remediate vs (stop refuses (vContainerID v) n)). rewrite H1, H2. setoid_rewrite H3. clear H1 H2 H3.
  cbn [map]. unfold stop. destruct (refuses (vContainerID v)) eqn:Er; cbn [sandboxes used containers]; (split_and!; [done|done|]); intros id.
  - destruct (decide _) as [[H ?]|H]; destruct (decide _) as [[H' ?]|H']; try done; [destruct H'|destruct H]; (split; [|done]); [by right|].
    apply elem_of_cons in H' as [->|?]; [congruence|done].
  - destruct (decide (id = vContainerID v)) as [->|Hne].
    + rewrite lookup_alter_eq, (decide_True (P := _ ∈ vContainerID v :: _ ∧ _)) by (split; [left|done]).
      destruct (containers n !! _); cbn; by destruct (decide _).
    + rewrite lookup_alter_ne by done. destruct (decide _) as [[H ?]|H]; destruct (decide _) as [[H' ?]|H']; try done; [destruct H'|destruct H]; (split; [|done]); [by right|].
      by apply elem_of_cons in H' as [->|?].
Qed.

(** ** The invariant *)

Definition queued (st : node) : list string := map vContainerID (to_stop (plugin st)).

Definition missing (p0 : Plugin St) (n : runtime) (id : string) : Prop :=
  ∃ c pod, containers n !! id = Some c ∧ sandboxes n !! PodSandboxId c = Some pod ∧ misses_injection p0 pod c.

Record node_inv (p0 : Plugin St) (st : node) : Prop := {
  ni_settings : settings (plugin st) = settings p0;
  ni_sentinel : ∃ s, sentinel (plugin st) = Some s ∧ sDetector s = mkDetector (AnnotationPrefix p0) (MPSPipeDirectory p0) (SupportSMSharing p0) (FailOpen p0);
  ni_pods : keyed_pods (sandboxes (node_of st));
  ni_ctrs : ∀ id c, containers (node_of st) !! id = Some c →
    Id c = id ∧ id ≠ "" ∧ id ∈ used (node_of st) ∧ is_Some (sandboxes (node_of st) !! PodSandboxId c);
  ni_queued : ∀ id, id ∈ queued st → id ∈ used (node_of st) ∧
    ∀ c, containers (node_of st) !! id = Some c → State c = CONTAINER_STOPPED ∨ missing p0 (node_of st) id;
  ni_missing : conn st = Up true → ∀ id, missing p0 (node_of st) id → id ∈ queued st ∨ refuses id = true
}.

(** Steps of the process that leave the runtime and the audit alone. *)
Definition same_node (st st' : node) : Prop :=
  node_of st' = node_of st ∧ settings (plugin st') = settings (plugin st) ∧ sentinel (plugin st') = sentinel (plugin st) ∧
  (conn st' = Up true → conn st = Up true).

Lemma inv_same_node p0 st st' : same_node st st' → node_inv p0 st → node_inv p0 st'.
Proof.
  intros (Hn & Hs & Hsent & Hc) [H1 H2 H3 H4 H5 H6]. assert (Hq : queued st' = queued st) by (unfold queued, to_stop; by rewrite Hsent).
  split; rewrite ?Hn, ?Hsent, ?Hs, ?Hq; auto.
Qed.

Lemma processor_same_node f (st st' : node) : processor_step f st = Some st' → same_node st st'.
Proof. unfold processor_step. destruct (f _); [|done]. by intros [= <-]. Qed.

Lemma CreateContainer_keeps (p : Plugin St) pod c : let p' := (CreateContainer p pod c).1 in settings p' = settings p ∧ sentinel p' = sentinel p.
Proof. unfold CreateContainer. destruct (buildAdjustment _ _ _); [|done]. by destruct (Events.Upsert _ _). Qed.
Lemma RemoveContainer_keeps (p : Plugin St) c : let p' := RemoveContainer p c in settings p' = settings p ∧ sentinel p' = sentinel p.
Proof. unfold RemoveContainer. by destruct (Events.Delete _ _). Qed.

Lemma deliver_same_node c (st : node) : match c with OnSynchronize _ _ => False | _ => True end → same_node st (deliver c st).
Proof.
  destruct c as [|pod c|c|]; [done|intros _..]; unfold same_node; cbn.
  - destruct (CreateContainer_keeps (plugin st) pod c). done.
  - destruct (RemoveContainer_keeps (plugin st) c). done.
  - done.
Qed.

Lemma process_same_node e (st st' : node) : match e with Delivered _ | Remediated _ => False | _ => True end →
  live_step (λ n, n) flags st e = Some st' → same_node st st'.
Proof.
  intros He Hs. destruct e as [|err|c|n| | |i|err u| | |n| | |]; cbn [live_step] in Hs; try done.
  - by injection Hs as <-.
  - destruct (conn st); try done. injection Hs as <-. unfold same_node. cbn. by destruct err.
  - by eapply processor_same_node.
  - by eapply processor_same_node.
  - by eapply processor_same_node.
  - destruct (conn st) eqn:E; try done. injection Hs as <-. unfold same_node, after_run. rewrite E. destruct (signalled st); [done|].
    destruct (_ <=? u)%Z; cbn; by destruct (_ && _).
  - destruct (conn st); try done. by injection Hs as <-.
  - destruct (conn st); try done. destruct (signalled st); [|done]. by injection Hs as <-.
  - destruct (main st), (conn st) eqn:E; try done. destruct (processor_step _ st) as [s|] eqn:Ep; [|done]. injection Hs as <-.
    by apply processor_same_node in Ep.
  - unfold main_exit in Hs. destruct (main st), (conn st) eqn:E; try done. case_match; [|done]. injection Hs as <-.
    unfold same_node. cbn. rewrite E. by case_match.
  - destruct (readyz st); try done. by injection Hs as <-.
  - destruct (readyz st); try done. destruct (signalled st); [|done]. by injection Hs as <-.
Qed.

Lemma process_live (st : node) e st' : step (λ n, n) flags st e = Some st' → live_step (λ n, n) flags st e = Some st'.
Proof. unfold step. by destruct (main st). Qed.

Lemma callback_same_node c (st st' : node) : match c with OnSynchronize _ _ => False | _ => True end →
  callback_step c st = Some st' → same_node st st'.
Proof.
  intros Hc Hs%process_live. cbn [live_step] in Hs. destruct (conn st) eqn:E; try done. injection Hs as <-. by apply deliver_same_node.
Qed.

(** *** The runtime's own steps *)

Lemma inv_run_pod p0 st pod (n := node_of st) : node_inv p0 st → sandboxes n !! PodId pod = None → PodId pod ≠ "" →
  node_inv p0 (with_node (mkRuntime (<[PodId pod := pod]> (sandboxes n)) (containers n) (used n)) st).
Proof.
  intros [H1 H2 H3 H4 H5 H6] Hfresh Hne. subst n.
  assert (Hpod : ∀ id c, containers (node_of st) !! id = Some c → <[PodId pod := pod]> (sandboxes (node_of st)) !! PodSandboxId c = sandboxes (node_of st) !! PodSandboxId c).
  { intros id c Hc. destruct (H4 id c Hc) as (_ & _ & _ & [q Hq]). rewrite lookup_insert_ne; [done|]. intros Heq. by rewrite Heq, Hq in Hfresh. }
  assert (Hmiss : ∀ id, missing p0 (mkRuntime (<[PodId pod := pod]> (sandboxes (node_of st))) (containers (node_of st)) (used (node_of st))) id ↔
    missing p0 (node_of st) id).
  { intros id. unfold missing. cbn. split; intros (c & q & Hc & Hq & Hm); exists c, q; (split_and!; [done| |done]); by rewrite (Hpod id) in *. }
  split; cbn; [done|done| | | |].
  - intros id q [[<- <-]|[_ Hq]]%lookup_insert_Some; [done|by apply H3].
  - intros id c Hc. destruct (H4 id c Hc) as (? & ? & ? & ?). by rewrite (Hpod id c Hc).
  - intros id Hid. destruct (H5 id Hid) as [Hu Hq]. split; [done|]. intros c Hc. destruct (Hq c Hc); [by left|right; by apply Hmiss].
  - intros Hc id Hm. apply H6; [done|]. by apply Hmiss.
Qed.

Lemma inv_create p0 st c pod (n := node_of st) : node_inv p0 st → Id c ≠ "" → Id c ∉ used n → sandboxes n !! PodSandboxId c = Some pod →
  (conn st = Up true → ¬ misses_injection p0 pod c) → node_inv p0 (with_node (set_container c n) st).
Proof.
  intros [H1 H2 H3 H4 H5 H6] Hne Hfresh Hpod Hinj. subst n.
  assert (Hmiss : ∀ id, id ≠ Id c → missing p0 (set_container c (node_of st)) id ↔ missing p0 (node_of st) id).
  { intros id Hid. unfold missing. cbn. by setoid_rewrite lookup_insert_ne. }
  split; cbn; [done|done|done| | |].
  - intros id c' [[<- <-]|[Hid Hc]]%lookup_insert_Some; [split_and!; [done|done|set_solver|by eexists]|].
    destruct (H4 id c' Hc) as (? & ? & ? & ?). split_and!; [done|done|set_solver|done].
  - intros id Hid. destruct (H5 id Hid) as [Hu Hq]. split; [set_solver|]. intros c' Hc. assert (Hid' : id ≠ Id c) by congruence.
    rewrite lookup_insert_ne in Hc by done. destruct (Hq c' Hc); [by left|right; by apply Hmiss].
  - intros Hc id Hm. destruct (decide (id = Id c)) as [->|Hid]; [|apply H6; [done|]; by apply Hmiss].
    destruct Hm as (c' & q & Hc' & Hq & Hm). cbn in *. rewrite lookup_insert_eq in Hc'. injection Hc' as <-. rewrite Hpod in Hq. injection Hq as <-.
    by destruct (Hinj Hc).
Qed.

Lemma inv_advance p0 st id c s (n := node_of st) : node_inv p0 st → containers n !! id = Some c → advances (State c) s = true →
  node_inv p0 (with_node (mkRuntime (sandboxes n) (<[id := with_state s c]> (containers n)) (used n)) st).
Proof.
  intros [H1 H2 H3 H4 H5 H6] Hc Hadv. subst n. pose proof (advances_enforceable _ _ Hadv) as He. set (n' := mkRuntime _ _ _).
  assert (Hmiss : ∀ id', (∀ c', containers n' !! id' = Some c' → enforceable (State c') = true) → missing p0 n' id' ↔ missing p0 (node_of st) id').
  { intros id' Hen. unfold missing. cbn in *. destruct (decide (id' = id)) as [->|Hne]; [|by setoid_rewrite lookup_insert_ne].
    rewrite lookup_insert_eq, Hc. split; intros (c' & q & [= <-] & Hq & Hm); eexists _, q; (split_and!; [reflexivity|exact Hq|]).
    - apply (misses_with_state p0 q c s); [done|apply Hm|exact Hm].
    - apply (misses_with_state p0 q c s); [done| |exact Hm]. specialize (Hen (with_state s c)). rewrite lookup_insert_eq in Hen. by apply Hen. }
  split; cbn [with_node node_of stopper plugin conn]; [done|done|done| | |].
  - intros id' c' Hc'. change (<[id := with_state s c]> (containers (node_of st)) !! id' = Some c') in Hc'. apply lookup_insert_Some in Hc' as [[<- <-]|[_ Hc']]; [exact (H4 id c Hc)|exact (H4 id' c' Hc')].
  - intros id' Hid. destruct (H5 id' Hid) as [Hu Hq]. split; [done|]. intros c' Hc'. destruct (decide (State c' = CONTAINER_STOPPED)) as [|Hns]; [by left|]. right.
    cbn in Hc'. destruct (decide (id' = id)) as [->|Hne].
    + rewrite lookup_insert_eq in Hc'. injection Hc' as <-. cbn in Hns. destruct (Hq c Hc) as [E|Hm]; [by rewrite E in He|]. apply Hmiss; [|done].
      intros c'. cbn. rewrite lookup_insert_eq. intros [= <-]. cbn. clear -Hadv Hns. by destruct (State c), s.
    + rewrite lookup_insert_ne in Hc' by done. destruct (Hq c' Hc') as [|Hm]; [done|]. apply Hmiss; [|done].
      destruct Hm as (c'' & q & Hc'' & _ & Hm). intros c1. cbn. rewrite lookup_insert_ne by done. intros; simplify_eq. apply Hm.
  - intros Hup id' Hm. apply H6; [done|]. apply Hmiss; [|done]. intros c' Hc'. destruct Hm as (c'' & q & Hc'' & _ & Hm). simplify_eq. apply Hm.
Qed.

Lemma inv_delete p0 st id (n := node_of st) : node_inv p0 st →
  node_inv p0 (with_node (mkRuntime (sandboxes n) (delete id (containers n)) (used n)) st).
Proof.
  intros [H1 H2 H3 H4 H5 H6]. subst n. set (n' := mkRuntime _ _ _).
  assert (Hmiss : ∀ id', missing p0 n' id' ↔ missing p0 (node_of st) id' ∧ id' ≠ id).
  { intros id'. unfold missing. cbn. setoid_rewrite lookup_delete_Some. naive_solver. }
  split; cbn [with_node node_of stopper plugin conn]; [done|done|done| | |].
  - intros id' c' Hc'. cbn in Hc'. apply lookup_delete_Some in Hc' as [_ Hc']. exact (H4 id' c' Hc').
  - intros id' Hid. destruct (H5 id' Hid) as [Hu Hq]. split; [done|]. intros c' Hc'. cbn in Hc'. apply lookup_delete_Some in Hc' as [Hne Hc'].
    destruct (Hq c' Hc'); [by left|right; by apply Hmiss].
  - intros Hup id' [Hm _]%Hmiss. by apply H6.
Qed.
(** A remediation goroutine ends. *)
Lemma inv_remediated p0 i st st' : remediated i st = Some st' → node_inv p0 st → node_inv p0 st'.
Proof.
  intros Hr [H1 (s & Hs & Hd) H3 H4 H5 H6]. unfold remediated in Hr. rewrite Hs in Hr. destruct (decide _) as [Hlt|]; [|done].
  destruct (lookup_lt_is_Some_2 _ _ Hlt) as [vs Hvs]. unfold finish_remediation in Hr. rewrite Hvs in Hr. injection Hr as <-.
  destruct (remediate_node vs (node_of st)) as (Hsb & Hus & Hct). change (stopper st) with (node_of st).
  set (n' := remediate vs (node_of st)) in *.
  assert (Hq : ∀ id, id ∈ queued st ↔ id ∈ map vContainerID vs ∨ id ∈ map vContainerID (List.concat (delete i (sInflight s)))).
  { intros id. unfold queued, to_stop. rewrite Hs. rewrite delete_take_drop. rewrite <- (take_drop_middle _ _ _ Hvs) at 1.
    rewrite !concat_app, !map_app, !elem_of_app. cbn. rewrite map_app, elem_of_app. tauto. }
  assert (Hen : ∀ id c, containers n' !! id = Some c → enforceable (State c) = true →
    containers (node_of st) !! id = Some c ∧ (id ∈ map vContainerID vs → refuses id = true)).
  { intros id c. rewrite Hct. destruct (decide _) as [[? ?]|Hno].
    - destruct (containers (node_of st) !! id); [|done]. by intros [= <-].
    - intros Hc _. split; [done|]. intros Hin. destruct (refuses id) eqn:E; [done|]. by destruct Hno. }
  assert (Hmiss : ∀ id, missing p0 n' id → missing p0 (node_of st) id ∧ (id ∈ map vContainerID vs → refuses id = true)).
  { intros id (c & q & Hc & Hp & Hm). destruct (Hen id c Hc) as [Hc' Hno]; [apply Hm|]. split; [|done]. exists c, q. by rewrite <- Hsb. }
  split; cbn [plugin stopper conn node_of set_sentinel settings sentinel]; [done|by eexists|by rewrite Hsb| | |].
  - intros id c. rewrite Hct, Hsb, Hus. destruct (containers (node_of st) !! id) as [c0|] eqn:Ec; [|by destruct (decide _)].
    destruct (decide _); intros [= <-]; exact (H4 id c0 Ec).
  - intros id Hid. destruct (H5 id) as [Hu Hqm]; [apply Hq; by right|]. rewrite Hus. split; [done|]. intros c Hc.
    rewrite Hct in Hc. destruct (decide _) as [_|Hno].
    { left. destruct (containers (node_of st) !! id); [|done]. by injection Hc as <-. }
    destruct (Hqm c Hc) as [|(c' & q & ? & Hp & Hm)]; [by left|right]. simplify_eq. exists c, q. rewrite Hsb, Hct. by rewrite decide_False.
  - intros Hup id [Hm Hno]%Hmiss. destruct (H6 Hup id Hm) as [[Hin|Hin]%Hq|]; [right; by apply Hno|by left|by right].
Qed.

(** The runtime synchronizes the plugin: the audit covers every container there is. *)
Lemma inv_synchronized p0 st (pods := map Some (map_to_list (sandboxes (node_of st))).*2) (ctrs := map Some (map_to_list (containers (node_of st))).*2) :
  node_inv p0 st → node_inv p0 (deliver (OnSynchronize pods ctrs) st).
Proof.
  intros [H1 (s & Hs & Hd) H3 H4 H5 H6]. assert (Haud : audits_as_configured (plugin st)).
  { intros s' Hs'. rewrite Hs in Hs'. injection Hs' as <-. rewrite Hd. revert H1. unfold settings. by intros [= -> -> -> ->]. }
  assert (Hset : settings (Plugin.Synchronize (plugin st) pods ctrs) = settings (plugin st) ∧
    sentinel (Plugin.Synchronize (plugin st) pods ctrs) = Some (Audit s pods ctrs)).
  { unfold Plugin.Synchronize. destruct (Events.Synchronize _ _). cbn. by rewrite Hs. }
  destruct Hset as [Hset Hsen]. assert (Hq : ∀ id, id ∈ queued (deliver (OnSynchronize pods ctrs) st) ↔ id ∈ queued st ∨ missing p0 (node_of st) id).
  { intros id. unfold queued. cbn [deliver plugin with_conn with_plugin]. rewrite (Synchronize_queues _ s) by done. apply or_iff_compat_l.
    unfold pods, ctrs. rewrite podSandboxLookup_map by done. unfold missing, misses_injection.
    setoid_rewrite (buildAdjustment_settings (plugin st) p0); [|done]. split; intros (c & q & Hc & Hrest).
    - apply list_elem_of_fmap in Hc as (c' & [= <-] & Hc). apply list_elem_of_fmap in Hc as ([id' c''] & -> & Hc%elem_of_map_to_list). cbn [snd] in *.
      destruct Hrest as (<- & Hrest). destruct (H4 _ _ Hc) as [-> _]. by exists c'', q.
    - exists c, q. split; [|split; [by apply (H4 id c Hc)|done]]. apply list_elem_of_fmap_2, list_elem_of_fmap. exists (id, c). by rewrite elem_of_map_to_list. }
  split; cbn [deliver plugin with_conn with_plugin conn].
  - by rewrite Hset.
  - eexists. split; [exact Hsen|]. unfold Audit. by destruct (violators _ _ _).
  - exact H3.
  - exact H4.
  - intros id Hid. apply Hq in Hid as [Hid|Hm]; [exact (H5 id Hid)|]. destruct Hm as (c & q & Hc & Hp & Hm).
    split; [by apply (H4 id c)|]. intros c' Hc'. right. by exists c, q.
  - intros _ id Hm. left. apply Hq. by right.
Qed.

(** *** Every step *)

Lemma conn_registered (st : node) : registered st = false → conn st ≠ Up true.
Proof. unfold registered. by destruct (conn st) as [|[]| |]. Qed.

Lemma created_carries p0 (st : node) pod c adj : settings (plugin st) = settings p0 → buildAdjustment (plugin st) pod c = Ok adj →
  ¬ misses_injection p0 pod (match adj with Some a => apply_adjustment a c | None => c end).
Proof.
  intros Hs Hb. rewrite (buildAdjustment_settings _ p0) in Hb by done. destruct adj as [a|].
  - rewrite <- (with_state_self (apply_adjustment a c)). by apply applied_not_missing.
  - intros (_ & _ & a & call & Hb' & _). congruence.
Qed.

Lemma inv_created p0 st st' pod c : node_inv p0 st → Id c ≠ "" → Id c ∉ used (node_of st) → sandboxes (node_of st) !! PodSandboxId c = Some pod →
  node_step st (Create c) = Some st' → node_inv p0 st'.
Proof.
  intros Hi Hne Hfresh Hpod Hs. cbn [node_step] in Hs. apply String.eqb_neq in Hne as Hne'. rewrite Hne', bool_decide_eq_false_2, Hpod in Hs by done. cbn [orb] in Hs.
  destruct (registered st) eqn:Er.
  2:{ injection Hs as <-. eapply inv_create; [done..|]. intros Hup. by destruct (conn_registered st Er). }
  destruct (callback_step _ st) as [st1|] eqn:Ecb; [|done]. cbn [mbind option_bind] in Hs.
  pose proof (callback_same_node (OnCreateContainer pod c) st st1 I Ecb) as Hsame. pose proof (inv_same_node _ _ _ Hsame Hi) as Hi1.
  destruct Hsame as (Hn & Hset & _). rewrite <- Hn in *.
  assert (Hadj : ∀ adj, buildAdjustment (plugin st) pod c = Ok adj → let c' := match adj with Some a => apply_adjustment a c | None => c end in
    node_inv p0 (with_node (set_container c' (node_of st1)) st1)).
  { intros adj Hb. cbv zeta. assert (Hid : let c' := match adj with Some a => apply_adjustment a c | None => c end in Id c' = Id c ∧ PodSandboxId c' = PodSandboxId c).
    { destruct adj as [a|]; [|done]. destruct (apply_identity a c) as (? & ? & ?). done. }
    cbv zeta in Hid. destruct Hid as [Hid Hsid]. eapply inv_create; [done|by rewrite Hid|by rewrite Hid|by rewrite Hsid|]. intros _.
    apply (created_carries p0 st); [|done]. rewrite <- Hset. apply Hi1. }
  unfold CreateContainer in Hs. destruct (buildAdjustment (plugin st) pod c) as [adj|err]; [|by injection Hs as <-].
  specialize (Hadj adj eq_refl). destruct (Events.Upsert _ _). cbn [snd] in Hs. by destruct adj; injection Hs as <-.
Qed.

Lemma node_step_inv p0 st e st' : node_inv p0 st → node_step st e = Some st' → node_inv p0 st'.
Proof.
  intros Hi Hs. destruct e as [pod|c|id s|id| | |e].
  - cbn in Hs. destruct (sandboxes _ !! _) eqn:Ep; [done|]. destruct (String.eqb_spec (PodId pod) ""); [done|]. injection Hs as <-. by apply inv_run_pod.
  - pose proof Hs as Hs'. cbn in Hs'. destruct (String.eqb_spec (Id c) ""); [done|]. case_bool_decide; [done|]. cbn [orb] in Hs'.
    destruct (sandboxes _ !! _) as [pod|] eqn:Ep; [|done]. by eapply inv_created.
  - cbn in Hs. destruct (containers _ !! id) as [c|] eqn:Ec; [|done]. cbn in Hs. destruct (advances _ _) eqn:Ea; [|done]. injection Hs as <-. by apply inv_advance.
  - cbn in Hs. destruct (containers _ !! id) as [c|] eqn:Ec; [|done]. cbn in Hs. destruct (registered st); [|injection Hs as <-; by apply inv_delete].
    destruct (callback_step _ st) as [st1|] eqn:Ecb; [|done]. injection Hs as <-. pose proof (callback_same_node (OnRemoveContainer c) st st1 I Ecb) as Hsame.
    destruct Hsame as (Hn & ?). rewrite <- Hn. apply inv_delete. eapply inv_same_node; [|done]. by split.
  - cbn in Hs. destruct (conn st) as [|[]| |] eqn:Ec; try done. apply process_live in Hs. cbn [live_step] in Hs. rewrite Ec in Hs. injection Hs as <-. by apply inv_synchronized.
  - cbn in Hs. destruct (conn st) as [|[]| |] eqn:Ec; try done. eapply inv_same_node; [|done]. by eapply (callback_same_node OnShutdown).
  - cbn in Hs. assert (He : match e with Delivered _ => False | _ => True end) by by destruct e.
    assert (Hs' : step (λ n, n) flags st e = Some st') by by destruct e. apply process_live in Hs'.
    assert (Hre : (∃ i, e = Remediated i) ∨ match e with Delivered _ | Remediated _ => False | _ => True end) by (destruct e; eauto).
    destruct Hre as [[i ->]|Hno]; [by eapply inv_remediated|]. eapply inv_same_node; [by eapply process_same_node|done].
Qed.

(** What a step of fractiond's own does to the containers. *)
Lemma process_step_stops p0 st e st' : node_inv p0 st → node_step st (Process e) = Some st' →
  ∀ id, containers (node_of st') !! id = containers (node_of st) !! id ∨
    missing p0 (node_of st) id ∧ containers (node_of st') !! id = with_state CONTAINER_STOPPED <$> containers (node_of st) !! id.
Proof.
  intros Hi Hs id. assert (Hre : (∃ i, e = Remediated i) ∨ match e with Delivered _ | Remediated _ => False | _ => True end) by (destruct e; eauto; done).
  assert (Hs' : live_step (λ n, n) flags st e = Some st') by (apply process_live; by destruct e).
  destruct Hre as [[i ->]|Hno]; [|left; by destruct (process_same_node e st st' Hno Hs') as [-> _]].
  destruct Hi as [_ (s & Hsen & _) _ _ Hq _]. cbn [live_step] in Hs'. unfold remediated in Hs'. rewrite Hsen in Hs'. destruct (decide _) as [Hlt|]; [|done].
  destruct (lookup_lt_is_Some_2 _ _ Hlt) as [vs Hvs]. unfold finish_remediation in Hs'. rewrite Hvs in Hs'. injection Hs' as <-.
  destruct (remediate_node vs (node_of st)) as (_ & _ & Hct). cbn [node_of stopper]. change (stopper st) with (node_of st). rewrite Hct.
  destruct (decide _) as [[Hin _]|]; [|by left]. destruct (containers (node_of st) !! id) as [c|] eqn:Ec; [|by left].
  destruct (Hq id) as [_ Hm].
  { unfold queued, to_stop. rewrite Hsen. apply list_elem_of_fmap in Hin as (v & -> & Hv). apply list_elem_of_fmap_2.
    apply list_elem_of_In, in_concat. exists vs. by rewrite <- !list_elem_of_In; split; [eapply list_elem_of_lookup_2|]. }
  destruct (Hm c Ec) as [Hst|Hm']; [left|by right]. cbn. f_equal. rewrite <- Hst. apply with_state_self.
Qed.

Lemma node_run_app (st : node) es1 es2 : node_run st (es1 ++ es2) = node_run st es1 ≫= λ st, node_run st es2.
Proof.
  unfold node_run. rewrite fold_left_app. destruct (fold_left _ es1 _) as [st1|]; [done|]. cbn.
  induction es2; cbn; done.
Qed.

Lemma node_run_inv p0 st es : ∀ st', node_inv p0 st → node_run st es = Some st' → node_inv p0 st'.
Proof.
  induction es as [|e es IH] using rev_ind; intros st' Hi Hr; [by injection Hr as <-|]. rewrite node_run_app in Hr.
  destruct (node_run st es) as [st1|]; [|done]. cbn in Hr. eapply node_step_inv; [by apply IH|done].
Qed.

(** Steps of fractiond's own are the steps of Fractiond. *)
Lemma node_run_process (st : node) es : Forall (λ e, own e = true) es → node_run st (Process <$> es) = run (λ n, n) flags st es.
Proof.
  intros Hf. unfold node_run, run. generalize (Some st). induction Hf as [|e es He _ IH]; intros o; [done|]. cbn. rewrite IH. f_equal.
  destruct o; [|done]. by destruct e.
Qed.

(** What a runtime promises of its lists. *)
Definition node_wf (n : runtime) : Prop :=
  keyed_pods (sandboxes n) ∧
  ∀ id c, containers n !! id = Some c → Id c = id ∧ id ≠ "" ∧ id ∈ used n ∧ is_Some (sandboxes n !! PodSandboxId c).

Lemma inv_start w p0 n : NewPlugin (main_config flags) true w = Ok p0 → fractiond_cmd.retroactiveEnforcement flags = true → node_wf n →
  node_inv p0 (start flags p0 n).
Proof.
  intros Hnew Hre [Hp Hc]. pose proof (NewPlugin_idle _ _ _ _ Hnew) as Hidle. pose proof (NewPlugin_audits _ _ _ _ Hnew) as Haud.
  split; cbn; [done| |done|done| |done].
  - unfold NewPlugin in Hnew. cbn [cRetroactiveEnforcement main_config] in Hnew. rewrite Hre in Hnew. cbn in Hnew.
    destruct (sentinel p0) as [s|] eqn:Es; [|by injection Hnew as <-]. exists s. split; [done|]. by apply Haud.
  - unfold queued. cbn. rewrite Hidle. by intros id ?%elem_of_nil.
Qed.
End node.

(** ** Property *)

(** C1: retroactive enforcement holds on the node.  A node with any containers starts fractiond
    with retroactive enforcement; pods and containers come and go, the connection is lost and made
    again, the worker and the remediations run, in any order.  In every state this leads to: while the
    plugin is registered, a created or running container that lacks what the create hook injects has
    its stop pending, unless the runtime refuses the stop; a step of fractiond's own never
    changes a container that carries its injection, and changes one that lacks it only to stopped; and
    as many such steps as there are remediations in flight lead, from here, to a node on which only
    containers that the runtime refuses to stop run without the injection. *)
Theorem enforcement_holds {St} `{HW : StoreWriter St, HQ : QuantityLib, HN : NRIRuntime} refuses flags (w : St) p0 n0 es st
  (Hnew : NewPlugin (main_config flags) true w = Ok p0) (Hre : fractiond_cmd.retroactiveEnforcement flags = true) (Hwf : node_wf n0)
  (Hrun : node_run refuses flags (start flags p0 n0) es = Some st) :
  (registered st = true → ∀ id, missing p0 (node_of st) id → id ∈ queued st ∨ refuses id = true) ∧
  (∀ e st', node_step refuses flags st (Process e) = Some st' → ∀ id,
     containers (node_of st') !! id = containers (node_of st) !! id ∨
     missing p0 (node_of st) id ∧ containers (node_of st') !! id = with_state CONTAINER_STOPPED <$> containers (node_of st) !! id) ∧
  ((∀ code, main st ≠ Exited code) → ∃ es' st', Forall (λ e, own e = true) es' ∧ (List.length es' ≤ in_flight st)%nat ∧
     node_run refuses flags st (Process <$> es') = Some st' ∧ registered st' = registered st ∧
     (registered st = true → ∀ id, missing p0 (node_of st') id → refuses id = true)).
Proof.
  pose proof (node_run_inv refuses flags p0 _ _ _ (inv_start refuses flags w p0 n0 Hnew Hre Hwf) Hrun) as Hi.
  assert (Hup : ∀ st : fractiond (St:=St) (R:=runtime), registered st = true → conn st = Up true).
  { intros st1. unfold registered. by destruct (conn st1) as [|[]| |]. }
  split_and!.
  - intros Hr id Hm. exact (ni_missing refuses p0 st Hi (Hup st Hr) id Hm).
  - intros e st' Hs. by apply (process_step_stops refuses flags p0 st e).
  - intros Hm. destruct (@run_remediations St runtime HW HQ (RuntimeStopper refuses) (λ n, n) flags (in_flight st) st Hm) as (es' & st' & Ho & Hl & Hr & Hc & _ & _ & Hd).
    { unfold in_flight. by destruct (sentinel (plugin st)). }
    exists es', st'. rewrite node_run_process by done. assert (Hreg : registered st' = registered st) by (unfold registered; by rewrite Hc).
    split_and!; [done|done|done|done|]. intros Hu id Hmiss. rewrite <- Hreg in Hu.
    assert (Hi' : node_inv refuses p0 st').
    { eapply node_run_inv; [exact Hi|]. by rewrite node_run_process. }
    destruct (ni_missing refuses p0 st' Hi' (Hup _ Hu) id Hmiss) as [Hq|]; [|done]. exfalso. revert Hq. unfold queued, to_stop.
    destruct (sentinel (plugin st')) as [s|]; [|by intros ?%elem_of_nil]. unfold wait_done in Hd. apply bool_decide_eq_true in Hd. rewrite Hd.
    by intros ?%elem_of_nil.
Qed.

(** A node on which a container runs without the injection; fractiond starts, synchronizes, and
    injects into the next container. *)
Definition example_node : runtime := mkRuntime {["sb" := example_pod]} {["c1" := example_container ["PATH=/bin"]]} {["c1"]}.
Definition example_created : Container := mkContainer "c2" "sb" "t" CONTAINER_CREATED [] [] (Some (mkLinuxContainer [mkLinuxDevice 195 3] "/x")).
Definition example_events : list node_event :=
  [Process (StubNew None); Synchronized; Create example_created; Advance "c2" CONTAINER_RUNNING].

Lemma enforcement_holds_witness :
  let nrun := @node_run _ _ DecimalQuantities ToyRuntime (λ _, false) example_flags in
  ∃ st es' st', nrun (start example_flags example_plugin example_node) example_events = Some st ∧ queued st = ["c1"] ∧
    (List.length es' ≤ 1)%nat ∧ nrun st (Process <$> es') = Some st' ∧
    ∀ id, missing (HQ:=DecimalQuantities) example_plugin (node_of st') id → False.
Proof.
  cbv zeta. destruct (@node_run _ _ DecimalQuantities ToyRuntime (λ _, false) example_flags (start example_flags example_plugin example_node) example_events)
    as [st|] eqn:E; [|vm_compute in E; discriminate E].
  assert (Hst : queued st = ["c1"] ∧ registered st = true ∧ in_flight st = 1%nat ∧ main st = Looping).
  { vm_compute in E. injection E as <-. repeat split; reflexivity. }
  destruct Hst as (Hq & Hreg & Hin & Hm).
  destruct (@enforcement_holds _ _ DecimalQuantities ToyRuntime (λ _, false) example_flags ∅ example_plugin example_node example_events st)
    as (_ & _ & (es' & st' & _ & Hl & Hr & _ & Hdone)).
  - reflexivity.
  - reflexivity.
  - split.
    + intros id pod Hp. cbn [sandboxes example_node] in Hp. apply lookup_singleton_Some in Hp as [<- <-]. split; [reflexivity|discriminate].
    + intros id c Hc. cbn [containers example_node] in Hc. apply lookup_singleton_Some in Hc as [<- <-]. split_and!; [reflexivity|discriminate|cbn [used example_node]; by apply elem_of_singleton|]. eexists. reflexivity.
  - exact E.
  - intros code. by rewrite Hm.
  - exists st, es', st'. split_and!; [reflexivity|exact Hq|by rewrite <- Hin|exact Hr|]. intros id Hmiss. by specialize (Hdone Hreg id Hmiss).
Defined.
